(* ===== verification/_CoqProject ===== *)
-Q . S2P
Prelude.v
Unicode.v
GoStrings.v
GoURL.v
Regex.v
Entities.v
HtmlText.v
JSON.v
Effects.v
Types.v
License.v
Metadata.v
HtmlExtract.v
Config.v
Assessment.v
Helpers.v
GoFloat.v
ClassTypes.v
Download.v
Validate.v
Reverse.v
Dedup.v
Classify.v
Pipeline.v
Concurrency.v
Providers.v
PageProviders.v
ContentProvider.v
Query.v
Search.v
