(* ===== verification/Prelude.v ===== *)
(** * go-imagefy: a verification library

    go-imagefy finds editorial images: it asks search providers for candidates,
    drops stock photographs, logos and duplicates, validates what is left over the
    network and classifies it with a vision model.  This library models the Go
    sources under [src/] (all 27 files of the package) and proves what makes them
    correct.

    ** The program and where it is modelled

    A search ([SearchImages], [FindImages]; search.go, find.go) gathers the
    candidates of all providers in parallel, sorts them by license and hands them
    to [validateCandidates] (validate_pipeline.go), which runs [validateOne] on
    each in a pool of goroutines limited by a semaphore.  [validateOne] probes the
    URL (validate.go), downloads the image (download.go), asks the perceptual
    dedup filter (dedup.go), assesses the license (assessment.go, on license.go
    and metadata.go), asks the reverse-search service (reverse.go) and the vision
    classifier through a cache (classify.go, classify_types.go), and appends the
    candidate to a shared slice under a mutex.

    Go's language and standard library, as far as the sources use them:
    - [Unicode], [GoStrings]: UTF-8 and case mapping; the [strings] package.  A Go
      string is a byte sequence, [Stdlib]'s [string].
    - [GoURL]: [url.Parse], [Hostname], [QueryEscape].
    - [Regex]: a leftmost-first matcher for the [regexp] patterns of the sources,
      written as syntax trees; related to a plain matching relation.
    - [Entities], [HtmlText]: [html.UnescapeString].
    - [JSON]: the parser and decoder behind [json.Unmarshal] as a type class, the
      string encoder behind [json.Marshal].
    - [GoFloat]: [strconv.ParseFloat] and binary64 comparison on [SpecFloat].
    - [Effects]: programs with effects.  Every call that leaves the package (HTTP,
      cache, classifier, callbacks) and each of the two mutex-protected sections is
      an event ([Config.Ev]) that the environment answers, with a value or a panic;
      [recover] is the deferred recovery; [wp] is a logic over all environments
      that speaks about the history of events and answers.

    The package, one file per component, definitions under the names of the code:
    - [Types], [Config]: data types, [Config] with [defaults], options, events.
    - [License]: license.go, patterns.go, prefilter.go.
    - [Metadata]: metadata.go, metadata_tags.go, [IsCCLicenseURL] of cclicense.go.
    - [HtmlExtract]: [ExtractOGImageURL] of helpers.go, [ExtractCCLicense].
    - [Assessment]: assessment.go.         - [Helpers]: the encoders of helpers.go.
    - [ClassTypes]: classify_types.go.     - [Classify]: classify.go.
    - [Download], [Validate], [Reverse]: download.go, validate.go, reverse.go.
    - [Dedup]: dedup.go, with the hash and distance of the vendored goimagehash.
    - [Pipeline]: [validateOne] and its helpers.
    - [Concurrency]: [validateCandidates] as a step relation on the state of the
      calling goroutine, the workers, semaphore, wait group, the shared slice and
      the dedup hashes; [step_main] and [step_gor] are its executable form.
    - [Providers]: provider.go, openverse.go, pexels.go, provider_native.go,
      orchestrator.go.  - [PageProviders]: provider_og.go, provider_ddg.go.
    - [ContentProvider]: provider_content.go.  - [Query]: query.go.
    - [Search]: search.go, find.go; [gatherCandidates] is a step relation, a call
      is the set of its outcomes (a result, a panic, a crash of the process) over
      all schedules and answers.

    The interface between providers and pipeline is the class
    [Providers.LawfulProvider] (no blocked or logo candidate, none beside an
    error): [Search] relies on it and every provider has an instance.

    ** What the theorems show

    - The pipeline: [validateOne_spec] (on which evidence a candidate is appended,
      for which reasons it is dropped, that panics are recovered);
      [validateCandidates_correct] lifts it to every interleaving: in a run that
      returned, each goroutine's own history holds the evidence for its append or
      the reason for dropping its candidate, and a result that is not full holds
      all that was appended ([accounted]); with
      [pool_invariant] (semaphore, wait group, limits), [kept_images_are_far] (no
      near duplicates), [validateCandidates_terminates] (no infinite run, no
      deadlock) and [panics_are_contained].
    - Entry points: [SearchImages_correct], [FindImages_correct] (what is returned,
      and that an accounted run of the pipeline returned it), [gatherCandidates_correct], [SearchImages_returns],
      [sortByLicense_parts].
    - Licenses: [stock_host_is_blocked], [extra_domains_monotone], the decision
      table [AssessLicense_decision] and its refinement of [CheckLicenseWith];
      whole-word search and stock detection in [Metadata];
      [ExtractCCLicense_spec], sound, and complete for plain license links.
    - Network operations on every branch, errors included: [Download_spec],
      [ValidateImageURL_spec], [ReverseCheck_spec], [ddg_protocol],
      [fallback_first_success], [json_results_complete], [content_search_spec].
    - Classification: it fails open ([IsRealPhoto_rejects_exactly_on_verdict]),
      is final with a keeping cache, sees exactly the download; the parser of the
      answer is total and recognises every spelling.
    - Round trips: [EncodeDataURL_roundtrip], [reversePayload_roundtrip],
      [query_reaches_backend].  Bounds: [Distance_metric], [parseIntFast_spec].
    - Theorems about behaviour a reader of the comments would not expect, such as
      [ExtractImageMetadata_always_nil], [unlabelled_candidate_is_safe],
      [rejected_image_hides_safe_copy], [provider_panic_crashes],
      [SearchImages_completion_order], [failed_classification_is_cached],
      [double_unescape_leaves_domain], [unparsed_url_is_ignored],
      [www_link_is_overlooked], [mime_comma_breaks_data_url].

    ** Integers, fuel and bounds

    Sizes and results are [Z]; where the code can overflow ([parseIntFast], the
    numeric references of [html], hashes) the wrap-around at 64 or 32 bits is
    written out.  Loops that are not structural carry fuel that is proved enough:
    [containsWord] the length of the text plus one ([containsWord_loop_spec]),
    [UnescapeString] the length ([unescape_loop_fuel]), the JSON parser twice the
    length plus two ([parse_fuel]), [FindAll] the number of runes plus one
    ([find_all_fuel]).  Programs are inductive trees and need none.

    ** Choices of the model

    [ImageLicense] is the three named constants; Go's type is an [int], so values
    that no constant names, which the package never makes, are not represented.
    Each section under a mutex (the append, the dedup lookup) is one step: the
    code unlocks on every path out of them and calls nothing that can block or
    panic inside.  The codecs and the resize step are total functions: a decoder
    that fails is a [None], one that panics is not represented.

    ** Parameters

    Code that is not under the package: the class [Config.ImageLib] stands for the
    image codecs, for the resize-and-grey step of goimagehash and for the stream
    decoders of imagemeta (the option checks in front of them are translated from
    the vendored source); the vendored multi-engine search is an argument of
    [native]; the environment's answers are the relation [ans].  Theorems that
    assume something of the environment ([responsive], [calm], [answering],
    [lawful_cache]) have a witness with a concrete environment.

    ** Not modelled

    Logging (no effect on results); the HTTP transport, the closing of bodies and
    the firing of timeouts (a request is one event; its deadline is part of the
    request); the internals of vendored packages; the texts of the standard
    library's errors, where no code looks at them; the reuse of a slice's backing
    array when [json.Unmarshal] decodes a duplicate key; [contentImgRe], which the
    code never uses.

    ** Possible extensions

    The behaviour of a cancelled context along a whole search, [PreClassify]
    against the assessment, and the og:image provider against [content]. *)

From Stdlib Require Export ZArith Lia Ascii.
From stdpp Require Export base tactics strings gmap numbers list.

(** [stdpp] freezes [String.append] under [simpl]; the proofs by induction on a
    string want it to compute on a constructor. *)
#[global] Arguments String.append : simpl nomatch.

(** ** Notations of the development *)

Declare Scope go_scope.
Delimit Scope go_scope with go.
Open Scope go_scope.

(** Go's [==] on strings. *)
Notation "s =?s t" := (String.eqb s t) (at level 70) : go_scope.
Notation "s <>?s t" := (negb (String.eqb s t)) (at level 70) : go_scope.

(** The ASCII codes the source writes as quoted characters and which a string
    literal of this development cannot hold. *)
Definition chr (n : nat) : ascii := ascii_of_nat n.
Definition str1 (a : ascii) : string := String a EmptyString.
Definition dquote : string := str1 (chr 34).
Definition newline : string := str1 (chr 10).

(** ** Tactics *)

(** Case analysis on every boolean test of the goal or of a hypothesis, the
    equation kept. *)
Ltac case_bool :=
  match goal with
  | |- context [if ?b then _ else _] => let E := fresh "Eb" in destruct b eqn:E
  | H : context [if ?b then _ else _] |- _ => let E := fresh "Eb" in destruct b eqn:E
  end.

(** Turns boolean connectives in hypotheses into propositions. *)
Ltac bool_hyps :=
  repeat match goal with
  | H : (_ && _)%bool = true |- _ => apply andb_prop in H; destruct H
  | H : (_ || _)%bool = false |- _ => apply orb_false_elim in H; destruct H
  | H : negb _ = true |- _ => apply negb_true_iff in H
  | H : negb _ = false |- _ => apply negb_false_iff in H
  | H : String.eqb _ _ = true |- _ => apply String.eqb_eq in H
  | H : String.eqb _ _ = false |- _ => apply String.eqb_neq in H
  | H : Ascii.eqb _ _ = true |- _ => apply Ascii.eqb_eq in H
  | H : Ascii.eqb _ _ = false |- _ => apply Ascii.eqb_neq in H
  | H : (_ <? _)%Z = true |- _ => apply Z.ltb_lt in H
  | H : (_ <? _)%Z = false |- _ => apply Z.ltb_ge in H
  | H : (_ <=? _)%Z = true |- _ => apply Z.leb_le in H
  | H : (_ <=? _)%Z = false |- _ => apply Z.leb_gt in H
  | H : (_ =? _)%Z = true |- _ => apply Z.eqb_eq in H
  | H : (_ =? _)%Z = false |- _ => apply Z.eqb_neq in H
  end.

(** ** Hint databases *)

Create HintDb go discriminated.
Create HintDb gostr discriminated.
Create Rewrite HintDb gostrrw.

(** ** Booleans and lists *)

Lemma existsb_false {A} (f : A → bool) (l : list A) :
  existsb f l = false ↔ ∀ x, x ∈ l → f x = false.
Proof.
  induction l as [|a l IH]; simpl.
  { split; [|done]. intros _ x Hx. by apply not_elem_of_nil in Hx. }
  rewrite orb_false_iff, IH. setoid_rewrite elem_of_cons. naive_solver.
Qed.

Lemma existsb_true {A} (f : A → bool) (l : list A) :
  existsb f l = true ↔ ∃ x, x ∈ l ∧ f x = true.
Proof.
  rewrite List.existsb_exists. by setoid_rewrite list_elem_of_In.
Qed.

Lemma existsb_app_mono {A} (f : A → bool) (l k : list A) :
  existsb f l = true → existsb f (l ++ k) = true.
Proof. rewrite !existsb_true. setoid_rewrite elem_of_app. naive_solver. Qed.

(** Replacing one element of a list, up to the order of the others. *)
Lemma insert_split {A} (l : list A) i x y :
  l !! i = Some x → ∃ k, l ≡ₚ x :: k ∧ <[i := y]> l ≡ₚ y :: k.
Proof.
  intros Hi. exists (take i l ++ drop (S i) l). split.
  - rewrite <-(take_drop_middle l i x Hi) at 1. by rewrite Permutation_middle.
  - rewrite insert_take_drop by (by eapply lookup_lt_Some). by rewrite Permutation_middle.
Qed.

(** Counting after a replacement. *)
Lemma length_filter_insert {A} (P : A → Prop) `{∀ x, Decision (P x)} (l : list A) i x y :
  l !! i = Some x →
  length (filter P (<[i := y]> l)) + (if decide (P x) then 1 else 0) =
  length (filter P l) + (if decide (P y) then 1 else 0).
Proof.
  intros Hi. destruct (insert_split l i x y Hi) as (k & H1 & H2).
  rewrite H2, H1, !filter_cons. repeat case_decide; simpl; lia.
Qed.

Lemma length_filter_pos {A} (P : A → Prop) `{∀ x, Decision (P x)} (l : list A) i x :
  l !! i = Some x → P x → 0 < length (filter P l).
Proof.
  intros Hi HP. assert (x ∈ filter P l) as Hin.
  { apply list_elem_of_filter. split; [done|]. by eapply list_elem_of_lookup_2. }
  destruct (filter P l); [by apply not_elem_of_nil in Hin|]. simpl. lia.
Qed.

(** Two positions of a list, in front. *)
Lemma lookup_two {A} (l : list A) i j x y :
  l !! i = Some x → l !! j = Some y → i ≠ j → ∃ k, l ≡ₚ x :: y :: k.
Proof.
  intros Hi Hj Hij. assert (y ∈ delete i l) as Hy.
  { destruct (decide (j < i)).
    - apply (list_elem_of_lookup_2 _ j). by rewrite list_lookup_delete_lt.
    - apply (list_elem_of_lookup_2 _ (j - 1)). rewrite list_lookup_delete_ge by lia.
      replace (S (j - 1)) with j by lia. done. }
  apply elem_of_Permutation in Hy as [k Hk]. exists k.
  rewrite <-Hk. by apply delete_Permutation.
Qed.

(** One element of a list moves; a well-founded move makes a well-founded list
    move. *)
Definition list_moves {A} (R : A → A → Prop) (l' l : list A) : Prop :=
  ∃ i x x', l !! i = Some x ∧ l' = <[i := x']> l ∧ R x' x.

Lemma list_moves_cons {A} (R : A → A → Prop) x l :
  Acc R x → Acc (list_moves R) l → Acc (list_moves R) (x :: l).
Proof.
  intros Hx. revert l. induction Hx as [x _ IHx]. intros l Hl. induction Hl as [l Hl IHl].
  constructor. intros l' ([|i] & y & y' & Hi & -> & Hm); simpl in *; simplify_eq.
  - apply IHx; [done|by constructor].
  - apply IHl. by exists i, y, y'.
Qed.

Lemma list_moves_wf {A} (R : A → A → Prop) l : (∀ x, Acc R x) → Acc (list_moves R) l.
Proof.
  intros HR. induction l as [|x l IH]; [|by apply list_moves_cons].
  constructor. by intros l' (i & x & x' & Hi & _).
Qed.

Lemma Acc_preimage {A B} (f : A → B) (R : B → B → Prop) x :
  Acc R (f x) → Acc (λ x' x, R (f x') (f x)) x.
Proof.
  intros H. remember (f x) as y eqn:E. revert x E. induction H as [y _ IH]. intros x ->.
  constructor. intros x' Hx. by eapply IH.
Qed.

(** ** Strings as byte sequences *)

(** A Go [string] or [[]byte] is a [string]: a sequence of bytes. *)

(** The value of a byte, 0 to 255. *)
Definition bval (a : ascii) : Z := Z.of_N (N_of_ascii a).
(** The byte of a value, taken modulo 256. *)
Definition byte_of (z : Z) : ascii := ascii_of_N (Z.to_N (z mod 256)).

(** [s[n:]], and [s[:n]], for [n] within the string; beyond the end they give
    the empty string and the whole string. *)
Fixpoint string_drop (n : nat) (s : string) : string :=
  match n, s with
  | O, _ => s
  | S n, String _ s => string_drop n s
  | S _, EmptyString => EmptyString
  end.

Fixpoint string_take (n : nat) (s : string) : string :=
  match n, s with
  | O, _ => EmptyString
  | S n, String a s => String a (string_take n s)
  | S _, EmptyString => EmptyString
  end.

(** [s[n]], [None] out of range. *)
Fixpoint string_get (n : nat) (s : string) : option ascii :=
  match n, s with
  | _, EmptyString => None
  | O, String a _ => Some a
  | S n, String _ s => string_get n s
  end.

Abbreviation slen := String.length.

(** [strings.Builder]-style concatenation. *)
Fixpoint concat_strings (l : list string) : string :=
  match l with
  | [] => EmptyString
  | s :: l => s +:+ concat_strings l
  end.

(** Every byte of the string satisfies the predicate. *)
Fixpoint all_bytes (p : ascii → bool) (s : string) : bool :=
  match s with
  | EmptyString => true
  | String a s => p a && all_bytes p s
  end.

Lemma sapp_assoc (a b c : string) : (a +:+ b) +:+ c = a +:+ (b +:+ c).
Proof. induction a as [|x a IH]; simpl; [done|]. by rewrite IH. Qed.

Lemma sapp_nil_r (a : string) : a +:+ EmptyString = a.
Proof. induction a as [|x a IH]; simpl; [done|]. by rewrite IH. Qed.

Lemma slen_app (a b : string) : slen (a +:+ b) = slen a + slen b.
Proof. induction a as [|x a IH]; simpl; [done|]. by rewrite IH. Qed.

Lemma sapp_inj_l (a b c : string) : a +:+ b = a +:+ c → b = c.
Proof. induction a as [|x a IH]; simpl; [done|]. intros [=]. auto. Qed.

Lemma string_take_drop n s : string_take n s +:+ string_drop n s = s.
Proof.
  revert s; induction n as [|n IH]; intros [|a s]; simpl; try done.
  by rewrite IH.
Qed.

Lemma slen_take n s : slen (string_take n s) = n `min` slen s.
Proof.
  revert s; induction n as [|n IH]; intros [|a s]; simpl; try done.
  by rewrite IH.
Qed.

Lemma slen_drop n s : slen (string_drop n s) = slen s - n.
Proof.
  revert s; induction n as [|n IH]; intros [|a s]; simpl; try done.
Qed.

Lemma string_drop_app a b : string_drop (slen a) (a +:+ b) = b.
Proof. by induction a. Qed.

Lemma string_take_app a b : string_take (slen a) (a +:+ b) = a.
Proof. induction a as [|x a IH]; simpl; [done|]. by rewrite IH. Qed.

Lemma string_drop_drop n m s : string_drop n (string_drop m s) = string_drop (m + n) s.
Proof.
  revert s; induction m as [|m IH]; intros [|a s]; simpl; try done.
  by destruct n.
Qed.

Lemma string_take_all n s : slen s ≤ n → string_take n s = s.
Proof.
  revert s; induction n as [|n IH]; intros [|a s] H; simpl in *; try done; [lia|].
  rewrite IH; [done|lia].
Qed.

Lemma string_get_drop n m s : string_get n (string_drop m s) = string_get (m + n) s.
Proof.
  revert s; induction m as [|m IH]; intros [|a s]; simpl; try done.
  by destruct n.
Qed.

Lemma string_get_lt n s : n < slen s → is_Some (string_get n s).
Proof.
  revert s; induction n as [|n IH]; intros [|a s] H; simpl in *; try lia; eauto.
  apply IH. lia.
Qed.

Lemma all_bytes_app p a b : all_bytes p (a +:+ b) = all_bytes p a && all_bytes p b.
Proof. induction a as [|x a IH]; simpl; [done|]. by rewrite IH, andb_assoc. Qed.

Lemma all_bytes_take p n s : all_bytes p s = true → all_bytes p (string_take n s) = true.
Proof.
  rewrite <-(string_take_drop n s) at 1. rewrite all_bytes_app.
  intros H. by apply andb_prop in H as [? _].
Qed.

Lemma all_bytes_impl (p q : ascii → bool) s :
  (∀ a, p a = true → q a = true) → all_bytes p s = true → all_bytes q s = true.
Proof.
  intros H. induction s as [|a s IH]; simpl; [done|].
  intros ?. bool_hyps. apply andb_true_intro. eauto.
Qed.

Lemma concat_strings_app l k : concat_strings (l ++ k) = concat_strings l +:+ concat_strings k.
Proof. induction l as [|s l IH]; simpl; [done|]. by rewrite IH, sapp_assoc. Qed.

Lemma bval_range a : (0 ≤ bval a < 256)%Z.
Proof.
  unfold bval. pose proof (N_ascii_bounded a). lia.
Qed.

Lemma bval_inj a b : bval a = bval b → a = b.
Proof.
  unfold bval. intros H.
  rewrite <-(ascii_N_embedding a), <-(ascii_N_embedding b). f_equal. lia.
Qed.

Lemma bval_byte_of z : bval (byte_of z) = (z mod 256)%Z.
Proof.
  unfold bval, byte_of. pose proof (Z.mod_pos_bound z 256).
  rewrite N_ascii_embedding; lia.
Qed.

Lemma byte_of_bval a : byte_of (bval a) = a.
Proof.
  apply bval_inj. rewrite bval_byte_of. pose proof (bval_range a).
  apply Z.mod_small. lia.
Qed.

#[export] Hint Rewrite slen_app sapp_nil_r slen_take slen_drop : gostrrw.
#[export] Hint Resolve bval_range : go.

(** ** Machine integers *)

(** Wrap-around of a value to a signed [w]-bit integer. *)
Definition wrap_signed (w : Z) (z : Z) : Z :=
  let m := (z mod 2 ^ w)%Z in
  if (m <? 2 ^ (w - 1))%Z then m else (m - 2 ^ w)%Z.

(** Go's [int] and [int64] on a 64-bit platform, and [int32] (runes). *)
Definition int64 (z : Z) : Z := wrap_signed 64 z.
Definition int32 (z : Z) : Z := wrap_signed 32 z.

Lemma wrap_signed_id w z :
  (0 < w → - 2 ^ (w - 1) ≤ z < 2 ^ (w - 1) → wrap_signed w z = z)%Z.
Proof.
  intros Hw [Hl Hu]. unfold wrap_signed.
  assert (2 ^ w = 2 * 2 ^ (w - 1))%Z as Hp.
  { rewrite <-Z.pow_succ_r by lia. f_equal. lia. }
  destruct (Z.leb_spec 0 z).
  - rewrite Z.mod_small by lia. destruct (Z.ltb_spec z (2 ^ (w - 1))); lia.
  - assert (z mod 2 ^ w = z + 2 ^ w)%Z as ->.
    { rewrite <-(Z_mod_plus_full z 1 (2 ^ w)), Z.mul_1_l. apply Z.mod_small. lia. }
    destruct (Z.ltb_spec (z + 2 ^ w) (2 ^ (w - 1))); lia.
Qed.

Lemma wrap_signed_range w z :
  (0 < w → - 2 ^ (w - 1) ≤ wrap_signed w z < 2 ^ (w - 1))%Z.
Proof.
  intros Hw. unfold wrap_signed.
  assert (2 ^ w = 2 * 2 ^ (w - 1))%Z as Hp.
  { rewrite <-Z.pow_succ_r by lia. f_equal. lia. }
  pose proof (Z.mod_pos_bound z (2 ^ w)).
  destruct (Z.ltb_spec (z mod 2 ^ w) (2 ^ (w - 1))); lia.
Qed.

(** ** Bit operations as arithmetic *)

(** The wrapped value depends only on the residue, and keeps it. *)
Lemma wrap_signed_mod w z : (wrap_signed w z mod 2 ^ w = z mod 2 ^ w)%Z.
Proof.
  unfold wrap_signed. destruct (Z.ltb_spec (z mod 2 ^ w) (2 ^ (w - 1))); [by apply Zmod_mod|].
  rewrite <-(Z.mul_1_l (2 ^ w)) at 2. rewrite Zminus_mod, Z_mod_mult, Z.sub_0_r, !Zmod_mod. done.
Qed.

Lemma wrap_signed_cong w x y : (x mod 2 ^ w = y mod 2 ^ w → wrap_signed w x = wrap_signed w y)%Z.
Proof. intros H. unfold wrap_signed. by rewrite H. Qed.

Lemma lor_shiftl_add a b n :
  (0 ≤ n → 0 ≤ b < 2 ^ n → Z.lor (Z.shiftl a n) b = a * 2 ^ n + b)%Z.
Proof.
  intros Hn Hb.
  assert (Z.land (Z.shiftl a n) b = 0)%Z as Hd.
  { apply Z.bits_inj'. intros m Hm. rewrite Z.land_spec, Z.bits_0.
    destruct (Z.ltb_spec m n).
    - by rewrite Z.shiftl_spec_low.
    - rewrite <-(Z.mod_small b (2 ^ n)) by lia.
      by rewrite Z.mod_pow2_bits_high, andb_false_r by lia. }
  rewrite <-Z.lxor_lor, <-Z.add_nocarry_lxor, Z.shiftl_mul_pow2 by done. done.
Qed.

Lemma land_ones_mod z n k : (0 ≤ n → k = Z.ones n → Z.land z k = z mod 2 ^ n)%Z.
Proof. intros Hn ->. by apply Z.land_ones. Qed.
