(* ===== verification/Unicode.v ===== *)
(** * Runes, UTF-8 and Unicode case mapping

    Go strings are byte sequences; [range], [strings.ToLower], [strings.Fields]
    and [regexp] read them as UTF-8.  This file models [unicode/utf8] decoding
    and encoding (an invalid byte decodes to U+FFFD with width 1) and the simple
    case mappings and the White_Space property of [unicode]. *)

From S2P Require Import Prelude.

Local Open Scope Z_scope.

(** ** UTF-8 *)

Definition RuneError : Z := 0xFFFD.

(** One decoded rune with the bytes it was decoded from. *)
Record cell := Cell { rune : Z; raw : string }.

#[export] Instance cell_eq_dec : EqDecision cell.
Proof. solve_decision. Defined.

(** What a leading byte announces: the sequence's length and the range the
    second byte must lie in ([utf8.first] and [utf8.acceptRanges]). *)
Inductive lead := LAscii | LBad | L2 | L3 (lo hi : Z) | L4 (lo hi : Z).

Definition lead_of (b : Z) : lead :=
  if b <? 0x80 then LAscii
  else if b <? 0xC2 then LBad
  else if b <? 0xE0 then L2
  else if b =? 0xE0 then L3 0xA0 0xBF
  else if b =? 0xED then L3 0x80 0x9F
  else if b <? 0xF0 then L3 0x80 0xBF
  else if b =? 0xF0 then L4 0x90 0xBF
  else if b <? 0xF4 then L4 0x80 0xBF
  else if b =? 0xF4 then L4 0x80 0x8F
  else LBad.

Definition between (lo hi : Z) (a : ascii) : bool := (lo <=? bval a) && (bval a <=? hi).
Definition is_cont : ascii → bool := between 0x80 0xBF.
Definition low6 (a : ascii) : Z := Z.land (bval a) 0x3F.

Definition rune2 (a b : ascii) : Z := Z.lor (Z.shiftl (Z.land (bval a) 0x1F) 6) (low6 b).
Definition rune3 (a b c : ascii) : Z :=
  Z.lor (Z.shiftl (Z.land (bval a) 0x0F) 12) (Z.lor (Z.shiftl (low6 b) 6) (low6 c)).
Definition rune4 (a b c d : ascii) : Z :=
  Z.lor (Z.shiftl (Z.land (bval a) 0x07) 18)
    (Z.lor (Z.shiftl (low6 b) 12) (Z.lor (Z.shiftl (low6 c) 6) (low6 d))).

(** The runes of a string, in the order [for _, r := range s] visits them. *)
Fixpoint decode (s : string) : list cell :=
  match s with
  | EmptyString => []
  | String a s1 =>
      match lead_of (bval a) with
      | LAscii => Cell (bval a) (str1 a) :: decode s1
      | LBad => Cell RuneError (str1 a) :: decode s1
      | L2 =>
          match s1 with
          | String b s2 =>
              if is_cont b then Cell (rune2 a b) (String a (str1 b)) :: decode s2
              else Cell RuneError (str1 a) :: decode s1
          | _ => Cell RuneError (str1 a) :: decode s1
          end
      | L3 lo hi =>
          match s1 with
          | String b (String c s3) =>
              if between lo hi b && is_cont c
              then Cell (rune3 a b c) (String a (String b (str1 c))) :: decode s3 else Cell RuneError (str1 a) :: decode s1
          | _ => Cell RuneError (str1 a) :: decode s1
          end
      | L4 lo hi =>
          match s1 with
          | String b (String c (String d s4)) =>
              if between lo hi b && (is_cont c && is_cont d)
              then Cell (rune4 a b c d) (String a (String b (String c (str1 d)))) :: decode s4
              else Cell RuneError (str1 a) :: decode s1
          | _ => Cell RuneError (str1 a) :: decode s1
          end
      end
  end.

(** [utf8.AppendRune]: the UTF-8 encoding of a rune, that of U+FFFD for a value
    that is not a Unicode scalar. *)
Definition valid_rune (r : Z) : bool :=
  ((0 <=? r) && (r <? 0xD800)) || ((0xDFFF <? r) && (r <=? 0x10FFFF)).

Definition cont_byte (z : Z) : ascii := byte_of (Z.lor 0x80 (Z.land z 0x3F)).

Definition encode_valid (r : Z) : string :=
  if r <? 0x80 then str1 (byte_of r)
  else if r <? 0x800 then
    String (byte_of (Z.lor 0xC0 (Z.shiftr r 6))) (str1 (cont_byte r))
  else if r <? 0x10000 then
    String (byte_of (Z.lor 0xE0 (Z.shiftr r 12)))
      (String (cont_byte (Z.shiftr r 6)) (str1 (cont_byte r)))
  else
    String (byte_of (Z.lor 0xF0 (Z.shiftr r 18)))
      (String (cont_byte (Z.shiftr r 12))
         (String (cont_byte (Z.shiftr r 6)) (str1 (cont_byte r)))).

Definition EncodeRune (r : Z) : string :=
  encode_valid (if valid_rune r then r else RuneError).

(** The bytes of a run of cells. *)
Definition of_cells (l : list cell) : string := concat_strings (raw <$> l).

(** [utf8.RuneCountInString] *)
Definition RuneCountInString (s : string) : nat := length (decode s).

(** ** Case mapping and spaces *)

(** The runes [lo], [lo + step], ..., [hi] map to themselves plus [delta]. *)
Record case_range := CR { cr_lo : Z; cr_hi : Z; cr_step : Z; cr_delta : Z }.

Definition in_range (r : Z) (c : case_range) : bool :=
  (cr_lo c <=? r) && (r <=? cr_hi c) && ((r - cr_lo c) mod cr_step c =? 0).

Fixpoint map_case (l : list case_range) (r : Z) : Z :=
  match l with
  | [] => r
  | c :: l => if in_range r c then r + cr_delta c else map_case l r
  end.

(** The non-ASCII part of [unicode.ToLower]. *)
Definition lower_ranges : list case_range :=
  [ CR 192 214 1 32; CR 216 222 1 32; CR 256 302 2 1; CR 304 304 1 (-199); CR 306 310 2 1;
    CR 313 327 2 1; CR 330 374 2 1; CR 376 376 1 (-121); CR 377 381 2 1; CR 385 385 1 210;
    CR 386 388 2 1; CR 390 390 1 206; CR 391 391 1 1; CR 393 394 1 205; CR 395 395 1 1;
    CR 398 398 1 79; CR 399 399 1 202; CR 400 400 1 203; CR 401 401 1 1; CR 403 403 1 205;
    CR 404 404 1 207; CR 406 406 1 211; CR 407 407 1 209; CR 408 408 1 1; CR 412 412 1 211;
    CR 413 413 1 213; CR 415 415 1 214; CR 416 420 2 1; CR 422 422 1 218; CR 423 423 1 1;
    CR 425 425 1 218; CR 428 428 1 1; CR 430 430 1 218; CR 431 431 1 1; CR 433 434 1 217;
    CR 435 437 2 1; CR 439 439 1 219; CR 440 440 1 1; CR 444 444 1 1; CR 452 452 1 2;
    CR 453 453 1 1; CR 455 455 1 2; CR 456 456 1 1; CR 458 458 1 2; CR 459 475 2 1; CR 478 494 2 1;
    CR 497 497 1 2; CR 498 500 2 1; CR 502 502 1 (-97); CR 503 503 1 (-56); CR 504 542 2 1;
    CR 544 544 1 (-130); CR 546 562 2 1; CR 570 570 1 10795; CR 571 571 1 1; CR 573 573 1 (-163);
    CR 574 574 1 10792; CR 577 577 1 1; CR 579 579 1 (-195); CR 580 580 1 69; CR 581 581 1 71;
    CR 582 590 2 1; CR 880 882 2 1; CR 886 886 1 1; CR 895 895 1 116; CR 902 902 1 38;
    CR 904 906 1 37; CR 908 908 1 64; CR 910 911 1 63; CR 913 929 1 32; CR 931 939 1 32;
    CR 975 975 1 8; CR 984 1006 2 1; CR 1012 1012 1 (-60); CR 1015 1015 1 1; CR 1017 1017 1 (-7);
    CR 1018 1018 1 1; CR 1021 1023 1 (-130); CR 1024 1039 1 80; CR 1040 1071 1 32;
    CR 1120 1152 2 1; CR 1162 1214 2 1; CR 1216 1216 1 15; CR 1217 1229 2 1; CR 1232 1326 2 1;
    CR 1329 1366 1 48; CR 4256 4293 1 7264; CR 4295 4295 1 7264; CR 4301 4301 1 7264;
    CR 5024 5103 1 38864; CR 5104 5109 1 8; CR 7312 7354 1 (-3008); CR 7357 7359 1 (-3008);
    CR 7680 7828 2 1; CR 7838 7838 1 (-7615); CR 7840 7934 2 1; CR 7944 7951 1 (-8);
    CR 7960 7965 1 (-8); CR 7976 7983 1 (-8); CR 7992 7999 1 (-8); CR 8008 8013 1 (-8);
    CR 8025 8031 2 (-8); CR 8040 8047 1 (-8); CR 8072 8079 1 (-8); CR 8088 8095 1 (-8);
    CR 8104 8111 1 (-8); CR 8120 8121 1 (-8); CR 8122 8123 1 (-74); CR 8124 8124 1 (-9);
    CR 8136 8139 1 (-86); CR 8140 8140 1 (-9); CR 8152 8153 1 (-8); CR 8154 8155 1 (-100);
    CR 8168 8169 1 (-8); CR 8170 8171 1 (-112); CR 8172 8172 1 (-7); CR 8184 8185 1 (-128);
    CR 8186 8187 1 (-126); CR 8188 8188 1 (-9); CR 8486 8486 1 (-7517); CR 8490 8490 1 (-8383);
    CR 8491 8491 1 (-8262); CR 8498 8498 1 28; CR 8544 8559 1 16; CR 8579 8579 1 1;
    CR 9398 9423 1 26; CR 11264 11311 1 48; CR 11360 11360 1 1; CR 11362 11362 1 (-10743);
    CR 11363 11363 1 (-3814); CR 11364 11364 1 (-10727); CR 11367 11371 2 1;
    CR 11373 11373 1 (-10780); CR 11374 11374 1 (-10749); CR 11375 11375 1 (-10783);
    CR 11376 11376 1 (-10782); CR 11378 11378 1 1; CR 11381 11381 1 1; CR 11390 11391 1 (-10815);
    CR 11392 11490 2 1; CR 11499 11501 2 1; CR 11506 11506 1 1; CR 42560 42604 2 1;
    CR 42624 42650 2 1; CR 42786 42798 2 1; CR 42802 42862 2 1; CR 42873 42875 2 1;
    CR 42877 42877 1 (-35332); CR 42878 42886 2 1; CR 42891 42891 1 1; CR 42893 42893 1 (-42280);
    CR 42896 42898 2 1; CR 42902 42920 2 1; CR 42922 42922 1 (-42308); CR 42923 42923 1 (-42319);
    CR 42924 42924 1 (-42315); CR 42925 42925 1 (-42305); CR 42926 42926 1 (-42308);
    CR 42928 42928 1 (-42258); CR 42929 42929 1 (-42282); CR 42930 42930 1 (-42261);
    CR 42931 42931 1 928; CR 42932 42946 2 1; CR 42948 42948 1 (-48); CR 42949 42949 1 (-42307);
    CR 42950 42950 1 (-35384); CR 42951 42953 2 1; CR 42960 42960 1 1; CR 42966 42968 2 1;
    CR 42997 42997 1 1; CR 65313 65338 1 32; CR 66560 66599 1 40; CR 66736 66771 1 40;
    CR 66928 66938 1 39; CR 66940 66954 1 39; CR 66956 66962 1 39; CR 66964 66965 1 39;
    CR 68736 68786 1 64; CR 71840 71871 1 32; CR 93760 93791 1 32; CR 125184 125217 1 34 ]%Z.

(** The non-ASCII part of [unicode.ToUpper]. *)
Definition upper_ranges : list case_range :=
  [ CR 181 181 1 743; CR 224 246 1 (-32); CR 248 254 1 (-32); CR 255 255 1 121; CR 257 303 2 (-1);
    CR 305 305 1 (-232); CR 307 311 2 (-1); CR 314 328 2 (-1); CR 331 375 2 (-1);
    CR 378 382 2 (-1); CR 383 383 1 (-300); CR 384 384 1 195; CR 387 389 2 (-1); CR 392 392 1 (-1);
    CR 396 396 1 (-1); CR 402 402 1 (-1); CR 405 405 1 97; CR 409 409 1 (-1); CR 410 410 1 163;
    CR 414 414 1 130; CR 417 421 2 (-1); CR 424 424 1 (-1); CR 429 429 1 (-1); CR 432 432 1 (-1);
    CR 436 438 2 (-1); CR 441 441 1 (-1); CR 445 445 1 (-1); CR 447 447 1 56; CR 453 453 1 (-1);
    CR 454 454 1 (-2); CR 456 456 1 (-1); CR 457 457 1 (-2); CR 459 459 1 (-1); CR 460 460 1 (-2);
    CR 462 476 2 (-1); CR 477 477 1 (-79); CR 479 495 2 (-1); CR 498 498 1 (-1); CR 499 499 1 (-2);
    CR 501 501 1 (-1); CR 505 543 2 (-1); CR 547 563 2 (-1); CR 572 572 1 (-1); CR 575 576 1 10815;
    CR 578 578 1 (-1); CR 583 591 2 (-1); CR 592 592 1 10783; CR 593 593 1 10780;
    CR 594 594 1 10782; CR 595 595 1 (-210); CR 596 596 1 (-206); CR 598 599 1 (-205);
    CR 601 601 1 (-202); CR 603 603 1 (-203); CR 604 604 1 42319; CR 608 608 1 (-205);
    CR 609 609 1 42315; CR 611 611 1 (-207); CR 613 613 1 42280; CR 614 614 1 42308;
    CR 616 616 1 (-209); CR 617 617 1 (-211); CR 618 618 1 42308; CR 619 619 1 10743;
    CR 620 620 1 42305; CR 623 623 1 (-211); CR 625 625 1 10749; CR 626 626 1 (-213);
    CR 629 629 1 (-214); CR 637 637 1 10727; CR 640 640 1 (-218); CR 642 642 1 42307;
    CR 643 643 1 (-218); CR 647 647 1 42282; CR 648 648 1 (-218); CR 649 649 1 (-69);
    CR 650 651 1 (-217); CR 652 652 1 (-71); CR 658 658 1 (-219); CR 669 669 1 42261;
    CR 670 670 1 42258; CR 837 837 1 84; CR 881 883 2 (-1); CR 887 887 1 (-1); CR 891 893 1 130;
    CR 940 940 1 (-38); CR 941 943 1 (-37); CR 945 961 1 (-32); CR 962 962 1 (-31);
    CR 963 971 1 (-32); CR 972 972 1 (-64); CR 973 974 1 (-63); CR 976 976 1 (-62);
    CR 977 977 1 (-57); CR 981 981 1 (-47); CR 982 982 1 (-54); CR 983 983 1 (-8);
    CR 985 1007 2 (-1); CR 1008 1008 1 (-86); CR 1009 1009 1 (-80); CR 1010 1010 1 7;
    CR 1011 1011 1 (-116); CR 1013 1013 1 (-96); CR 1016 1016 1 (-1); CR 1019 1019 1 (-1);
    CR 1072 1103 1 (-32); CR 1104 1119 1 (-80); CR 1121 1153 2 (-1); CR 1163 1215 2 (-1);
    CR 1218 1230 2 (-1); CR 1231 1231 1 (-15); CR 1233 1327 2 (-1); CR 1377 1414 1 (-48);
    CR 4304 4346 1 3008; CR 4349 4351 1 3008; CR 5112 5117 1 (-8); CR 7296 7296 1 (-6254);
    CR 7297 7297 1 (-6253); CR 7298 7298 1 (-6244); CR 7299 7300 1 (-6242); CR 7301 7301 1 (-6243);
    CR 7302 7302 1 (-6236); CR 7303 7303 1 (-6181); CR 7304 7304 1 35266; CR 7545 7545 1 35332;
    CR 7549 7549 1 3814; CR 7566 7566 1 35384; CR 7681 7829 2 (-1); CR 7835 7835 1 (-59);
    CR 7841 7935 2 (-1); CR 7936 7943 1 8; CR 7952 7957 1 8; CR 7968 7975 1 8; CR 7984 7991 1 8;
    CR 8000 8005 1 8; CR 8017 8023 2 8; CR 8032 8039 1 8; CR 8048 8049 1 74; CR 8050 8053 1 86;
    CR 8054 8055 1 100; CR 8056 8057 1 128; CR 8058 8059 1 112; CR 8060 8061 1 126;
    CR 8064 8071 1 8; CR 8080 8087 1 8; CR 8096 8103 1 8; CR 8112 8113 1 8; CR 8115 8115 1 9;
    CR 8126 8126 1 (-7205); CR 8131 8131 1 9; CR 8144 8145 1 8; CR 8160 8161 1 8; CR 8165 8165 1 7;
    CR 8179 8179 1 9; CR 8526 8526 1 (-28); CR 8560 8575 1 (-16); CR 8580 8580 1 (-1);
    CR 9424 9449 1 (-26); CR 11312 11359 1 (-48); CR 11361 11361 1 (-1); CR 11365 11365 1 (-10795);
    CR 11366 11366 1 (-10792); CR 11368 11372 2 (-1); CR 11379 11379 1 (-1); CR 11382 11382 1 (-1);
    CR 11393 11491 2 (-1); CR 11500 11502 2 (-1); CR 11507 11507 1 (-1); CR 11520 11557 1 (-7264);
    CR 11559 11559 1 (-7264); CR 11565 11565 1 (-7264); CR 42561 42605 2 (-1);
    CR 42625 42651 2 (-1); CR 42787 42799 2 (-1); CR 42803 42863 2 (-1); CR 42874 42876 2 (-1);
    CR 42879 42887 2 (-1); CR 42892 42892 1 (-1); CR 42897 42899 2 (-1); CR 42900 42900 1 48;
    CR 42903 42921 2 (-1); CR 42933 42947 2 (-1); CR 42952 42954 2 (-1); CR 42961 42961 1 (-1);
    CR 42967 42969 2 (-1); CR 42998 42998 1 (-1); CR 43859 43859 1 (-928);
    CR 43888 43967 1 (-38864); CR 65345 65370 1 (-32); CR 66600 66639 1 (-40);
    CR 66776 66811 1 (-40); CR 66967 66977 1 (-39); CR 66979 66993 1 (-39); CR 66995 67001 1 (-39);
    CR 67003 67004 1 (-39); CR 68800 68850 1 (-64); CR 71872 71903 1 (-32); CR 93792 93823 1 (-32);
    CR 125218 125251 1 (-34) ]%Z.

Definition is_upper_ascii (r : Z) : bool := (65 <=? r) && (r <=? 90).
Definition is_lower_ascii (r : Z) : bool := (97 <=? r) && (r <=? 122).

(** [unicode.ToLower] and [unicode.ToUpper]. *)
Definition to_lower (r : Z) : Z :=
  if r <? 0x80 then (if is_upper_ascii r then r + 32 else r) else map_case lower_ranges r.
Definition to_upper (r : Z) : Z :=
  if r <? 0x80 then (if is_lower_ascii r then r - 32 else r) else map_case upper_ranges r.

(** [unicode.IsSpace]: the White_Space property. *)
Definition IsSpace (r : Z) : bool :=
  ((9 <=? r) && (r <=? 13)) || (r =? 0x20) || (r =? 0x85) || (r =? 0xA0) || (r =? 0x1680) ||
  ((0x2000 <=? r) && (r <=? 0x200A)) || (r =? 0x2028) || (r =? 0x2029) || (r =? 0x202F) ||
  (r =? 0x205F) || (r =? 0x3000).

(** ** Lemmas *)

(** Induction on the length of a string. *)
Lemma string_len_ind (P : string → Prop) :
  (∀ s, (∀ t, (slen t < slen s)%nat → P t) → P s) → ∀ s, P s.
Proof.
  intros H s. remember (slen s) as n eqn:E. revert s E.
  induction n as [n IH] using lt_wf_ind. intros s ->. apply H. eauto.
Qed.

Lemma of_cells_cons c l : of_cells (c :: l) = raw c +:+ of_cells l.
Proof. done. Qed.

Lemma of_cells_app l k : of_cells (l ++ k) = of_cells l +:+ of_cells k.
Proof. unfold of_cells. by rewrite fmap_app, concat_strings_app. Qed.

(** One step of [decode]: the first cell holds a non-empty prefix of the input,
    the rest is decoded from where it ends, and cutting the input short anywhere
    behind the cell changes neither. *)
Lemma decode_step_cut s :
  s ≠ EmptyString →
  ∃ c t, s = raw c +:+ t ∧ (slen t < slen s)%nat ∧
         ∀ u v, t = u +:+ v → decode (raw c +:+ u) = c :: decode u.
Proof.
  destruct s as [|a s1]; [done|]. intros _.
  destruct (lead_of (bval a)) as [| | |lo hi|lo hi] eqn:El.
  - exists (Cell (bval a) (str1 a)), s1. split_and!; [done|simpl; lia|].
    intros u v _. simpl. by rewrite El.
  - exists (Cell RuneError (str1 a)), s1. split_and!; [done|simpl; lia|].
    intros u v _. simpl. by rewrite El.
  - destruct s1 as [|b s2]; [|destruct (is_cont b) eqn:Ec].
    2: { exists (Cell (rune2 a b) (String a (str1 b))), s2. split_and!; [done|simpl; lia|].
         intros u v _. simpl. by rewrite El, Ec. }
    all: eexists (Cell RuneError (str1 a)), _; split_and!; [reflexivity|simpl; lia|].
    all: intros [|x u] v Hu; simpl in *; rewrite El; simplify_eq; first [done | by rewrite Ec].
  - destruct s1 as [|b [|c s3]]; [..|destruct (between lo hi b && is_cont c) eqn:Ec].
    3: { exists (Cell (rune3 a b c) (String a (String b (str1 c)))), s3.
         split_and!; [done|simpl; lia|]. intros u v _. simpl. by rewrite El, Ec. }
    all: eexists (Cell RuneError (str1 a)), _; split_and!; [reflexivity|simpl; lia|].
    all: intros [|x [|y u]] v Hu; simpl in *; rewrite El; simplify_eq; first [done | by rewrite Ec].
  - destruct s1 as [|b [|c [|d s4]]];
      [..|destruct (between lo hi b && (is_cont c && is_cont d)) eqn:Ec].
    4: { exists (Cell (rune4 a b c d) (String a (String b (String c (str1 d))))), s4.
         split_and!; [done|simpl; lia|]. intros u v _. simpl. by rewrite El, Ec. }
    all: eexists (Cell RuneError (str1 a)), _; split_and!; [reflexivity|simpl; lia|].
    all: intros [|x [|y [|z u]]] v Hu; simpl in *; rewrite El; simplify_eq; first [done | by rewrite Ec].
Qed.

Lemma decode_step s :
  s ≠ EmptyString →
  ∃ c t, decode s = c :: decode t ∧ s = raw c +:+ t ∧ (slen t < slen s)%nat.
Proof.
  intros (c & t & Hs & Hlt & Hd)%decode_step_cut. exists c, t. split_and!; [|done..].
  rewrite Hs. apply (Hd t EmptyString). by rewrite sapp_nil_r.
Qed.

Lemma decode_of_cells s : of_cells (decode s) = s.
Proof.
  induction s as [s IH] using string_len_ind.
  destruct s as [|a s1]; [done|].
  destruct (decode_step (String a s1)) as (c & t & -> & Hs & Hlt); [done|].
  rewrite of_cells_cons, IH by done. by rewrite Hs.
Qed.

(** Decoding commutes with cutting at cell boundaries. *)
Lemma decode_prefix s l k : decode s = l ++ k → decode (of_cells l) = l.
Proof.
  revert l; induction s as [s IH] using string_len_ind; intros [|c l] H; [done|].
  destruct (decide (s = EmptyString)) as [->|Hne]; [done|].
  destruct (decode_step_cut s Hne) as (c' & t & Hs & Hlt & Hd).
  pose proof (Hd t EmptyString (eq_sym (sapp_nil_r t))) as H0. rewrite <-Hs, H in H0.
  injection H0 as -> Ht. symmetry in Ht.
  rewrite of_cells_cons, (Hd _ (of_cells k)).
  - f_equal. by eapply IH.
  - by rewrite <-of_cells_app, <-Ht, decode_of_cells.
Qed.

Lemma decode_suffix s l k : decode s = l ++ k → decode (of_cells k) = k.
Proof.
  revert s; induction l as [|c l IH]; intros s H; simpl in H.
  - by rewrite <-H, decode_of_cells.
  - destruct (decide (s = EmptyString)) as [->|Hne]; [done|].
    destruct (decode_step s Hne) as (c' & t & Hs & _ & _). rewrite Hs in H.
    injection H as -> Ht. by eapply IH.
Qed.

Lemma decode_infix s a l b : decode s = a ++ l ++ b → decode (of_cells l) = l.
Proof. intros H%decode_suffix. by eapply decode_prefix. Qed.

Definition ascii_byte (a : ascii) : bool := bval a <? 0x80.

(** An ASCII byte is a rune of its own. *)
Lemma decode_ascii a s :
  ascii_byte a = true → decode (String a s) = Cell (bval a) (str1 a) :: decode s.
Proof. unfold ascii_byte. intros H. simpl. unfold lead_of. by rewrite H. Qed.

Lemma EncodeRune_ascii r : 0 ≤ r < 0x80 → EncodeRune r = str1 (byte_of r).
Proof.
  intros H. unfold EncodeRune, valid_rune, encode_valid.
  rewrite (proj2 (Z.leb_le 0 r)), (proj2 (Z.ltb_lt r 0xD800)) by lia. simpl.
  by rewrite (proj2 (Z.ltb_lt r 0x80)) by lia.
Qed.

Definition high_byte (a : ascii) : bool := 0x80 <=? bval a.

(** The lead and continuation bytes of an encoding have their top bit set; the
    payload has at most 6 bits, so the claim is checked on every value. *)
Lemma byte_of_lor_high k z :
  k ∈ [0x80; 0xC0; 0xE0; 0xF0] → 0 ≤ z < 64 → high_byte (byte_of (Z.lor k z)) = true.
Proof.
  intros Hk Hz.
  assert (forallb (λ k, forallb (λ n, high_byte (byte_of (Z.lor k (Z.of_nat n)))) (seq 0 64))
            [0x80; 0xC0; 0xE0; 0xF0] = true) as Hall by (vm_compute; reflexivity).
  rewrite forallb_forall in Hall. specialize (Hall k). rewrite <-list_elem_of_In in Hall.
  specialize (Hall Hk). rewrite forallb_forall in Hall.
  rewrite <-(Z2Nat.id z) by lia. apply Hall, in_seq. lia.
Qed.

Lemma cont_byte_high z : high_byte (cont_byte z) = true.
Proof.
  unfold cont_byte. apply byte_of_lor_high; [repeat constructor|].
  change 0x3F with (Z.ones 6). rewrite Z.land_ones by lia.
  pose proof (Z.mod_pos_bound z (2 ^ 6)). lia.
Qed.

Lemma shiftr_bound r n m : 0 ≤ n → 0 ≤ r < m * 2 ^ n → 0 ≤ Z.shiftr r n < m.
Proof.
  intros Hn Hr. rewrite Z.shiftr_div_pow2 by done.
  assert (0 < 2 ^ n) by (apply Z.pow_pos_nonneg; lia).
  split; [apply Z.div_pos; lia|]. apply Z.div_lt_upper_bound; lia.
Qed.

(** A non-ASCII rune is encoded with bytes at or above 0x80 only, so encoding
    never introduces an ASCII character. *)
Lemma EncodeRune_high r : (r < 0 ∨ 0x80 ≤ r) → all_bytes high_byte (EncodeRune r) = true.
Proof.
  intros Hr. unfold EncodeRune.
  assert (∀ v, 0x80 ≤ v ≤ 0x10FFFF → all_bytes high_byte (encode_valid v) = true) as Henc.
  { intros v Hv. unfold encode_valid.
    rewrite (proj2 (Z.ltb_ge v 0x80)) by lia.
    repeat case_bool; bool_hyps; cbn [all_bytes str1]; rewrite !cont_byte_high;
      rewrite ?andb_true_r; (apply byte_of_lor_high; [repeat constructor|]);
      apply shiftr_bound; lia. }
  destruct (valid_rune r) eqn:E; [|apply Henc; unfold RuneError; lia].
  apply Henc. unfold valid_rune in E. apply orb_true_iff in E as [E|E]; bool_hyps; lia.
Qed.

(** Lowering a rune never yields an ASCII capital. *)
Definition range_not_upper (c : case_range) : bool :=
  (0x80 <=? cr_lo c) &&
  ((0x80 <=? cr_lo c + cr_delta c) ||
   ((cr_lo c =? cr_hi c) && negb (is_upper_ascii (cr_lo c + cr_delta c)))).

Lemma map_case_not_upper l r :
  forallb range_not_upper l = true → 0x80 ≤ r → is_upper_ascii (map_case l r) = false.
Proof.
  intros Hl Hr. unfold is_upper_ascii.
  induction l as [|c l IH]; simpl in *; [apply andb_false_iff; right; apply Z.leb_gt; lia|].
  apply andb_prop in Hl as [Hc Hl]. destruct (in_range r c) eqn:E; [|auto].
  unfold in_range in E. unfold range_not_upper, is_upper_ascii in Hc. bool_hyps.
  match goal with H : _ || _ = true |- _ => apply orb_true_iff in H as [H|H] end; bool_hyps.
  - apply andb_false_iff; right. apply Z.leb_gt. lia.
  - assert (r = cr_lo c) as -> by lia. done.
Qed.

Lemma to_lower_not_upper r : is_upper_ascii (to_lower r) = false.
Proof.
  unfold to_lower. destruct (r <? 0x80) eqn:E; bool_hyps.
  - destruct (is_upper_ascii r) eqn:Eu; [|done].
    unfold is_upper_ascii in *. bool_hyps.
    apply andb_false_iff. right. apply Z.leb_gt. lia.
  - apply map_case_not_upper; [vm_compute; reflexivity|lia].
Qed.

(** On ASCII, lowering and raising are idempotent and inverse on letters. *)
Lemma to_lower_ascii r : r < 0x80 → to_lower r = if is_upper_ascii r then r + 32 else r.
Proof. intros H. unfold to_lower. by rewrite (proj2 (Z.ltb_lt r 0x80)). Qed.

Lemma to_upper_ascii r : r < 0x80 → to_upper r = if is_lower_ascii r then r - 32 else r.
Proof. intros H. unfold to_upper. by rewrite (proj2 (Z.ltb_lt r 0x80)). Qed.

(** ** Encoding undoes decoding *)

(** A cell that was decoded from a valid sequence. *)
Definition cell_valid (c : cell) : bool :=
  negb ((rune c =? RuneError) && (slen (raw c) =? 1)%nat).

(** [utf8.ValidString] *)
Definition ValidString (s : string) : bool := forallb cell_valid (decode s).

Lemma land_low z n k m : 0 ≤ n → k = Z.ones n → 0 ≤ z - m * 2 ^ n < 2 ^ n → Z.land z k = z - m * 2 ^ n.
Proof.
  intros Hn Hk Hz. rewrite (land_ones_mod z n k) by done. symmetry.
  apply (Z.mod_unique_pos z (2 ^ n) m); lia.
Qed.

Lemma lor_high k n m z : 0 ≤ n → k = Z.shiftl m n → 0 ≤ z < 2 ^ n → Z.lor k z = m * 2 ^ n + z.
Proof. intros Hn -> Hz. by apply lor_shiftl_add. Qed.

Lemma is_cont_range b : is_cont b = true → 0x80 ≤ bval b ≤ 0xBF.
Proof. unfold is_cont, between. intros. bool_hyps. lia. Qed.

Lemma low6_cont b : is_cont b = true → low6 b = bval b - 0x80.
Proof.
  intros H%is_cont_range. unfold low6. rewrite (land_low _ 6 _ 2) by (done || lia). lia.
Qed.

Lemma rune2_eq a b :
  0xC0 ≤ bval a < 0xE0 → is_cont b = true → rune2 a b = (bval a - 0xC0) * 64 + (bval b - 0x80).
Proof.
  intros Ha Hb. unfold rune2. rewrite (low6_cont b Hb). apply is_cont_range in Hb.
  rewrite (land_low (bval a) 5 _ 6) by (done || lia). rewrite lor_shiftl_add by lia. lia.
Qed.

Lemma rune3_eq a b c :
  0xE0 ≤ bval a < 0xF0 → is_cont b = true → is_cont c = true →
  rune3 a b c = (bval a - 0xE0) * 4096 + (bval b - 0x80) * 64 + (bval c - 0x80).
Proof.
  intros Ha Hb Hc. unfold rune3. rewrite (low6_cont b Hb), (low6_cont c Hc).
  apply is_cont_range in Hb, Hc.
  rewrite (land_low (bval a) 4 _ 14) by (done || lia).
  rewrite (lor_shiftl_add (bval b - 128) _ 6) by lia. rewrite lor_shiftl_add by lia. lia.
Qed.

Lemma rune4_eq a b c d :
  0xF0 ≤ bval a < 0xF8 → is_cont b = true → is_cont c = true → is_cont d = true →
  rune4 a b c d =
    (bval a - 0xF0) * 262144 + (bval b - 0x80) * 4096 + (bval c - 0x80) * 64 + (bval d - 0x80).
Proof.
  intros Ha Hb Hc Hd. unfold rune4.
  rewrite (low6_cont b Hb), (low6_cont c Hc), (low6_cont d Hd). apply is_cont_range in Hb, Hc, Hd.
  rewrite (land_low (bval a) 3 _ 30) by (done || lia).
  rewrite (lor_shiftl_add (bval c - 128) _ 6) by lia.
  rewrite (lor_shiftl_add (bval b - 128) _ 12) by lia. rewrite lor_shiftl_add by lia. lia.
Qed.

(** A continuation byte is recovered from its rune. *)
Lemma cont_byte_back z b q :
  is_cont b = true → z = q * 64 + (bval b - 0x80) → cont_byte z = b.
Proof.
  intros Hb%is_cont_range Hz. unfold cont_byte. apply bval_inj. rewrite bval_byte_of.
  rewrite (land_ones_mod z 6) by (done || lia).
  rewrite <-(Z.mod_unique_pos z (2 ^ 6) q (bval b - 128)) by lia.
  rewrite (lor_high _ 6 2) by (done || lia). rewrite Z.mod_small; lia.
Qed.

Lemma lead_byte_back k n m z a :
  0 ≤ n → k = Z.shiftl m n → z = bval a - k → 0 ≤ z < 2 ^ n → byte_of (Z.lor k z) = a.
Proof.
  intros Hn Hk Hz Hr. apply bval_inj. rewrite bval_byte_of, (lor_high k n m) by done.
  rewrite Hk, Z.shiftl_mul_pow2 in Hz by done. pose proof (bval_range a).
  rewrite Z.mod_small; lia.
Qed.

Lemma shiftr_back z n q r : 0 ≤ n → z = q * 2 ^ n + r → 0 ≤ r < 2 ^ n → Z.shiftr z n = q.
Proof.
  intros Hn Hz Hr. rewrite Z.shiftr_div_pow2 by done.
  symmetry. apply (Z.div_unique_pos z (2 ^ n) q r); lia.
Qed.

Lemma encode_rune2 a b :
  lead_of (bval a) = L2 → is_cont b = true → EncodeRune (rune2 a b) = String a (str1 b).
Proof.
  intros Hl Hb. assert (0xC2 ≤ bval a < 0xE0) as Ha.
  { unfold lead_of in Hl. repeat case_bool; bool_hyps; try done. }
  pose proof (is_cont_range b Hb). unfold EncodeRune. rewrite rune2_eq by (done || lia).
  set (r := (bval a - 192) * 64 + (bval b - 128)).
  unfold valid_rune. rewrite (proj2 (Z.leb_le 0 r)), (proj2 (Z.ltb_lt r 0xD800)) by lia. simpl.
  unfold encode_valid. rewrite (proj2 (Z.ltb_ge r 0x80)), (proj2 (Z.ltb_lt r 0x800)) by lia.
  rewrite (cont_byte_back r b (bval a - 192)) by (done || lia).
  rewrite (shiftr_back r 6 (bval a - 192) (bval b - 128)) by lia.
  by rewrite (lead_byte_back 0xC0 5 6 _ a) by (done || lia).
Qed.

(** The ranges of the leading byte and of the second byte of a longer sequence. *)
Lemma lead_L3 a lo hi b :
  lead_of (bval a) = L3 lo hi → between lo hi b = true →
  0xE0 ≤ bval a < 0xF0 ∧ is_cont b = true ∧ (bval a = 0xE0 → 0xA0 ≤ bval b) ∧
  (bval a = 0xED → bval b ≤ 0x9F).
Proof.
  intros Hl Hb. unfold lead_of in Hl. unfold is_cont, between in *. bool_hyps.
  repeat case_bool; bool_hyps; simplify_eq.
  all: split_and!; try lia; apply andb_true_intro; split; apply Z.leb_le; lia.
Qed.

Lemma lead_L4 a lo hi b :
  lead_of (bval a) = L4 lo hi → between lo hi b = true →
  0xF0 ≤ bval a ≤ 0xF4 ∧ is_cont b = true ∧ (bval a = 0xF0 → 0x90 ≤ bval b) ∧
  (bval a = 0xF4 → bval b ≤ 0x8F).
Proof.
  intros Hl Hb. unfold lead_of in Hl. unfold is_cont, between in *. bool_hyps.
  repeat case_bool; bool_hyps; simplify_eq.
  all: split_and!; try lia; apply andb_true_intro; split; apply Z.leb_le; lia.
Qed.

Lemma encode_rune3 a b c lo hi :
  lead_of (bval a) = L3 lo hi → between lo hi b = true → is_cont c = true →
  EncodeRune (rune3 a b c) = String a (String b (str1 c)).
Proof.
  intros Hl Hb0 Hc. destruct (lead_L3 a lo hi b Hl Hb0) as (Ha & Hb & H1 & H2).
  pose proof (is_cont_range b Hb). pose proof (is_cont_range c Hc).
  unfold EncodeRune. rewrite rune3_eq by (done || lia).
  set (r := (bval a - 224) * 4096 + (bval b - 128) * 64 + (bval c - 128)).
  assert (0x800 ≤ r < 0x10000) as Hr by lia.
  assert (valid_rune r = true) as ->.
  { unfold valid_rune. destruct (Z.ltb_spec r 0xD800) as [Hlt|Hge].
    - by rewrite (proj2 (Z.leb_le 0 r)) by lia.
    - rewrite andb_false_r, (proj2 (Z.ltb_lt 0xDFFF r)), (proj2 (Z.leb_le r 0x10FFFF)) by lia. done. }
  unfold encode_valid. rewrite (proj2 (Z.ltb_ge r 0x80)), (proj2 (Z.ltb_ge r 0x800)),
    (proj2 (Z.ltb_lt r 0x10000)) by lia.
  rewrite (cont_byte_back r c ((bval a - 224) * 64 + (bval b - 128))) by (done || lia).
  rewrite (shiftr_back r 6 ((bval a - 224) * 64 + (bval b - 128)) (bval c - 128)) by lia.
  rewrite (cont_byte_back _ b (bval a - 224)) by (done || lia).
  rewrite (shiftr_back r 12 (bval a - 224) ((bval b - 128) * 64 + (bval c - 128))) by lia.
  by rewrite (lead_byte_back 0xE0 4 14 _ a) by (done || lia).
Qed.

Lemma encode_rune4 a b c d lo hi :
  lead_of (bval a) = L4 lo hi → between lo hi b = true → is_cont c = true → is_cont d = true →
  EncodeRune (rune4 a b c d) = String a (String b (String c (str1 d))).
Proof.
  intros Hl Hb0 Hc Hd. destruct (lead_L4 a lo hi b Hl Hb0) as (Ha & Hb & H1 & H2).
  pose proof (is_cont_range b Hb). pose proof (is_cont_range c Hc). pose proof (is_cont_range d Hd).
  unfold EncodeRune. rewrite rune4_eq by (done || lia).
  set (r := (bval a - 240) * 262144 + (bval b - 128) * 4096 + (bval c - 128) * 64 + (bval d - 128)).
  assert (0x10000 ≤ r ≤ 0x10FFFF) as Hr by lia.
  assert (valid_rune r = true) as ->.
  { unfold valid_rune. rewrite (proj2 (Z.ltb_lt 0xDFFF r)), (proj2 (Z.leb_le r 0x10FFFF)) by lia.
    by rewrite orb_true_r. }
  unfold encode_valid. rewrite (proj2 (Z.ltb_ge r 0x80)), (proj2 (Z.ltb_ge r 0x800)),
    (proj2 (Z.ltb_ge r 0x10000)) by lia.
  set (q3 := (bval a - 240) * 4096 + (bval b - 128) * 64 + (bval c - 128)).
  set (q2 := (bval a - 240) * 64 + (bval b - 128)).
  rewrite (cont_byte_back r d q3) by (done || lia).
  rewrite (shiftr_back r 6 q3 (bval d - 128)) by lia.
  rewrite (cont_byte_back q3 c q2) by (done || lia).
  rewrite (shiftr_back r 12 q2 ((bval c - 128) * 64 + (bval d - 128))) by lia.
  rewrite (cont_byte_back q2 b (bval a - 240)) by (done || lia).
  rewrite (shiftr_back r 18 (bval a - 240)
    ((bval b - 128) * 4096 + (bval c - 128) * 64 + (bval d - 128))) by lia.
  by rewrite (lead_byte_back 0xF0 3 30 _ a) by (done || lia).
Qed.

(** The first cell of a string, what it was decoded from, and the decoding of
    its bytes in front of anything else. *)
Lemma decode_cell_valid s c l :
  decode s = c :: l → cell_valid c = true →
  EncodeRune (rune c) = raw c ∧ ∀ t, decode (raw c +:+ t) = c :: decode t.
Proof.
  destruct s as [|a s1]; [done|]. simpl.
  assert (∀ r l', Cell RuneError (str1 a) :: l' = c :: r → cell_valid c = true → False) as Hbad.
  { by intros r l' [= <- _]. }
  destruct (lead_of (bval a)) as [| | |lo hi|lo hi] eqn:El.
  - intros [= <- _] _. simpl. rewrite El. split; [|done].
    assert (bval a < 0x80) by (unfold lead_of in El; repeat case_bool; bool_hyps; done || lia).
    pose proof (bval_range a). rewrite EncodeRune_ascii, byte_of_bval by lia. done.
  - intros H1 H2. exfalso; eauto.
  - destruct s1 as [|b s2]; [intros; exfalso; eauto|]. case_bool; [|intros; exfalso; eauto].
    intros [= <- _] _. simpl. rewrite El, Eb. split; [by apply encode_rune2|done].
  - destruct s1 as [|b [|d s3]]; [intros; exfalso; eauto..|]. case_bool; [|intros; exfalso; eauto].
    intros [= <- _] _. simpl. rewrite El, Eb. bool_hyps. split; [by eapply encode_rune3|done].
  - destruct s1 as [|b [|d [|e s4]]]; [intros; exfalso; eauto..|].
    case_bool; [|intros; exfalso; eauto].
    intros [= <- _] _. simpl. rewrite El, Eb. bool_hyps. split; [by eapply encode_rune4|done].
Qed.
