(* ===== verification/GoStrings.v ===== *)
(** * The [strings] package

    The functions of Go's [strings] the repository calls, on byte sequences, with
    the UTF-8 reading of [Unicode.v] where the package reads runes. *)

From S2P Require Import Prelude Unicode.

Local Open Scope Z_scope.

(** ** Searching *)

Fixpoint HasPrefix (s prefix : string) {struct prefix} : bool :=
  match prefix, s with
  | EmptyString, _ => true
  | String p ps, String a s' => Ascii.eqb a p && HasPrefix s' ps
  | String _ _, EmptyString => false
  end.

#[global] Arguments HasPrefix s !prefix : simpl nomatch.

Fixpoint Contains (s substr : string) : bool :=
  HasPrefix s substr ||
  match s with
  | EmptyString => false
  | String _ s' => Contains s' substr
  end.

(** [strings.Index], with [None] for -1. *)
Fixpoint Index (s substr : string) : option nat :=
  if HasPrefix s substr then Some 0%nat
  else match s with
       | EmptyString => None
       | String _ s' => S <$> Index s' substr
       end.

(** [strings.LastIndex], with [None] for -1. *)
Fixpoint LastIndex (s substr : string) : option nat :=
  match s with
  | EmptyString => if HasPrefix s substr then Some 0%nat else None
  | String _ s' =>
      match LastIndex s' substr with
      | Some i => Some (S i)
      | None => if HasPrefix s substr then Some 0%nat else None
      end
  end.

(** [strings.IndexByte], with [None] for -1. *)
Fixpoint IndexByte (s : string) (c : ascii) : option nat :=
  match s with
  | EmptyString => None
  | String a s' => if Ascii.eqb a c then Some 0%nat else S <$> IndexByte s' c
  end.

Definition HasSuffix (s suffix : string) : bool :=
  (slen suffix <=? slen s)%nat && (string_drop (slen s - slen suffix) s =?s suffix).

(** [strings.Cut]: the text before and after the first separator. *)
Definition Cut (s sep : string) : string * string * bool :=
  match Index s sep with
  | Some i => (string_take i s, string_drop (i + slen sep) s, true)
  | None => (s, EmptyString, false)
  end.

(** [strings.Count] of a one-byte substring. *)
Fixpoint CountByte (s : string) (c : ascii) : nat :=
  match s with
  | EmptyString => 0
  | String a s' => (if Ascii.eqb a c then 1 else 0) + CountByte s' c
  end%nat.

(** ** Trimming *)

Definition TrimSuffix (s suffix : string) : string :=
  if HasSuffix s suffix then string_take (slen s - slen suffix) s else s.

(** [strings.TrimRight] with a one-byte cutset. *)
Fixpoint TrimRightByte (s : string) (c : ascii) : string :=
  match s with
  | EmptyString => EmptyString
  | String a s' =>
      match TrimRightByte s' c with
      | EmptyString => if Ascii.eqb a c then EmptyString else str1 a
      | t => String a t
      end
  end.

Fixpoint drop_while {A} (p : A → bool) (l : list A) : list A :=
  match l with
  | [] => []
  | a :: l' => if p a then drop_while p l' else l
  end.

Definition trim_cells (p : Z → bool) (l : list cell) : list cell :=
  let q := λ c, p (rune c) in reverse (drop_while q (reverse (drop_while q l))).

(** [strings.TrimFunc]. *)
Definition TrimFunc (s : string) (p : Z → bool) : string := of_cells (trim_cells p (decode s)).
Definition TrimSpace (s : string) : string := TrimFunc s IsSpace.
(** [strings.Trim]: the cutset is a string of runes. *)
Definition Trim (s cutset : string) : string :=
  TrimFunc s (λ r, existsb (Z.eqb r) (rune <$> decode cutset)).

(** ** Splitting and joining *)

(** The maximal runs of cells that are not separators. *)
Fixpoint fields_cells (p : Z → bool) (cur : list cell) (l : list cell) : list (list cell) :=
  let flush := match cur with [] => [] | _ => [cur] end in
  match l with
  | [] => flush
  | c :: l' =>
      if p (rune c) then flush ++ fields_cells p [] l' else fields_cells p (cur ++ [c]) l'
  end.

(** [strings.Fields]. *)
Definition Fields (s : string) : list string := of_cells <$> fields_cells IsSpace [] (decode s).

(** [strings.Split] with a one-byte separator. *)
Fixpoint SplitByte (s : string) (c : ascii) : list string :=
  match s with
  | EmptyString => [EmptyString]
  | String a s' =>
      if Ascii.eqb a c then EmptyString :: SplitByte s' c
      else match SplitByte s' c with
           | f :: fs => String a f :: fs
           | [] => [str1 a]
           end
  end.

(** [strings.Join]. *)
Fixpoint Join (l : list string) (sep : string) : string :=
  match l with
  | [] => EmptyString
  | [s] => s
  | s :: l' => s +:+ sep +:+ Join l' sep
  end.

(** ** Case *)

Definition map_runes (f : Z → Z) (s : string) : string :=
  concat_strings ((λ c, EncodeRune (f (rune c))) <$> decode s).

Definition ToLower (s : string) : string := map_runes to_lower s.
Definition ToUpper (s : string) : string := map_runes to_upper s.

(** The ASCII part of [ToLower], byte by byte. *)
Definition lower_byte (a : ascii) : ascii :=
  if is_upper_ascii (bval a) then byte_of (bval a + 32) else a.
Definition is_ascii (s : string) : bool := all_bytes ascii_byte s.
Definition not_capital (a : ascii) : bool := negb (is_upper_ascii (bval a)).

Fixpoint map_bytes (f : ascii → ascii) (s : string) : string :=
  match s with
  | EmptyString => EmptyString
  | String a s' => String (f a) (map_bytes f s')
  end.

(** ** Lemmas: searching *)

Lemma HasPrefix_iff s p : HasPrefix s p = true ↔ ∃ t, s = p +:+ t.
Proof.
  revert s; induction p as [|x p IH]; intros s; simpl.
  { split; eauto. }
  destruct s as [|a s]; simpl.
  { split; [done|]. by intros [t ?]. }
  rewrite andb_true_iff, Ascii.eqb_eq, IH. split.
  - intros [-> [t ->]]. eauto.
  - intros [t [= -> ->]]. eauto.
Qed.

Lemma HasPrefix_app p t : HasPrefix (p +:+ t) p = true.
Proof. apply HasPrefix_iff. eauto. Qed.

Lemma HasPrefix_drop s p : HasPrefix s p = true → s = p +:+ string_drop (slen p) s.
Proof. intros [t ->]%HasPrefix_iff. by rewrite string_drop_app. Qed.

Lemma HasPrefix_len s p : HasPrefix s p = true → (slen p ≤ slen s)%nat.
Proof. intros [t ->]%HasPrefix_iff. rewrite slen_app. lia. Qed.

Lemma Contains_iff s p : Contains s p = true ↔ ∃ a b, s = a +:+ p +:+ b.
Proof.
  induction s as [|x s IH]; simpl; rewrite orb_true_iff, HasPrefix_iff.
  - split.
    + intros [[t Ht]|?]; [|done]. exists EmptyString, t. done.
    + intros (a & b & Hab). left. destruct a; simpl in Hab; [eauto|done].
  - rewrite IH. split.
    + intros [[t Ht]|(a & b & ->)]; [by exists EmptyString, t|].
      by exists (String x a), b.
    + intros ([|y a] & b & Hab); simpl in Hab; [eauto|].
      right. injection Hab as -> ->. eauto.
Qed.

Lemma Contains_app_l a s p : Contains s p = true → Contains (a +:+ s) p = true.
Proof.
  rewrite !Contains_iff. intros (x & y & ->). exists (a +:+ x), y. by rewrite sapp_assoc.
Qed.

Lemma Contains_app_r a s p : Contains s p = true → Contains (s +:+ a) p = true.
Proof.
  rewrite !Contains_iff. intros (x & y & ->). exists x, (y +:+ a). by rewrite !sapp_assoc.
Qed.

Lemma Contains_trans s p q : Contains s p = true → Contains p q = true → Contains s q = true.
Proof.
  rewrite !Contains_iff. intros (a & b & ->) (c & d & ->).
  exists (a +:+ c), (d +:+ b). by rewrite !sapp_assoc.
Qed.

Lemma HasPrefix_Contains s p : HasPrefix s p = true → Contains s p = true.
Proof. intros H. destruct s; simpl in *; by rewrite H. Qed.

Lemma Contains_all_bytes f s p :
  all_bytes f s = true → Contains s p = true → all_bytes f p = true.
Proof.
  intros Hs (a & b & ->)%Contains_iff. rewrite !all_bytes_app in Hs. by bool_hyps.
Qed.

(** [Index] finds the first occurrence. *)
Lemma Index_Some s p i :
  Index s p = Some i ↔
  HasPrefix (string_drop i s) p = true ∧ (i ≤ slen s)%nat ∧
  ∀ j, (j < i)%nat → HasPrefix (string_drop j s) p = false.
Proof.
  revert i; induction s as [|a s IH]; intros i; simpl.
  - destruct (HasPrefix "" p) eqn:E.
    + split; [intros [= <-]; auto with lia|].
      intros (_ & Hi & _). f_equal. lia.
    + split; [done|]. intros (H & Hi & _). destruct i; simpl in *; congruence.
  - destruct (HasPrefix (String a s) p) eqn:E.
    + split; [intros [= <-]; simpl; auto with lia|].
      intros (_ & _ & Hj). destruct i as [|i]; [done|].
      specialize (Hj 0%nat ltac:(lia)). simpl in Hj. congruence.
    + destruct i as [|i].
      { split; [by destruct (Index s p)|]. intros (H & _). simpl in H. congruence. }
      transitivity (Index s p = Some i).
      { destruct (Index s p); simpl; split; congruence. }
      rewrite IH. simpl. split.
      * intros (? & ? & Hj). split_and!; [done|lia|].
        intros [|j] Hlt; simpl; [done|]. apply Hj. lia.
      * intros (? & ? & Hj). split_and!; [done|lia|].
        intros j Hlt. apply (Hj (S j)). lia.
Qed.

Lemma Index_None s p : Index s p = None ↔ Contains s p = false.
Proof.
  induction s as [|a s IH]; simpl; destruct (HasPrefix _ p); simpl; try done.
  rewrite <-IH. by destruct (Index s p).
Qed.

Lemma Contains_Index s p : Contains s p = true ↔ is_Some (Index s p).
Proof.
  rewrite <-not_false_iff_true, <-Index_None, <-not_eq_None_Some. tauto.
Qed.

(** ** Lemmas: case *)

(** Splitting in front of a byte that starts a rune does not change the decoding. *)
Lemma decode_app_start a x s :
  is_cont x = false → decode (a +:+ String x s) = decode a ++ decode (String x s).
Proof.
  intros Hx. induction a as [a IH] using string_len_ind.
  destruct a as [|b a1]; [done|].
  assert (∀ lo hi, between lo hi x = true → 0x80 ≤ lo → hi ≤ 0xBF → False) as Hnb.
  { intros lo hi H Hlo Hhi. unfold between, is_cont in *. bool_hyps.
    unfold between in Hx. apply andb_false_iff in Hx as [Hx|Hx]; bool_hyps; lia. }
  assert (∀ r, Cell r (str1 b) :: decode (a1 +:+ String x s) =
    (Cell r (str1 b) :: decode a1) ++ decode (String x s)) as Hone.
  { intros r. rewrite IH by (simpl; lia). done. }
  cbn [String.append]. cbn [decode].
  pose proof (Hone (bval b)) as Hb. pose proof (Hone RuneError) as He.
  destruct (lead_of (bval b)) as [| | |lo hi|lo hi] eqn:El; try done.
  all: assert (∀ lo hi, lead_of (bval b) = L3 lo hi ∨ lead_of (bval b) = L4 lo hi →
         0x80 ≤ lo ∧ hi ≤ 0xBF) as Hlh
    by (intros ?? Hl; unfold lead_of in Hl; repeat case_bool; destruct Hl; simplify_eq; lia).
  - destruct a1 as [|c a2]; cbn [String.append] in *.
    + by rewrite Hx.
    + case_bool; [|done]. rewrite (IH a2) by (simpl; lia). done.
  - destruct (Hlh lo hi) as [? ?]; [auto|].
    destruct a1 as [|c [|d a3]]; cbn [String.append] in *.
    + destruct s as [|c s]; [done|]. destruct (between lo hi x) eqn:E; [|done].
      exfalso; eauto.
    + rewrite Hx, andb_false_r. done.
    + case_bool; [|done]. rewrite (IH a3) by (simpl; lia). done.
  - destruct (Hlh lo hi) as [? ?]; [auto|].
    destruct a1 as [|c [|d [|e a4]]]; cbn [String.append] in *.
    + destruct s as [|c [|d s]]; try done. destruct (between lo hi x) eqn:E; [|done].
      exfalso; eauto.
    + destruct s as [|d s]; try done. rewrite Hx. simpl. rewrite andb_false_r. done.
    + rewrite Hx, !andb_false_r. done.
    + case_bool; [|done]. rewrite (IH a4) by (simpl; lia). done.
Qed.

(** An ASCII byte inside a cell is the whole cell. *)
Lemma decode_cell_ascii s c :
  c ∈ decode s → all_bytes high_byte (raw c) = true ∨ ∃ a, c = Cell (bval a) (str1 a) ∧ ascii_byte a = true.
Proof.
  induction s as [s IH] using string_len_ind. intros Hc.
  destruct (decide (s = EmptyString)) as [->|Hne]; [by apply elem_of_nil in Hc|].
  destruct (decode_step s Hne) as (c' & t & Hs & Hraw & Hlt). rewrite Hs in Hc.
  apply elem_of_cons in Hc as [->|Hc]; [|by eapply IH]. clear IH.
  destruct s as [|a s1]; [done|].
  assert (Hhi : ∀ x, ascii_byte x = false → high_byte x = true)
    by (intros x; unfold ascii_byte, high_byte; lia).
  assert (Hct : ∀ lo hi x, 0x80 ≤ lo → between lo hi x = true → high_byte x = true)
    by (intros lo hi x; unfold between, high_byte; lia).
  assert (Hco : ∀ x, is_cont x = true → high_byte x = true) by (intros x; by apply Hct).
  destruct (ascii_byte a) eqn:Ea.
  { right. exists a. split; [|done]. rewrite decode_ascii in Hs by done. by injection Hs. }
  left. pose proof (Hhi _ Ea) as Ha. cbn [decode] in Hs.
  destruct (lead_of (bval a)) as [| | |lo hi|lo hi] eqn:El.
  { unfold lead_of in El. unfold ascii_byte in Ea. rewrite Ea in El. by repeat case_match. }
  all: try (assert (0x80 ≤ lo) as Hlo by (unfold lead_of in El; repeat case_match; simplify_eq; lia)).
  all: repeat case_match; bool_hyps; simplify_eq; simpl; rewrite ?Ha;
    repeat match goal with
    | H : is_cont _ = true |- _ => apply Hco in H as ->
    | H : between _ _ _ = true |- _ => apply Hct in H as ->; [|done]
    end; done.
Qed.

Lemma ascii_not_cont x : ascii_byte x = true → is_cont x = false.
Proof.
  unfold ascii_byte, is_cont, between. intros H. bool_hyps.
  apply andb_false_iff. left. apply Z.leb_gt. lia.
Qed.

Lemma decode_ascii_app d b : is_ascii d = true → decode (d +:+ b) = decode d ++ decode b.
Proof.
  unfold is_ascii. induction d as [|x d IH]; intros H; [done|]. simpl in H. bool_hyps.
  change (String x d +:+ b) with (String x (d +:+ b)).
  rewrite !decode_ascii by done. rewrite IH by done. done.
Qed.

(** An ASCII text inside a string is decoded on its own. *)
Lemma decode_ascii_inside a d b :
  is_ascii d = true → d ≠ EmptyString →
  decode (a +:+ d +:+ b) = decode a ++ decode d ++ decode b.
Proof.
  intros Hd Hne. rewrite <-(decode_ascii_app d b) by done.
  destruct d as [|x d]; [done|]. unfold is_ascii in Hd. simpl in Hd. bool_hyps.
  apply decode_app_start. by apply ascii_not_cont.
Qed.

Lemma map_runes_inside f a d b :
  is_ascii d = true → d ≠ EmptyString →
  map_runes f (a +:+ d +:+ b) = map_runes f a +:+ map_runes f d +:+ map_runes f b.
Proof.
  intros. unfold map_runes. rewrite decode_ascii_inside by done.
  by rewrite !fmap_app, !concat_strings_app.
Qed.

Lemma byte_of_lower x : ascii_byte x = true → EncodeRune (to_lower (bval x)) = str1 (lower_byte x).
Proof.
  unfold ascii_byte, lower_byte. intros H. bool_hyps. rewrite to_lower_ascii by done.
  pose proof (bval_range x).
  destruct (is_upper_ascii (bval x)) eqn:E.
  - unfold is_upper_ascii in E. bool_hyps. rewrite EncodeRune_ascii by lia. done.
  - rewrite EncodeRune_ascii by lia. by rewrite byte_of_bval.
Qed.

(** On ASCII input [ToLower] works byte by byte. *)
Lemma ToLower_ascii s : is_ascii s = true → ToLower s = map_bytes lower_byte s.
Proof.
  unfold is_ascii, ToLower, map_runes. induction s as [|x s IH]; intros H; [done|].
  simpl in H. bool_hyps. rewrite decode_ascii by done. csimpl.
  rewrite byte_of_lower, IH by done. done.
Qed.

Lemma lower_byte_id x : not_capital x = true → lower_byte x = x.
Proof. unfold not_capital, lower_byte. intros H. bool_hyps. by rewrite H. Qed.

Lemma map_bytes_id f s : all_bytes (λ a, bool_decide (f a = a)) s = true → map_bytes f s = s.
Proof.
  induction s as [|x s IH]; simpl; [done|]. intros H. apply andb_prop in H as [H ?].
  apply bool_decide_eq_true in H. by rewrite H, IH.
Qed.

(** A lower-case ASCII text is its own lowering. *)
Lemma ToLower_fixed s :
  is_ascii s = true → all_bytes not_capital s = true → ToLower s = s.
Proof.
  intros Ha Hn. rewrite ToLower_ascii by done. apply map_bytes_id.
  eapply all_bytes_impl; [|exact Hn]. intros a Hx. apply bool_decide_eq_true.
  by apply lower_byte_id.
Qed.

(** [ToLower] leaves no ASCII capital. *)
Lemma ToLower_no_capital s : all_bytes not_capital (ToLower s) = true.
Proof.
  unfold ToLower, map_runes. induction (decode s) as [|c l IH]; csimpl; [done|].
  rewrite all_bytes_app, IH, andb_true_r.
  assert (0 ≤ to_lower (rune c) < 0x80 ∨ (to_lower (rune c) < 0 ∨ 0x80 ≤ to_lower (rune c)))
    as [Hr|Hr] by lia.
  - rewrite EncodeRune_ascii by done. simpl. unfold not_capital.
    rewrite bval_byte_of, Z.mod_small by lia. by rewrite to_lower_not_upper.
  - eapply all_bytes_impl; [|apply EncodeRune_high, Hr].
    intros a. unfold high_byte, not_capital, is_upper_ascii. intros H. bool_hyps.
    apply negb_true_iff, andb_false_iff. right. apply Z.leb_gt. lia.
Qed.

(** A pattern with an ASCII capital never occurs in a lowered string. *)
Lemma Contains_ToLower_capital s p :
  all_bytes not_capital p = false → Contains (ToLower s) p = false.
Proof.
  intros Hp. destruct (Contains (ToLower s) p) eqn:E; [|done].
  rewrite (Contains_all_bytes _ _ _ (ToLower_no_capital s) E) in Hp. done.
Qed.

(** Matching a lowered string against a lower-case ASCII pattern is
    case-insensitive: any spelling of the pattern in the input is found. *)
Lemma Contains_ToLower s d :
  is_ascii d = true → Contains s d = true → Contains (ToLower s) (ToLower d) = true.
Proof.
  intros Hd Hc. destruct (decide (d = EmptyString)) as [->|Hne].
  { apply Contains_iff. exists EmptyString, (ToLower s). done. }
  apply Contains_iff in Hc as (a & b & ->). apply Contains_iff.
  eexists _, _. unfold ToLower. by rewrite map_runes_inside.
Qed.

(** ** Lemmas: trimming and joining *)

Lemma TrimRightByte_app s c : TrimRightByte (s +:+ str1 c) c = TrimRightByte s c.
Proof.
  induction s as [|a s IH]; simpl.
  - by rewrite Ascii.eqb_refl.
  - by rewrite IH.
Qed.

(** What [TrimRight] leaves does not end with the trimmed byte, and the rest of
    the input consisted of it. *)
Lemma TrimRightByte_spec s c :
  ∃ t, s = TrimRightByte s c +:+ t ∧ all_bytes (Ascii.eqb c) t = true ∧
       HasSuffix (TrimRightByte s c) (str1 c) = false.
Proof.
  induction s as [|a s (t & Hs & Ht & Hf)]; simpl.
  { exists EmptyString. done. }
  destruct (TrimRightByte s c) as [|b r] eqn:E; simpl in *.
  - destruct (Ascii.eqb_spec a c) as [->|Hne].
    + exists (String c t). simpl. rewrite Ascii.eqb_refl. subst; done.
    + exists t. split_and!; [by subst|done|]. unfold HasSuffix. simpl.
      destruct (Ascii.eqb_spec a c); [congruence|done].
  - exists t. split_and!; [by f_equal|done|].
    unfold HasSuffix in *. simpl in *. rewrite Nat.sub_0_r in *. exact Hf.
Qed.

Lemma drop_while_suffix {A} (p : A → bool) l : ∃ k, l = k ++ drop_while p l ∧ Forall (λ x, p x = true) k.
Proof.
  induction l as [|a l (k & Hl & Hk)]; simpl; [by exists []|].
  destruct (p a) eqn:E.
  - exists (a :: k). simpl. split; [by f_equal|auto].
  - by exists [].
Qed.

Lemma drop_while_head {A} (p : A → bool) l a k : drop_while p l = a :: k → p a = false.
Proof.
  induction l as [|b l IH]; simpl; [done|]. destruct (p b) eqn:E; [auto|]. by intros [= -> ->].
Qed.

(** [TrimFunc] returns a contiguous part of its input. *)
Lemma trim_cells_infix p l : ∃ a b, l = a ++ trim_cells p l ++ b.
Proof.
  unfold trim_cells.
  destruct (drop_while_suffix (λ c, p (rune c)) l) as (a & Ha & _).
  set (m := drop_while _ l) in *.
  destruct (drop_while_suffix (λ c, p (rune c)) (reverse m)) as (b & Hb & _).
  exists a, (reverse b). rewrite Ha at 1. f_equal.
  rewrite <-reverse_app, <-Hb. by rewrite reverse_involutive.
Qed.

Lemma TrimFunc_infix s p : Contains s (TrimFunc s p) = true.
Proof.
  unfold TrimFunc. apply Contains_iff.
  destruct (trim_cells_infix p (decode s)) as (a & b & H).
  exists (of_cells a), (of_cells b).
  rewrite <-!of_cells_app, <-H. by rewrite decode_of_cells.
Qed.

(** The cells of the trimmed string are the trimmed cells. *)
Lemma decode_TrimFunc s p : decode (TrimFunc s p) = trim_cells p (decode s).
Proof.
  destruct (trim_cells_infix p (decode s)) as (a & b & H). by eapply decode_infix.
Qed.

Lemma trim_cells_head p l c k : trim_cells p l = c :: k → p (rune c) = false.
Proof.
  unfold trim_cells. set (q := λ c, p (rune c)).
  destruct (drop_while q l) as [|d m] eqn:E.
  { done. }
  pose proof (drop_while_head q l d m E) as Hd. intros H.
  destruct (drop_while_suffix q (reverse (d :: m))) as (j & Hj & Hall).
  apply (f_equal reverse) in Hj. rewrite reverse_involutive, reverse_app, H in Hj.
  injection Hj as -> _. exact Hd.
Qed.

(** Trimming is idempotent on what it returns: a non-empty result starts with a
    rune that is not trimmed. *)
Lemma TrimFunc_nonempty_head s p :
  TrimFunc s p ≠ EmptyString → ∃ c l, decode (TrimFunc s p) = c :: l ∧ p (rune c) = false.
Proof.
  intros Hne. rewrite decode_TrimFunc.
  destruct (trim_cells p (decode s)) as [|c l] eqn:E.
  - exfalso. apply Hne. unfold TrimFunc. by rewrite E.
  - exists c, l. split; [done|]. by eapply trim_cells_head.
Qed.

Lemma drop_while_app_true {A} (p : A → bool) l k :
  Forall (λ x, p x = true) l → drop_while p (l ++ k) = drop_while p k.
Proof. induction 1 as [|a l Ha _ IH]; simpl; [done|]. by rewrite Ha. Qed.

Lemma drop_while_app_false {A} (p : A → bool) l k :
  l ≠ [] → Forall (λ x, p x = false) l → ∃ m, drop_while p (k ++ l) = m ++ l.
Proof.
  intros Hne Hl. induction k as [|a k [m IH]]; simpl.
  - exists []. destruct Hl as [|b l Hb Hl]; [done|]. simpl. by rewrite Hb.
  - destruct (p a); [by exists m|]. by exists (a :: k).
Qed.

(** Trimming drops trimmed runes in front of a text that has none, keeps that
    text, and a part of what follows it. *)
Lemma trim_cells_core p w d r :
  Forall (λ c, p (rune c) = true) w → d ≠ [] → Forall (λ c, p (rune c) = false) d →
  ∃ r', trim_cells p (w ++ d ++ r) = d ++ r'.
Proof.
  intros Hw Hne Hd. unfold trim_cells. rewrite drop_while_app_true by done.
  destruct d as [|c d]; [done|]. inversion_clear Hd as [|?? Hc Hd'].
  assert (drop_while (λ c, p (rune c)) ((c :: d) ++ r) = (c :: d) ++ r) as ->.
  { simpl. by rewrite Hc. }
  rewrite reverse_app.
  destruct (drop_while_app_false (λ c, p (rune c)) (reverse (c :: d)) (reverse r)) as [m ->].
  - intros H. apply (f_equal length) in H. rewrite length_reverse in H. done.
  - apply Forall_reverse. by constructor.
  - exists (reverse m). by rewrite reverse_app, reverse_involutive.
Qed.

(** An ASCII word between ASCII blanks and anything else survives [TrimSpace] at
    the front. *)
Lemma TrimSpace_word w d r :
  is_ascii w = true → all_bytes (λ a, IsSpace (bval a)) w = true →
  is_ascii d = true → d ≠ EmptyString → all_bytes (λ a, negb (IsSpace (bval a))) d = true →
  ∃ r', TrimSpace (w +:+ d +:+ r) = d +:+ r' ∧ decode (d +:+ r') = decode d ++ decode r'.
Proof.
  intros Hw Hws Hd Hne Hdn.
  assert (∀ (q : ascii → bool) s, is_ascii s = true → all_bytes q s = true →
            Forall (λ c, ∃ a, rune c = bval a ∧ q a = true) (decode s)) as Hcells.
  { intros q s. induction s as [|a s IH]; intros H1 H2; [constructor|].
    unfold is_ascii in *. simpl in H1, H2. bool_hyps. rewrite decode_ascii by done.
    constructor; [by exists a|auto]. }
  destruct (trim_cells_core IsSpace (decode w) (decode d) (decode r)) as [r' Hr].
  - eapply List.Forall_impl; [|by apply (Hcells (λ a, IsSpace (bval a)) w)]. by intros c (a & -> & ?).
  - intros H. apply (f_equal of_cells) in H. by rewrite decode_of_cells in H.
  - eapply List.Forall_impl; [|by apply (Hcells (λ a, negb (IsSpace (bval a))) d)].
    intros c (a & -> & ?). by bool_hyps.
  - exists (of_cells r'). split; [|by apply decode_ascii_app].
    unfold TrimSpace, TrimFunc. rewrite decode_ascii_inside by done.
    by rewrite Hr, of_cells_app, decode_of_cells.
Qed.

(** A run under way always yields a field. *)
Lemma fields_cells_some p cur l : cur ≠ [] → fields_cells p cur l ≠ [].
Proof.
  revert cur; induction l as [|c l IH]; intros cur Hc; simpl.
  - by destruct cur.
  - case_bool; [by destruct cur|]. apply IH. by destruct cur.
Qed.

(** [strings.Fields(strings.TrimSpace(s))] is empty only when the trimmed string
    is: its first element exists. *)
Lemma Fields_TrimSpace_nonempty s : TrimSpace s ≠ EmptyString → Fields (TrimSpace s) ≠ [].
Proof.
  intros (c & l & Hd & Hc)%TrimFunc_nonempty_head. unfold Fields, TrimSpace.
  rewrite Hd. simpl. rewrite Hc. intros H%fmap_nil_inv. by apply fields_cells_some in H.
Qed.

(** Every field is non-empty. *)
Lemma fields_cells_nonempty p cur l : Forall (λ f, f ≠ []) (fields_cells p cur l).
Proof.
  revert cur; induction l as [|c l IH]; intros cur; simpl.
  - destruct cur; repeat constructor. done.
  - case_bool; [|apply IH]. apply Forall_app. split; [|apply IH].
    destruct cur; repeat constructor. done.
Qed.

(** No field contains a separator. *)
Lemma fields_cells_no_sep p cur l :
  Forall (λ c, p (rune c) = false) cur →
  Forall (Forall (λ c, p (rune c) = false)) (fields_cells p cur l).
Proof.
  revert cur; induction l as [|c l IH]; intros cur Hc; simpl.
  - destruct cur; repeat constructor; by inversion Hc.
  - case_bool.
    + apply Forall_app. split; [|by apply IH]. destruct cur; repeat constructor; by inversion Hc.
    + apply IH, Forall_app. auto.
Qed.

Lemma SplitByte_nonempty s c : SplitByte s c ≠ [].
Proof. destruct s as [|a s]; simpl; [done|]. case_bool; [done|]. by case_match. Qed.

(** [Join] undoes [Split]. *)
Lemma Join_SplitByte s c : Join (SplitByte s c) (str1 c) = s.
Proof.
  induction s as [|a s IH]; simpl; [done|]. pose proof (SplitByte_nonempty s c).
  destruct (Ascii.eqb_spec a c) as [->|Hne].
  - destruct (SplitByte s c) as [|f fs] eqn:E; [done|]. simpl in *. by rewrite IH.
  - destruct (SplitByte s c) as [|f [|g fs]] eqn:E; [done|..]; simpl in *; by rewrite IH.
Qed.

#[export] Hint Resolve HasPrefix_Contains ToLower_no_capital Contains_app_l Contains_app_r : gostr.
