(* ===== verification/GoURL.v ===== *)
(** * The [net/url] package

    [url.Parse], [URL.Hostname] and [url.QueryEscape], as of the Go release the
    repository's [go.mod] asks for (1.26: a host with an unbracketed colon that
    is not a port is refused, a bracketed host must be an IPv6 address). *)

From S2P Require Import Prelude Unicode GoStrings.

Local Open Scope Z_scope.

(** ** Characters and escaping *)

Inductive encoding :=
  | encodePath | encodePathSegment | encodeHost | encodeZone
  | encodeUserPassword | encodeQueryComponent | encodeFragment.

#[export] Instance encoding_eq_dec : EqDecision encoding.
Proof. solve_decision. Defined.

Definition in_set (a : ascii) (set : string) : bool :=
  match IndexByte set a with Some _ => true | None => false end.

Definition is_digit (a : ascii) : bool := between 48 57 a.
Definition is_alpha (a : ascii) : bool := between 97 122 a || between 65 90 a.
Definition is_alnum (a : ascii) : bool := is_alpha a || is_digit a.
Definition ishex (a : ascii) : bool := is_digit a || between 97 102 a || between 65 70 a.
Definition unhex (a : ascii) : Z :=
  if is_digit a then bval a - 48
  else if between 97 102 a then bval a - 97 + 10
  else if between 65 70 a then bval a - 65 + 10
  else 0.

(** [shouldEscape]: must the byte be escaped in that part of a URL? *)
Definition shouldEscape (c : ascii) (mode : encoding) : bool :=
  if is_alnum c then false
  else if bool_decide (mode = encodeHost ∨ mode = encodeZone) &&
          (in_set c "!$&'()*+,;=:[]<>" || in_set c dquote) then false
  else if in_set c "-_.~" then false
  else if in_set c "$&+,/:;=?@" then
    match mode with
    | encodePath => in_set c "?"
    | encodePathSegment => in_set c "/;,?"
    | encodeUserPassword => in_set c "@/?:"
    | encodeQueryComponent => true
    | encodeFragment => false
    | encodeHost | encodeZone => true
    end
  else if bool_decide (mode = encodeFragment) && in_set c "!()*" then false
  else true.

(** [unescape], [None] for an [EscapeError] or an [InvalidHostError]. *)
Fixpoint unescape (mode : encoding) (s : string) : option string :=
  match s with
  | EmptyString => Some EmptyString
  | String a s1 =>
      if Ascii.eqb a "%" then
        match s1 with
        | String h (String l s3) =>
            let v := Z.lor (Z.shiftl (unhex h) 4) (unhex l) in
            let is25 := Ascii.eqb h "2" && Ascii.eqb l "5" in
            if negb (ishex h && ishex l) then None
            else if bool_decide (mode = encodeHost) && (unhex h <? 8) && negb is25 then None
            else if bool_decide (mode = encodeZone) && negb is25 && negb (v =? 32) &&
                    shouldEscape (byte_of v) encodeHost then None
            else String (byte_of v) <$> unescape mode s3
        | _ => None
        end
      else if Ascii.eqb a "+" then
        String (if bool_decide (mode = encodeQueryComponent) then " "%char else a)
          <$> unescape mode s1
      else if bool_decide (mode = encodeHost ∨ mode = encodeZone) && ascii_byte a &&
              shouldEscape a mode then None
      else String a <$> unescape mode s1
  end.

Definition hex_digit (z : Z) : ascii := byte_of (if z <? 10 then 48 + z else 55 + z).

(** [url.QueryEscape]. *)
Fixpoint QueryEscape (s : string) : string :=
  match s with
  | EmptyString => EmptyString
  | String a s1 =>
      if Ascii.eqb a " " then String "+" (QueryEscape s1)
      else if shouldEscape a encodeQueryComponent then
        String "%" (String (hex_digit (Z.shiftr (bval a) 4))
          (String (hex_digit (Z.land (bval a) 15)) (QueryEscape s1)))
      else String a (QueryEscape s1)
  end.

(** ** IP literals: [netip.ParseAddr] on a bracketed host *)

(** One decimal field of an IPv4 address: one to three digits, no leading zero,
    at most 255. *)
Definition ip4_field (s : string) : bool :=
  all_bytes is_digit s &&
  match s with
  | EmptyString => false
  | String a EmptyString => true
  | String a _ => negb (Ascii.eqb a "0") && (slen s <=? 3)%nat
  end &&
  (match s with
   | String a (String b (String c EmptyString)) =>
       (bval a - 48) * 100 + (bval b - 48) * 10 + (bval c - 48) <=? 255
   | _ => true
   end).

Definition valid_ip4 (s : string) : bool :=
  let fs := SplitByte s "." in (length fs =? 4)%nat && forallb ip4_field fs.

Fixpoint span_hex (s : string) : string * string :=
  match s with
  | String a s' => if ishex a then let '(h, r) := span_hex s' in (String a h, r)
                   else (EmptyString, s)
  | EmptyString => (EmptyString, EmptyString)
  end.

(** The group loop of [parseIPv6]: [i] counts the bytes filled so far, [ell]
    says whether an ellipsis was seen.  Eight rounds fill the address, so the
    fuel of [valid_ip6] is the loop bound of the source. *)
Fixpoint ip6_loop (fuel : nat) (i : Z) (ell : bool) (s : string) : bool :=
  match fuel with
  | O => (slen s =? 0)%nat && (if i <? 16 then ell else negb ell)
  | S fuel =>
      let finish i ell s := (slen s =? 0)%nat && (if i <? 16 then ell else negb ell) in
      let '(h, r) := span_hex s in
      if (slen h =? 0)%nat || (4 <? slen h)%nat then false
      else match r with
      | String "." _ =>
          (ell || (i =? 12)) && (i + 4 <=? 16) && valid_ip4 s && finish (i + 4) ell EmptyString
      | EmptyString => finish (i + 2) ell EmptyString
      | String ":" EmptyString => false
      | String ":" (String ":" r2) =>
          if ell then false
          else match r2 with
               | EmptyString => finish (i + 2) true EmptyString
               | _ => ip6_loop fuel (i + 2) true r2
               end
      | String ":" r1 => ip6_loop fuel (i + 2) ell r1
      | _ => false
      end
  end.

Definition valid_ip6 (s : string) : bool :=
  let '(addr, zone, has_zone) := Cut s "%" in
  if has_zone && (slen zone =? 0)%nat then false
  else if HasPrefix addr "::" then
    match string_drop 2 addr with
    | EmptyString => true
    | r => ip6_loop 8 0 true r
    end
  else ip6_loop 8 0 false addr.

(** The dispatch of [ParseAddr] on the first of dot, colon and percent, with the
    IPv4 result refused as [parseHost] does. *)
Fixpoint first_sep (s : string) : option ascii :=
  match s with
  | EmptyString => None
  | String a s' => if in_set a ".:%" then Some a else first_sep s'
  end.

Definition valid_ip_literal (s : string) : bool :=
  match first_sep s with
  | Some ":"%char => valid_ip6 s
  | _ => false
  end.

(** ** Parsing *)

Record URL := mkURL {
  Scheme : string; Opaque : string; Host : string; Path : string; RawQuery : string }.

Definition validOptionalPort (port : string) : bool :=
  match port with
  | EmptyString => true
  | String a p => Ascii.eqb a ":" && all_bytes is_digit p
  end.

Definition validUserinfo (s : string) : bool :=
  all_bytes (λ a, is_alnum a || in_set a "-._:~!$&'()*+,;=%@") s.

Definition parseHost (host : string) : option string :=
  match LastIndex host "[" with
  | Some (S _) => None
  | Some O =>
      match LastIndex host "]" with
      | None => None
      | Some close =>
          let colonPort := string_drop (close + 1) host in
          if negb (validOptionalPort colonPort) then None
          else
            port ← unescape encodeHost colonPort;
            let hostname := string_take (close - 1) (string_drop 1 host) in
            name ← match Index hostname "%25" with
                   | Some z =>
                       h ← unescape encodeHost (string_take z hostname);
                       zn ← unescape encodeZone (string_drop z hostname);
                       Some (h +:+ zn)
                   | None => unescape encodeHost hostname
                   end;
            if valid_ip_literal name then Some ("[" +:+ name +:+ "]" +:+ port) else None
      end
  | None =>
      match Index host ":" with
      | Some i => if validOptionalPort (string_drop i host) then unescape encodeHost host else None
      | None => unescape encodeHost host
      end
  end.

(** The host of an authority; the user information only has to be valid. *)
Definition parseAuthority (authority : string) : option string :=
  match LastIndex authority "@" with
  | None => parseHost authority
  | Some i =>
      host ← parseHost (string_drop (i + 1) authority);
      let userinfo := string_take i authority in
      if negb (validUserinfo userinfo) then None
      else
        let '(user, pass, _) := Cut userinfo ":" in
        _ ← unescape encodeUserPassword user;
        _ ← unescape encodeUserPassword pass;
        Some host
  end.

(** [getScheme]: the scheme and the rest, [None] for a missing scheme. *)
Fixpoint getScheme_from (first : bool) (acc s rawURL : string) : option (string * string) :=
  match s with
  | EmptyString => Some (EmptyString, rawURL)
  | String c s' =>
      if is_alpha c then getScheme_from false (acc +:+ str1 c) s' rawURL
      else if is_digit c || in_set c "+-." then
        if first then Some (EmptyString, rawURL)
        else getScheme_from false (acc +:+ str1 c) s' rawURL
      else if Ascii.eqb c ":" then if first then None else Some (acc, s')
      else Some (EmptyString, rawURL)
  end.
Definition getScheme (rawURL : string) : option (string * string) :=
  getScheme_from true EmptyString rawURL rawURL.

Definition is_ctl (a : ascii) : bool := (bval a <? 32) || (bval a =? 127).
Definition stringContainsCTLByte (s : string) : bool := negb (all_bytes (λ a, negb (is_ctl a)) s).

(** The text in front of the query and the query. *)
Definition split_query (rest : string) : string * string :=
  if HasSuffix rest "?" && (CountByte rest "?" =? 1)%nat
  then (string_take (slen rest - 1) rest, EmptyString)
  else let '(r, q, _) := Cut rest "?" in (r, q).

(** [parse] with [viaRequest] false. *)
Definition parse (rawURL : string) : option URL :=
  if stringContainsCTLByte rawURL then None
  else if rawURL =?s "*" then Some (mkURL "" "" "" "*" "")
  else
    '(scheme0, rest0) ← getScheme rawURL;
    let scheme := ToLower scheme0 in
    let '(rest, query) := split_query rest0 in
    if negb (HasPrefix rest "/") && (scheme <>?s "") then Some (mkURL scheme rest "" "" query)
    else if negb (HasPrefix rest "/") && Contains (Cut rest "/").1.1 ":" then None
    else
      '(host, path) ←
        (if ((scheme <>?s "") || negb (HasPrefix rest "///")) && HasPrefix rest "//" then
           let authority0 := string_drop 2 rest in
           let '(authority, r) :=
             match Index authority0 "/" with
             | Some i => (string_take i authority0, string_drop i authority0)
             | None => (authority0, EmptyString)
             end in
           host ← parseAuthority authority; Some (host, r)
         else Some (EmptyString, rest));
      p ← unescape encodePath path;
      Some (mkURL scheme "" host p query).

(** [url.Parse]; the fragment is cut off first and only has to unescape. *)
Definition Parse (rawURL : string) : option URL :=
  let '(u, frag, _) := Cut rawURL "#" in
  url ← parse u;
  match frag with
  | EmptyString => Some url
  | _ => _ ← unescape encodeFragment frag; Some url
  end.

(** [URL.Hostname]: the host without port and brackets. *)
Definition Hostname (u : URL) : string :=
  let host := Host u in
  let host :=
    match LastIndex host ":" with
    | Some i => if validOptionalPort (string_drop i host) then string_take i host else host
    | None => host
    end in
  if HasPrefix host "[" && HasSuffix host "]"
  then string_take (slen host - 2) (string_drop 1 host) else host.

Example Parse_plain :
  Parse "https://Www.Shutterstock.com:443/a%20b/stock-photo?x=1#f" =
  Some (mkURL "https" "" "Www.Shutterstock.com:443" "/a b/stock-photo" "x=1").
Proof. vm_compute. reflexivity. Qed.
Example Parse_userinfo : Host <$> Parse "https://u:p@h.org/x" = Some "h.org".
Proof. vm_compute. reflexivity. Qed.
Example Parse_ip6 : Host <$> Parse "http://[fe80::1%25en0]:80/x" = Some "[fe80::1%en0]:80".
Proof. vm_compute. reflexivity. Qed.
Example Parse_bad_escape : Parse "https://h.org/%zz" = None.
Proof. vm_compute. reflexivity. Qed.
Example Parse_opaque : Parse "data:image/png;base64,AA" = Some (mkURL "data" "image/png;base64,AA" "" "" "").
Proof. vm_compute. reflexivity. Qed.
Example Parse_relative : Parse "//cdn.x.com/p.jpg" = Some (mkURL "" "" "cdn.x.com" "/p.jpg" "").
Proof. vm_compute. reflexivity. Qed.
Example Parse_two_colons : Parse "http://localhost:80:80/" = None.
Proof. vm_compute. reflexivity. Qed.

(** ** Lemmas: query escaping *)

(** What a byte-wise claim about all 256 bytes comes down to. *)
Lemma forall_bytes (p : ascii → bool) :
  forallb p (ascii_of_nat <$> seq 0 256) = true → ∀ a, p a = true.
Proof.
  intros H a. rewrite forallb_forall in H. apply H. rewrite <-list_elem_of_In.
  apply list_elem_of_fmap. exists (nat_of_ascii a). rewrite ascii_nat_embedding.
  split; [done|]. apply elem_of_seq. pose proof (nat_ascii_bounded a). lia.
Qed.

Ltac all_bytes_check a :=
  revert a; match goal with
  | |- ∀ a, @?p a = true => apply (forall_bytes p); vm_compute; reflexivity
  end.

(** The bytes [QueryEscape] produces. *)
Definition escaped_char (a : ascii) : bool := is_alnum a || in_set a "-_.~+%".

Lemma QueryEscape_byte a :
  negb (shouldEscape a encodeQueryComponent) || 
  (escaped_char (hex_digit (Z.shiftr (bval a) 4)) && escaped_char (hex_digit (Z.land (bval a) 15)))
  = true.
Proof. all_bytes_check a. Qed.

Lemma QueryEscape_verbatim a :
  shouldEscape a encodeQueryComponent ||
  (escaped_char a && negb (Ascii.eqb a "%") && negb (Ascii.eqb a "+")) = true.
Proof. all_bytes_check a. Qed.

Lemma QueryEscape_alphabet s : all_bytes escaped_char (QueryEscape s) = true.
Proof.
  induction s as [|a s IH]; [done|]. cbn [QueryEscape].
  repeat case_bool; cbn [all_bytes]; rewrite IH, ?andb_true_r; [done|..].
  - pose proof (QueryEscape_byte a) as H. rewrite Eb0 in H. exact H.
  - pose proof (QueryEscape_verbatim a) as H. rewrite Eb0 in H. cbn in H. by bool_hyps.
Qed.

Lemma QueryEscape_byte_back a :
  negb (shouldEscape a encodeQueryComponent) ||
  (let h := hex_digit (Z.shiftr (bval a) 4) in
   let l := hex_digit (Z.land (bval a) 15) in
   ishex h && ishex l && Ascii.eqb (byte_of (Z.lor (Z.shiftl (unhex h) 4) (unhex l))) a)
  = true.
Proof. all_bytes_check a. Qed.

Lemma QueryEscape_unescape s : unescape encodeQueryComponent (QueryEscape s) = Some s.
Proof.
  induction s as [|a s IH]; [done|]. cbn [QueryEscape].
  destruct (Ascii.eqb_spec a " ") as [->|Hsp].
  { cbn [unescape]. simpl. by rewrite IH. }
  destruct (shouldEscape a encodeQueryComponent) eqn:E.
  - pose proof (QueryEscape_byte_back a) as H. rewrite E in H. cbv zeta in H.
    cbn [negb orb] in H. bool_hyps.
    cbn [unescape]. rewrite Ascii.eqb_refl.
    match goal with H1 : ishex _ = true, H2 : ishex _ = true |- _ => rewrite H1, H2 end.
    cbn [negb andb]. rewrite !bool_decide_false by done. cbn [andb].
    rewrite IH. simpl. by f_equal; f_equal.
  - pose proof (QueryEscape_verbatim a) as H. rewrite E in H. simpl in H. bool_hyps.
    cbn [unescape]. rewrite (proj2 (Ascii.eqb_neq a "%")), (proj2 (Ascii.eqb_neq a "+")) by done.
    rewrite bool_decide_false by naive_solver. cbn [andb]. by rewrite IH.
Qed.

(** ** Lemmas: parsing an absolute URL *)

Definition byte_ne (c a : ascii) : bool := negb (Ascii.eqb a c).

Lemma HasPrefix_str1_ne s c : all_bytes (byte_ne c) s = true → HasPrefix s (str1 c) = false.
Proof.
  destruct s as [|a s]; simpl; [done|]. unfold byte_ne. intros H. bool_hyps.
  destruct (Ascii.eqb_spec a c); [done|]. by destruct s.
Qed.

Lemma Index_absent s c : all_bytes (byte_ne c) s = true → Index s (str1 c) = None.
Proof.
  induction s as [|a s IH]; intros H; [done|]. cbn [Index].
  rewrite HasPrefix_str1_ne by done. simpl in H. bool_hyps. by rewrite IH.
Qed.

Lemma LastIndex_absent s c : all_bytes (byte_ne c) s = true → LastIndex s (str1 c) = None.
Proof.
  induction s as [|a s IH]; intros H; [done|]. cbn [LastIndex].
  rewrite HasPrefix_str1_ne by done. simpl in H. bool_hyps. by rewrite IH.
Qed.

Lemma LastIndex_app_absent s t c :
  all_bytes (byte_ne c) t = true → LastIndex (s +:+ t) (str1 c) = LastIndex s (str1 c).
Proof.
  intros Ht. induction s as [|a s IH].
  - simpl. rewrite LastIndex_absent by done. done.
  - cbn [String.append LastIndex]. rewrite IH. destruct (LastIndex s (str1 c)); [done|].
    simpl. destruct (Ascii.eqb a c); [|done]. by destruct (s +:+ t), s.
Qed.

Lemma LastIndex_at s t c :
  all_bytes (byte_ne c) t = true → LastIndex (s +:+ String c t) (str1 c) = Some (slen s).
Proof.
  intros Ht. induction s as [|a s IH].
  - cbn [String.append LastIndex]. rewrite LastIndex_absent by done. simpl.
    rewrite Ascii.eqb_refl. by destruct t.
  - cbn [String.append LastIndex]. by rewrite IH.
Qed.

Lemma Index_at s t c :
  all_bytes (byte_ne c) s = true → Index (s +:+ String c t) (str1 c) = Some (slen s).
Proof.
  induction s as [|a s IH]; intros H.
  - cbn. rewrite Ascii.eqb_refl. by destruct t.
  - simpl in H. bool_hyps. cbn [String.append Index].
    assert (HasPrefix (String a (s +:+ String c t)) (str1 c) = false) as ->.
    { unfold byte_ne in *. bool_hyps. simpl. destruct (Ascii.eqb_spec a c); done. }
    by rewrite IH.
Qed.

(** The byte [c] behind [s] is the first one exactly when [s] has none. *)
Lemma Index_first_iff s t c :
  Index (s +:+ String c t) (str1 c) = Some (slen s) ↔ all_bytes (byte_ne c) s = true.
Proof.
  split; [|apply Index_at]. induction s as [|a s IH]; [done|]. cbn [String.append Index].
  destruct (HasPrefix (String a (s +:+ String c t)) (str1 c)) eqn:E; [done|]. intros H.
  destruct (Index (s +:+ String c t) (str1 c)) as [j|]; simplify_eq/=.
  rewrite IH by done. rewrite andb_true_r. unfold byte_ne.
  destruct (Ascii.eqb a c) eqn:Ec; [|done]. by destruct (s +:+ String c t).
Qed.

Lemma Cut_absent s c : all_bytes (byte_ne c) s = true → Cut s (str1 c) = (s, EmptyString, false).
Proof. intros H. unfold Cut. by rewrite Index_absent. Qed.

Lemma CountByte_absent s c : all_bytes (byte_ne c) s = true → CountByte s c = 0%nat.
Proof.
  induction s as [|a s IH]; [done|]. intros H. simpl in *. unfold byte_ne in H at 1. bool_hyps.
  rewrite (proj2 (Ascii.eqb_neq a c)) by done. by rewrite IH.
Qed.

(** A byte that stands for itself in a host, and in a path. *)
Definition host_char (a : ascii) : bool := is_alnum a || in_set a "-._".
Definition path_char (a : ascii) : bool := is_alnum a || in_set a "-._~/,;=&$!()*'@:".

Lemma host_char_plain a :
  negb (host_char a) ||
  (byte_ne "%" a && byte_ne "+" a && negb (shouldEscape a encodeHost) && byte_ne "[" a &&
   byte_ne ":" a && byte_ne "@" a && byte_ne "/" a && byte_ne "#" a && byte_ne "?" a &&
   negb (is_ctl a)) = true.
Proof. all_bytes_check a. Qed.

Lemma path_char_plain a :
  negb (path_char a) ||
  (byte_ne "%" a && byte_ne "+" a && byte_ne "#" a && byte_ne "?" a && negb (is_ctl a)) = true.
Proof. all_bytes_check a. Qed.

(** Weakens a class of bytes to one of its consequences, byte by byte. *)
Ltac class_impl Hclass :=
  match type of Hclass with
  | all_bytes ?p ?s = true =>
      eapply all_bytes_impl; [|exact Hclass];
      let a := fresh "a" in let Ha := fresh "Ha" in let Hc := fresh "Hc" in
      intros a Ha;
      first [ pose proof (host_char_plain a) as Hc; rewrite Ha in Hc
            | pose proof (path_char_plain a) as Hc; rewrite Ha in Hc ];
      cbn [negb orb] in Hc; bool_hyps; first [done | by apply negb_true_iff]
  end.

Lemma unescape_plain mode s :
  all_bytes (λ a, byte_ne "%" a && byte_ne "+" a &&
     negb (bool_decide (mode = encodeHost ∨ mode = encodeZone) && shouldEscape a mode)) s = true →
  unescape mode s = Some s.
Proof.
  induction s as [|a s IH]; [done|]. intros H. cbn [all_bytes] in H. unfold byte_ne in H at 1 2.
  bool_hyps. cbn [unescape].
  rewrite (proj2 (Ascii.eqb_neq a "%")), (proj2 (Ascii.eqb_neq a "+")) by done.
  rewrite IH by done.
  match goal with H : _ && shouldEscape _ _ = false |- _ =>
    rewrite <-andb_assoc, (andb_comm (ascii_byte a)), andb_assoc, H end.
  done.
Qed.

Lemma parseAuthority_plain h : all_bytes host_char h = true → parseAuthority h = Some h.
Proof.
  intros Hh. unfold parseAuthority.
  change "@" with (str1 "@"). rewrite LastIndex_absent by class_impl Hh.
  unfold parseHost. change "[" with (str1 "["). rewrite LastIndex_absent by class_impl Hh.
  change ":" with (str1 ":"). rewrite Index_absent by class_impl Hh. apply unescape_plain.
  eapply all_bytes_impl; [|exact Hh]. intros a Ha. pose proof (host_char_plain a) as Hp.
  rewrite Ha in Hp. cbn [negb orb] in Hp. bool_hyps.
  repeat (apply andb_true_intro; split); try done.
  apply negb_true_iff. rewrite bool_decide_true by auto. done.
Qed.

(** An [https] URL with a plain host and a plain absolute path parses to that
    host and path. *)
Lemma Parse_https h p :
  all_bytes host_char h = true → all_bytes path_char p = true →
  (p = EmptyString ∨ HasPrefix p "/" = true) →
  Parse ("https://" +:+ h +:+ p) = Some (mkURL "https" "" h p "").
Proof.
  intros Hh Hp Hsl.
  assert (∀ q : ascii → bool, all_bytes q "https://" = true → all_bytes q h = true →
    all_bytes q p = true → all_bytes q ("https://" +:+ h +:+ p) = true) as Hall.
  { intros q H1 H2 H3. by rewrite !all_bytes_app, H1, H2, H3. }
  unfold Parse. change "#" with (str1 "#"). rewrite Cut_absent; [|apply Hall; [done|class_impl Hh|class_impl Hp]].
  unfold parse, stringContainsCTLByte.
  rewrite (Hall (λ a, negb (is_ctl a))); [|done|class_impl Hh|class_impl Hp].
  assert (getScheme ("https://" +:+ h +:+ p) = Some ("https", "//" +:+ h +:+ p)) as -> by done.
  cbn [negb String.append].
  change ((String "h" _ =?s "*")) with false. cbv iota.
  cbn [mbind option_bind]. change (ToLower "https") with "https".
  assert (split_query (String "/" (String "/" (h +:+ p))) = ("//" +:+ h +:+ p, "")) as ->.
  { unfold split_query.
    assert (all_bytes (byte_ne "?") ("//" +:+ h +:+ p) = true) as Hq.
    { rewrite !all_bytes_app. apply andb_true_intro. split; [done|].
      apply andb_true_intro. split; [class_impl Hh|class_impl Hp]. }
    cbn [String.append] in Hq. rewrite (CountByte_absent _ "?" Hq).
    rewrite andb_false_r. change "?" with (str1 "?"). by rewrite (Cut_absent _ "?" Hq). }
  cbn -[Index parseAuthority unescape string_take string_drop].
  cbn [string_drop].
  assert (unescape encodePath p = Some p) as Hup.
  { apply unescape_plain. eapply all_bytes_impl; [|exact Hp]. intros a Ha.
    pose proof (path_char_plain a) as Hpp. rewrite Ha in Hpp. cbn [negb orb] in Hpp. bool_hyps.
    rewrite bool_decide_false by naive_solver.
    repeat (apply andb_true_intro; split); done. }
  assert (all_bytes (byte_ne "/") h = true) as Hns by class_impl Hh.
  destruct Hsl as [->|(t & ->)%HasPrefix_iff].
  - rewrite sapp_nil_r. change "/" with (str1 "/"). rewrite (Index_absent h "/") by done.
    rewrite parseAuthority_plain by done. done.
  - cbn [String.append] in *. change "/" with (str1 "/"). rewrite (Index_at h t "/") by done.
    rewrite string_take_app, string_drop_app, parseAuthority_plain by done.
    cbn [mbind option_bind]. by rewrite Hup.
Qed.
