(* ===== verification/Regex.v ===== *)
(** * [regexp]

    The regular expressions of the repository as syntax trees, and a matcher with
    the leftmost-first semantics of Go's [regexp]: alternatives in order, greedy
    and lazy repetition, numbered groups.  The input is the sequence of cells of a
    string, so that an invalid byte is read as U+FFFD of width 1.

    Repetition is over single runes only, the case of all the patterns here.  The
    matcher is related to a plain matching relation: it finds a match exactly when
    there is one. *)

From S2P Require Import Prelude Unicode GoStrings.

Local Open Scope Z_scope.

(** ** Syntax *)

Inductive re :=
  | Eps
  | Chr (set : Z → bool)
  | Star (greedy : bool) (set : Z → bool)
  | WordB
  | EndText
  | Cat (a b : re)
  | Alt (a b : re)
  | Group (n : nat) (a : re).

(** [r+], [r*] and [r?] *)
Definition Plus (set : Z → bool) : re := Cat (Chr set) (Star true set).
Definition Opt (a : re) : re := Alt a Eps.

(** Character classes. *)
Definition is_rune (c r : Z) : bool := r =? c.
Definition any_of (l : list Z) (r : Z) : bool := existsb (Z.eqb r) l.
Definition none_of (l : list Z) (r : Z) : bool := negb (any_of l r).
Definition digit_rune (r : Z) : bool := (48 <=? r) && (r <=? 57).
(** [\s] *)
Definition perl_space : Z → bool := any_of [9; 10; 12; 13; 32].
(** [\w], for [\b] *)
Definition word_rune (r : Z) : bool :=
  digit_rune r || is_lower_ascii r || is_upper_ascii r || (r =? 95).

(** A letter under [(?i)]: both cases, and the two non-ASCII runes that fold to
    an ASCII letter, U+017F (s) and U+212A (k). *)
Definition fold_case (r : Z) : Z :=
  if is_upper_ascii r then r + 32 else if r =? 0x17F then 115 else if r =? 0x212A then 107 else r.
Definition same_fold (c r : Z) : bool := fold_case r =? fold_case c.

(** A literal, exact or under [(?i)]. *)
Fixpoint lit_runes (f : Z → Z → bool) (l : list Z) : re :=
  match l with
  | [] => Eps
  | [c] => Chr (f c)
  | c :: l' => Cat (Chr (f c)) (lit_runes f l')
  end.
Definition lit (s : string) : re := lit_runes is_rune (rune <$> decode s).
Definition ilit (s : string) : re := lit_runes same_fold (rune <$> decode s).

(** ** The matcher *)

(** A position: the rune in front of it, its index, the cells behind it. *)
Record pos := Pos { prev : option Z; idx : nat; rest : list cell }.

Definition advance (c : cell) (p : pos) (l : list cell) : pos := Pos (Some (rune c)) (S (idx p)) l.

(** [\b] *)
Definition at_boundary (p : pos) : bool :=
  let before := match prev p with Some r => word_rune r | None => false end in
  let behind := match rest p with c :: _ => word_rune (rune c) | [] => false end in
  xorb before behind.

(** Captured groups: from and to, as indices. *)
Abbreviation caps := (gmap nat (nat * nat)).

Section Matcher.
Context {A : Type}.

(** Repetition of a set from position [p], greedy or lazy. *)
Fixpoint star_loop (greedy : bool) (set : Z → bool) (l : list cell) (pr : option Z) (i : nat)
    (k : pos → option A) : option A :=
  match l with
  | [] => k (Pos pr i l)
  | c :: l' =>
      if set (rune c) then
        if greedy then
          match star_loop greedy set l' (Some (rune c)) (S i) k with
          | Some a => Some a
          | None => k (Pos pr i l)
          end
        else
          match k (Pos pr i l) with
          | Some a => Some a
          | None => star_loop greedy set l' (Some (rune c)) (S i) k
          end
      else k (Pos pr i l)
  end.

Fixpoint match_re (r : re) (p : pos) (cs : caps) (k : pos → caps → option A) : option A :=
  match r with
  | Eps => k p cs
  | Chr set =>
      match rest p with
      | c :: l => if set (rune c) then k (advance c p l) cs else None
      | [] => None
      end
  | Star greedy set => star_loop greedy set (rest p) (prev p) (idx p) (λ p', k p' cs)
  | WordB => if at_boundary p then k p cs else None
  | EndText => match rest p with [] => k p cs | _ => None end
  | Cat a b => match_re a p cs (λ p' cs', match_re b p' cs' k)
  | Alt a b =>
      match match_re a p cs k with
      | Some x => Some x
      | None => match_re b p cs k
      end
  | Group n a => match_re a p cs (λ p' cs', k p' (<[n := (idx p, idx p')]> cs'))
  end.
End Matcher.

(** The match that starts at [p]: where it ends and its groups. *)
Definition match_at (r : re) (p : pos) : option (pos * caps) := match_re r p ∅ (λ p' cs, Some (p', cs)).

(** The leftmost match at or behind [p]. *)
Fixpoint search_from (r : re) (pr : option Z) (i : nat) (l : list cell) : option (nat * pos * caps) :=
  match match_at r (Pos pr i l) with
  | Some (p', cs) => Some (i, p', cs)
  | None =>
      match l with
      | [] => None
      | c :: l' => search_from r (Some (rune c)) (S i) l'
      end
  end.

(** The text of cells [i] to [j]. *)
Definition slice (cells : list cell) (i j : nat) : string := of_cells (take (j - i) (drop i cells)).

(** [re.FindStringSubmatch(s)]: the text of a group, [None] for a group that took
    no part; and whether there is a match at all. *)
Definition FindSubmatch (r : re) (s : string) : option (nat → option string) :=
  let cells := decode s in
  '(_, _, cs) ← search_from r None 0 cells;
  Some (λ n, '(i, j) ← cs !! n; Some (slice cells i j)).

(** [m[n]]: the empty string for a group that took no part. *)
Definition group (m : nat → option string) (n : nat) : string := default "" (m n).

Definition MatchString (r : re) (s : string) : bool :=
  match search_from r None 0 (decode s) with Some _ => true | None => false end.

(** ** The matching relation *)

(** [matches r p p']: the text between the positions is in the language of [r],
    boundaries included. *)
Inductive matches : re → pos → pos → Prop :=
  | m_eps p : matches Eps p p
  | m_chr set p c l : rest p = c :: l → set (rune c) = true → matches (Chr set) p (advance c p l)
  | m_star_stop greedy set p : matches (Star greedy set) p p
  | m_star_more greedy set p c l p' :
      rest p = c :: l → set (rune c) = true → matches (Star greedy set) (advance c p l) p' →
      matches (Star greedy set) p p'
  | m_wordb p : at_boundary p = true → matches WordB p p
  | m_end p : rest p = [] → matches EndText p p
  | m_cat a b p p' p'' : matches a p p' → matches b p' p'' → matches (Cat a b) p p''
  | m_alt_l a b p p' : matches a p p' → matches (Alt a b) p p'
  | m_alt_r a b p p' : matches b p p' → matches (Alt a b) p p'
  | m_group n a p p' : matches a p p' → matches (Group n a) p p'.

#[export] Hint Constructors matches : go.

(** A result of the matcher comes from a match. *)
Lemma star_loop_sound {A} greedy set l pr i (k : pos → option A) x :
  star_loop greedy set l pr i k = Some x →
  ∃ p', matches (Star greedy set) (Pos pr i l) p' ∧ k p' = Some x.
Proof.
  revert pr i; induction l as [|c l IH]; intros pr i H; simpl in H; [eauto with go|].
  destruct (set (rune c)) eqn:Es; [|eauto with go].
  assert (star_loop greedy set l (Some (rune c)) (S i) k = Some x →
    ∃ p', matches (Star greedy set) (Pos pr i (c :: l)) p' ∧ k p' = Some x) as Hmore.
  { intros (p' & Hm & Hk)%IH. exists p'. split; [|done]. by eapply m_star_more. }
  destruct greedy.
  - destruct (star_loop true set l (Some (rune c)) (S i) k); simplify_eq; eauto with go.
  - destruct (k (Pos pr i (c :: l))) eqn:Ek; simplify_eq; eauto with go.
Qed.

Lemma match_re_sound {A} r p cs (k : pos → caps → option A) x :
  match_re r p cs k = Some x → ∃ p' cs', matches r p p' ∧ k p' cs' = Some x.
Proof.
  revert p cs k x; induction r as [|set|greedy set| | |a IHa b IHb|a IHa b IHb|n a IHa];
    intros p cs k x H; simpl in H.
  - eauto with go.
  - destruct (rest p) as [|c l] eqn:Er; [done|]. destruct (set (rune c)) eqn:Es; [|done]. eauto with go.
  - apply star_loop_sound in H as (p' & Hm & Hk). destruct p; simpl in *. eauto.
  - destruct (at_boundary p) eqn:E; [|done]. eauto with go.
  - destruct (rest p) eqn:E; [|done]. eauto with go.
  - apply IHa in H as (p1 & cs1 & H1 & (p2 & cs2 & H2 & Hk)%IHb). eauto with go.
  - destruct (match_re a p cs k) eqn:E; simplify_eq.
    + apply IHa in E as (p' & cs' & ? & ?). eauto with go.
    + apply IHb in H as (p' & cs' & ? & ?). eauto with go.
  - apply IHa in H as (p' & cs' & ? & ?). eauto with go.
Qed.

(** A match the continuation accepts, whatever the groups, is not missed. *)
Lemma star_loop_complete {A} greedy set p p' (k : pos → option A) :
  matches (Star greedy set) p p' → is_Some (k p') →
  is_Some (star_loop greedy set (rest p) (prev p) (idx p) k).
Proof.
  intros Hm Hk. remember (Star greedy set) as r eqn:Er.
  induction Hm; simplify_eq.
  - destruct p as [pr i l]. simpl. destruct l as [|c l]; [done|]. simpl.
    destruct (set (rune c)); [|done]. destruct greedy.
    + by destruct (star_loop true set l (Some (rune c)) (S i) k); eauto.
    + destruct Hk as [x ->]. eauto.
  - destruct p as [pr i l']. simpl in *. simplify_eq. simpl. specialize (IHHm eq_refl Hk). simpl in IHHm.
    match goal with H : set (rune _) = true |- _ => rewrite H end. destruct greedy.
    + destruct IHHm as [x ->]. eauto.
    + destruct (k (Pos pr i (c :: l))); [eauto|done].
Qed.

Lemma match_re_complete {A} r p p' cs (k : pos → caps → option A) :
  matches r p p' → (∀ cs', is_Some (k p' cs')) → is_Some (match_re r p cs k).
Proof.
  intros Hm. revert cs k; induction Hm; intros cs k Hk; simpl.
  - apply Hk.
  - match goal with H : rest p = _ |- _ => rewrite H end.
    match goal with H : set _ = true |- _ => rewrite H end. apply Hk.
  - eapply (star_loop_complete greedy set p p); [constructor|apply Hk].
  - eapply (star_loop_complete greedy set p p'); [by eapply m_star_more|apply Hk].
  - match goal with H : at_boundary p = true |- _ => rewrite H end. apply Hk.
  - match goal with H : rest p = [] |- _ => rewrite H end. apply Hk.
  - apply IHHm1. intros cs'. by apply IHHm2.
  - destruct (IHHm cs k Hk) as [x ->]. eauto.
  - destruct (match_re a p cs k); [eauto|]. by apply IHHm.
  - apply IHHm. intros cs'. apply Hk.
Qed.

(** [MatchString] decides whether some part of the string matches. *)
Definition occurs (r : re) (cells : list cell) : Prop :=
  ∃ pre post p', cells = pre ++ post ∧
    matches r (Pos (rune <$> list.last pre) (length pre) post) p'.

Lemma search_from_iff r pr i l :
  is_Some (search_from r pr i l) ↔
  ∃ pre post p', l = pre ++ post ∧
    matches r (Pos (match list.last pre with Some c => Some (rune c) | None => pr end)
                 (i + length pre) post) p'.
Proof.
  revert pr i; induction l as [|c l IH]; intros pr i; cbn [search_from].
  - destruct (match_at r (Pos pr i [])) as [[p' cs]|] eqn:E; unfold match_at in E.
    + split; [|eauto]. intros _. apply match_re_sound in E as (p1 & cs1 & Hm & _).
      exists [], [], p1. rewrite Nat.add_0_r. done.
    + split; [by intros [? [=]]|]. intros (pre & post & p' & Hl & Hm).
      symmetry in Hl. apply app_nil in Hl as [-> ->]. simpl in Hm. rewrite Nat.add_0_r in Hm.
      apply (match_re_complete _ _ _ ∅ (λ p' cs, Some (p', cs))) in Hm; [|eauto].
      rewrite E in Hm. by destruct Hm.
  - destruct (match_at r (Pos pr i (c :: l))) as [[p' cs]|] eqn:E; unfold match_at in E.
    + split; [|eauto]. intros _. apply match_re_sound in E as (p1 & cs1 & Hm & _).
      exists [], (c :: l), p1. rewrite Nat.add_0_r. done.
    + rewrite IH. split.
      * intros (pre & post & p' & -> & Hm). exists (c :: pre), post, p'. split; [done|].
        rewrite last_cons. simpl. replace (i + S (length pre))%nat with (S i + length pre)%nat by lia.
        by destruct (list.last pre).
      * intros ([|c' pre] & post & p' & Hl & Hm); simplify_eq/=.
        { rewrite Nat.add_0_r in Hm.
          apply (match_re_complete _ _ _ ∅ (λ p' cs, Some (p', cs))) in Hm; [|eauto].
          rewrite E in Hm. by destruct Hm. }
        exists pre, post, p'. split; [done|]. rewrite last_cons in Hm.
        replace (i + S (length pre))%nat with (S (i + length pre)) in Hm by lia.
        by destruct (list.last pre).
Qed.

(** ** Languages and captures *)

(** A sequence. *)
Fixpoint cats (l : list re) : re :=
  match l with
  | [] => Eps
  | [a] => a
  | a :: l' => Cat a (cats l')
  end.

(** The texts an expression can match, its assertions left out. *)
Fixpoint lang (r : re) (l : list cell) : Prop :=
  match r with
  | Eps | WordB | EndText => l = []
  | Chr set => ∃ c, l = [c] ∧ set (rune c) = true
  | Star _ set => Forall (λ c, set (rune c) = true) l
  | Cat a b => ∃ l1 l2, l = l1 ++ l2 ∧ lang a l1 ∧ lang b l2
  | Alt a b => lang a l ∨ lang b l
  | Group _ a => lang a l
  end.

Fixpoint groups (r : re) : list nat :=
  match r with
  | Group n a => n :: groups a
  | Cat a b | Alt a b => groups a ++ groups b
  | _ => []
  end.

(** [moved l p p']: position [p'] is behind the text [l] read from [p]. *)
Definition moved (l : list cell) (p p' : pos) : Prop :=
  rest p = l ++ rest p' ∧ idx p' = (idx p + length l)%nat.

Lemma moved_nil p : moved [] p p.
Proof. split; simpl; [done|lia]. Qed.

Lemma moved_app l k p p' p'' : moved l p p' → moved k p' p'' → moved (l ++ k) p p''.
Proof.
  intros [H1 H2] [H3 H4]. split; [by rewrite H1, H3, app_assoc|]. rewrite H4, H2, length_app. lia.
Qed.

(** What a result of the matcher says: the text read, and the groups. *)
Inductive reads : re → pos → caps → pos → caps → Prop :=
  | r_plain r p cs p' l : groups r = [] → lang r l → moved l p p' → reads r p cs p' cs
  | r_cat a b p cs p1 cs1 p2 cs2 :
      reads a p cs p1 cs1 → reads b p1 cs1 p2 cs2 → reads (Cat a b) p cs p2 cs2
  | r_alt_l a b p cs p' cs' : reads a p cs p' cs' → reads (Alt a b) p cs p' cs'
  | r_alt_r a b p cs p' cs' : reads b p cs p' cs' → reads (Alt a b) p cs p' cs'
  | r_group n a p cs p' cs' :
      reads a p cs p' cs' → reads (Group n a) p cs p' (<[n := (idx p, idx p')]> cs').

Lemma star_loop_reads {A} greedy set l pr i (k : pos → option A) x :
  star_loop greedy set l pr i k = Some x →
  ∃ p' t, Forall (λ c, set (rune c) = true) t ∧ moved t (Pos pr i l) p' ∧ k p' = Some x.
Proof.
  revert pr i; induction l as [|c l IH]; intros pr i H; simpl in H.
  { exists (Pos pr i []), []. split_and!; [constructor|apply moved_nil|done]. }
  assert (k (Pos pr i (c :: l)) = Some x →
    ∃ p' t, Forall (λ c, set (rune c) = true) t ∧ moved t (Pos pr i (c :: l)) p' ∧ k p' = Some x) as Hstop.
  { intros Hk. exists (Pos pr i (c :: l)), []. split_and!; [constructor|apply moved_nil|done]. }
  destruct (set (rune c)) eqn:Es; [|by apply Hstop].
  assert (star_loop greedy set l (Some (rune c)) (S i) k = Some x →
    ∃ p' t, Forall (λ c, set (rune c) = true) t ∧ moved t (Pos pr i (c :: l)) p' ∧ k p' = Some x) as Hmore.
  { intros (p' & t & Ht & [Hm1 Hm2] & Hk)%IH. exists p', (c :: t). split_and!; [by constructor| |done].
    split; simpl in *; [by rewrite Hm1|lia]. }
  destruct greedy.
  - destruct (star_loop true set l (Some (rune c)) (S i) k); simplify_eq; auto.
  - destruct (k (Pos pr i (c :: l))) eqn:Ek; simplify_eq; auto.
Qed.

Lemma match_re_reads {A} r p cs (k : pos → caps → option A) x :
  match_re r p cs k = Some x → ∃ p' cs', reads r p cs p' cs' ∧ k p' cs' = Some x.
Proof.
  revert p cs k x; induction r as [|set|greedy set| | |a IHa b IHb|a IHa b IHb|n a IHa];
    intros p cs k x H; simpl in H.
  - exists p, cs. split; [|done]. by apply (r_plain _ _ _ _ []); [..|apply moved_nil].
  - destruct (rest p) as [|c l] eqn:Er; [done|]. destruct (set (rune c)) eqn:Es; [|done].
    exists (advance c p l), cs. split; [|done]. apply (r_plain _ _ _ _ [c]); [done|by exists c|].
    split; simpl; [by rewrite Er|lia].
  - apply star_loop_reads in H as (p' & t & Ht & Hm & Hk). exists p', cs. split; [|done].
    destruct p. by apply (r_plain _ _ _ _ t).
  - destruct (at_boundary p); [|done]. exists p, cs. split; [|done].
    by apply (r_plain _ _ _ _ []); [..|apply moved_nil].
  - destruct (rest p); [|done]. exists p, cs. split; [|done].
    by apply (r_plain _ _ _ _ []); [..|apply moved_nil].
  - apply IHa in H as (p1 & cs1 & H1 & (p2 & cs2 & H2 & Hk)%IHb).
    exists p2, cs2. split; [by eapply r_cat|done].
  - destruct (match_re a p cs k) eqn:E; simplify_eq.
    + apply IHa in E as (p' & cs' & ? & ?). exists p', cs'. split; [by apply r_alt_l|done].
    + apply IHb in H as (p' & cs' & ? & ?). exists p', cs'. split; [by apply r_alt_r|done].
  - apply IHa in H as (p' & cs' & ? & ?). eexists p', _. split; [by apply r_group|done].
Qed.

(** Every reading is of a text of the language, and touches only the groups of
    the expression. *)
Lemma reads_lang r p cs p' cs' :
  reads r p cs p' cs' →
  (∃ l, lang r l ∧ moved l p p') ∧ ∀ n, n ∉ groups r → cs' !! n = cs !! n.
Proof.
  induction 1 as [r p cs p' l Hg Hl Hm|a b p cs p1 cs1 p2 cs2 _ [(l1 & ? & ?) Hn1] _ [(l2 & ? & ?) Hn2]
    |a b p cs p' cs' _ [(l & ? & ?) Hn]|a b p cs p' cs' _ [(l & ? & ?) Hn]
    |n a p cs p' cs' _ [(l & ? & ?) Hn]].
  - split; [by exists l|done].
  - split; [exists (l1 ++ l2); split; [by exists l1, l2|by eapply moved_app]|].
    intros n Hnot. simpl in Hnot. rewrite not_elem_of_app in Hnot. rewrite Hn2, Hn1; tauto.
  - split; [exists l; split; [by left|done]|]. intros n Hnot. simpl in Hnot.
    rewrite not_elem_of_app in Hnot. apply Hn. tauto.
  - split; [exists l; split; [by right|done]|]. intros n Hnot. simpl in Hnot.
    rewrite not_elem_of_app in Hnot. apply Hn. tauto.
  - split; [by exists l|]. intros m Hnot. simpl in Hnot. rewrite not_elem_of_cons in Hnot.
    rewrite lookup_insert_ne by naive_solver. apply Hn. tauto.
Qed.

(** A sequence with a group in it: what the group captured. *)
Lemma reads_group xs n b ys p cs p' cs' :
  reads (cats (xs ++ Group n b :: ys)) p cs p' cs' → n ∉ groups (cats ys) →
  ∃ l l1 l2 i, moved (l1 ++ l ++ l2) p p' ∧ lang (cats xs) l1 ∧ lang b l ∧ lang (cats ys) l2 ∧
    i = (idx p + length l1)%nat ∧ cs' !! n = Some (i, (i + length l)%nat).
Proof.
  revert p cs. induction xs as [|x xs IH]; intros p cs Hr Hn.
  - assert (∃ p1 cs1, reads (Group n b) p cs p1 cs1 ∧ reads (cats ys) p1 cs1 p' cs') as (p1 & cs1 & H1 & H2).
    { destruct ys as [|y ys].
      - exists p', cs'. split; [done|]. apply (r_plain _ _ _ _ []); [done..|apply moved_nil].
      - simpl app in Hr. cbn [cats] in Hr. inversion Hr; subst; [done|]. eauto. }
    inversion H1; subst; [done|].
    match goal with H : reads b p cs p1 ?c |- _ => apply reads_lang in H as [(l & Hl & Hm) _] end.
    apply reads_lang in H2 as [(l2 & Hl2 & Hm2) Hkeep].
    exists l, [], l2, (idx p). simpl. split_and!; [by eapply moved_app|done|done|done|lia|].
    rewrite Hkeep by done. rewrite lookup_insert_eq. destruct Hm as [_ ->]. done.
  - assert (∃ p1 cs1, reads x p cs p1 cs1 ∧ reads (cats (xs ++ Group n b :: ys)) p1 cs1 p' cs')
      as (p1 & cs1 & H1 & H2).
    { simpl app in Hr. destruct (xs ++ Group n b :: ys) as [|y zs] eqn:E; [by destruct xs|].
      cbn [cats] in Hr. inversion Hr as [r q c q' t Hg| | | |]; subst; [|eauto].
      exfalso. clear -Hg E. assert (∀ l, groups (cats l) = mjoin (groups <$> l)) as Hgc.
      { induction l as [|z l IHl]; [done|]. destruct l; [simpl; by rewrite app_nil_r|].
        change (groups z ++ groups (cats (r :: l)) = mjoin (groups <$> (z :: r :: l))).
        by rewrite IHl. }
      change (groups x ++ groups (cats (y :: zs)) = []) in Hg.
      rewrite Hgc, <-E, fmap_app, join_app in Hg. simpl in Hg. by destruct (groups x), (mjoin (groups <$> xs)). }
    destruct (IH p1 cs1 H2 Hn) as (l & l1 & l2 & i & Hm & Hl1 & Hb & Hl2 & Hi & Hcs).
    apply reads_lang in H1 as [(l0 & Hl0 & Hm0) _].
    exists l, (l0 ++ l1), l2, i. split_and!; try done.
    + rewrite <-app_assoc. by eapply moved_app.
    + destruct xs as [|x' xs]; [|by exists l0, l1]. simpl in *. subst. by rewrite app_nil_r.
    + destruct Hm0 as [_ Hm0]. rewrite length_app. lia.
Qed.

(** A match of the search and the text around it. *)
Lemma search_from_reads r pr i l st p' cs :
  search_from r pr i l = Some (st, p', cs) →
  ∃ pre post pr', l = pre ++ post ∧ st = (i + length pre)%nat ∧ reads r (Pos pr' st post) ∅ p' cs.
Proof.
  revert pr i; induction l as [|c l IH]; intros pr i; cbn [search_from]; unfold match_at.
  - destruct (match_re r (Pos pr i []) ∅ _) as [[p1 cs1]|] eqn:E; [|done]. intros [= <- <- <-].
    apply match_re_reads in E as (p2 & cs2 & Hr & [= <- <-]).
    exists [], [], pr. rewrite Nat.add_0_r. done.
  - destruct (match_re r (Pos pr i (c :: l)) ∅ _) as [[p1 cs1]|] eqn:E.
    + intros [= <- <- <-]. apply match_re_reads in E as (p2 & cs2 & Hr & [= <- <-]).
      exists [], (c :: l), pr. rewrite Nat.add_0_r. done.
    + intros (pre & post & pr' & -> & -> & Hr)%IH. exists (c :: pre), post, pr'.
      simpl in *. replace (i + S (length pre))%nat with (S (i + length pre)) by lia. done.
Qed.

Lemma slice_at pre l post : slice (pre ++ l ++ post) (length pre) (length pre + length l) = of_cells l.
Proof.
  unfold slice. rewrite drop_app_length. replace (length pre + length l - length pre)%nat with (length l) by lia.
  by rewrite take_app_length.
Qed.

(** A match of an expression in a string, with its groups. *)
Definition found (r : re) (s : string) (m : nat → option string) : Prop :=
  ∃ pre post pr p' cs, decode s = pre ++ post ∧ reads r (Pos pr (length pre) post) ∅ p' cs ∧
    ∀ n, m n = '(i, j) ← cs !! n; Some (slice (decode s) i j).

Lemma FindSubmatch_found r s m : FindSubmatch r s = Some m → found r s m.
Proof.
  unfold FindSubmatch. intros Hf.
  destruct (search_from _ None 0 (decode s)) as [[[st p'] cs]|] eqn:E; [|done]. simpl in Hf.
  injection Hf as <-. apply search_from_reads in E as (pre & post & pr' & Hd & -> & Hr).
  by exists pre, post, pr', p', cs.
Qed.

(** No match exactly when the relation has none. *)
Lemma FindSubmatch_None r s : FindSubmatch r s = None ↔ ¬ occurs r (decode s).
Proof.
  unfold FindSubmatch, occurs. rewrite eq_None_not_Some.
  assert (is_Some ('(_, _, cs) ← search_from r None 0 (decode s);
                   Some (λ n, '(i, j) ← cs !! n; Some (slice (decode s) i j)))
          ↔ is_Some (search_from r None 0 (decode s))) as ->.
  { destruct (search_from r None 0 (decode s)) as [[[? ?] ?]|]; simpl; [by split; intros _; eexists|done]. }
  rewrite search_from_iff. f_equiv. split; intros (pre & post & p' & Hd & Hm); exists pre, post, p';
    (split; [done|]); by destruct (list.last pre).
Qed.

(** Only one side of an alternative takes part. *)
Lemma found_alt a b s m : found (Alt a b) s m → groups (Alt a b) ≠ [] → found a s m ∨ found b s m.
Proof.
  intros (pre & post & pr & p' & cs & Hd & Hr & Hm) Hg.
  inversion Hr; subst; [done|left|right]; by exists pre, post, pr, p', cs.
Qed.

Lemma found_absent r s m n : found r s m → n ∉ groups r → m n = None.
Proof.
  intros (pre & post & pr & p' & cs & Hd & Hr & Hm) Hn. rewrite Hm.
  apply reads_lang in Hr as [_ Hr]. by rewrite Hr, lookup_empty.
Qed.

(** A sequence with one group: the group is a text of its expression, between
    texts of the expressions around it. *)
Lemma found_group xs n b ys s m :
  found (cats (xs ++ Group n b :: ys)) s m → n ∉ groups (cats ys) →
  ∃ pre l1 l l2 post, decode s = pre ++ l1 ++ l ++ l2 ++ post ∧ lang (cats xs) l1 ∧ lang b l ∧
    lang (cats ys) l2 ∧ m n = Some (of_cells l).
Proof.
  intros (pre & post & pr & p' & cs & Hd & Hr & Hmn) Hn.
  apply reads_group in Hr as (l & l1 & l2 & i & [Hm _] & H1 & Hb & H2 & Hi & Hcs); [|done].
  simpl in *. exists pre, l1, l, l2, (rest p'). rewrite Hd, Hm, <-!app_assoc. split_and!; try done.
  rewrite Hmn, Hcs. simpl. f_equal. rewrite Hd, Hm, <-!app_assoc, (app_assoc pre). subst i.
  rewrite <-length_app. apply slice_at.
Qed.

(** Conversely, for an expression without assertions: a text of the language is
    matched wherever it stands. *)
Fixpoint assertion_free (r : re) : bool :=
  match r with
  | WordB | EndText => false
  | Cat a b | Alt a b => assertion_free a && assertion_free b
  | Group _ a => assertion_free a
  | _ => true
  end.

Lemma lang_matches r p l k :
  assertion_free r = true → lang r l → rest p = l ++ k → ∃ p', matches r p p' ∧ rest p' = k.
Proof.
  revert p l k; induction r as [|set|greedy set| | |a IHa b IHb|a IHa b IHb|n a IHa];
    intros p l k Hf Hl Hp; simpl in Hf, Hl; bool_hyps; try done.
  - subst l. eauto with go.
  - destruct Hl as (c & -> & Hc). simpl in Hp. exists (advance c p k). eauto with go.
  - revert p Hp. induction Hl as [|c l Hc _ IH]; intros p Hp; [eauto with go|].
    simpl in Hp. destruct (IH (advance c p (l ++ k))) as (p' & Hm & Hr); [done|].
    exists p'. split; [by eapply m_star_more|done].
  - destruct Hl as (l1 & l2 & -> & H1 & H2). rewrite <-app_assoc in Hp.
    destruct (IHa p l1 (l2 ++ k)) as (p1 & M1 & R1); [done..|].
    destruct (IHb p1 l2 k) as (p2 & M2 & R2); [done..|]. eauto with go.
  - destruct Hl as [Hl|Hl].
    + destruct (IHa p l k) as (p' & ? & ?); eauto with go.
    + destruct (IHb p l k) as (p' & ? & ?); eauto with go.
  - destruct (IHa p l k) as (p' & ? & ?); eauto with go.
Qed.

Lemma lang_occurs r a l b : assertion_free r = true → lang r l → occurs r (a ++ l ++ b).
Proof.
  intros Hf Hl. destruct (lang_matches r (Pos (rune <$> list.last a) (length a) (l ++ b)) l b)
    as (p' & Hm & _); [done..|]. by exists a, (l ++ b), p'.
Qed.

(** The language of a sequence, one element at a time. *)
Lemma lang_cats_cons x xs l :
  lang (cats (x :: xs)) l ↔ ∃ l1 l2, l = l1 ++ l2 ∧ lang x l1 ∧ lang (cats xs) l2.
Proof.
  destruct xs as [|y xs]; [|done]. simpl. split.
  - intros H. exists l, []. by rewrite app_nil_r.
  - intros (l1 & l2 & -> & H & ->). by rewrite app_nil_r.
Qed.

Lemma lang_cats_app xs ys l :
  lang (cats (xs ++ ys)) l ↔ ∃ l1 l2, l = l1 ++ l2 ∧ lang (cats xs) l1 ∧ lang (cats ys) l2.
Proof.
  revert l; induction xs as [|x xs IH]; intros l.
  - simpl. split; [intros H; by exists [], l|by intros (? & l2 & -> & -> & H)].
  - rewrite <-app_comm_cons, lang_cats_cons. setoid_rewrite IH. setoid_rewrite lang_cats_cons. split.
    + intros (l1 & ? & -> & H1 & l2 & l3 & -> & H2 & H3). exists (l1 ++ l2), l3.
      rewrite app_assoc. eauto 8.
    + intros (? & l3 & -> & (l1 & l2 & -> & H1 & H2) & H3). exists l1, (l2 ++ l3).
      rewrite app_assoc. eauto 8.
Qed.

(** [FindAllStringSubmatchIndex] with no limit: the non-overlapping matches from
    left to right, for an expression that matches no empty text. *)
Fixpoint find_all (fuel : nat) (r : re) (p : pos) : list (nat * nat * caps) :=
  match fuel with
  | O => []
  | S fuel =>
      match search_from r (prev p) (idx p) (rest p) with
      | None => []
      | Some (st, p', cs) =>
          if (idx p <? idx p')%nat then (st, idx p', cs) :: find_all fuel r p' else []
      end
  end.

(** A position per remaining cell is fuel enough: more fuel changes nothing. *)
Lemma find_all_fuel r n p :
  (length (rest p) < n)%nat → find_all n r p = find_all (S (length (rest p))) r p.
Proof.
  assert (∀ n m p, (length (rest p) < n)%nat → (length (rest p) < m)%nat →
                   find_all n r p = find_all m r p) as H.
  { clear. intros n. induction n as [|n IH]; intros [|m] p Hn Hm; [lia..|]. cbn [find_all].
    destruct (search_from r (prev p) (idx p) (rest p)) as [[[st p'] cs]|] eqn:E; [|done].
    apply search_from_reads in E as (pre & post & pr' & Hl & -> & Hr).
    apply reads_lang in Hr as [(l & _ & Hm1 & Hm2) _]. simpl in Hm1, Hm2.
    destruct (Nat.ltb_spec (idx p) (idx p')) as [Hlt|_]; [|done]. f_equal.
    rewrite Hl, Hm1, !length_app in Hn, Hm. apply IH; lia. }
  intros Hn. apply H; lia.
Qed.

Definition FindAll (r : re) (s : string) : list (nat * nat * caps) :=
  let cells := decode s in find_all (S (length cells)) r (Pos None 0 cells).

Definition FindAllString (r : re) (s : string) : list string :=
  (λ '(i, j, _), slice (decode s) i j) <$> FindAll r s.

(** [re.Split(s, -1)] *)
Fixpoint split_at (cells : list cell) (beg : nat) (ms : list (nat * nat * caps)) (en : nat) : list string :=
  match ms with
  | [] => if (en =? length cells)%nat then [] else [slice cells beg (length cells)]
  | (i, j, _) :: ms' =>
      (if (j =? 0)%nat then [] else [slice cells beg i]) ++ split_at cells j ms' i
  end.

Definition Split (r : re) (s : string) : list string :=
  if s =?s "" then [""] else split_at (decode s) 0 (FindAll r s) 0.

(** [re.ReplaceAllString(s, "")] *)
Fixpoint cut_out (cells : list cell) (beg : nat) (ms : list (nat * nat * caps)) : string :=
  match ms with
  | [] => slice cells beg (length cells)
  | (i, j, _) :: ms' => slice cells beg i +:+ cut_out cells j ms'
  end.

Definition RemoveAll (r : re) (s : string) : string := cut_out (decode s) 0 (FindAll r s).

Example find_all_words :
  FindAllString (Plus is_lower_ascii) "ab-cd e" = ["ab"; "cd"; "e"] ∧
  Split (Plus (none_of [97; 98])) "xabyb" = [""; "ab"; "b"].
Proof. vm_compute. auto. Qed.
