(* ===== verification/HtmlText.v ===== *)
(** * [html.UnescapeString]

    Numeric references with the Windows-1252 replacements and the wrap-around of
    the 32-bit accumulator, named references with the longest-prefix rule for the
    names that may omit their semicolon. *)

From S2P Require Import Prelude Unicode GoStrings GoURL Entities.

Local Open Scope Z_scope.

(** The value of a name, [[]] when it is not in the table. *)
Fixpoint entity_lookup (l : list (string * list Z)) (name : string) : list Z :=
  match l with
  | [] => []
  | (k, v) :: l' => if k =?s name then v else entity_lookup l' name
  end.

Definition entity (name : string) : list Z := entity_lookup entities name.

Definition encode_runes (l : list Z) : string := concat_strings (EncodeRune <$> l).

(** [replacementTable] *)
Definition replacementTable : list Z :=
  [0x20AC; 0x0081; 0x201A; 0x0192; 0x201E; 0x2026; 0x2020; 0x2021; 0x02C6; 0x2030; 0x0160; 0x2039;
   0x0152; 0x008D; 0x017D; 0x008F; 0x0090; 0x2018; 0x2019; 0x201C; 0x201D; 0x2022; 0x2013; 0x2014;
   0x02DC; 0x2122; 0x0161; 0x203A; 0x0153; 0x009D; 0x017E; 0x0178].

Definition fix_codepoint (x : Z) : Z :=
  if (0x80 <=? x) && (x <=? 0x9F) then default RuneError (replacementTable !! Z.to_nat (x - 0x80))
  else if (x =? 0) || ((0xD800 <=? x) && (x <=? 0xDFFF)) || (0x10FFFF <? x) then RuneError
  else x.

(** Digits of a numeric reference: the [rune] accumulator, the number of digits,
    the rest. *)
Fixpoint scan_numeric (hex : bool) (x : Z) (n : nat) (s : string) : Z * nat * string :=
  match s with
  | String c s' =>
      if is_digit c || (hex && ishex c)
      then scan_numeric hex (int32 ((if hex then 16 else 10) * x + unhex c)) (S n) s'
      else (x, n, s)
  | EmptyString => (x, n, s)
  end.

(** A semicolon is consumed with the reference. *)
Definition drop_semicolon (s : string) : string :=
  match s with String ";" s' => s' | _ => s end.

(** The run of ASCII letters and digits of a name. *)
Fixpoint span_alnum (s : string) : string * string :=
  match s with
  | String c s' =>
      if is_alnum c then let '(a, r) := span_alnum s' in (String c a, r) else (EmptyString, s)
  | EmptyString => (EmptyString, EmptyString)
  end.

Definition longestEntityWithoutSemicolon : nat := 6.

(** The longest proper prefix of a name, of at most [j] bytes and at least two,
    that is a single-rune entity. *)
Fixpoint entity_prefix (name : string) (j : nat) : option (nat * Z) :=
  match j with
  | S ((S _) as j') =>
      match entity (string_take j name) with
      | [x] => Some (j, x)
      | _ => entity_prefix name j'
      end
  | _ => None
  end.

(** A numeric reference: [s] is what follows the ampersand, [s1] what follows the
    number sign. *)
Definition unescapeNumeric (s s1 : string) : string * string :=
  if (slen s <=? 2)%nat then ("&", s)
  else
    let '(hex, s2) := match s1 with
                      | String c t => if in_set c "xX" then (true, t) else (false, s1)
                      | EmptyString => (false, s1)
                      end in
    let '(x, _, r) := scan_numeric hex 0 0 s2 in
    let r' := drop_semicolon r in
    (* [i <= 3]: the index behind what was consumed *)
    if (1 + slen s - slen r' <=? 3)%nat then ("&", s)
    else (EncodeRune (fix_codepoint x), r').

(** A named reference. *)
Definition unescapeNamed (s : string) : string * string :=
  let '(a, r) := span_alnum s in
  let name := if HasPrefix r ";" then a +:+ ";" else a in
  let r' := drop_semicolon r in
  if name =?s "" then ("&", s)
  else
    match entity name with
    | x :: xs => (encode_runes (x :: xs), r')
    | [] =>
        match entity_prefix name (Nat.min (slen name - 1) longestEntityWithoutSemicolon) with
        | Some (j, x) => (EncodeRune x, string_drop j s)
        | None => ("&" +:+ name, r')
        end
    end.

(** One reference; the input is what follows the ampersand.  The output and the
    rest of the input. *)
Definition unescapeEntity (s : string) : string * string :=
  match s with
  | EmptyString => ("&", s)
  | String c s1 => if Ascii.eqb c "#" then unescapeNumeric s s1 else unescapeNamed s
  end.

(** The loop over the ampersands; each round consumes at least one byte. *)
Fixpoint unescape_loop (fuel : nat) (s : string) : string :=
  match fuel with
  | O => s
  | S fuel =>
      match s with
      | EmptyString => EmptyString
      | String c s' =>
          if Ascii.eqb c "&"
          then let '(out, r) := unescapeEntity s' in out +:+ unescape_loop fuel r
          else String c (unescape_loop fuel s')
      end
  end.

Definition UnescapeString (s : string) : string := unescape_loop (slen s) s.

Example unescape_amp : UnescapeString "a&amp;b&lt;c&gt;&quot;&#39;&#x2F;" = "a&b<c>" +:+ dquote +:+ "'/".
Proof. vm_compute. reflexivity. Qed.
Example unescape_nosemi : UnescapeString "?a=1&copy=2&ampx;&notit;&nope;&" = "?a=1©=2&x;¬it;&nope;&".
Proof. vm_compute. reflexivity. Qed.
Example unescape_num : UnescapeString "&#128;&#0;&#x110000;&#xD800;&#;&#x;&#" = "€���&#;�&#".
Proof. vm_compute. reflexivity. Qed.

(** ** Lemmas *)

Lemma span_alnum_app s a r : span_alnum s = (a, r) → s = a +:+ r.
Proof.
  revert a r; induction s as [|c s IH]; intros a r H; simpl in H; [by simplify_eq|].
  case_bool; [|by simplify_eq]. destruct (span_alnum s) as [a' r'] eqn:E. simplify_eq/=.
  by rewrite (IH a' r).
Qed.

Lemma drop_semicolon_len s : (slen (drop_semicolon s) ≤ slen s)%nat.
Proof. unfold drop_semicolon. repeat case_match; simpl; lia. Qed.

Lemma scan_numeric_len hex x n s y m r : scan_numeric hex x n s = (y, m, r) → (slen r ≤ slen s)%nat.
Proof.
  revert x n; induction s as [|c s IH]; intros x n H; simpl in H; [by simplify_eq|].
  case_bool; [|by simplify_eq]. apply IH in H. simpl. lia.
Qed.

(** A reference never consumes more than there is. *)
Lemma unescapeEntity_len s : (slen (unescapeEntity s).2 ≤ slen s)%nat.
Proof.
  destruct s as [|c s]; [done|]. unfold unescapeEntity. case_bool.
  - unfold unescapeNumeric. case_bool; [done|].
    destruct (match s with String c t => if in_set c "xX" then (true, t) else (false, s)
              | EmptyString => (false, s) end) as [hex s2] eqn:E.
    assert (slen s2 ≤ slen s)%nat by (repeat case_match; simplify_eq; simpl; lia).
    destruct (scan_numeric hex 0 0 s2) as [[x n] r] eqn:En. apply scan_numeric_len in En.
    pose proof (drop_semicolon_len r). cbv zeta. case_bool; simpl; lia.
  - unfold unescapeNamed. destruct (span_alnum (String c s)) as [a r] eqn:E. cbv zeta.
    pose proof (drop_semicolon_len r). apply span_alnum_app in E. rewrite E, slen_app.
    case_bool; simpl; [rewrite slen_app; lia|]. destruct (entity _); simpl; [|lia].
    destruct (entity_prefix _ _) as [[j x]|]; simpl; [|lia]. rewrite slen_drop, slen_app. lia.
Qed.

(** The length of the string is fuel enough. *)
Lemma unescape_loop_fuel n s : (slen s ≤ n)%nat → unescape_loop n s = UnescapeString s.
Proof.
  unfold UnescapeString. revert n. induction s as [s IH] using string_len_ind. intros n Hn.
  destruct s as [|c s]; [by destruct n|]. destruct n as [|n]; [simpl in Hn; lia|]. simpl in *.
  case_bool.
  - pose proof (unescapeEntity_len s) as Hl. destruct (unescapeEntity s) as [out r]. simpl in Hl.
    assert (slen r < S (slen s))%nat as Hr by lia.
    by rewrite (IH r Hr n), (IH r Hr (slen s)) by lia.
  - by rewrite (IH s) by lia.
Qed.

(** Text without an ampersand is unchanged. *)
Lemma UnescapeString_plain s : all_bytes (byte_ne "&") s = true → UnescapeString s = s.
Proof.
  unfold UnescapeString. induction s as [|c s IH]; intros H; [done|]. simpl in *. bool_hyps.
  unfold byte_ne in *. bool_hyps. destruct (Ascii.eqb_spec c "&") as [->|]; [done|]. by rewrite IH.
Qed.

(** A prefix without an ampersand stays in front. *)
Lemma UnescapeString_prefix p t :
  all_bytes (byte_ne "&") p = true → UnescapeString (p +:+ t) = p +:+ UnescapeString t.
Proof.
  unfold UnescapeString. induction p as [|c p IH]; intros H; [done|]. simpl in *. bool_hyps.
  unfold byte_ne in *. bool_hyps. destruct (Ascii.eqb_spec c "&") as [->|]; [done|]. by rewrite IH.
Qed.

Lemma EncodeRune_nonempty r : EncodeRune r ≠ "".
Proof. unfold EncodeRune, encode_valid. by repeat case_match. Qed.

(** A reference is never replaced by nothing. *)
Lemma unescapeEntity_nonempty s : (unescapeEntity s).1 ≠ "".
Proof.
  unfold unescapeEntity. destruct s as [|c s]; [done|]. case_bool.
  - unfold unescapeNumeric. case_bool; [done|]. destruct (match s with EmptyString => _ | _ => _ end).
    destruct (scan_numeric _ _ _ _) as [[x n] r]. cbv zeta. case_bool; [done|]. apply EncodeRune_nonempty.
  - unfold unescapeNamed. destruct (span_alnum _) as [a r]. cbv zeta. case_bool; [done|].
    destruct (entity _) as [|x xs].
    + destruct (entity_prefix _ _) as [[j x]|]; [apply EncodeRune_nonempty|done].
    + cbn [fst]. unfold encode_runes. simpl. pose proof (EncodeRune_nonempty x). by destruct (EncodeRune x).
Qed.

Lemma UnescapeString_nonempty s : s ≠ "" → UnescapeString s ≠ "".
Proof.
  destruct s as [|c s]; [done|]. intros _. unfold UnescapeString. simpl. case_bool; [|done].
  pose proof (unescapeEntity_nonempty s). destruct (unescapeEntity s) as [out r]. by destruct out.
Qed.
