(* ===== verification/JSON.v ===== *)
(** * [encoding/json]

    The parser behind [json.Unmarshal] (syntax check of the whole input, string
    unquoting with replacement of invalid UTF-8 and lone surrogates, the nesting
    limit), decoding into Go values as a type class with an instance per type and
    a combinator for structs, and the string encoder behind [json.Marshal]. *)

From S2P Require Import Prelude Unicode GoStrings GoURL.

Local Open Scope Z_scope.

(** ** Values *)

(** A syntax tree; numbers keep their literal, object members their order. *)
Inductive json :=
  | JNull
  | JBool (b : bool)
  | JNum (lit : string)
  | JStr (s : string)
  | JArr (l : list json)
  | JObj (l : list (string * json)).

(** ** Lexical parts *)

Definition json_space (a : ascii) : bool := in_set a (" " +:+ str1 (chr 9) +:+ str1 (chr 10) +:+ str1 (chr 13)).

Fixpoint skip_ws (s : string) : string :=
  match s with
  | String a s' => if json_space a then skip_ws s' else s
  | EmptyString => EmptyString
  end.

(** The body of a string literal up to its closing quote, and what follows it:
    no control characters, and only the escapes of the grammar. *)
Fixpoint scan_string (s : string) : option (string * string) :=
  match s with
  | EmptyString => None
  | String a s' =>
      if Ascii.eqb a (chr 34) then Some (EmptyString, s')
      else if bval a <? 0x20 then None
      else if Ascii.eqb a (chr 92) then
        match s' with
        | String e s'' =>
            if Ascii.eqb e "u" then
              match s'' with
              | String h1 (String h2 (String h3 (String h4 r))) =>
                  if ishex h1 && ishex h2 && ishex h3 && ishex h4 then
                    '(b, rest) ← scan_string r;
                    Some (String a (String e (String h1 (String h2 (String h3 (String h4 b))))), rest)
                  else None
              | _ => None
              end
            else if in_set e "bfnrt/" || Ascii.eqb e (chr 92) || Ascii.eqb e (chr 34) then
              '(b, rest) ← scan_string s''; Some (String a (String e b), rest)
            else None
        | EmptyString => None
        end
      else '(b, rest) ← scan_string s'; Some (String a b, rest)
  end.

(** [\uXXXX] *)
Definition rune_unhex (r : Z) : Z := unhex (byte_of r).
Definition u4 (a b c d : Z) : Z :=
  ((rune_unhex a * 16 + rune_unhex b) * 16 + rune_unhex c) * 16 + rune_unhex d.

Definition is_surrogate (r : Z) : bool := (0xD800 <=? r) && (r <? 0xE000).

(** [utf16.DecodeRune] of a surrogate pair. *)
Definition decode_pair (r1 r2 : Z) : option Z :=
  if (0xD800 <=? r1) && (r1 <? 0xDC00) && (0xDC00 <=? r2) && (r2 <? 0xE000)
  then Some (Z.lor (Z.shiftl (r1 - 0xD800) 10) (r2 - 0xDC00) + 0x10000) else None.

Definition simple_escape (e : Z) : Z :=
  if e =? 98 then 8 else if e =? 102 then 12 else if e =? 110 then 10
  else if e =? 114 then 13 else if e =? 116 then 9 else e.

(** The text of a literal's body. *)
Fixpoint unquote_cells (l : list cell) : string :=
  match l with
  | [] => EmptyString
  | c :: l1 =>
      if rune c =? 92 then
        match l1 with
        | [] => EmptyString
        | e :: l2 =>
            if rune e =? 117 then
              match l2 with
              | h1 :: h2 :: h3 :: h4 :: l3 =>
                  let rr := u4 (rune h1) (rune h2) (rune h3) (rune h4) in
                  if is_surrogate rr then
                    match l3 with
                    | bs :: u :: g1 :: g2 :: g3 :: g4 :: l4 =>
                        if (rune bs =? 92) && (rune u =? 117) then
                          match decode_pair rr (u4 (rune g1) (rune g2) (rune g3) (rune g4)) with
                          | Some r => EncodeRune r +:+ unquote_cells l4
                          | None => EncodeRune RuneError +:+ unquote_cells l3
                          end
                        else EncodeRune RuneError +:+ unquote_cells l3
                    | _ => EncodeRune RuneError +:+ unquote_cells l3
                    end
                  else EncodeRune rr +:+ unquote_cells l3
              | _ => EmptyString
              end
            else EncodeRune (simple_escape (rune e)) +:+ unquote_cells l2
        end
      else EncodeRune (rune c) +:+ unquote_cells l1
  end.

Definition unquote (body : string) : string := unquote_cells (decode body).

(** Numbers: an optional minus, an integer part without leading zeros, an
    optional fraction and an optional exponent. *)
Fixpoint span_digits (s : string) : string * string :=
  match s with
  | String a s' =>
      if is_digit a then let '(d, r) := span_digits s' in (String a d, r) else (EmptyString, s)
  | EmptyString => (EmptyString, EmptyString)
  end.

Definition scan_int (s : string) : option (string * string) :=
  match s with
  | String "0" r => Some ("0", r)
  | _ => let '(d, r) := span_digits s in if d =?s "" then None else Some (d, r)
  end.

Definition scan_frac (s : string) : option (string * string) :=
  match s with
  | String "." s' =>
      let '(d, r) := span_digits s' in if d =?s "" then None else Some (String "." d, r)
  | _ => Some (EmptyString, s)
  end.

Definition scan_exp (s : string) : option (string * string) :=
  match s with
  | String e s' =>
      if in_set e "eE" then
        let '(sg, s'') := match s' with
                          | String x t => if in_set x "+-" then (str1 x, t) else (EmptyString, s')
                          | _ => (EmptyString, s')
                          end in
        let '(d, r) := span_digits s'' in
        if d =?s "" then None else Some (String e (sg +:+ d), r)
      else Some (EmptyString, s)
  | EmptyString => Some (EmptyString, s)
  end.

Definition scan_number (s : string) : option (string * string) :=
  let '(sg, s) := match s with String "-" t => (str1 "-", t) | _ => (EmptyString, s) end in
  '(i, s) ← scan_int s;
  '(f, s) ← scan_frac s;
  '(e, s) ← scan_exp s;
  Some (sg +:+ i +:+ f +:+ e, s).

(** ** The parser *)

Definition maxNestingDepth : Z := 10000.

(** A punctuation mark, blanks in front of it skipped. *)
Definition expect (c : ascii) (s : string) : option string :=
  match skip_ws s with
  | String a r => if Ascii.eqb a c then Some r else None
  | EmptyString => None
  end.

(** A value, the elements of an array behind its bracket or a comma, the members
    of an object behind its brace or a comma. *)
Fixpoint parse_value (fuel : nat) (depth : Z) (s : string) {struct fuel} : option (json * string) :=
  match fuel with
  | O => None
  | S fuel =>
      match skip_ws s with
      | EmptyString => None
      | String c s' =>
          if Ascii.eqb c "{" then
            if maxNestingDepth <=? depth then None
            else match expect "}" s' with
                 | Some r => Some (JObj [], r)
                 | None => '(l, r) ← parse_members fuel (depth + 1) s'; Some (JObj l, r)
                 end
          else if Ascii.eqb c "[" then
            if maxNestingDepth <=? depth then None
            else match expect "]" s' with
                 | Some r => Some (JArr [], r)
                 | None => '(l, r) ← parse_elements fuel (depth + 1) s'; Some (JArr l, r)
                 end
          else if Ascii.eqb c (chr 34) then
            '(b, r) ← scan_string s'; Some (JStr (unquote b), r)
          else if Ascii.eqb c "-" || is_digit c then
            '(lit, r) ← scan_number (String c s'); Some (JNum lit, r)
          else if HasPrefix (String c s') "true" then Some (JBool true, string_drop 3 s')
          else if HasPrefix (String c s') "false" then Some (JBool false, string_drop 4 s')
          else if HasPrefix (String c s') "null" then Some (JNull, string_drop 3 s')
          else None
      end
  end
with parse_elements (fuel : nat) (depth : Z) (s : string) {struct fuel} :
    option (list json * string) :=
  match fuel with
  | O => None
  | S fuel =>
      '(v, r) ← parse_value fuel depth s;
      match expect "," r with
      | Some r' => '(l, r'') ← parse_elements fuel depth r'; Some (v :: l, r'')
      | None => r' ← expect "]" r; Some ([v], r')
      end
  end
with parse_members (fuel : nat) (depth : Z) (s : string) {struct fuel} :
    option (list (string * json) * string) :=
  match fuel with
  | O => None
  | S fuel =>
      s1 ← expect (chr 34) s;
      '(k, s2) ← scan_string s1;
      s3 ← expect ":" s2;
      '(v, r) ← parse_value fuel depth s3;
      match expect "," r with
      | Some r' => '(l, r'') ← parse_members fuel depth r'; Some ((unquote k, v) :: l, r'')
      | None => r' ← expect "}" r; Some ([(unquote k, v)], r')
      end
  end.

(** A whole document: one value, and nothing but blanks around it.  Each nested
    call is made on a shorter string, or on the same one from [parse_elements]
    to [parse_value], so twice the length is fuel enough. *)
Definition parse_json (s : string) : option json :=
  '(v, r) ← parse_value (2 * slen s + 2) 0 s;
  if skip_ws r =?s "" then Some v else None.

(** ** Decoding into Go values *)

(** [jinto old v]: the value after storing [v] into a variable that holds [old];
    [None] for an [UnmarshalTypeError]. *)
Class JDecode (A : Type) := { jzero : A; jinto : A → json → option A }.

#[export] Instance JDecode_string : JDecode string := {|
  jzero := "";
  jinto old v := match v with JNull => Some old | JStr s => Some s | _ => None end |}.

#[export] Instance JDecode_bool : JDecode bool := {|
  jzero := false;
  jinto old v := match v with JNull => Some old | JBool b => Some b | _ => None end |}.

(** [strconv.ParseInt(lit, 10, 64)] of a number literal. *)
Fixpoint digits_val (acc : Z) (s : string) : option Z :=
  match s with
  | EmptyString => Some acc
  | String a s' => if is_digit a then digits_val (acc * 10 + (bval a - 48)) s' else None
  end.

Definition ParseInt64 (s : string) : option Z :=
  let '(neg, d) := match s with String "-" t => (true, t) | _ => (false, s) end in
  if d =?s "" then None
  else
    v ← digits_val 0 d;
    let z := if neg : bool then - v else v in
    if (- 2 ^ 63 <=? z) && (z <? 2 ^ 63) then Some z else None.

#[export] Instance JDecode_int : JDecode Z := {|
  jzero := 0;
  jinto old v := match v with JNull => Some old | JNum lit => ParseInt64 lit | _ => None end |}.

(** [json.RawMessage]: the value itself. *)
#[export] Instance JDecode_raw : JDecode json := {| jzero := JNull; jinto _ v := Some v |}.

(** Slices: [null] gives nil; the elements of an array are decoded one by one
    into the elements already there, and then into fresh ones. *)
Fixpoint jinto_list {A} `{JDecode A} (old : list A) (l : list json) : option (list A) :=
  match l with
  | [] => Some []
  | v :: l' =>
      a ← jinto (match old with o :: _ => o | [] => jzero end) v;
      r ← jinto_list (match old with _ :: os => os | [] => [] end) l';
      Some (a :: r)
  end.

#[export] Instance JDecode_list {A} `{JDecode A} : JDecode (list A) := {|
  jzero := [];
  jinto old v := match v with JNull => Some [] | JArr l => jinto_list old l | _ => None end |}.

(** [map[string]json.RawMessage]: keys are exact and the last one wins. *)
Definition RawMap : Type := gmap string json.
#[export] Instance JDecode_rawmap : JDecode RawMap := {|
  jzero := ∅;
  jinto old v :=
    match v with
    | JNull => Some ∅
    | JObj l => Some (foldl (λ m '(k, v), <[k := v]> m) (old : gmap string json) l)
    | _ => None
    end |}.

(** ** Structs *)

(** A field: its JSON name and how a value is stored into it. *)
Record jfield (S : Type) := JField { fname : string; fstore : S → json → option S }.
Arguments JField {S} fname fstore.
Arguments fname {S}.
Arguments fstore {S}.

Definition field {S A} `{JDecode A} (name : string) (get : S → A) (set : S → A → S) : jfield S :=
  JField name (λ s v, a ← jinto (get s) v; Some (set s a)).

(** [foldName]: ASCII letters are raised, and U+017F and U+212A, the only other
    runes that fold to ASCII, become S and K. *)
Definition fold_rune (r : Z) : Z :=
  if (97 <=? r) && (r <=? 122) then r - 32
  else if r =? 0x17F then 83 else if r =? 0x212A then 75 else r.

Definition foldName (s : string) : list Z := (λ c, fold_rune (rune c)) <$> decode s.

(** The field for a key: an exact name first, then one that differs in case. *)
Definition find_field {S} (fs : list (jfield S)) (k : string) : option (jfield S) :=
  match List.find (λ f, fname f =?s k) fs with
  | Some f => Some f
  | None => List.find (λ f, bool_decide (foldName (fname f) = foldName k)) fs
  end.

Fixpoint store_members {S} (fs : list (jfield S)) (s : S) (l : list (string * json)) : option S :=
  match l with
  | [] => Some s
  | (k, v) :: l' =>
      s' ← match find_field fs k with Some f => fstore f s v | None => Some s end;
      store_members fs s' l'
  end.

Definition jstruct {S} (zero : S) (fs : list (jfield S)) : JDecode S := {|
  jzero := zero;
  jinto old v := match v with JNull => Some old | JObj l => store_members fs old l | _ => None end |}.

(** [json.Unmarshal(data, &v)] for a zero [v]; [None] when it returns an error. *)
Definition Unmarshal {A} `{JDecode A} (data : string) : option A :=
  v ← parse_json data; jinto jzero v.

(** ** Encoding strings ([json.Marshal], HTML escaping on) *)

Definition hex_digit (n : Z) : ascii := byte_of (if n <? 10 then 48 + n else 87 + n).

Definition html_safe (r : Z) : bool :=
  (0x20 <=? r) && negb (existsb (Z.eqb r) [34; 38; 60; 62; 92]).

Definition short_escape (r : Z) : option ascii :=
  if r =? 34 then Some (chr 34) else if r =? 92 then Some (chr 92)
  else if r =? 8 then Some "b"%char else if r =? 12 then Some "f"%char
  else if r =? 10 then Some "n"%char else if r =? 13 then Some "r"%char
  else if r =? 9 then Some "t"%char else None.

Definition bslash (s : string) : string := String (chr 92) s.

Definition escape_cell (c : cell) : string :=
  let r := rune c in
  if r <? 0x80 then
    if html_safe r then raw c
    else match short_escape r with
         | Some e => bslash (str1 e)
         | None => bslash ("u00" +:+ str1 (hex_digit (r / 16)) +:+ str1 (hex_digit (r mod 16)))
         end
  else if negb (cell_valid c) then bslash "ufffd"
  else if r =? 0x2028 then bslash "u2028"
  else if r =? 0x2029 then bslash "u2029"
  else raw c.

Definition MarshalString (s : string) : string :=
  dquote +:+ concat_strings (escape_cell <$> decode s) +:+ dquote.

(** ** Examples *)

Example parse_small :
  parse_json ("{" +:+ dquote +:+ "a" +:+ dquote +:+ " : [1, -2.5e3 ,null,true] }") =
  Some (JObj [("a", JArr [JNum "1"; JNum "-2.5e3"; JNull; JBool true])]).
Proof. vm_compute. reflexivity. Qed.

Example parse_trailing : parse_json "1 2" = None ∧ parse_json "01" = None ∧ parse_json "[1,]" = None.
Proof. vm_compute. auto. Qed.

Example parse_surrogates :
  parse_json (dquote +:+ bslash "ud83d" +:+ bslash "ude00" +:+ dquote) = Some (JStr "😀") ∧
  parse_json (dquote +:+ bslash "ud83dx" +:+ dquote) = Some (JStr (EncodeRune RuneError +:+ "x")).
Proof. vm_compute. auto. Qed.

(** ** Lemmas: the parser consumes its input *)

Lemma skip_ws_len s : (slen (skip_ws s) ≤ slen s)%nat.
Proof. induction s as [|a s IH]; simpl; [lia|]. case_bool; simpl; lia. Qed.

Lemma scan_string_len s b r : scan_string s = Some (b, r) → (slen r < slen s)%nat.
Proof.
  revert b r; induction s as [s IH] using string_len_ind; intros b r H.
  destruct s as [|a s]; [done|]. cbn [scan_string] in H.
  destruct (Ascii.eqb a (chr 34)); [by simplify_eq/=; lia|].
  destruct (bval a <? 0x20); [done|].
  destruct (Ascii.eqb a (chr 92)).
  2: { destruct (scan_string s) as [[b' r']|] eqn:E; simplify_eq/=.
       apply IH in E; simpl; lia. }
  destruct s as [|e s]; [done|].
  destruct (Ascii.eqb e "u").
  - destruct s as [|h1 [|h2 [|h3 [|h4 s]]]]; try done. case_bool; [|done].
    destruct (scan_string s) as [[b' r']|] eqn:E; simplify_eq/=. apply IH in E; simpl; lia.
  - case_bool; [|done]. destruct (scan_string s) as [[b' r']|] eqn:E; simplify_eq/=.
    apply IH in E; simpl; lia.
Qed.

Lemma span_digits_len s d r : span_digits s = (d, r) → slen s = (slen d + slen r)%nat.
Proof.
  revert d r; induction s as [|a s IH]; intros d r H; simpl in H; [by simplify_eq|].
  case_bool; [|by simplify_eq]. destruct (span_digits s) as [d' r'] eqn:E. simplify_eq/=.
  by rewrite (IH d' r).
Qed.

Lemma scan_int_len s d r : scan_int s = Some (d, r) → (slen r < slen s)%nat.
Proof.
  unfold scan_int. intros H.
  assert ((let '(d, r) := span_digits s in if d =?s "" then None else Some (d, r)) = Some (d, r) →
          (slen r < slen s)%nat) as Hd.
  { destruct (span_digits s) as [d' r'] eqn:E. intros Hs. case_bool; simplify_eq. bool_hyps.
    apply span_digits_len in E. destruct d; [done|]. simpl in E. lia. }
  repeat case_match; simplify_eq; auto; simpl; lia.
Qed.

Lemma scan_frac_len s d r : scan_frac s = Some (d, r) → (slen r ≤ slen s)%nat.
Proof.
  unfold scan_frac. intros H. repeat case_match; simplify_eq; simpl; try lia.
  match goal with H : span_digits _ = _ |- _ => apply span_digits_len in H end. lia.
Qed.

Lemma scan_exp_len s d r : scan_exp s = Some (d, r) → (slen r ≤ slen s)%nat.
Proof.
  unfold scan_exp. intros H. repeat case_match; simplify_eq; simpl; try lia.
  all: match goal with H : span_digits _ = _ |- _ => apply span_digits_len in H end; simpl in *; lia.
Qed.

Lemma scan_number_len s lit r : scan_number s = Some (lit, r) → (slen r < slen s)%nat.
Proof.
  unfold scan_number. set (p := match s with String "-" t => (str1 "-", t) | _ => (EmptyString, s) end).
  assert (slen p.2 ≤ slen s)%nat as Hp by (unfold p; repeat case_match; simpl; lia).
  destruct p as [sg s0]. simpl in Hp. intros H.
  destruct (scan_int s0) as [[i s1]|] eqn:E1; simplify_eq/=. apply scan_int_len in E1.
  destruct (scan_frac s1) as [[f s2]|] eqn:E2; simplify_eq/=. apply scan_frac_len in E2.
  destruct (scan_exp s2) as [[e s3]|] eqn:E3; simplify_eq/=. apply scan_exp_len in E3. lia.
Qed.

Lemma expect_len c s r : expect c s = Some r → (slen r < slen s)%nat.
Proof.
  unfold expect. intros H. pose proof (skip_ws_len s).
  destruct (skip_ws s); [done|]. case_bool; simplify_eq/=. lia.
Qed.

(** Every parser leaves a strictly shorter rest. *)
Lemma parse_len fuel :
  (∀ d s v r, parse_value fuel d s = Some (v, r) → (slen r < slen s)%nat) ∧
  (∀ d s l r, parse_elements fuel d s = Some (l, r) → (slen r < slen s)%nat) ∧
  (∀ d s l r, parse_members fuel d s = Some (l, r) → (slen r < slen s)%nat).
Proof.
  induction fuel as [|fuel (IHv & IHe & IHm)]; [done|].
  split_and!; intros d s x r H; cbn [parse_value parse_elements parse_members] in H.
  - pose proof (skip_ws_len s). destruct (skip_ws s) as [|c s'] eqn:Es; [done|]. simpl slen in *.
    destruct (Ascii.eqb c "{").
    { destruct (maxNestingDepth <=? d); [done|].
      destruct (expect "}" s') eqn:Ee; [apply expect_len in Ee; simplify_eq; lia|].
      destruct (parse_members fuel (d + 1) s') as [[l r']|] eqn:E; simplify_eq/=.
      apply IHm in E. lia. }
    destruct (Ascii.eqb c "[").
    { destruct (maxNestingDepth <=? d); [done|].
      destruct (expect "]" s') eqn:Ee; [apply expect_len in Ee; simplify_eq; lia|].
      destruct (parse_elements fuel (d + 1) s') as [[l r']|] eqn:E; simplify_eq/=.
      apply IHe in E. lia. }
    destruct (Ascii.eqb c (chr 34)).
    { destruct (scan_string s') as [[b r']|] eqn:E; simplify_eq/=. apply scan_string_len in E. lia. }
    destruct (Ascii.eqb c "-" || is_digit c).
    { destruct (scan_number (String c s')) as [[b r']|] eqn:E; simplify_eq/=.
      apply scan_number_len in E. simpl in E. lia. }
    repeat case_bool; simplify_eq; rewrite slen_drop; lia.
  - destruct (parse_value fuel d s) as [[v r0]|] eqn:E; simplify_eq/=. apply IHv in E.
    destruct (expect "," r0) as [r1|] eqn:Ec.
    + destruct (parse_elements fuel d r1) as [[l r2]|] eqn:E2; simplify_eq/=.
      apply IHe in E2. apply expect_len in Ec. lia.
    + destruct (expect "]" r0) as [r1|] eqn:Eb; simplify_eq/=. apply expect_len in Eb. lia.
  - destruct (expect (chr 34) s) as [s1|] eqn:Eq; simplify_eq/=. apply expect_len in Eq.
    destruct (scan_string s1) as [[k s2]|] eqn:Ek; simplify_eq/=. apply scan_string_len in Ek.
    destruct (expect ":" s2) as [s3|] eqn:Es; simplify_eq/=. apply expect_len in Es.
    destruct (parse_value fuel d s3) as [[v r0]|] eqn:E; simplify_eq/=. apply IHv in E.
    destruct (expect "," r0) as [r1|] eqn:Ec.
    + destruct (parse_members fuel d r1) as [[l r2]|] eqn:E2; simplify_eq/=.
      apply IHm in E2. apply expect_len in Ec. lia.
    + destruct (expect "}" r0) as [r1|] eqn:Eb; simplify_eq/=. apply expect_len in Eb. lia.
Qed.

(** Twice the length is fuel enough: more fuel changes nothing. *)
Lemma parse_fuel n :
  ∀ f f' d s, (slen s ≤ n)%nat →
  ((2 * n + 2 ≤ f)%nat → (2 * n + 2 ≤ f')%nat → parse_value f d s = parse_value f' d s) ∧
  ((2 * n + 3 ≤ f)%nat → (2 * n + 3 ≤ f')%nat → parse_elements f d s = parse_elements f' d s) ∧
  ((2 * n + 3 ≤ f)%nat → (2 * n + 3 ≤ f')%nat → parse_members f d s = parse_members f' d s).
Proof.
  induction n as [n IH] using lt_wf_ind. intros f f' d s Hs.
  assert (∀ f f' d s, (slen s ≤ n)%nat → (2 * n + 2 ≤ f)%nat → (2 * n + 2 ≤ f')%nat →
    parse_value f d s = parse_value f' d s) as Hv.
  { clear f f' d s Hs. intros [|f] [|f'] d s Hs Hf Hf'; [lia..|]. cbn [parse_value].
    pose proof (skip_ws_len s). destruct (skip_ws s) as [|c s'] eqn:Es; [done|]. simpl slen in *.
    destruct (IH (n - 1)%nat ltac:(lia) f f' (d + 1) s' ltac:(lia)) as (_ & He & Hm).
    by rewrite He, Hm by lia. }
  split_and!; [by apply Hv|..].
  - destruct f as [|f], f' as [|f']; [lia..|]. intros Hf Hf'. cbn [parse_elements].
    rewrite (Hv f f') by lia. destruct (parse_value f' d s) as [[v r]|] eqn:E; [|done]. simpl.
    apply (parse_len f') in E. destruct (expect "," r) as [r'|] eqn:Ec; [|done].
    apply expect_len in Ec.
    destruct (IH (n - 1)%nat ltac:(lia) f f' d r' ltac:(lia)) as (_ & He & _). by rewrite He by lia.
  - destruct f as [|f], f' as [|f']; [lia..|]. intros Hf Hf'. cbn [parse_members].
    destruct (expect (chr 34) s) as [s1|] eqn:Eq; [|done]. simpl.
    destruct (scan_string s1) as [[k s2]|] eqn:Ek; [|done]. simpl.
    destruct (expect ":" s2) as [s3|] eqn:E3; [|done]. simpl.
    apply expect_len in Eq, E3. apply scan_string_len in Ek.
    rewrite (Hv f f') by lia. destruct (parse_value f' d s3) as [[v r]|] eqn:E; [|done]. simpl.
    apply (parse_len f') in E. destruct (expect "," r) as [r'|] eqn:Ec; [|done].
    apply expect_len in Ec.
    destruct (IH (n - 1)%nat ltac:(lia) f f' d r' ltac:(lia)) as (_ & _ & Hm). by rewrite Hm by lia.
Qed.

(** ** Lemmas: strings survive encoding and decoding *)

(** What a valid cell looks like: an ASCII byte, or bytes at or above 0x80. *)
Lemma valid_cell_shape s c l :
  decode s = c :: l → cell_valid c = true →
  (∃ a, c = Cell (bval a) (str1 a) ∧ ascii_byte a = true) ∨
  (0x80 ≤ rune c ∧ all_bytes high_byte (raw c) = true).
Proof.
  intros Hd Hv. destruct (decode_cell_valid s c l Hd Hv) as [He _].
  destruct (decide (0 ≤ rune c < 0x80)) as [Hr|Hr].
  - left. rewrite EncodeRune_ascii in He by done. exists (byte_of (rune c)).
    unfold ascii_byte. rewrite bval_byte_of, Z.mod_small by lia. split; [|lia].
    rewrite He. by destruct c.
  - assert (0 ≤ rune c) as Hpos.
    { destruct s as [|a s]; [done|]. simpl in Hd.
      assert (∀ a n, 0 ≤ n → 0 ≤ Z.land (bval a) n) as Hland.
      { intros a' n Hn. apply Z.land_nonneg. left. apply bval_range. }
      repeat (case_match; simplify_eq); simpl; unfold rune2, rune3, rune4, low6, RuneError;
        try lia; try apply bval_range;
        repeat (apply Z.lor_nonneg; split); rewrite ?Z.shiftl_nonneg; auto with lia. }
    right. split; [lia|]. rewrite <-He. apply EncodeRune_high. lia.
Qed.

Lemma scan_string_high a rest :
  all_bytes high_byte a = true →
  scan_string (a +:+ rest) = '(b, r) ← scan_string rest; Some (a +:+ b, r).
Proof.
  induction a as [|x a IH]; intros H; simpl.
  - by destruct (scan_string rest) as [[]|].
  - simpl in H. bool_hyps. unfold high_byte in *. bool_hyps.
    assert (∀ n, (n < 128)%nat → Ascii.eqb x (chr n) = false) as Hx.
    { intros n Hn. apply Ascii.eqb_neq. intros ->. unfold bval, chr in *.
      unfold ascii_of_nat in *.
      rewrite N_ascii_embedding in * by lia. lia. }
    rewrite !Hx by lia. rewrite (proj2 (Z.ltb_ge (bval x) 0x20)) by lia.
    rewrite IH by done. by destruct (scan_string rest) as [[]|].
Qed.

(** The escape of an ASCII character, byte by byte. *)
Lemma scan_string_ascii a rest :
  ascii_byte a = true →
  scan_string (escape_cell (Cell (bval a) (str1 a)) +:+ rest) =
    '(b, r) ← scan_string rest; Some (escape_cell (Cell (bval a) (str1 a)) +:+ b, r).
Proof.
  destruct a as [[] [] [] [] [] [] [] []]; try done; intros _;
    cbn -[scan_string]; simpl; by destruct (scan_string rest) as [[]|].
Qed.

Lemma escape_cell_ascii a :
  ascii_byte a = true → is_ascii (escape_cell (Cell (bval a) (str1 a))) = true.
Proof. destruct a as [[] [] [] [] [] [] [] []]; try done; intros _; reflexivity. Qed.

Lemma unquote_ascii a l :
  ascii_byte a = true →
  unquote_cells (decode (escape_cell (Cell (bval a) (str1 a))) ++ l) = String a (unquote_cells l).
Proof. destruct a as [[] [] [] [] [] [] [] []]; try done; intros _; reflexivity. Qed.

Lemma scan_string_escape c s rest l :
  decode s = c :: l → cell_valid c = true →
  scan_string (escape_cell c +:+ rest) =
    '(b, r) ← scan_string rest; Some (escape_cell c +:+ b, r).
Proof.
  intros Hd Hv. destruct (valid_cell_shape s c l Hd Hv) as [(a & -> & Ha)|[Hr Hh]].
  { by apply scan_string_ascii. }
  unfold escape_cell. rewrite (proj2 (Z.ltb_ge _ _)) by done. rewrite Hv. simpl negb. cbv iota.
  repeat case_bool; [simpl; by destruct (scan_string rest) as [[]|]..|].
  by apply scan_string_high.
Qed.

Lemma unquote_escape c s l t :
  decode s = c :: l → cell_valid c = true →
  unquote (escape_cell c +:+ t) = raw c +:+ unquote t.
Proof.
  intros Hd Hv. unfold unquote. destruct (decode_cell_valid s c l Hd Hv) as [He Hdec].
  destruct (valid_cell_shape s c l Hd Hv) as [(a & -> & Ha)|[Hr Hh]].
  { rewrite decode_ascii_app by (by apply escape_cell_ascii). rewrite unquote_ascii by done. done. }
  unfold escape_cell. rewrite (proj2 (Z.ltb_ge _ _)) by done. rewrite Hv. simpl negb. cbv iota.
  destruct (Z.eqb_spec (rune c) 0x2028) as [E|E].
  { rewrite decode_ascii_app by done. rewrite <-He, E. reflexivity. }
  destruct (Z.eqb_spec (rune c) 0x2029) as [E'|E'].
  { rewrite decode_ascii_app by done. rewrite <-He, E'. reflexivity. }
  rewrite Hdec. cbn [unquote_cells].
  rewrite (proj2 (Z.eqb_neq (rune c) 92)) by lia. by rewrite He.
Qed.

(** A valid UTF-8 string comes back from its JSON literal, with whatever follows
    the literal left over. *)
Lemma scan_MarshalString s rest :
  ValidString s = true →
  ∃ b, scan_string (concat_strings (escape_cell <$> decode s) +:+ dquote +:+ rest) = Some (b, rest) ∧
       unquote b = s.
Proof.
  unfold ValidString. induction s as [s IH] using string_len_ind. intros Hv.
  destruct (decide (s = EmptyString)) as [->|Hne].
  { by exists EmptyString. }
  destruct (decode_step s Hne) as (c & t & Hd & Hs & Hlt). rewrite Hd in *. csimpl in *.
  bool_hyps. destruct (IH t) as (b & Hb & Hu); [done..|].
  exists (escape_cell c +:+ b). rewrite sapp_assoc.
  rewrite (scan_string_escape c s _ (decode t)) by done. rewrite Hb. simpl. split; [done|].
  rewrite (unquote_escape c s (decode t)), Hu by done. by symmetry.
Qed.

(** One member of an object, its parts parsed one by one. *)
Lemma parse_members_step f d s s1 k s2 s3 v r :
  expect (chr 34) s = Some s1 → scan_string s1 = Some (k, s2) → expect ":" s2 = Some s3 →
  parse_value f d s3 = Some (v, r) →
  parse_members (S f) d s =
    match expect "," r with
    | Some r' => '(l, r'') ← parse_members f d r'; Some ((unquote k, v) :: l, r'')
    | None => r' ← expect "}" r; Some ([(unquote k, v)], r')
    end.
Proof. intros H1 H2 H3 H4. cbn [parse_members]. rewrite H1. simpl. rewrite H2. simpl. by rewrite H3; simpl; rewrite H4. Qed.

Lemma parse_object f d s s' :
  expect "{" s = Some s' → d < maxNestingDepth → expect "}" s' = None →
  parse_value (S f) d s = '(l, r) ← parse_members f (d + 1) s'; Some (JObj l, r).
Proof.
  unfold expect at 1. cbn [parse_value]. destruct (skip_ws s) as [|c t]; [done|].
  destruct (Ascii.eqb c "{"); [|done]. intros [= ->] Hd He. rewrite He.
  by rewrite (proj2 (Z.leb_gt _ _)).
Qed.
