(* ===== verification/Effects.v ===== *)
(** * Programs with effects and a logic for them

    The stateful parts of the library are programs over an event signature [E]:
    each call that leaves the library, and each critical section, is an event
    that the environment answers, possibly with a panic.  Everything the library
    runs between two events is a pure function, so a program is an inductive
    tree and always terminates once its events are answered.

    The logic [wp] is about every environment: it ranges over all answers a
    protocol allows and can speak about the history of events and answers. *)

From S2P Require Import Prelude.

(** ** Programs *)

(** The outcome of a call: a value, or a panic with its value. *)
Inductive res (X : Type) : Type :=
  | Ok (x : X)
  | Panicked (v : string).
Arguments Ok {X} x.
Arguments Panicked {X} v.

Inductive prog (E : Type → Type) (A : Type) : Type :=
  | Ret (a : A)
  | Throw (v : string)
  | Vis {X : Type} (e : E X) (k : res X → prog E A).
Arguments Ret {E A} a.
Arguments Throw {E A} v.
Arguments Vis {E A X} e k.

Section Programs.
Context {E : Type → Type}.

Fixpoint pbind {A B} (f : A → prog E B) (p : prog E A) : prog E B :=
  match p with
  | Ret a => f a
  | Throw v => Throw v
  | Vis e k => Vis e (λ r, pbind f (k r))
  end.

(** [defer func() { if r := recover(); r != nil { h(r) } }()] around [p]. *)
Fixpoint recover {A} (h : string → prog E A) (p : prog E A) : prog E A :=
  match p with
  | Ret a => Ret a
  | Throw v => h v
  | Vis e k => Vis e (λ r, recover h (k r))
  end.

(** One event; a panicking answer panics. *)
Definition trigger {X} (e : E X) : prog E X :=
  Vis e (λ r, match r with Ok x => Ret x | Panicked v => Throw v end).

(** A call that is pure but may panic. *)
Definition lift {A} (r : res A) : prog E A :=
  match r with Ok a => Ret a | Panicked v => Throw v end.

End Programs.

#[export] Instance prog_ret {E} : MRet (prog E) := λ A a, Ret a.
#[export] Instance prog_bind {E} : MBind (prog E) := λ A B f p, pbind f p.

(** ** Running a program against a stateful environment *)

Section Run.
Context {E : Type → Type} {W : Type} (env : ∀ X, E X → W → res X * W).

Fixpoint run {A} (p : prog E A) (w : W) : res A * W :=
  match p with
  | Ret a => (Ok a, w)
  | Throw v => (Panicked v, w)
  | Vis e k => let '(r, w') := env _ e w in run (k r) w'
  end.

Lemma run_bind {A B} (f : A → prog E B) (p : prog E A) w :
  run (pbind f p) w =
  match run p w with
  | (Ok a, w') => run (f a) w'
  | (Panicked v, w') => (Panicked v, w')
  end.
Proof.
  revert w; induction p as [a|v|X e k IH]; intros w; simpl; [done|done|].
  destruct (env X e w) as [r w']. apply IH.
Qed.

Lemma run_mbind {A B} (f : A → prog E B) (p : prog E A) w :
  run (p ≫= f) w =
  match run p w with
  | (Ok a, w') => run (f a) w'
  | (Panicked v, w') => (Panicked v, w')
  end.
Proof. apply run_bind. Qed.
End Run.

(** ** The logic *)

(** What happened so far: events with their answers, oldest first. *)
Inductive obs (E : Type → Type) : Type :=
  | Obs {X : Type} (e : E X) (r : res X).
Arguments Obs {E X} e r.

Abbreviation history E := (list (obs E)).

(** The call panicked. *)
Definition obs_panic {E} (o : obs E) : Prop :=
  match o with Obs _ (Panicked _) => True | _ => False end.

(** A protocol says which events a program may perform after a history, and
    which answers the environment may give. *)
Record protocol (E : Type → Type) := Protocol {
  may : history E → ∀ X, E X → Prop;
  answers : history E → ∀ X, E X → res X → Prop }.
Arguments Protocol {E} may answers.
Arguments may {E} p h {X} e.
Arguments answers {E} p h {X} e r.

(** Any event, any answer. *)
Definition free_protocol {E} : protocol E := Protocol (λ _ _ _, True) (λ _ _ _ _, True).

Section Logic.
Context {E : Type → Type}.
Implicit Types P : protocol E.

(** Run from history [h], [p] performs only events the protocol allows and ends
    in a state the postcondition accepts, whatever the environment answers. *)
Fixpoint wp {A} P (h : history E) (p : prog E A) (Q : history E → res A → Prop) : Prop :=
  match p with
  | Ret a => Q h (Ok a)
  | Throw v => Q h (Panicked v)
  | Vis e k => may P h e ∧ ∀ r, answers P h e r → wp P (h ++ [Obs e r]) (k r) Q
  end.

Lemma wp_mono {A} P h (p : prog E A) (Q Q' : history E → res A → Prop) :
  wp P h p Q → (∀ h' r, Q h' r → Q' h' r) → wp P h p Q'.
Proof.
  revert h; induction p as [a|v|X e k IH]; intros h Hw HQ; simpl in *; [auto..|].
  destruct Hw as [He Hk]. split; [done|]. intros r Hr. eapply IH; eauto.
Qed.

Lemma wp_bind {A B} P h (p : prog E A) (f : A → prog E B) Q :
  wp P h p (λ h' r, match r with Ok a => wp P h' (f a) Q | Panicked v => Q h' (Panicked v) end) →
  wp P h (pbind f p) Q.
Proof.
  revert h; induction p as [a|v|X e k IH]; intros h Hw; simpl in *; [done..|].
  destruct Hw as [He Hk]. split; [done|]. intros r Hr. apply IH. auto.
Qed.

Lemma wp_recover {A} P h (p : prog E A) (hd : string → prog E A) Q :
  wp P h p (λ h' r, match r with Ok a => Q h' (Ok a) | Panicked v => wp P h' (hd v) Q end) →
  wp P h (recover hd p) Q.
Proof.
  revert h; induction p as [a|v|X e k IH]; intros h Hw; simpl in *; [done..|].
  destruct Hw as [He Hk]. split; [done|]. intros r Hr. apply IH. auto.
Qed.

Lemma wp_trigger {X} P h (e : E X) Q :
  may P h e → (∀ r, answers P h e r → Q (h ++ [Obs e r]) r) → wp P h (trigger e) Q.
Proof. intros He HQ. simpl. split; [done|]. intros [x|v] Hr; simpl; by apply HQ. Qed.

(** The history only grows. *)
Lemma wp_history {A} P h (p : prog E A) Q :
  wp P h p Q → wp P h p (λ h' r, (∃ t, h' = h ++ t) ∧ Q h' r).
Proof.
  revert h; induction p as [a|v|X e k IH]; intros h Hw; simpl in *.
  - split; [|done]. exists []. by rewrite app_nil_r.
  - split; [|done]. exists []. by rewrite app_nil_r.
  - destruct Hw as [He Hk]. split; [done|]. intros r Hr.
    eapply wp_mono; [by apply IH, Hk|]. intros h' r' [[t ->] HQ]. split; [|done].
    exists (Obs e r :: t). by rewrite <-app_assoc.
Qed.

(** Two postconditions at once. *)
Lemma wp_and {A} P h (p : prog E A) Q Q' :
  wp P h p Q → wp P h p Q' → wp P h p (λ h' r, Q h' r ∧ Q' h' r).
Proof.
  revert h; induction p as [a|v|X e k IH]; intros h Hw Hw'; simpl in *; [done..|].
  destruct Hw as [He Hk], Hw' as [_ Hk']. split; [done|]. intros r Hr. auto.
Qed.

(** A protocol with weaker demands and stronger promises. *)
Lemma wp_protocol {A} P P' h (p : prog E A) Q :
  (∀ h X (e : E X), may P h e → may P' h e) →
  (∀ h X (e : E X) r, answers P' h e r → answers P h e r) →
  wp P h p Q → wp P' h p Q.
Proof.
  intros Hm Ha. revert h; induction p as [a|v|X e k IH]; intros h Hw; simpl in *; [done..|].
  destruct Hw as [He Hk]. split; [auto|]. intros r Hr. auto.
Qed.

(** Under the protocol that allows everything a trivial postcondition holds. *)
Lemma wp_free {A} h (p : prog E A) (Q : history E → res A → Prop) :
  (∀ h' r, Q h' r) → wp free_protocol h p Q.
Proof.
  intros HQ. revert h; induction p as [a|v|X e k IH]; intros h; simpl; [auto..|].
  split; [done|]. intros r _. apply IH.
Qed.

(** Soundness for a concrete environment whose answers obey the protocol
    whatever the history: the run ends in a state the postcondition accepts. *)
Lemma wp_run {A W} (env : ∀ X, E X → W → res X * W) P h (p : prog E A) Q w :
  (∀ h X (e : E X) w, answers P h e (env X e w).1) →
  wp P h p Q → ∃ h', Q h' (run env p w).1.
Proof.
  intros Ha. revert h w; induction p as [a|v|X e k IH]; intros h w Hw; simpl in *; [eauto..|].
  destruct Hw as [_ Hk]. specialize (Ha h X e w). destruct (env X e w) as [r w'].
  eapply IH. by apply Hk.
Qed.

End Logic.

(** [∀]-style loops: [for _, x := range l { body }]. *)
Fixpoint for_each {E A} (body : A → prog E unit) (l : list A) : prog E unit :=
  match l with
  | [] => Ret tt
  | x :: l => pbind (λ _, for_each body l) (body x)
  end.

(** ** Automation: one step of a [wp] goal *)

Ltac wp_step :=
  lazymatch goal with
  | |- wp _ _ (mbind _ _) _ => apply wp_bind
  | |- wp _ _ (pbind _ _) _ => apply wp_bind
  | |- wp _ _ (trigger _) _ => apply wp_trigger; [|intros ? ?]
  | |- wp _ _ (recover _ _) _ => apply wp_recover
  | |- wp _ _ (mret _) _ => simpl
  | |- wp _ _ (Ret _) _ => simpl
  | |- wp _ _ (Throw _) _ => simpl
  end.

Create HintDb wp discriminated.
#[export] Hint Resolve wp_free : wp.
