(* ===== verification/Types.v ===== *)
(** * Data of the library

    The plain data types the components share: [ImageLicense] (license.go),
    [ImageCandidate] (search.go), [LicenseSignal] and [LicenseAssessment]
    (assessment.go), [ImageMetadata] (metadata.go). *)

From S2P Require Import Prelude.

(** ** license.go: the license classes, in the order of their [iota] values *)

Inductive ImageLicense := LicenseSafe | LicenseUnknown | LicenseBlocked.

#[export] Instance ImageLicense_eq_dec : EqDecision ImageLicense.
Proof. solve_decision. Defined.

(** The integer behind the constant; [sort.SliceStable] compares these. *)
Definition license_int (l : ImageLicense) : Z :=
  match l with LicenseSafe => 0 | LicenseUnknown => 1 | LicenseBlocked => 2 end.

Definition license_eqb (a b : ImageLicense) : bool := (license_int a =? license_int b)%Z.

(** [ImageLicense.String] *)
Definition license_String (l : ImageLicense) : string :=
  match l with
  | LicenseSafe => "safe"
  | LicenseBlocked => "blocked"
  | _ => "unknown"
  end.

Lemma license_eqb_eq a b : license_eqb a b = true ↔ a = b.
Proof. destruct a, b; done. Qed.

Lemma license_eqb_neq a b : license_eqb a b = false ↔ a ≠ b.
Proof. destruct a, b; done. Qed.

(** ** search.go: a candidate image *)

Record ImageCandidate := mkCandidate {
  ImgURL : string;
  Thumbnail : string;
  Source : string;
  Title : string;
  License : ImageLicense;
  Width : Z;
  Height : Z;
  Engine : string }.

#[export] Instance ImageCandidate_eq_dec : EqDecision ImageCandidate.
Proof. solve_decision. Defined.

(** The zero value of the struct: note that its [License] is [LicenseSafe]. *)
Definition zeroCandidate : ImageCandidate :=
  mkCandidate "" "" "" "" LicenseSafe 0 0 "".

(** A candidate given by the four fields most providers set. *)
Definition candidate (img thumb src title : string) (l : ImageLicense) : ImageCandidate :=
  mkCandidate img thumb src title l 0 0 "".

(** ** assessment.go: evidence and verdict *)

Record LicenseSignal := mkSignal {
  sigSource : string; sigDetail : string; sigLicense : ImageLicense }.

Record LicenseAssessment := mkAssessment {
  assLicense : ImageLicense; assSignals : list LicenseSignal }.

(** ** metadata.go: rights metadata of an image *)

Record ImageMetadata := mkMeta {
  EXIFCopyright : string;
  EXIFArtist : string;
  IPTCCopyright : string;
  IPTCCredit : string;
  IPTCSource : string;
  IPTCByline : string;
  XMPLicense : string;
  XMPWebStatement : string;
  XMPUsageTerms : string;
  XMPMarked : bool;
  DCRights : string;
  DCCreator : string }.

Definition emptyMeta : ImageMetadata := mkMeta "" "" "" "" "" "" "" "" "" false "" "".
