(* ===== verification/License.v ===== *)
(** * License classification by domain (license.go, patterns.go, prefilter.go)

    [CheckLicenseWith] classifies an image by the host and path of its URL and of
    its page; [IsLogoOrBanner] is the URL pattern filter; [PreClassify] the
    cost-tier shortcut. *)

From S2P Require Import Prelude Unicode GoStrings GoURL Types.

Module License.

(** ** Tables *)

Definition BlockedDomains : list string := [
  "shutterstock"; "gettyimages"; "istockphoto"; "adobestock"; "depositphotos"; "dreamstime";
  "123rf"; "alamy"; "bigstockphoto"; "stocksy"; "eyeem"; "pond5"; "thinkstockphotos";
  "canstockphoto"; "masterfile"; "superstock"; "agefotostock"; "colourbox"; "photodune";
  "yayimages"; "vectorstock"; "loriimages"; "fotobank"; "freepik"; "canva."; "clipartof";
  "featurepics"; "rfclipart" ].

Definition BlockedURLPatterns : list string := [
  "/stock-photo"; "/stock-image"; "/editorial-image"; "/premium-photo" ].

Definition SafeDomains : list string := [
  "unsplash"; "pexels"; "pixabay"; "wikimedia"; "commons.wikimedia"; "flickr"; "rawpixel";
  "stocksnap"; "burst.shopify"; "kaboompics"; "picjumbo" ].

(** patterns.go *)
Definition LogoBannerPatterns : list string := [
  "favicon"; "logo"; "icon"; "banner"; "sprite"; "badge"; "button"; "widget"; "avatar" ].

(** ** Operations *)

(** [for _, p := range l { if strings.Contains(s, p) { return true } }; return false] *)
Definition containsAny (s : string) (l : list string) : bool := existsb (Contains s) l.

#[global] Arguments containsAny : simpl never.

Definition IsLogoOrBanner (lower : string) : bool := containsAny lower LogoBannerPatterns.

(** The caller-supplied lists skip empty entries. *)
Definition containsExtra (host : string) (extra : list string) : bool :=
  existsb (λ d, (d <>?s "") && Contains host d) extra.

Definition isBlockedWith (rawURL : string) (extra : list string) : bool :=
  if rawURL =?s "" then false
  else match Parse rawURL with
  | None => false
  | Some parsed =>
      let host := ToLower (Host parsed) in
      if (host <>?s "") && (containsAny host BlockedDomains || containsExtra host extra) then true
      else containsAny (ToLower (Path parsed)) BlockedURLPatterns
  end.

Definition extractHost (rawURL : string) : string :=
  match Parse rawURL with
  | None => ""
  | Some parsed => ToLower (Host parsed)
  end.

Definition isSafeWith (rawURL : string) (extra : list string) : bool :=
  let host := extractHost rawURL in
  if host =?s "" then false
  else containsAny host SafeDomains || containsExtra host extra.

Definition CheckLicenseWith (imageURL sourceURL : string) (extraBlocked extraSafe : list string) :
    ImageLicense :=
  if existsb (λ u, isBlockedWith u extraBlocked) [imageURL; sourceURL] then LicenseBlocked
  else if existsb (λ u, isSafeWith u extraSafe) [imageURL; sourceURL] then LicenseSafe
  else LicenseUnknown.

Definition CheckLicense (imageURL sourceURL : string) : ImageLicense :=
  CheckLicenseWith imageURL sourceURL [] [].

(** prefilter.go *)
Definition PreClassify (cand : ImageCandidate) : string * bool :=
  if license_eqb (License cand) LicenseSafe then ("PHOTO", true) else ("", false).

(** ** Lemmas *)

Lemma containsAny_true s l : containsAny s l = true ↔ ∃ d, d ∈ l ∧ Contains s d = true.
Proof. apply existsb_true. Qed.

Lemma containsExtra_true s l :
  containsExtra s l = true ↔ ∃ d, d ∈ l ∧ d ≠ "" ∧ Contains s d = true.
Proof.
  unfold containsExtra. rewrite existsb_true.
  split; intros (d & Hd & H); exists d.
  - bool_hyps. auto.
  - destruct H as [H1 H2]. rewrite H2, andb_true_r. split; [done|].
    by apply negb_true_iff, String.eqb_neq.
Qed.

Lemma containsExtra_mono s l l' : l ⊆ l' → containsExtra s l = true → containsExtra s l' = true.
Proof. rewrite !containsExtra_true. set_solver. Qed.

(** The built-in tables are lower-case ASCII, so that matching them against a
    lowered host or path ignores case. *)
Definition lower_ascii (d : string) : bool := is_ascii d && all_bytes not_capital d.

Lemma tables_lower :
  forallb lower_ascii (BlockedDomains ++ BlockedURLPatterns ++ SafeDomains ++ LogoBannerPatterns)
  = true.
Proof. vm_compute. reflexivity. Qed.

Lemma table_ToLower d :
  d ∈ BlockedDomains ++ BlockedURLPatterns ++ SafeDomains ++ LogoBannerPatterns → ToLower d = d.
Proof.
  intros Hd. pose proof tables_lower as H. rewrite forallb_forall in H.
  apply list_elem_of_In, H in Hd. unfold lower_ascii in Hd. bool_hyps. by apply ToLower_fixed.
Qed.

Lemma isBlockedWith_mono u e e' : e ⊆ e' → isBlockedWith u e = true → isBlockedWith u e' = true.
Proof.
  intros He. unfold isBlockedWith. destruct (u =?s ""); [done|].
  destruct (Parse u) as [p|]; [|done]. cbv zeta.
  destruct (ToLower (Host p) <>?s ""); simpl; [|done].
  destruct (containsAny (ToLower (Host p)) BlockedDomains); simpl; [done|].
  destruct (containsExtra (ToLower (Host p)) e) eqn:E.
  - by rewrite (containsExtra_mono _ e e').
  - intros ->. by case_bool.
Qed.

Lemma isSafeWith_mono u e e' : e ⊆ e' → isSafeWith u e = true → isSafeWith u e' = true.
Proof.
  intros He. unfold isSafeWith. case_bool; [done|].
  rewrite !orb_true_iff. intros [H|H]; [by left|]. right. by eapply containsExtra_mono.
Qed.

Lemma isBlockedWith_unparsed u e : Parse u = None → isBlockedWith u e = false.
Proof. intros H. unfold isBlockedWith. rewrite H. by case_bool. Qed.

Lemma isSafeWith_unparsed u e : Parse u = None → isSafeWith u e = false.
Proof. intros H. unfold isSafeWith, extractHost. rewrite H. done. Qed.

Lemma no_blocked_domain_in_empty d : d ∈ BlockedDomains → Contains "" d = false.
Proof.
  assert (forallb (λ d, negb (Contains "" d)) BlockedDomains = true) as Hne by done.
  rewrite forallb_forall in Hne. intros Hd. apply list_elem_of_In, Hne in Hd. by bool_hyps.
Qed.

(** A parsed URL whose host spells a blocked domain in any case is blocked. *)
Lemma isBlockedWith_host u parsed d e :
  Parse u = Some parsed → d ∈ BlockedDomains →
  Contains (ToLower (Host parsed)) d = true → isBlockedWith u e = true.
Proof.
  intros Hp Hd Hc. pose proof (no_blocked_domain_in_empty d Hd) as Hne.
  assert (u ≠ "") as Hu.
  { intros ->. vm_compute in Hp. injection Hp as <-. change (Contains "" d = true) in Hc.
    congruence. }
  unfold isBlockedWith. rewrite Hp, (proj2 (String.eqb_neq u "")) by done.
  assert (containsAny (ToLower (Host parsed)) BlockedDomains = true) as ->
    by (apply containsAny_true; eauto).
  destruct (ToLower (Host parsed) =?s "") eqn:E; [|done]. bool_hyps.
  rewrite E in Hc. congruence.
Qed.

(** ** Properties *)

(** The verdict of [CheckLicenseWith], case by case: blocked exactly when one of
    the two URLs is blocked, safe exactly when none is blocked and one is safe,
    unknown otherwise. *)
Lemma CheckLicenseWith_cases i s eb es :
  match CheckLicenseWith i s eb es with
  | LicenseBlocked => isBlockedWith i eb = true ∨ isBlockedWith s eb = true
  | LicenseSafe =>
      isBlockedWith i eb = false ∧ isBlockedWith s eb = false ∧
      (isSafeWith i es = true ∨ isSafeWith s es = true)
  | LicenseUnknown =>
      isBlockedWith i eb = false ∧ isBlockedWith s eb = false ∧
      isSafeWith i es = false ∧ isSafeWith s es = false
  end.
Proof.
  unfold CheckLicenseWith. simpl.
  destruct (isBlockedWith i eb), (isBlockedWith s eb), (isSafeWith i es), (isSafeWith s es);
    simpl; auto.
Qed.

Lemma CheckLicenseWith_Blocked i s eb es :
  CheckLicenseWith i s eb es = LicenseBlocked ↔
  isBlockedWith i eb = true ∨ isBlockedWith s eb = true.
Proof.
  pose proof (CheckLicenseWith_cases i s eb es) as H.
  destruct (CheckLicenseWith i s eb es); intuition congruence.
Qed.

Lemma CheckLicenseWith_Safe i s eb es :
  CheckLicenseWith i s eb es = LicenseSafe ↔
  CheckLicenseWith i s eb es ≠ LicenseBlocked ∧ (isSafeWith i es = true ∨ isSafeWith s es = true).
Proof.
  pose proof (CheckLicenseWith_cases i s eb es) as H.
  destruct (CheckLicenseWith i s eb es); intuition congruence.
Qed.

Lemma containsExtra_capital host d l l' :
  all_bytes not_capital d = false →
  containsExtra (ToLower host) (l ++ d :: l') = containsExtra (ToLower host) (l ++ l').
Proof.
  intros Hd. unfold containsExtra. rewrite !existsb_app. simpl.
  by rewrite Contains_ToLower_capital, andb_false_r.
Qed.

Lemma isBlockedWith_capital u d l l' :
  all_bytes not_capital d = false → isBlockedWith u (l ++ d :: l') = isBlockedWith u (l ++ l').
Proof.
  intros Hd. unfold isBlockedWith. case_bool; [done|]. destruct (Parse u); [|done].
  by rewrite containsExtra_capital.
Qed.

Lemma isSafeWith_capital u d l l' :
  all_bytes not_capital d = false → isSafeWith u (l ++ d :: l') = isSafeWith u (l ++ l').
Proof.
  intros Hd. unfold isSafeWith, extractHost. destruct (Parse u); [|done].
  by rewrite containsExtra_capital.
Qed.

(** (C14) A URL whose host spells a built-in stock domain, in whatever mix of
    cases and whatever surrounds it, makes the verdict [LicenseBlocked], be it
    the image URL or the page URL, whatever the other URL says and whatever
    domains the caller adds: this for every URL that [url.Parse] accepts (any
    scheme, user, port, path, query and fragment), and outright for an [https]
    URL made of a plain host name and a plain absolute path. *)
Theorem stock_host_is_blocked D other eb es :
  is_ascii D = true → ToLower D ∈ BlockedDomains →
  let blocks u := CheckLicenseWith u other eb es = LicenseBlocked ∧
                  CheckLicenseWith other u eb es = LicenseBlocked in
  (∀ u parsed, Parse u = Some parsed → Contains (Host parsed) D = true → blocks u) ∧
  (∀ h p, all_bytes host_char h = true → all_bytes path_char p = true →
   (p = EmptyString ∨ HasPrefix p "/" = true) → Contains h D = true →
   blocks ("https://" +:+ h +:+ p)).
Proof.
  intros Ha Hd blocks.
  assert (∀ u parsed, Parse u = Some parsed → Contains (Host parsed) D = true → blocks u) as Hall.
  { intros u parsed Hp Hc. unfold blocks. rewrite !CheckLicenseWith_Blocked.
    assert (isBlockedWith u eb = true) by (by eapply isBlockedWith_host, Contains_ToLower). auto. }
  split; [exact Hall|]. intros h p Hh Hp Hsl Hc. eapply Hall; [by apply Parse_https|exact Hc].
Qed.

Lemma stock_host_is_blocked_witness :
  CheckLicense "https://unsplash.com/p" "HTTP://me@Image.ShutterStock.com:8080/a%20b?x=1#top"
  = LicenseBlocked ∧
  CheckLicense "https://Image.ShutterStock.com/z/1.jpg" "https://unsplash.com/p" = LicenseBlocked.
Proof.
  assert (ToLower "ShutterStock" ∈ BlockedDomains) as Hd by (vm_compute; repeat constructor).
  destruct (stock_host_is_blocked "ShutterStock" "https://unsplash.com/p" [] [] eq_refl Hd)
    as [Hparsed Hplain].
  split.
  - eapply (Hparsed "HTTP://me@Image.ShutterStock.com:8080/a%20b?x=1#top");
      [vm_compute; reflexivity|reflexivity].
  - apply (Hplain "Image.ShutterStock.com" "/z/1.jpg"); [reflexivity|reflexivity|by right|reflexivity].
Defined.

(** (C15) Adding caller-supplied domains never weakens a verdict: what was
    blocked stays blocked, and what was safe never falls back to unknown. *)
Theorem extra_domains_monotone i s eb es eb' es' :
  eb ⊆ eb' → es ⊆ es' →
  (CheckLicenseWith i s eb es = LicenseBlocked → CheckLicenseWith i s eb' es' = LicenseBlocked) ∧
  (CheckLicenseWith i s eb es = LicenseSafe → CheckLicenseWith i s eb' es' ≠ LicenseUnknown).
Proof.
  intros Hb Hs. rewrite !CheckLicenseWith_Blocked. split.
  - intros [H|H]; [left|right]; by eapply isBlockedWith_mono.
  - intros (_ & H)%CheckLicenseWith_Safe Hu.
    pose proof (CheckLicenseWith_cases i s eb' es') as Hc. rewrite Hu in Hc.
    destruct Hc as (_ & _ & H1 & H2).
    destruct H as [H|H]; apply (isSafeWith_mono _ _ es' Hs) in H; congruence.
Qed.

Lemma extra_domains_monotone_witness :
  CheckLicenseWith "https://a.mystock.ru/1.jpg" "" ["mystock"] [] = LicenseBlocked ∧
  CheckLicenseWith "https://a.mystock.ru/1.jpg" "" ["other"; "mystock"] ["mystock"] = LicenseBlocked.
Proof.
  split; [vm_compute; reflexivity|].
  apply (extra_domains_monotone "https://a.mystock.ru/1.jpg" "" ["mystock"] [] ["other"; "mystock"]
           ["mystock"]); [set_solver|set_solver|vm_compute; reflexivity].
Defined.

(** A caller-supplied domain with an ASCII capital is dead weight: hosts
    are lowered before they are compared and the entry is not, so adding it to
    either list changes no verdict. *)
Theorem capital_extra_domain_ignored i s d eb eb' es es' :
  all_bytes not_capital d = false →
  CheckLicenseWith i s (eb ++ d :: eb') (es ++ es') = CheckLicenseWith i s (eb ++ eb') (es ++ es') ∧
  CheckLicenseWith i s (eb ++ eb') (es ++ d :: es') = CheckLicenseWith i s (eb ++ eb') (es ++ es').
Proof.
  intros Hd. unfold CheckLicenseWith. simpl.
  by rewrite !isBlockedWith_capital, !isSafeWith_capital.
Qed.

Lemma capital_extra_domain_ignored_witness :
  CheckLicenseWith "https://img.MyStock.com/1.jpg" "" ["MyStock"] [] = LicenseUnknown.
Proof.
  etrans; [apply (capital_extra_domain_ignored "https://img.MyStock.com/1.jpg" "" "MyStock"
                    [] [] [] []); vm_compute; reflexivity|].
  vm_compute. reflexivity.
Defined.

(** A URL that [url.Parse] rejects takes no part in the verdict: the
    classification is that of the other URL alone, so a malformed page URL of a
    stock site does not block the image. *)
Theorem unparsed_url_is_ignored i s eb es :
  Parse s = None →
  CheckLicenseWith i s eb es = CheckLicenseWith i "" eb es ∧
  CheckLicenseWith s i eb es = CheckLicenseWith "" i eb es.
Proof.
  intros Hs. unfold CheckLicenseWith. cbn [existsb].
  rewrite !(isBlockedWith_unparsed s), !(isSafeWith_unparsed s) by done.
  assert (isSafeWith "" es = false) as -> by done. done.
Qed.

Lemma unparsed_url_is_ignored_witness :
  CheckLicense "https://cdn.example.com/1.jpg" "https://www.shutterstock.com/100%" = LicenseUnknown.
Proof.
  unfold CheckLicense.
  rewrite (proj1 (unparsed_url_is_ignored "https://cdn.example.com/1.jpg"
             "https://www.shutterstock.com/100%" [] [] eq_refl)).
  vm_compute. reflexivity.
Defined.

End License.
