(* ===== verification/Metadata.v ===== *)
(** * Rights metadata (metadata.go, metadata_tags.go, the URL test of cclicense.go)

    Stock-agency and Creative Commons detection on the metadata fields, the tag
    handlers that fill them, and [ExtractImageMetadata] on top of the vendored
    [imagemeta.Decode].  The format-specific stream decoders of [imagemeta] are a
    parameter; the option checks [Decode] performs before it reaches them are
    translated from the vendored source. *)

From S2P Require Import Prelude Unicode GoStrings Types.

Module Metadata.

(** ** cclicense.go: [IsCCLicenseURL] *)

Definition ccLicensePathSegments : list string := [
  "creativecommons.org/licenses/"; "creativecommons.org/publicdomain/" ].

Definition IsCCLicenseURL (rawURL : string) : bool :=
  if rawURL =?s "" then false
  else existsb (Contains (ToLower rawURL)) ccLicensePathSegments.

(** ** metadata.go: keyword search *)

Definition stockMetadataKeywords : list string := [
  "shutterstock"; "gettyimages"; "getty images"; "istockphoto"; "istock"; "alamy";
  "depositphotos"; "dreamstime"; "123rf"; "adobestock"; "adobe stock"; "bigstockphoto";
  "stocksy"; "pond5"; "masterfile"; "superstock"; "agefotostock"; "age fotostock";
  "colourbox"; "yayimages"; "vectorstock"; "freepik"; "canstockphoto" ].

Definition isWordChar (b : ascii) : bool :=
  between 97 122 b || between 65 90 b || between 48 57 b.

(** [isWordChar(text[i])]; the loop below reads only positions of the text. *)
Definition wordCharAt (text : string) (i : nat) : bool :=
  match string_get i text with Some b => isWordChar b | None => false end.

(** One round of the loop per fuel; [None] when the fuel runs out. *)
Fixpoint containsWord_loop (fuel : nat) (text word : string) : option bool :=
  match fuel with
  | O => None
  | S fuel =>
      match Index text word with
      | None => Some false
      | Some idx =>
          let stop := idx + slen word in
          let leftOK := (idx =? 0) || negb (wordCharAt text (idx - 1)) in
          let rightOK := (slen text <=? stop) || negb (wordCharAt text stop) in
          if leftOK && rightOK then Some true
          else containsWord_loop fuel (string_drop (idx + 1) text) word
      end
  end.

(** Every round drops at least one byte, so one round more than the length of
    the text is enough (see [containsWord_loop_total]). *)
Definition containsWord (text word : string) : bool :=
  default false (containsWord_loop (S (slen text)) text word).

(** The fields searched for an agency. *)
Definition stockFields (m : ImageMetadata) : list string := [
  EXIFCopyright m; EXIFArtist m; IPTCCopyright m; IPTCCredit m; IPTCSource m; IPTCByline m;
  DCRights m; DCCreator m ].

Definition fieldIsStock (f : string) : bool :=
  if f =?s "" then false else existsb (containsWord (ToLower f)) stockMetadataKeywords.

Definition IsStockByMetadata (meta : option ImageMetadata) : bool :=
  match meta with
  | None => false
  | Some m => existsb fieldIsStock (stockFields m)
  end.

(** The fields searched for a Creative Commons URL. *)
Definition ccFields (m : ImageMetadata) : list string := [
  XMPLicense m; XMPWebStatement m; XMPUsageTerms m; DCRights m ].

Definition IsCCByMetadata (meta : option ImageMetadata) : bool :=
  match meta with
  | None => false
  | Some m => existsb IsCCLicenseURL (ccFields m)
  end.

(** ** The vendored [imagemeta]: sources, tags, options *)

(** [Source] is a bit mask. *)
Definition EXIF : Z := 1.
Definition IPTC : Z := 2.
Definition XMP : Z := 4.
Definition CONFIG : Z := 8.

Inductive ImageFormat :=
  | ImageFormatAuto | JPEG | TIFF | PNG | WebP | HEIF | AVIF | DNG | CR2 | NEF | ARW | PEF.

#[export] Instance ImageFormat_eq_dec : EqDecision ImageFormat.
Proof. solve_decision. Defined.

(** The dynamic types a tag value can have, as far as the handlers look. *)
Inductive any :=
  | AString (s : string)
  | AStrings (l : list string)
  | AList (l : list any)
  | ABool (b : bool)
  | AOther.

Record TagInfo := mkTag { tiSource : Z; tiTag : string; tiValue : any }.

(** The sources a format carries. *)
Definition formatSources (f : ImageFormat) : option Z :=
  match f with
  | JPEG | TIFF | PNG | DNG | CR2 | NEF | ARW | PEF =>
      Some (Z.lor EXIF (Z.lor XMP (Z.lor IPTC CONFIG)))
  | WebP | HEIF | AVIF => Some (Z.lor EXIF (Z.lor XMP CONFIG))
  | ImageFormatAuto => None
  end.

(** [imagemeta.Decode]: the handler threads a state, the result says whether an
    error is returned.  [stream] stands for the format decoders, run under the
    default tag limits: the tags they offer to [ShouldHandleTag], in order, and
    whether they end in an error. *)
Definition Decode {St} (stream : string → ImageFormat → Z → list TagInfo * bool)
    (R : option string) (format : ImageFormat) (sources : Z)
    (ShouldHandleTag : TagInfo → bool) (HandleTag : TagInfo → St → St) (st : St) : St * bool :=
  match R with
  | None => (st, true)
  | Some data =>
      match formatSources format with
      | None => (st, true)
      | Some supported =>
          let requested := if (sources =? 0)%Z then Z.lor EXIF (Z.lor IPTC XMP) else sources in
          let use := Z.land supported requested in
          if (use =? 0)%Z then (st, false)
          else
            let '(tags, err) := stream data format use in
            (fold_left (λ st ti, if ShouldHandleTag ti then HandleTag ti st else st) tags st, err)
      end
  end.

(** ** metadata_tags.go: the handlers *)

Definition tagValueString (v : any) : string :=
  match v with
  | AString s => s
  | AStrings (s :: _) => s
  | AList (AString s :: _) => s
  | _ => ""
  end.

(** [(meta, found)], the two variables the handlers write. *)
Definition handlerState : Type := ImageMetadata * bool.

Definition handleIPTCTag (ti : TagInfo) (st : handlerState) : handlerState :=
  let '(m, _) := st in
  let s := tagValueString (tiValue ti) in
  let '(mkMeta a b c d e f g h i j k l) := m in
  if s =?s "" then st
  else if tiTag ti =?s "CopyrightNotice" then (mkMeta a b s d e f g h i j k l, true)
  else if tiTag ti =?s "Credit" then (mkMeta a b c s e f g h i j k l, true)
  else if tiTag ti =?s "Byline" then (mkMeta a b c d e s g h i j k l, true)
  else if tiTag ti =?s "Source" then (mkMeta a b c d s f g h i j k l, true)
  else st.

Definition handleEXIFTag (ti : TagInfo) (st : handlerState) : handlerState :=
  let '(m, _) := st in
  let s := tagValueString (tiValue ti) in
  let '(mkMeta a b c d e f g h i j k l) := m in
  if s =?s "" then st
  else if tiTag ti =?s "Copyright" then (mkMeta s b c d e f g h i j k l, true)
  else if tiTag ti =?s "Artist" then (mkMeta a s c d e f g h i j k l, true)
  else st.

Definition handleXMPTag (ti : TagInfo) (st : handlerState) : handlerState :=
  let '(m, _) := st in
  let s := tagValueString (tiValue ti) in
  let '(mkMeta a b c d e f g h i j k l) := m in
  if tiTag ti =?s "Marked" then
    match tiValue ti with ABool v => (mkMeta a b c d e f g h i v k l, true) | _ => st end
  else if s =?s "" then st
  else if tiTag ti =?s "WebStatement" then (mkMeta a b c d e f g s i j k l, true)
  else if tiTag ti =?s "UsageTerms" then (mkMeta a b c d e f g h s j k l, true)
  else if tiTag ti =?s "License" then (mkMeta a b c d e f s h i j k l, true)
  else if tiTag ti =?s "Rights" then (mkMeta a b c d e f g h i j s l, true)
  else if tiTag ti =?s "Creator" then (mkMeta a b c d e f g h i j k s, true)
  else st.

(** ** metadata.go: extraction *)

Definition wantedTags (source : Z) : option (list string) :=
  if (source =? IPTC)%Z then Some ["CopyrightNotice"; "Credit"; "Byline"; "Source"]
  else if (source =? EXIF)%Z then Some ["Copyright"; "Artist"]
  else if (source =? XMP)%Z then
    Some ["WebStatement"; "UsageTerms"; "License"; "Marked"; "Rights"; "Creator"]
  else None.

Definition shouldHandleTag (ti : TagInfo) : bool :=
  match wantedTags (tiSource ti) with
  | Some tags => existsb (String.eqb (tiTag ti)) tags
  | None => false
  end.

Definition handleTag (ti : TagInfo) (st : handlerState) : handlerState :=
  if (tiSource ti =? IPTC)%Z then handleIPTCTag ti st
  else if (tiSource ti =? EXIF)%Z then handleEXIFTag ti st
  else if (tiSource ti =? XMP)%Z then handleXMPTag ti st
  else st.

(** The options literal leaves [ImageFormat] at its zero value. *)
Definition ExtractImageMetadata (stream : string → ImageFormat → Z → list TagInfo * bool)
    (data : string) : option ImageMetadata :=
  if slen data =? 0 then None
  else
    let '((meta, found), err) :=
      Decode stream (Some data) ImageFormatAuto (Z.lor EXIF (Z.lor IPTC XMP))
        shouldHandleTag handleTag (emptyMeta, false) in
    if err || negb found then None else Some meta.

(** ** assessment.go: the evidence texts *)

Definition metadataStockDetail (meta : option ImageMetadata) : string :=
  match meta with
  | None => ""
  | Some m => default "" (List.find fieldIsStock (stockFields m))
  end.

Definition metadataCCDetail (meta : option ImageMetadata) : string :=
  match meta with
  | None => ""
  | Some m => default "" (List.find (λ f, f <>?s "") (ccFields m))
  end.

Example containsWord_hit : containsWord "(c) getty images / ann" "getty images" = true.
Proof. reflexivity. Qed.
Example containsWord_inside : containsWord "alamyx or xalamy" "alamy" = false.
Proof. reflexivity. Qed.

(** ** Lemmas: [containsWord] *)

(** The reference notion: [word] occurs at [i] and the bytes around the
    occurrence, if there are any, are not word characters. *)
Definition wordAt (text word : string) (i : nat) : bool :=
  HasPrefix (string_drop i text) word &&
  ((i =? 0) || negb (wordCharAt text (i - 1))) &&
  ((slen text <=? i + slen word) || negb (wordCharAt text (i + slen word))).

(** The first two bytes differ, so the word cannot occur at two adjacent
    positions. *)
Definition distinct2 (word : string) : bool :=
  match word with
  | String a (String b _) => negb (Ascii.eqb a b)
  | _ => false
  end.

Lemma HasPrefix_drop_Contains j s p : HasPrefix (string_drop j s) p = true → Contains s p = true.
Proof.
  intros H%HasPrefix_Contains. rewrite <-(string_take_drop j s). by apply Contains_app_l.
Qed.

Lemma wordCharAt_drop k text i : wordCharAt (string_drop k text) i = wordCharAt text (k + i).
Proof. unfold wordCharAt. by rewrite string_get_drop. Qed.

Lemma distinct2_not_adjacent text word :
  distinct2 word = true → HasPrefix text word = true → HasPrefix (string_drop 1 text) word = false.
Proof.
  intros Hd [t ->]%HasPrefix_iff. destruct word as [|a [|b w]]; try done. simpl in *.
  bool_hyps. destruct (Ascii.eqb_spec b a); [congruence|done].
Qed.

(** The loop started in the suffix at [k] answers the question for the
    positions from [k] on, provided the suffix is the whole text or does not
    itself start with the word: then its left end never passes for a boundary. *)
Lemma containsWord_loop_spec text word fuel k :
  distinct2 word = true → k ≤ slen text → slen text - k < fuel →
  (k = 0 ∨ HasPrefix (string_drop k text) word = false) →
  ∃ b, containsWord_loop fuel (string_drop k text) word = Some b ∧
       (b = true ↔ ∃ i, k ≤ i ∧ wordAt text word i = true).
Proof.
  intros Hd. revert k. induction fuel as [|fuel IH]; intros k Hk Hf Hinv; [lia|].
  cbn [containsWord_loop].
  destruct (Index (string_drop k text) word) as [idx|] eqn:E.
  2: { exists false. split; [done|]. split; [done|]. intros (i & Hi & Hw).
       apply Index_None in E. unfold wordAt in Hw. bool_hyps.
       rewrite <-E. eapply (HasPrefix_drop_Contains (i - k)).
       rewrite string_drop_drop. by replace (k + (i - k)) with i by lia. }
  apply Index_Some in E as (Hp & Hle & Hmin). rewrite string_drop_drop in Hp.
  assert (∀ j, k ≤ j < k + idx → HasPrefix (string_drop j text) word = false) as Hbefore.
  { intros j Hj. rewrite <-(Hmin (j - k)) by lia. rewrite string_drop_drop.
    by replace (k + (j - k)) with j by lia. }
  match goal with |- context [if ?c then _ else _] => assert (c = wordAt text word (k + idx)) as -> end.
  { unfold wordAt. rewrite Hp, !wordCharAt_drop. cbn [andb].
    rewrite slen_drop. f_equal; [|f_equal].
    - destruct idx as [|idx].
      + rewrite Nat.add_0_r in *. destruct Hinv as [->|Hno]; [done|congruence].
      + replace (k + S idx =? 0) with false by (symmetry; apply Nat.eqb_neq; lia).
        by replace (k + S idx - 1) with (k + (S idx - 1)) by lia.
    - apply eq_true_iff_eq. rewrite !Nat.leb_le. lia.
    - by replace (k + idx + slen word) with (k + (idx + slen word)) by lia. }
  destruct (wordAt text word (k + idx)) eqn:Ew.
  { exists true. split; [done|]. split; [|done]. intros _. exists (k + idx). auto with lia. }
  rewrite string_drop_drop.
  pose proof (HasPrefix_len _ _ Hp) as Hl. rewrite slen_drop in Hl.
  assert (1 < slen word) by (destruct word as [|? [|??]]; simpl in *; [done..|lia]).
  destruct (IH (k + (idx + 1))) as (b & Hb & Hiff); [lia|lia| |].
  { right. replace (k + (idx + 1)) with ((k + idx) + 1) by lia.
    rewrite <-string_drop_drop. by apply distinct2_not_adjacent. }
  exists b. split; [done|]. rewrite Hiff. split; intros (i & Hi & Hw); exists i; (split; [|done]); [lia|].
  destruct (decide (i < k + idx)).
  { unfold wordAt in Hw. rewrite Hbefore in Hw by lia. done. }
  destruct (decide (i = k + idx)) as [->|]; [congruence|lia].
Qed.

Lemma containsWord_spec text word :
  distinct2 word = true →
  containsWord text word = true ↔ ∃ i, wordAt text word i = true.
Proof.
  intros Hd. unfold containsWord.
  destruct (containsWord_loop_spec text word (S (slen text)) 0) as (b & Hb & Hiff);
    [done|lia|lia|by left|].
  simpl string_drop in Hb. rewrite Hb. cbn [default from_option].
  rewrite Hiff. split; intros (i & H); exists i; [apply H|auto with lia].
Qed.

Lemma keywords_distinct2 : forallb distinct2 stockMetadataKeywords = true.
Proof. vm_compute. reflexivity. Qed.

Lemma fieldIsStock_spec f :
  fieldIsStock f = true ↔
  ∃ kw i, kw ∈ stockMetadataKeywords ∧ wordAt (ToLower f) kw i = true.
Proof.
  assert (∀ t, existsb (containsWord t) stockMetadataKeywords = true ↔
    ∃ kw i, kw ∈ stockMetadataKeywords ∧ wordAt t kw i = true) as Hex.
  { intros t. rewrite existsb_true. pose proof keywords_distinct2 as Hk.
    rewrite forallb_forall in Hk. setoid_rewrite <-list_elem_of_In in Hk.
    split.
    - intros (kw & Hin & [i Hi]%containsWord_spec); eauto.
    - intros (kw & i & Hin & Hi). exists kw. split; [done|]. apply containsWord_spec; eauto. }
  unfold fieldIsStock. case_bool; [|apply Hex]. bool_hyps. subst.
  rewrite <-Hex. vm_compute. done.
Qed.

(** [List.find] stops at the first element that passes. *)
Lemma find_first {A} (f : A → bool) l :
  (∃ x before after, List.find f l = Some x ∧ l = before ++ x :: after ∧
     Forall (λ y, f y = false) before ∧ f x = true) ∨
  (List.find f l = None ∧ existsb f l = false).
Proof.
  induction l as [|y l IH]; simpl; [by right|]. destruct (f y) eqn:E.
  - left. by exists y, [], l.
  - destruct IH as [(x & b & a & Hx & -> & Hb & Hf)|H]; [left|by right].
    exists x, (y :: b), a. by repeat constructor.
Qed.

(** ** Lemmas: the handlers *)

Lemma handleTag_found ti st : (handleTag ti st).2 = st.2 || (handleTag ti (st.1, false)).2.
Proof.
  destruct st as [[a b c d e f g h i j k l] [|]]; unfold handleTag, handleIPTCTag, handleEXIFTag, handleXMPTag;
    simpl; repeat case_match; done.
Qed.

(** A handler that does not report a find leaves the metadata alone. *)
Lemma handleTag_not_found ti m : (handleTag ti (m, false)).2 = false → handleTag ti (m, false) = (m, false).
Proof.
  destruct m as [a b c d e f g h i j k l]; unfold handleTag, handleIPTCTag, handleEXIFTag, handleXMPTag;
    simpl; repeat case_match; done.
Qed.

(** Tags outside [wantedTags] are ignored by the handlers as well. *)
Lemma handleTag_unwanted ti st : shouldHandleTag ti = false → handleTag ti st = st.
Proof.
  unfold shouldHandleTag, wantedTags, handleTag. destruct st as [[a b c d e f g h i j k l] fd].
  repeat case_bool; bool_hyps; simplify_eq; try done; simpl; intros H;
    unfold handleIPTCTag, handleEXIFTag, handleXMPTag; bool_hyps;
    repeat match goal with
    | H : tiTag ti ≠ ?t |- context [tiTag ti =?s ?t] => rewrite (proj2 (String.eqb_neq _ _) H)
    end; by case_bool.
Qed.

(** ** Properties *)

(** (C34) [containsWord] decides whole-word occurrence for every agency keyword:
    it is true exactly when the keyword occurs somewhere with no ASCII
    alphanumeric byte next to it.  In particular the loop terminates, and the
    truncation [text = text[idx+1:]] creates no false boundary, because no
    keyword can occur at two adjacent positions. *)
Theorem containsWord_is_whole_word_search text kw :
  kw ∈ stockMetadataKeywords →
  containsWord_loop (S (slen text)) text kw ≠ None ∧
  (containsWord text kw = true ↔ ∃ i, wordAt text kw i = true).
Proof.
  intros Hk. pose proof keywords_distinct2 as Hall. rewrite forallb_forall in Hall.
  apply list_elem_of_In, Hall in Hk. split; [|by apply containsWord_spec].
  destruct (containsWord_loop_spec text kw (S (slen text)) 0) as (b & Hb & _);
    [done|lia|lia|by left|]. simpl in Hb |- *. congruence.
Qed.

Lemma containsWord_is_whole_word_search_witness :
  containsWord "stocks by alamy" "alamy" = true.
Proof.
  apply (containsWord_is_whole_word_search "stocks by alamy" "alamy").
  - repeat constructor.
  - exists 10. reflexivity.
Defined.

(** The side condition of the previous property is needed: for a word that
    overlaps itself at distance one, such as [aa], the suffix restart passes for
    a word boundary and [containsWord] reports an occurrence that is none. *)
Theorem containsWord_false_boundary :
  containsWord "aaa" "aa" = true ∧ ∀ i, wordAt "aaa" "aa" i = false.
Proof.
  split; [reflexivity|]. intros i. destruct i as [|[|[|[|i]]]]; reflexivity.
Qed.

(** A field that, lowered, has an agency keyword as a whole word. *)
Definition namesAgency (f : string) : Prop :=
  ∃ kw i, kw ∈ stockMetadataKeywords ∧ wordAt (ToLower f) kw i = true.

(** (C35) Stock detection on metadata: it fires exactly when one of the eight
    rights and authorship fields, lowered, contains an agency keyword as a whole
    word; the reported detail is then the first such field, every field before it
    being free of agency keywords, and it is empty when no field has one. *)
Theorem stock_metadata_detection m :
  (IsStockByMetadata (Some m) = true ↔ ∃ f, f ∈ stockFields m ∧ namesAgency f) ∧
  (IsStockByMetadata (Some m) = true →
   ∃ before after, stockFields m = before ++ metadataStockDetail (Some m) :: after ∧
     Forall (λ f, ¬ namesAgency f) before ∧ namesAgency (metadataStockDetail (Some m))) ∧
  (IsStockByMetadata (Some m) = false → metadataStockDetail (Some m) = "").
Proof.
  assert (∀ f, fieldIsStock f = true ↔ namesAgency f) as Hspec by apply fieldIsStock_spec.
  unfold IsStockByMetadata, metadataStockDetail. split_and!.
  - rewrite existsb_true. by setoid_rewrite Hspec.
  - intros H. destruct (find_first fieldIsStock (stockFields m)) as [(f & b & a & -> & Hl & Hb & Hf)|[_ Hn]].
    + exists b, a. split_and!; [done| |by apply Hspec].
      eapply Forall_impl; [exact Hb|]. intros g Hg Hag. apply Hspec in Hag. congruence.
    + congruence.
  - intros H. destruct (find_first fieldIsStock (stockFields m)) as [(f & b & a & _ & Hl & _ & Hf)|[-> _]];
      [|done]. rewrite Hl, existsb_app in H. simpl in H. rewrite Hf, orb_true_r in H. done.
Qed.

Lemma stock_metadata_detection_witness :
  ∃ before after,
    [""; "Ann (Getty Images)"; ""; ""; ""; "Alamy"; ""; ""]
    = before ++ metadataStockDetail (Some (mkMeta "" "Ann (Getty Images)" "" "" "" "Alamy" "" "" "" false "" ""))
        :: after ∧ Forall (λ f, ¬ namesAgency f) before.
Proof.
  destruct (stock_metadata_detection
              (mkMeta "" "Ann (Getty Images)" "" "" "" "Alamy" "" "" "" false "" "")) as (_ & H & _).
  destruct H as (before & after & Hl & Hb & _); [vm_compute; reflexivity|].
  exists before, after. split; [exact Hl|exact Hb].
Defined.

(** (C36) [ExtractImageMetadata] returns nil for every input: the options it
    passes leave [ImageFormat] at [ImageFormatAuto], which the vendored
    [imagemeta.Decode] rejects before it reads a byte.  No stream decoder can
    change that, so the pipeline never sees image metadata. *)
Theorem ExtractImageMetadata_always_nil stream data : ExtractImageMetadata stream data = None.
Proof. unfold ExtractImageMetadata. by case_bool. Qed.

(** The tag table and the handlers agree: a tag outside [wantedTags] would
    not be stored by any handler, and over a whole stream of tags the metadata
    is reported as found exactly when some handler stored something; otherwise
    it is still the empty record. *)
Theorem handlers_match_wantedTags tags :
  let run := fold_left (λ st ti, if shouldHandleTag ti then handleTag ti st else st) tags in
  fold_left (λ st ti, handleTag ti st) tags (emptyMeta, false) = run (emptyMeta, false) ∧
  ((run (emptyMeta, false)).2 = false → (run (emptyMeta, false)).1 = emptyMeta).
Proof.
  cbv zeta. split.
  - generalize (emptyMeta, false). induction tags as [|ti tags IH]; intros st; simpl; [done|].
    rewrite IH. destruct (shouldHandleTag ti) eqn:E; [done|]. by rewrite handleTag_unwanted.
  - induction tags as [|ti tags IH] using rev_ind; [done|].
    rewrite fold_left_app. simpl. destruct (fold_left _ tags _) as [m fd] eqn:E.
    case_bool; [|apply IH]. intros Hf. rewrite handleTag_found in Hf. simpl in Hf. bool_hyps.
    subst fd. rewrite handleTag_not_found by done. by apply IH.
Qed.

End Metadata.
