(* ===== verification/HtmlExtract.v ===== *)
(** * Scraping of HTML pages (helpers.go, cclicense.go)

    [ExtractOGImageURL] and [ExtractCCLicense]: the regular expressions as syntax
    trees, the fallbacks between them, and what an extracted value is. *)

From S2P Require Import Prelude Unicode GoStrings GoURL Regex HtmlText Types Metadata.

Local Open Scope Z_scope.

Module HtmlExtract.
Import Metadata.

(** ** Patterns *)

(** The class of the two quotes, its complement, and anything but [>]. *)
Definition quote : Z → bool := any_of [34; 39].
Definition no_quote : Z → bool := none_of [34; 39].
Definition no_gt : Z → bool := none_of [62].

(** An attribute with a fixed value. *)
Definition attr (name value : string) : list re :=
  [ilit name; ilit "="; Chr quote; ilit value; Chr quote].

(** helpers.go: [ogImageRe]; what stands in front of and behind the group, for
    either order of the attributes. *)
Definition og_before1 : list re :=
  [ilit "<meta"; Plus perl_space; Star true no_gt] ++ attr "property" "og:image" ++
  [Star true no_gt; ilit "content="; Chr quote].
Definition og_before2 : list re :=
  [ilit "<meta"; Plus perl_space; Star true no_gt; ilit "content="; Chr quote].
Definition og_after2 : list re :=
  [Chr quote; Star true no_gt] ++ attr "property" "og:image".

Definition ogImageRe : re :=
  Alt (cats (og_before1 ++ Group 1 (Plus no_quote) :: [Chr quote]))
      (cats (og_before2 ++ Group 2 (Plus no_quote) :: og_after2)).

(** cclicense.go *)
Definition rel_license : list re := attr "rel" "license".

Definition ccRelHrefRe : re :=
  cats ((rel_license ++ [Star true no_gt; ilit "href="; Chr quote]) ++
        Group 1 (Plus no_quote) :: [Chr quote]).

Definition ccHrefRelRe : re :=
  cats ([ilit "href="; Chr quote] ++
        Group 1 (Plus no_quote) :: [Chr quote; Star true no_gt] ++ rel_license).

(** [(?:https?:)?//creativecommons\.org/(?:licenses|publicdomain)/] and a run
    without quotes *)
Definition cc_link : re :=
  cats [Opt (cats [ilit "http"; Opt (ilit "s"); ilit ":"]); ilit "//"; ilit "creativecommons.org/";
        Alt (ilit "licenses") (ilit "publicdomain"); ilit "/"; Plus no_quote].

Definition ccBareHrefRe : re := cats ([ilit "href="; Chr quote] ++ Group 1 cc_link :: [Chr quote]).
Definition ccMetaContentRe : re := cats ([ilit "content="; Chr quote] ++ Group 1 cc_link :: [Chr quote]).

(** ** Operations *)

Definition ExtractOGImageURL (pageHTML : string) : string :=
  match FindSubmatch ogImageRe pageHTML with
  | None => ""
  | Some m =>
      let img := group m 1 in
      let img := if img =?s "" then group m 2 else img in
      if img =?s "" then "" else UnescapeString img
  end.

Definition matchCCFromRel (r : re) (pageHTML : string) : string :=
  match FindSubmatch r pageHTML with
  | None => ""
  | Some m =>
      let url := UnescapeString (group m 1) in
      if IsCCLicenseURL url then url else ""
  end.

Definition ExtractCCLicense (pageHTML : string) : string :=
  let url := matchCCFromRel ccRelHrefRe pageHTML in
  if url <>?s "" then url else
  let url := matchCCFromRel ccHrefRelRe pageHTML in
  if url <>?s "" then url else
  match FindSubmatch ccBareHrefRe pageHTML with
  | Some m => UnescapeString (group m 1)
  | None =>
      match FindSubmatch ccMetaContentRe pageHTML with
      | Some m => UnescapeString (group m 1)
      | None => ""
      end
  end.

Definition dq := dquote.

Example og_demo :
  ExtractOGImageURL ("<html><META charset=x><meta  name='a' Property='og:image' content='https://x/a?b=1&amp;c=2'>")
  = "https://x/a?b=1&c=2" ∧
  ExtractOGImageURL ("<meta content=" +:+ dq +:+ "https://x/1.jpg" +:+ dq +:+ " property='og:image'/>")
  = "https://x/1.jpg" ∧
  ExtractOGImageURL "<meta property='og:image'><meta content='x'>" = "".
Proof. vm_compute. auto. Qed.

Example cc_demo :
  ExtractCCLicense "<a rel='license' href='http://example.org/'><a href='//CreativeCommons.org/licenses/by/4.0/'>"
  = "//CreativeCommons.org/licenses/by/4.0/" ∧
  ExtractCCLicense "<a href='https://creativecommons.org/publicdomain/zero/1.0/' class='x' rel='license'>"
  = "https://creativecommons.org/publicdomain/zero/1.0/" ∧
  ExtractCCLicense "<a href='https://creativecommons.org/'>" = "".
Proof. vm_compute. auto. Qed.

(** ** Lemmas *)

(** A literal under [(?i)]: the same letters up to case. *)
Lemma lang_lit_runes f rs l :
  lang (lit_runes f rs) l ↔ Forall2 (λ r c, f r (rune c) = true) rs l.
Proof.
  revert l; induction rs as [|r rs IH]; intros l; simpl.
  { split; [intros ->; constructor|by inversion 1]. }
  destruct rs as [|r' rs]; simpl.
  - split; [intros (c & -> & Hc); by repeat constructor|].
    intros H. inversion H as [|? c ? l' Hc Hl]; subst. inversion Hl; subst. by exists c.
  - split.
    + intros (l1 & l2 & -> & (c & -> & Hc) & Hl2). simpl. constructor; [done|]. by apply IH.
    + intros H. inversion H as [|? c ? l' Hc Hl]; subst. exists [c], l'. split; [done|].
      split; [by exists c|by apply IH].
Qed.

Lemma lang_Plus set l :
  lang (Plus set) l ↔ l ≠ [] ∧ Forall (λ c, set (rune c) = true) l.
Proof.
  simpl. split.
  - intros (l1 & l2 & -> & (c & -> & Hc) & Hl). split; [done|by constructor].
  - destruct l as [|c l]; [by intros [? _]|]. intros [_ H]. inversion H; subst.
    exists [c], l. eauto.
Qed.

Lemma of_cells_nonempty s a l b : decode s = a ++ l ++ b → l ≠ [] → of_cells l ≠ "".
Proof. intros H%decode_infix Hl E. rewrite E in H. by destruct l. Qed.

(** The bytes of a run of cells none of which is the rune of [c]. *)
Lemma cells_all_bytes s a l b c :
  decode s = a ++ l ++ b → ascii_byte c = true → Forall (λ x, rune x ≠ bval c) l →
  all_bytes (byte_ne c) (of_cells l) = true.
Proof.
  intros Hd Hc Hl.
  assert (∀ x, x ∈ l → x ∈ decode s) as Hin by (rewrite Hd; set_solver). clear Hd.
  induction Hl as [|x l Hx Hl IH]; [done|].
  rewrite of_cells_cons, all_bytes_app, IH by (intros; apply Hin; by right). rewrite andb_true_r.
  destruct (decode_cell_ascii s x (Hin x ltac:(left))) as [Hh|(y & -> & Hy)].
  - eapply all_bytes_impl; [|exact Hh]. intros z. unfold high_byte, byte_ne. intros Hz.
    destruct (Ascii.eqb_spec z c) as [->|]; [|done]. unfold ascii_byte in Hc. lia.
  - simpl. unfold byte_ne. destruct (Ascii.eqb_spec y c) as [->|]; [|done]. by simpl in Hx.
Qed.

(** No quote of either kind. *)
Definition quote_free (s : string) : bool :=
  all_bytes (byte_ne (chr 34)) s && all_bytes (byte_ne (chr 39)) s.

Lemma no_quote_runes l :
  Forall (λ c, no_quote (rune c) = true) l →
  Forall (λ x, rune x ≠ bval (chr 34)) l ∧ Forall (λ x, rune x ≠ bval (chr 39)) l.
Proof.
  intros H. split; (eapply Forall_impl; [exact H|]); intros c Hc E; simpl in Hc; by rewrite E in Hc.
Qed.

Lemma no_quote_cells s a l b :
  decode s = a ++ l ++ b → Forall (λ c, no_quote (rune c) = true) l → quote_free (of_cells l) = true.
Proof.
  intros Hd [H1 H2]%no_quote_runes. unfold quote_free.
  by rewrite !(cells_all_bytes s a l b).
Qed.

(** A group that is a run without quotes, in a sequence: its value, and where it
    stands in the page. *)
Definition stands (page : string) (xs : list re) (value : string) (ys : list re) : Prop :=
  ∃ pre l1 l2 post, page = pre +:+ of_cells l1 +:+ value +:+ of_cells l2 +:+ post ∧
    lang (cats xs) l1 ∧ lang (cats ys) l2.

Lemma found_value xs n ys s m :
  found (cats (xs ++ Group n (Plus no_quote) :: ys)) s m → n ∉ groups (cats ys) →
  group m n ≠ "" ∧ quote_free (group m n) = true ∧ stands s xs (group m n) ys.
Proof.
  intros Hf Hn. apply found_group in Hf as (pre & l1 & l & l2 & post & Hd & H1 & Hl & H2 & Hm); [|done].
  apply lang_Plus in Hl as [Hne Hl]. unfold group. rewrite Hm. simpl.
  rewrite (app_assoc pre) in Hd. split_and!.
  - by eapply of_cells_nonempty.
  - by eapply no_quote_cells.
  - exists (of_cells pre), l1, l2, (of_cells post). split; [|done].
    by rewrite <-!of_cells_app, !app_assoc, <-!app_assoc, app_assoc, <-Hd, decode_of_cells.
Qed.

(** Where the value of an og:image tag stands. *)
Definition og_value (page raw : string) : Prop :=
  stands page og_before1 raw [Chr quote] ∨ stands page og_before2 raw og_after2.

Lemma og_found m page :
  FindSubmatch ogImageRe page = Some m →
  let raw := if group m 1 =?s "" then group m 2 else group m 1 in
  raw ≠ "" ∧ quote_free raw = true ∧ og_value page raw.
Proof.
  intros Hf%FindSubmatch_found. apply found_alt in Hf as [Hf|Hf]; [..|done].
  - apply found_value in Hf as (Hne & Hq & Hs); [|by vm_compute; inversion 1].
    rewrite (proj2 (String.eqb_neq _ _) Hne). split_and!; [done..|by left].
  - assert (group m 1 = "") as ->.
    { unfold group. rewrite (found_absent _ _ _ 1 Hf); [done|].
      vm_compute. intros H. by apply list_elem_of_singleton in H. }
    apply found_value in Hf as (Hne & Hq & Hs); [|by vm_compute; inversion 1]. simpl.
    split_and!; [done..|by right].
Qed.

(** (C32) [ExtractOGImageURL] returns the empty string exactly when no og:image tag
    occurs in the page; otherwise it returns the unescaped value of the [content]
    attribute of such a tag, a non-empty run of the page without quotes, in
    either order of the attributes. *)
Theorem ExtractOGImageURL_spec page :
  if ExtractOGImageURL page =?s ""
  then ¬ occurs ogImageRe (decode page)
  else ∃ raw, ExtractOGImageURL page = UnescapeString raw ∧ raw ≠ "" ∧ quote_free raw = true ∧
         og_value page raw.
Proof.
  unfold ExtractOGImageURL. destruct (FindSubmatch ogImageRe page) as [m|] eqn:E.
  - destruct (og_found m page E) as (Hne & Hq & Hv). revert Hne Hq Hv. cbv zeta.
    generalize (if group m 1 =?s "" then group m 2 else group m 1) as raw. intros raw Hne Hq Hv.
    rewrite (proj2 (String.eqb_neq _ _) Hne).
    rewrite (proj2 (String.eqb_neq _ _) (UnescapeString_nonempty raw Hne)). eauto.
  - simpl. by apply FindSubmatch_None.
Qed.

(** *** Creative Commons links *)

(** The two runes whose folding and lower case differ are the ones [(?i)] adds;
    without U+017F, a text that folds to letters other than k lowers to them. *)
Lemma fold_lower r c :
  same_fold r (rune c) = true → 0 ≤ r < 0x80 → is_upper_ascii r = false → r ≠ 107 → rune c ≠ 0x17F →
  0 ≤ rune c < 0x80 ∧ to_lower (rune c) = r.
Proof.
  unfold same_fold, fold_case. intros Hf Hr Hu Hk Hs. rewrite Hu in Hf.
  unfold is_upper_ascii in *. repeat case_match; bool_hyps; try lia.
  all: rewrite to_lower_ascii by lia; unfold is_upper_ascii; case_match; bool_hyps; lia.
Qed.

(** Runes a link is made of: lower-case ASCII but for k, no ampersand. *)
Definition link_rune (r : Z) : bool :=
  (0 <=? r) && (r <? 0x80) && negb (is_upper_ascii r) && negb (r =? 107) && negb (r =? 38).

Lemma small_cell s c : c ∈ decode s → 0 ≤ rune c < 0x80 → raw c = str1 (byte_of (rune c)).
Proof.
  intros (a & b & Hd)%list_elem_of_split Hr. apply decode_suffix in Hd.
  destruct (cell_valid c) eqn:Ev.
  - apply decode_cell_valid in Hd as [Hd _]; [|done]. by rewrite <-Hd, EncodeRune_ascii.
  - unfold cell_valid, RuneError in Ev. bool_hyps. lia.
Qed.

(** A run of cells that folds to link runes: ASCII, without an ampersand, and its
    lower case is those runes. *)
Lemma folded_cells s a l b rs :
  decode s = a ++ l ++ b → Forall (λ c, rune c ≠ 0x17F) (decode s) → forallb link_rune rs = true →
  Forall2 (λ r c, same_fold r (rune c) = true) rs l →
  is_ascii (of_cells l) = true ∧ all_bytes (byte_ne "&") (of_cells l) = true ∧
  ToLower (of_cells l) = encode_runes rs.
Proof.
  intros Hd Hs Hrs H2. unfold ToLower, map_runes. rewrite (decode_infix _ _ _ _ Hd).
  assert (∀ x, x ∈ l → x ∈ decode s) as Hin by (rewrite Hd; set_solver). clear Hd.
  unfold encode_runes. induction H2 as [|r c rs l Hf H2 IH]; [done|].
  simpl in Hrs. bool_hyps. unfold link_rune in *. bool_hyps.
  destruct IH as (I1 & I2 & I3); [done|intros; apply Hin; by right|].
  assert (c ∈ decode s) as Hc by (apply Hin; by left).
  rewrite Forall_forall in Hs. destruct (fold_lower r c) as [Hr Hl]; [done|lia|done|lia|by apply Hs|].
  pose proof (small_cell s c Hc Hr) as Hraw. unfold is_ascii in *.
  rewrite of_cells_cons, !all_bytes_app, I1, I2, Hraw.
  split_and!; [simpl..|by rewrite !fmap_cons; cbn [concat_strings]; rewrite Hl, I3].
  - rewrite andb_true_r. unfold ascii_byte. rewrite andb_true_r, bval_byte_of, Z.mod_small by lia. lia.
  - rewrite !andb_true_r. unfold byte_ne. apply negb_true_iff, Ascii.eqb_neq. intros E.
    apply (f_equal bval) in E. rewrite bval_byte_of, Z.mod_small in E by lia.
    change (bval "&") with 38 in E. rewrite E in Hl. vm_compute in Hl. lia.
Qed.

Lemma lang_ilit w l : lang (ilit w) l ↔ Forall2 (λ r c, same_fold r (rune c) = true) (rune <$> decode w) l.
Proof. apply lang_lit_runes. Qed.

Abbreviation folds w l := (Forall2 (λ r c, same_fold r (rune c) = true) (rune <$> decode w) l).

Lemma folds_app v w a b : is_ascii v = true → folds v a → folds w b → folds (v +:+ w) (a ++ b).
Proof. intros Hv Ha Hb. rewrite decode_ascii_app, fmap_app by done. by apply Forall2_app. Qed.

#[local] Opaque ilit decode.

(** The parts of a link. *)
Lemma lang_cc_link l :
  lang cc_link l →
  ∃ w1 w2 l1 l2 l3, l = l1 ++ l2 ++ l3 ∧ w1 ∈ ["//"; "http://"; "https://"] ∧
    w2 ∈ ccLicensePathSegments ∧ folds w1 l1 ∧ folds w2 l2 ∧
    Forall (λ c, no_quote (rune c) = true) l3.
Proof.
  unfold cc_link. cbn [cats lang].
  intros (s & t1 & -> & Hs & l1 & t2 & -> & H1%lang_ilit & l2 & t3 & -> & H2%lang_ilit & l3 & t4 & -> & H3
    & l4 & l5 & -> & H4%lang_ilit & [_ H5]%lang_Plus).
  assert (∃ w, w ∈ [""; "http:"; "https:"] ∧ folds w s) as (w & Hw & Hfs).
  { unfold Opt in Hs. cbn [cats lang] in Hs.
    destruct Hs as [(a & b & -> & Ha%lang_ilit & c & d & -> & [Hc%lang_ilit| ->] & Hd%lang_ilit)| ->].
    - exists "https:". split; [set_solver|]. 
      rewrite (eq_refl : "https:" = "http" +:+ ("s" +:+ ":")). by repeat apply folds_app.
    - exists "http:". split; [set_solver|]. 
      rewrite (eq_refl : "http:" = "http" +:+ ":"). by apply folds_app.
    - exists "". split; [set_solver|constructor]. }
  assert (∃ w, w ∈ ccLicensePathSegments ∧ folds w (l2 ++ l3 ++ l4)) as (w2 & Hw2 & Hf2).
  { destruct H3 as [H3%lang_ilit|H3%lang_ilit].
    - exists "creativecommons.org/licenses/". split; [set_solver|].
      rewrite (eq_refl : "creativecommons.org/licenses/" = "creativecommons.org/" +:+ ("licenses" +:+ "/")).
      by repeat apply folds_app.
    - exists "creativecommons.org/publicdomain/". split; [set_solver|].
      rewrite (eq_refl : "creativecommons.org/publicdomain/" = "creativecommons.org/" +:+ ("publicdomain" +:+ "/")).
      by repeat apply folds_app. }
  exists (w +:+ "//"), w2, (s ++ l1), (l2 ++ l3 ++ l4), l5. rewrite <-!app_assoc.
  apply list_elem_of_In in Hw. simpl in Hw.
  split_and!; [done| |by apply Hw2| |done|done]; destruct Hw as [<-|[<-|[<-|[]]]];
    first [by apply folds_app|simpl; set_solver].
Qed.

#[local] Transparent ilit decode.

(** A link of the page is a license URL, after unescaping too. *)
Lemma cc_link_is_cc s a l b :
  decode s = a ++ l ++ b → Forall (λ c, rune c ≠ 0x17F) (decode s) → lang cc_link l →
  IsCCLicenseURL (UnescapeString (of_cells l)) = true.
Proof.
  intros Hd Hs (w1 & w2 & l1 & l2 & l3 & -> & Hw1 & Hw2 & H1 & H2 & _)%lang_cc_link.
  rewrite <-!app_assoc in Hd.
  assert (forallb link_rune (rune <$> decode w1) = true) as Hl1.
  { apply list_elem_of_In in Hw1. by destruct Hw1 as [<-|[<-|[<-|[]]]]. }
  destruct (folded_cells s a l1 (l2 ++ l3 ++ b) _ Hd Hs Hl1 H1) as (_ & Ha1 & _).
  rewrite app_assoc in Hd.
  assert (forallb link_rune (rune <$> decode w2) = true ∧ encode_runes (rune <$> decode w2) = w2) as [Hl2 He2].
  { apply list_elem_of_In in Hw2. by destruct Hw2 as [<-|[<-|[]]]. }
  destruct (folded_cells s (a ++ l1) l2 (l3 ++ b) _ Hd Hs Hl2 H2) as (Hasc & Ha2 & Hlow).
  rewrite !of_cells_app, !UnescapeString_prefix by done. rewrite He2 in Hlow.
  assert (∃ u, u = of_cells l1 +:+ of_cells l2 +:+ UnescapeString (of_cells l3)) as [u Hu] by eauto.
  rewrite <-Hu. assert (Contains (ToLower u) w2 = true) as Hc.
  { rewrite <-Hlow. apply Contains_ToLower; [done|]. apply Contains_iff. eauto. }
  unfold IsCCLicenseURL. destruct (String.eqb_spec u "") as [->|_].
  - apply list_elem_of_In in Hw2. by destruct Hw2 as [<-|[<-|[]]].
  - apply existsb_true. eauto.
Qed.

(** *** Where a link stands *)

Definition quotes : list ascii := [chr 34; chr 39].

(** [raw] is a quoted value of the page: all that stands between two quotes. *)
Definition quoted_in (page raw : string) : Prop :=
  ∃ pre q q' post, page = pre +:+ str1 q +:+ raw +:+ str1 q' +:+ post ∧
    q ∈ quotes ∧ q' ∈ quotes ∧ quote_free raw = true.

Lemma quote_cell s c : c ∈ decode s → quote (rune c) = true → ∃ q, raw c = str1 q ∧ q ∈ quotes.
Proof.
  intros Hc Hq. assert (rune c = 34 ∨ rune c = 39) as Hr.
  { unfold quote, any_of in Hq. simpl in Hq. lia. }
  pose proof (small_cell s c Hc ltac:(lia)) as Hraw. exists (byte_of (rune c)). split; [done|].
  destruct Hr as [-> | ->]; vm_compute; repeat constructor.
Qed.

(** A group between two quotes. *)
Lemma found_quoted xs n b ys s m :
  found (cats ((xs ++ [Chr quote]) ++ Group n b :: Chr quote :: ys)) s m →
  n ∉ groups (cats (Chr quote :: ys)) → (∀ l, lang b l → Forall (λ c, no_quote (rune c) = true) l) →
  quoted_in s (group m n) ∧
  ∃ a l b', decode s = a ++ l ++ b' ∧ lang b l ∧ group m n = of_cells l.
Proof.
  intros Hf Hn Hb.
  apply found_group in Hf as (pre & l1 & l & l2 & post & Hd & H1 & Hl & H2 & Hm); [|done].
  apply lang_cats_app in H1 as (k1 & ? & -> & _ & c & -> & Hc).
  apply lang_cats_cons in H2 as (? & k2 & -> & (c' & -> & Hc') & _).
  unfold group. rewrite Hm. simpl. rewrite <-!app_assoc in Hd.
  destruct (quote_cell s c) as (q & Hq & Hqq); [rewrite Hd; set_solver|done|].
  destruct (quote_cell s c') as (q' & Hq' & Hqq'); [rewrite Hd; set_solver|done|]. split.
  - exists (of_cells (pre ++ k1)), q, q', (of_cells (k2 ++ post)). split_and!; [|done..|].
    + rewrite <-(decode_of_cells s), Hd, <-Hq, <-Hq'. rewrite !of_cells_app, !of_cells_cons.
      by rewrite ?of_cells_app, ?sapp_assoc, ?sapp_nil_r.
    + rewrite (app_assoc k1), (app_assoc pre) in Hd. eapply no_quote_cells; [exact Hd|auto].
  - exists (pre ++ k1 ++ [c]), l, ([c'] ++ k2 ++ post). split; [|done]. by rewrite Hd, <-!app_assoc.
Qed.

Lemma folds_no_quote w l :
  forallb no_quote (rune <$> decode w) = true → folds w l → Forall (λ c, no_quote (rune c) = true) l.
Proof.
  generalize (rune <$> decode w) as rs. intros rs Hrs H2. revert Hrs.
  induction H2 as [|r c rs l Hf _ IH]; intros Hrs; [constructor|]. simpl in Hrs. bool_hyps.
  constructor; [|auto]. unfold same_fold, fold_case in Hf. unfold is_upper_ascii in Hf.
  assert (rune c ≠ 34 ∧ rune c ≠ 39) as [H1 H2].
  { match goal with H : no_quote r = true |- _ => unfold no_quote, none_of, any_of in H; simpl in H end.
    bool_hyps. split; intros E; rewrite E in Hf; simpl in Hf; repeat case_match; bool_hyps; lia. }
  unfold no_quote, none_of, any_of. simpl. rewrite !(proj2 (Z.eqb_neq _ _)) by done. done.
Qed.

Lemma cc_link_run l : lang cc_link l → l ≠ [] ∧ Forall (λ c, no_quote (rune c) = true) l.
Proof.
  intros (w1 & w2 & l1 & l2 & l3 & -> & Hw1 & Hw2 & H1 & H2 & H3)%lang_cc_link. split.
  - intros [-> _]%app_nil. apply list_elem_of_In in Hw1.
    by destruct Hw1 as [<-|[<-|[<-|[]]]]; inversion H1.
  - rewrite !Forall_app. split_and!.
    + eapply folds_no_quote; [|exact H1]. apply list_elem_of_In in Hw1.
      by destruct Hw1 as [<-|[<-|[<-|[]]]].
    + eapply folds_no_quote; [|exact H2]. apply list_elem_of_In in Hw2.
      by destruct Hw2 as [<-|[<-|[]]].
    + done.
Qed.

(** What a result of [ExtractCCLicense] on [page] must be. *)
Definition good_link (page url : string) : Prop :=
  url ≠ "" ∧ (∃ raw, quoted_in page raw ∧ url = UnescapeString raw) ∧
  (Forall (λ c, rune c ≠ 0x17F) (decode page) → IsCCLicenseURL url = true).

Lemma found_cc_link xs s m :
  FindSubmatch (cats ((xs ++ [Chr quote]) ++ Group 1 cc_link :: [Chr quote])) s = Some m →
  good_link s (UnescapeString (group m 1)).
Proof.
  intros Hf%FindSubmatch_found. apply found_quoted in Hf as (Hq & a & l & b & Hd & Hl & He);
    [|by inversion 1|by intros l [_ ?]%cc_link_run].
  rewrite He in *. destruct (cc_link_run l Hl) as [Hne _]. split_and!.
  - by eapply UnescapeString_nonempty, of_cells_nonempty.
  - by exists (of_cells l).
  - intros Hs. by eapply cc_link_is_cc.
Qed.

Lemma matchCCFromRel_good xs ys page :
  let r := cats ((xs ++ [Chr quote]) ++ Group 1 (Plus no_quote) :: Chr quote :: ys) in
  1%nat ∉ groups (cats (Chr quote :: ys)) →
  matchCCFromRel r page ≠ "" → good_link page (matchCCFromRel r page).
Proof.
  cbv zeta. unfold matchCCFromRel. intros Hn.
  destruct (FindSubmatch _ page) as [m|] eqn:E; [|done]. cbv zeta.
  destruct (IsCCLicenseURL _) eqn:Ec; [|done]. intros Hne.
  apply FindSubmatch_found, found_quoted in E as [Hq _]; [|done|by intros l [_ ?]%lang_Plus].
  split_and!; [done|by exists (group m 1)|done].
Qed.

(** *** Which links are found *)

(** The page has a link to a license: an attribute [href] or [content] whose
    quoted value is a license path of [creativecommons.org] behind [http://],
    [https://] or [//], all in any case, and some more text.  [opening] is the
    attribute up to that path. *)
Definition links_to_cc (page : string) : Prop :=
  ∃ pre opening tail q' post name q scheme seg,
    page = pre +:+ opening +:+ tail +:+ str1 q' +:+ post ∧
    is_ascii opening = true ∧ ToLower opening = name +:+ "=" +:+ str1 q +:+ scheme +:+ seg ∧
    name ∈ ["href"; "content"] ∧ q ∈ quotes ∧ scheme ∈ ["//"; "http://"; "https://"] ∧
    seg ∈ ccLicensePathSegments ∧ tail ≠ "" ∧ quote_free tail = true ∧ q' ∈ quotes.

Lemma lower_byte_folds a :
  ascii_byte a = true →
  ascii_byte (lower_byte a) = true ∧ same_fold (bval (lower_byte a)) (bval a) = true.
Proof.
  intros Ha. assert (∀ a, negb (ascii_byte a) ||
    ascii_byte (lower_byte a) && same_fold (bval (lower_byte a)) (bval a) = true) as H
    by (apply forall_bytes; vm_compute; reflexivity).
  specialize (H a). rewrite Ha in H. simpl in H. by bool_hyps.
Qed.

Lemma folds_lower d : is_ascii d = true → folds (ToLower d) (decode d).
Proof.
  intros Hd. rewrite ToLower_ascii by done. unfold is_ascii in Hd.
  induction d as [|x d IH]; [constructor|]. simpl in Hd. bool_hyps. cbn [map_bytes].
  destruct (lower_byte_folds x) as [H1 H2]; [done|]. rewrite !decode_ascii by done.
  rewrite fmap_cons. constructor; [exact H2|auto].
Qed.

Lemma folds_split v w l :
  is_ascii v = true → folds (v +:+ w) l → ∃ a b, l = a ++ b ∧ folds v a ∧ folds w b.
Proof.
  intros Hv H. rewrite decode_ascii_app, fmap_app in H by done.
  apply Forall2_app_inv_l in H as (a & b & Ha & Hb & ->). eauto.
Qed.

Lemma quote_free_cells s :
  quote_free s = true → Forall (λ c, no_quote (rune c) = true) (decode s).
Proof.
  intros Hs. apply Forall_forall. intros c Hc. apply negb_true_iff, not_true_iff_false. intros Hq.
  destruct (quote_cell s c Hc Hq) as (q & Hraw & Hin).
  apply list_elem_of_split in Hc as (a & b & Hd).
  rewrite <-(decode_of_cells s), Hd, of_cells_app, of_cells_cons, Hraw in Hs.
  unfold quote_free in Hs. rewrite !all_bytes_app in Hs. apply list_elem_of_In in Hin.
  destruct Hin as [<-|[<-|[]]]; simpl in Hs; by rewrite ?andb_false_r in Hs.
Qed.

#[local] Opaque ilit decode.

Lemma lang_cc_link_intro scheme seg l1 l2 l3 :
  scheme ∈ ["//"; "http://"; "https://"] → seg ∈ ccLicensePathSegments →
  folds scheme l1 → folds seg l2 → lang (Plus no_quote) l3 → lang cc_link (l1 ++ l2 ++ l3).
Proof.
  intros Hs Hg H1 H2 H3.
  assert (lang (cats [Opt (cats [ilit "http"; Opt (ilit "s"); ilit ":"]); ilit "//"]) l1) as L1.
  { apply lang_cats_cons. apply list_elem_of_In in Hs. destruct Hs as [<-|[<-|[<-|[]]]].
    - exists [], l1. split_and!; [done|by right|by apply lang_ilit].
    - apply (folds_split "http:" "//") in H1 as (a & e & -> & Ha & He); [|done].
      apply (folds_split "http" ":") in Ha as (b & c & -> & Hb & Hc); [|done].
      exists (b ++ c), e. split_and!; [done|left|by apply lang_ilit].
      exists b, c. split_and!; [done|by apply lang_ilit|]. exists [], c.
      split_and!; [done|by right|by apply lang_ilit].
    - apply (folds_split "https:" "//") in H1 as (a & e & -> & Ha & He); [|done].
      apply (folds_split "http" "s:") in Ha as (b & c & -> & Hb & Hc); [|done].
      apply (folds_split "s" ":") in Hc as (c1 & c2 & -> & Hc1 & Hc2); [|done].
      exists (b ++ c1 ++ c2), e. split_and!; [done|left|by apply lang_ilit].
      exists b, (c1 ++ c2). split_and!; [done|by apply lang_ilit|]. exists c1, c2.
      split_and!; [done|left|]; by apply lang_ilit. }
  assert (lang (cats [ilit "creativecommons.org/"; Alt (ilit "licenses") (ilit "publicdomain"); ilit "/"]) l2)
    as L2.
  { assert (∃ w, w ∈ ["licenses"; "publicdomain"] ∧ is_ascii w = true ∧
      seg = "creativecommons.org/" +:+ w +:+ "/") as (w & Hw & Hwa & ->).
    { apply list_elem_of_In in Hg. destruct Hg as [<-|[<-|[]]];
        [exists "licenses"|exists "publicdomain"]; by repeat constructor. }
    apply folds_split in H2 as (a & t & -> & Ha & Ht); [|done].
    apply folds_split in Ht as (b & c & -> & Hb & Hc); [|done].
    apply lang_cats_cons. exists a, (b ++ c). split_and!; [done|by apply lang_ilit|].
    apply lang_cats_cons. exists b, c. split_and!; [done| |by apply lang_ilit].
    apply list_elem_of_In in Hw. destruct Hw as [<-|[<-|[]]]; [left|right]; by apply lang_ilit. }
  unfold cc_link. apply (lang_cats_app [_; _] (_ :: _)). exists l1, (l2 ++ l3). split_and!; [done..|].
  apply (lang_cats_app [_; _; _] [_]). exists l2, l3. auto.
Qed.

#[local] Transparent ilit decode.

Lemma quotes_lang q :
  q ∈ quotes → is_ascii (str1 q) = true ∧ (∀ l, folds (str1 q) l → lang (Chr quote) l) ∧
    lang (Chr quote) (decode (str1 q)).
Proof.
  intros Hq%list_elem_of_In.
  assert (∀ r l, r = 34 ∨ r = 39 → Forall2 (λ r c, same_fold r (rune c) = true) [r] l →
    lang (Chr quote) l) as Hfold.
  { intros r l Hr H. inversion H as [|? c ? k Hc Hk]; subst. inversion Hk; subst. exists c.
    split; [done|]. unfold same_fold, fold_case, is_upper_ascii in Hc.
    unfold quote, any_of. simpl. repeat case_match; lia. }
  destruct Hq as [<-|[<-|[]]]; (split_and!; [done| |by eexists]); intros l; apply Hfold; auto.
Qed.

(** The texts of the last two patterns. *)
Lemma lang_cc_attr name q q' scheme seg d tail :
  is_ascii name = true → q ∈ quotes → q' ∈ quotes →
  scheme ∈ ["//"; "http://"; "https://"] → seg ∈ ccLicensePathSegments →
  is_ascii d = true → ToLower d = name +:+ str1 q +:+ scheme +:+ seg →
  tail ≠ "" → quote_free tail = true →
  lang (cats ([ilit name; Chr quote] ++ Group 1 cc_link :: [Chr quote]))
    (decode d ++ decode tail ++ decode (str1 q')).
Proof.
  intros Hn Hq Hq' Hs Hg Hd Hlow Ht Hqf. pose proof (folds_lower d Hd) as Hf. rewrite Hlow in Hf.
  destruct (quotes_lang q Hq) as (Hqa & Hql & _). destruct (quotes_lang q' Hq') as (_ & _ & Hql').
  apply folds_split in Hf as (l1 & t & Ht1 & F1 & Hf); [|done].
  apply folds_split in Hf as (l2 & t2 & -> & F2 & Hf); [|done].
  apply folds_split in Hf as (l3 & l4 & -> & F3 & F4);
    [|apply list_elem_of_In in Hs; by destruct Hs as [<-|[<-|[<-|[]]]]].
  rewrite Ht1, <-!app_assoc.
  apply lang_cats_cons. exists l1. eexists. split; [done|]. split; [by apply lang_ilit|].
  apply lang_cats_cons. exists l2. eexists. split; [done|]. split; [by apply Hql|].
  apply lang_cats_cons. exists (l3 ++ l4 ++ decode tail), (decode (str1 q')).
  rewrite <-!app_assoc. split_and!; [done| |done].
  apply (lang_cc_link_intro scheme seg); [done..|]. apply lang_Plus.
  split; [|by apply quote_free_cells]. intros E. by rewrite <-(decode_of_cells tail), E in Ht.
Qed.

Lemma links_to_cc_occurs page :
  links_to_cc page → occurs ccBareHrefRe (decode page) ∨ occurs ccMetaContentRe (decode page).
Proof.
  intros (pre & d & tail & q' & post & name & q & scheme & seg & -> & Hd & Hlow & Hn & Hq & Hs & Hg &
    Ht & Hqf & Hq').
  assert (d ≠ "") as Hdne.
  { intros ->. apply list_elem_of_In in Hn. by destruct Hn as [<-|[<-|[]]]. }
  rewrite decode_ascii_inside, decode_ascii_inside by (done || by apply quotes_lang).
  rewrite (app_assoc (decode tail)), (app_assoc (decode d)).
  apply list_elem_of_In in Hn. destruct Hn as [<-|[<-|[]]]; [left|right]; apply lang_occurs; try done.
  - by apply (lang_cc_attr "href=" q q' scheme seg).
  - by apply (lang_cc_attr "content=" q q' scheme seg).
Qed.

(** (C33) [ExtractCCLicense] is sound and complete for plain license links.  Whatever
    it returns is, unescaped, the whole text between two quotes of the page and,
    if the page is free of the letter U+017F (which [(?i)] takes for an s and
    [strings.ToLower] does not), a Creative Commons license URL by
    [IsCCLicenseURL].  It does return something whenever an attribute [href] or
    [content] of the page holds a license path of [creativecommons.org] behind
    [http://], [https://] or [//], in whatever case and between whatever quotes. *)
Theorem ExtractCCLicense_spec page :
  (ExtractCCLicense page ≠ "" →
     (∃ raw, quoted_in page raw ∧ ExtractCCLicense page = UnescapeString raw) ∧
     (Forall (λ c, rune c ≠ 0x17F) (decode page) → IsCCLicenseURL (ExtractCCLicense page) = true)) ∧
  (links_to_cc page → ExtractCCLicense page ≠ "").
Proof.
  assert (good_link page (ExtractCCLicense page) ∨
          ExtractCCLicense page = "" ∧ ¬ links_to_cc page) as [(H1 & H2 & H3)|[-> Hn]]; [|auto|by auto].
  unfold ExtractCCLicense. cbv zeta.
  destruct (String.eqb_spec (matchCCFromRel ccRelHrefRe page) "") as [_|H1]; simpl.
  2: { left. apply (matchCCFromRel_good (rel_license ++ [_; _]) []); [by inversion 1|exact H1]. }
  destruct (String.eqb_spec (matchCCFromRel ccHrefRelRe page) "") as [_|H2]; simpl.
  2: { left. apply (matchCCFromRel_good [_] (_ :: rel_license)); [by vm_compute; inversion 1|exact H2]. }
  destruct (FindSubmatch ccBareHrefRe page) as [m|] eqn:E3.
  { left. by apply (found_cc_link [_]) in E3. }
  destruct (FindSubmatch ccMetaContentRe page) as [m|] eqn:E4.
  { left. by apply (found_cc_link [_]) in E4. }
  right. split; [done|]. intros [H|H]%links_to_cc_occurs; by apply FindSubmatch_None in H.
Qed.

Definition ccPage : string := "<a HREF='//CreativeCommons.org/Licenses/by/4.0/'>".

Lemma ExtractCCLicense_spec_witness :
  ExtractCCLicense ccPage = "//CreativeCommons.org/Licenses/by/4.0/" ∧
  ExtractCCLicense ccPage ≠ "" ∧ IsCCLicenseURL (ExtractCCLicense ccPage) = true.
Proof.
  split; [vm_compute; reflexivity|].
  destruct (ExtractCCLicense_spec ccPage) as [Hsound Hcomplete].
  assert (ExtractCCLicense ccPage ≠ "") as Hne.
  { apply Hcomplete. exists "<a ", "HREF='//CreativeCommons.org/Licenses/", "by/4.0/", (chr 39), ">",
      "href", (chr 39), "//", "creativecommons.org/licenses/".
    split_and!; try reflexivity; try discriminate; vm_compute; repeat constructor. }
  split; [exact Hne|]. apply Hsound; [exact Hne|].
  apply Forall_forall. intros c Hc.
  assert (forallb (λ c, negb (rune c =? 0x17F)) (decode ccPage) = true) as H by (vm_compute; reflexivity).
  rewrite forallb_forall in H. apply list_elem_of_In, H in Hc. bool_hyps. lia.
Defined.

(** Not every link to a license is found: the two last patterns want the host
    name right behind the slashes, so a link through [www.] is a license URL for
    [IsCCLicenseURL] and yet overlooked, unless it carries [rel='license']. *)
Theorem www_link_is_overlooked :
  let url := "https://www.creativecommons.org/licenses/by/4.0/" in
  IsCCLicenseURL url = true ∧ ExtractCCLicense ("<a href='" +:+ url +:+ "'>") = "" ∧
  ExtractCCLicense ("<a rel='license' href='" +:+ url +:+ "'>") = url.
Proof. vm_compute. auto. Qed.

(** With U+017F in the host the two disagree: the page below yields a URL
    that [IsCCLicenseURL] rejects. *)
Theorem long_s_link_is_not_cc :
  let page := "<a href='//creativecommonſ.org/licenses/by/4.0/'>" in
  ExtractCCLicense page = "//creativecommonſ.org/licenses/by/4.0/" ∧
  IsCCLicenseURL (ExtractCCLicense page) = false.
Proof. vm_compute. auto. Qed.

End HtmlExtract.
