(* ===== verification/Config.v ===== *)
(** * Configuration, environment events and HTTP data (imagefy.go, net/http)

    The record [Config] with [defaults], the option structs, and the signature
    [Ev] of everything the library asks of its environment: HTTP requests, the
    injected cache, classifier and callbacks, and the two mutex-protected critical
    sections of the validation pipeline. *)

From Stdlib Require Import SpecFloat.
From S2P Require Import Prelude GoStrings GoURL Effects Types Metadata.

(** ** Errors, durations, contexts *)

Abbreviation error := string.

(** [time.Duration] in nanoseconds. *)
Definition Second : Z := 1000000000.

(** A context as the deadlines [context.WithTimeout] stacked on it, innermost
    first; the environment decides when they expire. *)
Definition Ctx : Type := list Z.
Definition Background : Ctx := [].
Definition WithTimeout (ctx : Ctx) (d : Z) : Ctx := d :: ctx.

(** ** HTTP *)

(** [http.Client]: transport and cookie jar are opaque identities ([None] for
    nil), [CheckRedirect] gives the error for a number of requests already made. *)
Record Client := mkClient {
  Transport : option nat;
  Jar : option nat;
  ClientTimeout : Z;
  CheckRedirect : option (nat → option error) }.

Definition DefaultClient : Client := mkClient None None 0 None.

Record Request := mkRequest {
  Method : string;
  ReqURL : string;
  ReqHeader : gmap string string;
  ReqBody : string;
  ReqCtx : Ctx }.

(** How a response body ends: cleanly, with an error on the read after the last
    byte, or with an error delivered together with the last bytes. *)
Inductive body_end := EOF | ErrAfter | ErrWithLast.

Record Reader := mkReader { rdData : string; rdEnd : body_end }.

Record Response := mkResponse {
  StatusCode : Z;
  RespHeader : gmap string string;
  Body : Reader }.

Definition StatusOK : Z := 200.
Definition StatusBadRequest : Z := 400.

(** [resp.Header.Get] of a canonical key. *)
Definition HeaderGet (h : gmap string string) (k : string) : string := default "" (h !! k).

(** [http.NewRequestWithContext] fails on a URL that does not parse. *)
Definition NewRequest (ctx : Ctx) (method url body : string) : option Request :=
  match Parse url with
  | Some _ => Some (mkRequest method url ∅ body ctx)
  | None => None
  end.

(** [req.Header.Set] of a canonical key. *)
Definition SetHeader (r : Request) (k v : string) : Request :=
  mkRequest (Method r) (ReqURL r) (<[k := v]> (ReqHeader r)) (ReqBody r) (ReqCtx r).

(** [io.LimitReader]: at most [n] bytes; an error that lies beyond them is not
    reached. *)
Definition LimitReader (r : Reader) (n : Z) : Reader :=
  let len := Z.of_nat (slen (rdData r)) in
  if (len <? n)%Z then r
  else if (len =? n)%Z && (match rdEnd r with ErrWithLast => true | _ => false end) then r
  else mkReader (string_take (Z.to_nat n) (rdData r)) EOF.

(** [io.ReadAll]: the bytes, or an error. *)
Definition ReadAll (r : Reader) : option string :=
  match rdEnd r with EOF => Some (rdData r) | _ => None end.

(** ** Classification data (classify_types.go) and LLM input (imagefy.go) *)

Record ClassificationResult := mkResult { Class : string; Confidence : spec_float }.

(** [ClassificationResult{}] *)
Definition zeroFloat : spec_float := S754_zero false.
Definition zeroResult : ClassificationResult := mkResult "" zeroFloat.

Record ClassificationEvent := mkClsEvent {
  evURL : string; evClass : string; evConfidence : spec_float; evSource : string }.

Record ImageInput := mkInput { inputURL : string; inputMIMEType : string }.

(** ** Perceptual hashes (the vendored goimagehash) *)

Inductive HashKind := HUnknown | AHash | PHash | DHash | WHash.

#[export] Instance HashKind_eq_dec : EqDecision HashKind.
Proof. solve_decision. Defined.

Record ImageHash := mkHash { hash : Z; kind : HashKind }.

(** ** Events *)

Inductive Ev : Type → Type :=
  | HttpDo (c : Client) (r : Request) : Ev (Response + error)
  | CacheKey (prefix value : string) : Ev string
  | CacheGet (ctx : Ctx) (key : string) : Ev (option ClassificationResult)
  | CacheSet (ctx : Ctx) (key : string) (v : ClassificationResult) : Ev unit
  | LLM (ctx : Ctx) (prompt : string) (images : list ImageInput) : Ev (string + error)
  | OnImageSearchCall : Ev unit
  | OnPanicCall (tag : string) (r : string) : Ev unit
  | OnClassificationCall (e : ClassificationEvent) : Ev unit
  | DedupSection (h : ImageHash) : Ev bool
  | AppendSection (cand : ImageCandidate) (maxResults : Z) : Ev unit.

(** ** Options and providers *)

Record SearchOpts := mkSearchOpts {
  PageNumber : Z; Engines : list string; OptTimeout : Z; PageURL : string }.
Definition zeroSearchOpts : SearchOpts := mkSearchOpts 0 [] 0 "".

(** provider.go: the interface; [Search] returns candidates and an error. *)
Record SearchProvider := mkProvider {
  ProviderName : string;
  ProviderSearch : Ctx → string → SearchOpts → prog Ev (list ImageCandidate * option error) }.

(** ** [Config]

    The injected interfaces and callbacks are environment; the record says which
    of them are non-nil. *)
Record Config := mkConfig {
  Cache : bool;
  Classifier : bool;
  StealthClient : option Client;
  HTTPClient : option Client;
  SearxngURL : string;
  MinImageWidth : Z;
  UserAgent : string;
  Providers : list SearchProvider;
  VisionPromptOverride : string;
  ExtraBlockedDomains : list string;
  ExtraSafeDomains : list string;
  OxBrowserURL : string;
  OnImageSearch : bool;
  OnPanic : bool;
  OnClassification : bool }.

Definition DefaultMinImageWidth : Z := 880.
Definition defaultUserAgent : string := "Mozilla/5.0 (compatible; go-imagefy/1.0)".

Definition defaults (c : Config) : Config :=
  mkConfig (Cache c) (Classifier c) (StealthClient c)
    (match HTTPClient c with None => Some DefaultClient | h => h end)
    (SearxngURL c)
    (if (MinImageWidth c <=? 0)%Z then DefaultMinImageWidth else MinImageWidth c)
    (if UserAgent c =?s "" then defaultUserAgent else UserAgent c)
    (Providers c) (VisionPromptOverride c) (ExtraBlockedDomains c) (ExtraSafeDomains c)
    (OxBrowserURL c) (OnImageSearch c) (OnPanic c) (OnClassification c).

(** [if client == nil { client = http.DefaultClient }] *)
Definition clientOrDefault (c : option Client) : Client := default DefaultClient c.

(** The zero configuration. *)
Definition zeroConfig : Config :=
  mkConfig false false None None "" 0 "" [] "" [] [] "" false false false.

(** ** Interface: the third-party and codec functions

    [image.Decode], [image.DecodeConfig] (with the registered formats), the
    resize-and-grey step of goimagehash and the stream decoders of imagemeta. *)
Class ImageLib := {
  Image : Type;
  image_Decode : string → option Image;
  image_DecodeConfig : Reader → option (Z * Z);
  gray_9x8 : Image → list (list spec_float);
  meta_stream : string → Metadata.ImageFormat → Z → list Metadata.TagInfo * bool }.

(** ** Lemmas *)

(** [defaults] is idempotent, so a second call writes nothing: the calls the
    goroutines of the pipeline make do not race. *)
Lemma defaults_idemp c : defaults (defaults c) = defaults c.
Proof.
  unfold defaults. simpl. f_equal.
  - by destruct (HTTPClient c).
  - destruct (MinImageWidth c <=? 0)%Z eqn:E; [done|]. by rewrite E.
  - destruct (UserAgent c =?s "") eqn:E; [done|]. by rewrite E.
Qed.

Lemma defaults_http c : is_Some (HTTPClient (defaults c)).
Proof. simpl. destruct (HTTPClient c); eauto. Qed.

Lemma LimitReader_len r n :
  (0 ≤ n)%Z → (Z.of_nat (slen (rdData (LimitReader r n))) ≤ n)%Z.
Proof.
  intros Hn. unfold LimitReader.
  destruct (Z.ltb_spec (Z.of_nat (slen (rdData r))) n) as [H|H]; [lia|].
  destruct (Z.eqb_spec (Z.of_nat (slen (rdData r))) n) as [H'|H']; simpl.
  - destruct (rdEnd r); simpl; rewrite ?slen_take; lia.
  - rewrite slen_take. lia.
Qed.

(** What [ReadAll] of a limited reader returns: a prefix of the body, no longer
    than the limit. *)
Lemma ReadAll_LimitReader r n d :
  (0 ≤ n)%Z → ReadAll (LimitReader r n) = Some d →
  d = string_take (Z.to_nat n) (rdData r) ∧ (Z.of_nat (slen d) ≤ n)%Z.
Proof.
  intros Hn H. assert (d = rdData (LimitReader r n)) as ->.
  { unfold ReadAll in H. by destruct (rdEnd (LimitReader r n)); simplify_eq. }
  split; [|by apply LimitReader_len].
  unfold LimitReader in *.
  destruct (Z.ltb_spec (Z.of_nat (slen (rdData r))) n) as [Hlt|Hlt].
  { rewrite string_take_all by lia. done. }
  case_bool; [|done]. bool_hyps. rewrite string_take_all by lia. done.
Qed.
