(* ===== verification/Assessment.v ===== *)
(** * License assessment (assessment.go)

    [AssessLicense] turns the search-time class, the extended domain check and
    the metadata tests into signals and resolves them to one verdict. *)

From S2P Require Import Prelude GoStrings GoURL Types License Metadata Config.
Import License Metadata.

Module Assessment.

(** ** Operations *)

(** Signal 1: the class the provider set, for a candidate with URL data. *)
Definition domainSignal (cand : ImageCandidate) : list LicenseSignal :=
  if (ImgURL cand <>?s "") || (Source cand <>?s "") then
    match License cand with
    | LicenseBlocked =>
        [mkSignal "domain" ("blocked by search-time domain check: " +:+ Source cand) LicenseBlocked]
    | LicenseSafe =>
        [mkSignal "domain" ("safe by search-time domain check: " +:+ Source cand) LicenseSafe]
    | LicenseUnknown => []
    end
  else [].

(** Signal 2: the extended domain check, when extra lists are configured and it
    changes the class. *)
Definition hasExtra (cfg : Config) : bool :=
  (0 <? length (ExtraBlockedDomains cfg)) || (0 <? length (ExtraSafeDomains cfg)).

Definition extraSignal (cfg : Config) (cand : ImageCandidate) : list LicenseSignal :=
  if hasExtra cfg then
    let extLicense := CheckLicenseWith (ImgURL cand) (Source cand)
                        (ExtraBlockedDomains cfg) (ExtraSafeDomains cfg) in
    if negb (license_eqb extLicense (License cand)) && negb (license_eqb extLicense LicenseUnknown)
    then [mkSignal "extra_domain"
            ("reclassified by extended domain check: " +:+ license_String extLicense) extLicense]
    else []
  else [].

(** Signals 3 and 4: metadata. *)
Definition stockSignal (meta : option ImageMetadata) : list LicenseSignal :=
  if IsStockByMetadata meta
  then [mkSignal "metadata_stock"
          ("stock agency detected in metadata: " +:+ metadataStockDetail meta) LicenseBlocked]
  else [].

Definition ccSignal (meta : option ImageMetadata) : list LicenseSignal :=
  if IsCCByMetadata meta
  then [mkSignal "metadata_cc"
          ("Creative Commons license in metadata: " +:+ metadataCCDetail meta) LicenseSafe]
  else [].

(** The resolution loop: a blocked signal breaks out, a safe one is remembered. *)
Fixpoint resolve (signals : list LicenseSignal) (final : ImageLicense) : ImageLicense :=
  match signals with
  | [] => final
  | sig :: rest =>
      if license_eqb (sigLicense sig) LicenseBlocked then LicenseBlocked
      else if license_eqb (sigLicense sig) LicenseSafe then resolve rest LicenseSafe
      else resolve rest final
  end.

Definition AssessLicense (cfg : Config) (cand : ImageCandidate) (meta : option ImageMetadata) :
    LicenseAssessment :=
  let signals := domainSignal cand ++ extraSignal cfg cand ++ stockSignal meta ++ ccSignal meta in
  mkAssessment (resolve signals LicenseUnknown) signals.

(** ** Lemmas *)

(** The specification of the resolution: blocked over safe over the default. *)
Definition has (l : ImageLicense) (signals : list LicenseSignal) : bool :=
  existsb (λ s, license_eqb (sigLicense s) l) signals.

Lemma resolve_spec signals final :
  resolve signals final =
  if has LicenseBlocked signals then LicenseBlocked
  else if has LicenseSafe signals then LicenseSafe else final.
Proof.
  revert final; induction signals as [|s signals IH]; intros final; simpl; [done|].
  rewrite !IH. destruct (sigLicense s); simpl; [|done..].
  by destruct (has LicenseBlocked signals), (has LicenseSafe signals).
Qed.

Lemma has_app l a b : has l (a ++ b) = has l a || has l b.
Proof. apply existsb_app. Qed.

Definition hasURL (cand : ImageCandidate) : bool := (ImgURL cand <>?s "") || (Source cand <>?s "").

Lemma has_domain l cand :
  has l (domainSignal cand) =
  hasURL cand && license_eqb (License cand) l && negb (license_eqb l LicenseUnknown).
Proof.
  unfold domainSignal, hasURL. case_bool; [|done].
  destruct (License cand), l; reflexivity.
Qed.

Lemma has_extra l cfg cand :
  has l (extraSignal cfg cand) =
  let ext := CheckLicenseWith (ImgURL cand) (Source cand)
               (ExtraBlockedDomains cfg) (ExtraSafeDomains cfg) in
  hasExtra cfg && license_eqb ext l && negb (license_eqb l (License cand)) &&
  negb (license_eqb l LicenseUnknown).
Proof.
  unfold extraSignal. destruct (hasExtra cfg); [|done]. cbv zeta.
  destruct (CheckLicenseWith _ _ _ _), (License cand), l; reflexivity.
Qed.

Lemma has_stock l meta :
  has l (stockSignal meta) = IsStockByMetadata meta && license_eqb l LicenseBlocked.
Proof. unfold stockSignal. destruct (IsStockByMetadata meta), l; reflexivity. Qed.

Lemma has_cc l meta :
  has l (ccSignal meta) = IsCCByMetadata meta && license_eqb l LicenseSafe.
Proof. unfold ccSignal. destruct (IsCCByMetadata meta), l; reflexivity. Qed.

(** The verdict as a decision table over the evidence. *)
Definition verdict (cfg : Config) (cand : ImageCandidate) (meta : option ImageMetadata) :
    ImageLicense :=
  let ext := CheckLicenseWith (ImgURL cand) (Source cand)
               (ExtraBlockedDomains cfg) (ExtraSafeDomains cfg) in
  if (hasURL cand && license_eqb (License cand) LicenseBlocked) ||
     (hasExtra cfg && license_eqb ext LicenseBlocked &&
      negb (license_eqb (License cand) LicenseBlocked)) ||
     IsStockByMetadata meta
  then LicenseBlocked
  else if (hasURL cand && license_eqb (License cand) LicenseSafe) ||
          (hasExtra cfg && license_eqb ext LicenseSafe &&
           negb (license_eqb (License cand) LicenseSafe)) ||
          IsCCByMetadata meta
  then LicenseSafe else LicenseUnknown.

Lemma license_eqb_sym a b : license_eqb a b = license_eqb b a.
Proof. unfold license_eqb. apply Z.eqb_sym. Qed.

Lemma AssessLicense_verdict cfg cand meta :
  assLicense (AssessLicense cfg cand meta) = verdict cfg cand meta.
Proof.
  unfold AssessLicense, verdict. cbn [assLicense]. rewrite resolve_spec, !has_app.
  rewrite !has_domain, !has_extra, !has_stock, !has_cc. cbv zeta.
  rewrite !(license_eqb_sym _ (License cand)). cbn [license_eqb license_int Z.eqb negb].
  rewrite !andb_true_r, !andb_false_r, !orb_false_r, !orb_false_l, <-!orb_assoc. done.
Qed.

Lemma no_extra_CheckLicense cfg i s :
  hasExtra cfg = false →
  CheckLicenseWith i s (ExtraBlockedDomains cfg) (ExtraSafeDomains cfg) = CheckLicense i s.
Proof.
  unfold hasExtra. intros H. bool_hyps.
  destruct (ExtraBlockedDomains cfg), (ExtraSafeDomains cfg); done.
Qed.

(** Extending the built-in check, in the form of the two monotonicity facts. *)
Lemma CheckLicenseWith_extends i s eb es :
  (CheckLicense i s = LicenseBlocked → CheckLicenseWith i s eb es = LicenseBlocked) ∧
  (CheckLicense i s = LicenseSafe → CheckLicenseWith i s eb es ≠ LicenseUnknown).
Proof.
  unfold CheckLicense. split.
  - rewrite !CheckLicenseWith_Blocked. intros [H|H]; [left|right];
      (eapply isBlockedWith_mono; [|exact H]); set_solver.
  - intros (_ & H)%CheckLicenseWith_Safe Hu.
    pose proof (CheckLicenseWith_cases i s eb es) as Hc. rewrite Hu in Hc.
    destruct Hc as (_ & _ & H1 & H2).
    destruct H as [H|H]; apply (isSafeWith_mono _ _ es) in H; try congruence; set_solver.
Qed.

(** ** Properties *)

(** (C13) The verdict of [AssessLicense] is the decision table over its evidence,
    blocked before safe before unknown, the order in which signals arrived
    playing no part; there are at most four signals and the verdict is
    [LicenseUnknown] exactly when there is none. *)
Theorem AssessLicense_decision cfg cand meta :
  let a := AssessLicense cfg cand meta in
  assLicense a = verdict cfg cand meta ∧
  (assLicense a = LicenseBlocked ↔ ∃ s, s ∈ assSignals a ∧ sigLicense s = LicenseBlocked) ∧
  (assLicense a = LicenseUnknown ↔ assSignals a = []) ∧
  length (assSignals a) ≤ 4.
Proof.
  cbv zeta. split_and!.
  - apply AssessLicense_verdict.
  - cbn [AssessLicense assLicense assSignals]. rewrite resolve_spec. unfold has.
    destruct (existsb _ _) eqn:E.
    + apply existsb_true in E as (s & Hs & Hl). apply license_eqb_eq in Hl. naive_solver.
    + rewrite existsb_false in E. split; [by case_bool|]. intros (s & Hs & Hl).
      specialize (E s Hs). by rewrite Hl in E.
  - cbn [AssessLicense assLicense assSignals]. rewrite resolve_spec, !has_app, !has_domain,
      !has_extra, !has_stock, !has_cc.
    unfold domainSignal, extraSignal, stockSignal, ccSignal, hasURL. cbv zeta.
    destruct ((ImgURL cand <>?s "") || (Source cand <>?s "")); destruct (hasExtra cfg); destruct (License cand);
      destruct (CheckLicenseWith _ _ _ _); destruct (IsStockByMetadata meta);
      destruct (IsCCByMetadata meta); simpl; split; done.
  - cbn [AssessLicense assSignals]. rewrite !length_app.
    unfold domainSignal, extraSignal, stockSignal, ccSignal.
    repeat (case_match; simpl); lia.
Qed.

(** (C12) For a candidate labelled by the built-in check, as every provider
    labels it, the verdict without metadata is exactly the extended check
    [CheckLicenseWith] with the configured lists: the signal machinery refines
    one classification. *)
Theorem AssessLicense_refines_CheckLicenseWith cfg cand :
  License cand = CheckLicense (ImgURL cand) (Source cand) →
  hasURL cand = true →
  assLicense (AssessLicense cfg cand None) =
  CheckLicenseWith (ImgURL cand) (Source cand) (ExtraBlockedDomains cfg) (ExtraSafeDomains cfg).
Proof.
  intros Hl Hu. rewrite AssessLicense_verdict. unfold verdict. rewrite Hu. cbn [IsStockByMetadata IsCCByMetadata].
  destruct (hasExtra cfg) eqn:He.
  - destruct (CheckLicenseWith_extends (ImgURL cand) (Source cand) (ExtraBlockedDomains cfg)
      (ExtraSafeDomains cfg)) as [Hb Hs]. rewrite <-Hl in Hb, Hs.
    destruct (License cand), (CheckLicenseWith _ _ _ _); simpl; try done; exfalso;
      first [by apply Hs | by specialize (Hb eq_refl)].
  - rewrite no_extra_CheckLicense, <-Hl by done. by destruct (License cand).
Qed.

Lemma AssessLicense_refines_CheckLicenseWith_witness :
  let cfg := mkConfig false false None None "" 0 "" [] "" ["evilcdn"] [] "" false false false in
  assLicense (AssessLicense cfg (candidate "https://evilcdn.net/a.jpg" "" "" "" LicenseUnknown) None)
  = LicenseBlocked.
Proof.
  cbv zeta. etrans; [apply AssessLicense_refines_CheckLicenseWith; vm_compute; reflexivity|].
  vm_compute. reflexivity.
Defined.

(** The label is trusted: a candidate whose [License] field holds the zero
    value [LicenseSafe], as one built without setting it does, is assessed safe
    whenever no extra lists are configured and its metadata name no agency,
    whatever its host.  The built-in stock list is not consulted again. *)
Theorem unlabelled_candidate_is_safe cfg cand meta :
  hasURL cand = true → License cand = LicenseSafe → hasExtra cfg = false →
  IsStockByMetadata meta = false →
  assLicense (AssessLicense cfg cand meta) = LicenseSafe.
Proof.
  intros Hu Hl He Hm. rewrite AssessLicense_verdict. unfold verdict. by rewrite Hu, Hl, He, Hm.
Qed.

Lemma unlabelled_candidate_is_safe_witness :
  let cand := mkCandidate "https://shutterstock.com/image/stock.jpg" ""
                "https://shutterstock.com/page/123" "Stock Photo" (License zeroCandidate) 0 0 "" in
  CheckLicense (ImgURL cand) (Source cand) = LicenseBlocked ∧
  assLicense (AssessLicense zeroConfig cand None) = LicenseSafe.
Proof.
  cbv zeta. split; [vm_compute; reflexivity|].
  apply unlabelled_candidate_is_safe; reflexivity.
Defined.

End Assessment.
