(* ===== verification/Helpers.v ===== *)
(** * Encoding helpers (helpers.go)

    [EncodeBase64] and [EncodeDataURL]: the image handed to the classifier is a
    [data:] URI.  The decoder below is the reference the encoder is proved
    against. *)

From S2P Require Import Prelude Unicode GoStrings GoURL.

Local Open Scope Z_scope.

Module Helpers.

(** ** Operations *)

(** The standard alphabet, by 6-bit value. *)
Definition b64char (v : Z) : ascii :=
  if v <? 26 then byte_of (65 + v)
  else if v <? 52 then byte_of (97 + (v - 26))
  else if v <? 62 then byte_of (48 + (v - 52))
  else if v =? 62 then "+"%char else "/"%char.

(** The 6-bit group of a value at a shift. *)
Definition sextet (v shift : Z) : ascii := b64char (Z.land (Z.shiftr v shift) 63).

Definition group3 (a b c : ascii) : Z :=
  Z.lor (Z.shiftl (bval a) 16) (Z.lor (Z.shiftl (bval b) 8) (bval c)).

(** [base64.StdEncoding.EncodeToString]: groups of three bytes, the last one
    padded. *)
Fixpoint EncodeBase64 (data : string) : string :=
  match data with
  | EmptyString => EmptyString
  | String a EmptyString =>
      let v := Z.shiftl (bval a) 16 in
      String (sextet v 18) (String (sextet v 12) "==")
  | String a (String b EmptyString) =>
      let v := Z.lor (Z.shiftl (bval a) 16) (Z.shiftl (bval b) 8) in
      String (sextet v 18) (String (sextet v 12) (String (sextet v 6) "="))
  | String a (String b (String c rest)) =>
      let v := group3 a b c in
      String (sextet v 18) (String (sextet v 12) (String (sextet v 6) (String (sextet v 0)
        (EncodeBase64 rest))))
  end.

Definition EncodeDataURL (data mimeType : string) : string :=
  "data:" +:+ mimeType +:+ ";base64," +:+ EncodeBase64 data.

(** ** The reference decoder *)

Definition b64val (a : ascii) : option Z :=
  if between 65 90 a then Some (bval a - 65)
  else if between 97 122 a then Some (bval a - 97 + 26)
  else if between 48 57 a then Some (bval a - 48 + 52)
  else if Ascii.eqb a "+" then Some 62
  else if Ascii.eqb a "/" then Some 63
  else None.

Definition byte_at (v shift : Z) : ascii := byte_of (Z.shiftr v shift).

Definition join4 (x y z w : Z) : Z :=
  Z.lor (Z.shiftl x 18) (Z.lor (Z.shiftl y 12) (Z.lor (Z.shiftl z 6) w)).

Fixpoint DecodeBase64 (s : string) : option string :=
  match s with
  | EmptyString => Some EmptyString
  | String a (String b (String c (String d rest))) =>
      x ← b64val a; y ← b64val b;
      if Ascii.eqb c "=" then
        if Ascii.eqb d "=" then
          if rest =?s "" then Some (str1 (byte_at (join4 x y 0 0) 16)) else None
        else None
      else
        z ← b64val c;
        if Ascii.eqb d "=" then
          if rest =?s "" then
            let v := join4 x y z 0 in Some (String (byte_at v 16) (str1 (byte_at v 8)))
          else None
        else
          w ← b64val d;
          let v := join4 x y z w in
          (λ t, String (byte_at v 16) (String (byte_at v 8) (String (byte_at v 0) t)))
            <$> DecodeBase64 rest
  | _ => None
  end.

(** ** Lemmas *)

Lemma b64_alphabet v : 0 ≤ v < 64 →
  b64val (b64char v) = Some v ∧ Ascii.eqb (b64char v) "=" = false ∧ byte_ne "," (b64char v) = true.
Proof.
  intros Hv.
  assert (forallb (λ n, let v := Z.of_nat n in
            bool_decide (b64val (b64char v) = Some v) && negb (Ascii.eqb (b64char v) "=") &&
            byte_ne "," (b64char v))
          (seq 0 64) = true) as H by (vm_compute; reflexivity).
  rewrite forallb_forall in H. specialize (H (Z.to_nat v)).
  cbv zeta in H. rewrite Z2Nat.id in H by lia.
  assert (In (Z.to_nat v) (seq 0 64)) as Hin by (apply in_seq; lia).
  specialize (H Hin). bool_hyps. split_and!; [by apply bool_decide_eq_true in H|by apply Ascii.eqb_neq|done].
Qed.

Lemma land63_range z : 0 ≤ Z.land z 63 < 64.
Proof.
  change 63 with (Z.ones 6). rewrite Z.land_ones by lia.
  pose proof (Z.mod_pos_bound z (2 ^ 6)). lia.
Qed.

Lemma sextet_back v shift :
  b64val (sextet v shift) = Some (Z.land (Z.shiftr v shift) 63) ∧
  Ascii.eqb (sextet v shift) "=" = false.
Proof.
  destruct (b64_alphabet _ (land63_range (Z.shiftr v shift))) as (H1 & H2 & _). by split.
Qed.

Lemma sextet_no_comma v shift : byte_ne "," (sextet v shift) = true.
Proof. apply b64_alphabet, land63_range. Qed.

Lemma sextet_arith v shift : 0 ≤ shift → Z.land (Z.shiftr v shift) 63 = (v / 2 ^ shift) mod 64.
Proof. intros. rewrite Z.shiftr_div_pow2 by done. by apply (land_ones_mod _ 6). Qed.

Lemma join4_arith x y z w :
  0 ≤ y < 64 → 0 ≤ z < 64 → 0 ≤ w < 64 →
  join4 x y z w = x * 262144 + y * 4096 + z * 64 + w.
Proof.
  intros Hy Hz Hw. unfold join4.
  rewrite (lor_shiftl_add z w 6), (lor_shiftl_add y _ 12), (lor_shiftl_add x _ 18); lia.
Qed.

Lemma group3_arith a b c : group3 a b c = bval a * 65536 + bval b * 256 + bval c.
Proof.
  pose proof (bval_range b). pose proof (bval_range c). unfold group3.
  rewrite (lor_shiftl_add (bval b) (bval c) 8), (lor_shiftl_add (bval a) _ 16); lia.
Qed.

Lemma byte_at_arith v shift : 0 ≤ shift → byte_at v shift = byte_of (v / 2 ^ shift).
Proof. intros. unfold byte_at. by rewrite Z.shiftr_div_pow2. Qed.

(** The groups of a 24-bit value give it back. *)
Lemma join4_group v :
  0 ≤ v < 2 ^ 24 →
  join4 (Z.land (Z.shiftr v 18) 63) (Z.land (Z.shiftr v 12) 63)
        (Z.land (Z.shiftr v 6) 63) (Z.land (Z.shiftr v 0) 63) = v.
Proof.
  intros Hv. rewrite join4_arith by apply land63_range. rewrite !sextet_arith by lia.
  change (2 ^ 18) with 262144. change (2 ^ 12) with 4096. change (2 ^ 6) with 64.
  change (2 ^ 0) with 1. change (2 ^ 24) with 16777216 in Hv. Z.div_mod_to_equations. lia.
Qed.

Lemma byte_of_eq z a : z mod 256 = bval a → byte_of z = a.
Proof. intros H. apply bval_inj. by rewrite bval_byte_of. Qed.

Lemma group3_bytes a b c :
  byte_at (group3 a b c) 16 = a ∧ byte_at (group3 a b c) 8 = b ∧ byte_at (group3 a b c) 0 = c.
Proof.
  pose proof (bval_range a). pose proof (bval_range b). pose proof (bval_range c).
  rewrite !byte_at_arith, group3_arith by lia.
  change (2 ^ 16) with 65536. change (2 ^ 8) with 256. change (2 ^ 0) with 1.
  split_and!; apply byte_of_eq; Z.div_mod_to_equations; lia.
Qed.

(** A shorter last group is a full one padded with zero bytes. *)
Definition nul : ascii := byte_of 0.

Lemma group_tail1 a : Z.shiftl (bval a) 16 = group3 a nul nul.
Proof. by rewrite group3_arith, Z.shiftl_mul_pow2, !Z.add_0_r. Qed.

Lemma group_tail2 a b : Z.lor (Z.shiftl (bval a) 16) (Z.shiftl (bval b) 8) = group3 a b nul.
Proof. unfold group3. change (bval nul) with 0. by rewrite Z.lor_0_r. Qed.

Lemma group3_range a b c : 0 ≤ group3 a b c < 2 ^ 24.
Proof.
  pose proof (bval_range a). pose proof (bval_range b). pose proof (bval_range c).
  rewrite group3_arith. lia.
Qed.

(** The sextets that padding drops are zero. *)
Lemma tail1_zero a :
  Z.land (Z.shiftr (group3 a nul nul) 6) 63 = 0 ∧ Z.land (Z.shiftr (group3 a nul nul) 0) 63 = 0.
Proof.
  pose proof (bval_range a). rewrite !sextet_arith, group3_arith by lia.
  change (bval nul) with 0. change (2 ^ 6) with 64. change (2 ^ 0) with 1.
  split; Z.div_mod_to_equations; lia.
Qed.

Lemma tail2_zero a b : Z.land (Z.shiftr (group3 a b nul) 0) 63 = 0.
Proof.
  pose proof (bval_range a). pose proof (bval_range b). rewrite !sextet_arith, group3_arith by lia.
  change (bval nul) with 0. change (2 ^ 0) with 1. Z.div_mod_to_equations; lia.
Qed.

(** Induction three bytes at a time. *)
Lemma string_ind3 (P : string → Prop) :
  P EmptyString → (∀ a, P (str1 a)) → (∀ a b, P (String a (str1 b))) →
  (∀ a b c s, P s → P (String a (String b (String c s)))) → ∀ s, P s.
Proof.
  intros H0 H1 H2 H3 s. induction s as [s IH] using string_len_ind.
  destruct s as [|a [|b [|c s]]]; [done|apply H1|apply H2|]. apply H3, IH. simpl. lia.
Qed.

(** The sextets of [v] decode to themselves and are no padding. *)
Ltac sextets v :=
  rewrite ?(proj1 (sextet_back v 18)), ?(proj1 (sextet_back v 12)), ?(proj1 (sextet_back v 6)),
    ?(proj1 (sextet_back v 0)), ?(proj2 (sextet_back v 6)), ?(proj2 (sextet_back v 0)).

Lemma Decode_Encode data : DecodeBase64 (EncodeBase64 data) = Some data.
Proof.
  induction data as [|a|a b|a b c s IH] using string_ind3; [done|..].
  - cbn [EncodeBase64 str1 DecodeBase64]. cbv zeta. rewrite group_tail1.
    sextets (group3 a nul nul). cbn [mbind option_bind]. rewrite !Ascii.eqb_refl.
    pose proof (join4_group _ (group3_range a nul nul)) as Hj.
    destruct (tail1_zero a) as [Hz1 Hz2]. rewrite Hz1, Hz2 in Hj. rewrite Hj.
    simpl. by rewrite (proj1 (group3_bytes a nul nul)).
  - cbn [EncodeBase64 str1 DecodeBase64]. cbv zeta. rewrite group_tail2.
    sextets (group3 a b nul). cbn [mbind option_bind]. rewrite !Ascii.eqb_refl.
    pose proof (join4_group _ (group3_range a b nul)) as Hj. rewrite tail2_zero in Hj. rewrite Hj.
    destruct (group3_bytes a b nul) as (Ha & Hb & _). simpl. by rewrite Ha, Hb.
  - cbn [EncodeBase64 DecodeBase64]. cbv zeta.
    sextets (group3 a b c). cbn [mbind option_bind].
    rewrite (join4_group _ (group3_range a b c)), IH.
    destruct (group3_bytes a b c) as (Ha & Hb & Hc). simpl. by rewrite Ha, Hb, Hc.
Qed.

Lemma slen_Encode data : slen (EncodeBase64 data) = (4 * ((slen data + 2) / 3))%nat.
Proof.
  induction data as [|a|a b|a b c s IH] using string_ind3; [done..|].
  cbn [EncodeBase64 slen]. rewrite IH.
  replace (S (S (S (slen s))) + 2)%nat with (slen s + 2 + 1 * 3)%nat by lia.
  rewrite Nat.div_add by lia. lia.
Qed.

Lemma Encode_no_comma data : all_bytes (byte_ne ",") (EncodeBase64 data) = true.
Proof.
  induction data as [|a|a b|a b c s IH] using string_ind3; [done|..];
    cbn -[sextet byte_ne]; by rewrite ?sextet_no_comma, ?IH.
Qed.

Lemma EncodeDataURL_split data mimeType :
  EncodeDataURL data mimeType =
  ("data:" +:+ mimeType +:+ ";base64") +:+ String "," (EncodeBase64 data).
Proof. unfold EncodeDataURL. by rewrite !sapp_assoc. Qed.

(** ** Properties *)

(** (C39) [EncodeDataURL] loses nothing and has the announced shape.  For every MIME
    type, what stands before the last comma is [data:<mime>;base64], and what
    follows it has four characters for every three bytes begun and decodes to
    exactly the image bytes.  The first comma, where readers of [data:] URIs
    split, is that comma if and only if the MIME type has no comma itself. *)
Theorem EncodeDataURL_roundtrip data mimeType :
  let url := EncodeDataURL data mimeType in
  (∃ i, LastIndex url "," = Some i ∧
     string_take i url = "data:" +:+ mimeType +:+ ";base64" ∧
     DecodeBase64 (string_drop (S i) url) = Some data ∧
     slen (string_drop (S i) url) = (4 * ((slen data + 2) / 3))%nat) ∧
  (Index url "," = LastIndex url "," ↔ all_bytes (byte_ne ",") mimeType = true).
Proof.
  cbv zeta. rewrite EncodeDataURL_split. set (head := "data:" +:+ mimeType +:+ ";base64").
  change "," with (str1 ","). rewrite !LastIndex_at by apply Encode_no_comma. split.
  - exists (slen head). rewrite string_take_app, <-(Nat.add_1_r (slen head)), <-string_drop_drop,
      string_drop_app. cbn [string_drop].
    split_and!; [done..|apply Decode_Encode|apply slen_Encode].
  - rewrite Index_first_iff. unfold head. rewrite !all_bytes_app. simpl.
    rewrite andb_true_r. done.
Qed.

(** A MIME type with a comma: a reader that splits at the first comma, as
    [data:] URIs are read, does not get the image back. *)
Theorem mime_comma_breaks_data_url :
  let url := EncodeDataURL "Man!" "image/a,b" in
  Cut url "," = ("data:image/a", "b;base64,TWFuIQ==", true) ∧ DecodeBase64 "b;base64,TWFuIQ==" = None.
Proof. vm_compute. auto. Qed.

End Helpers.
