(* ===== verification/GoFloat.v ===== *)
(** * [strconv.ParseFloat] and binary64 comparison

    The syntax Go accepts (decimal and hexadecimal floating-point literals,
    underscores between digits, [inf], [infinity] and [nan] in any case) and the
    correctly rounded binary64 value, on the axiom-free [SpecFloat] of the
    standard library. *)

From Stdlib Require Export SpecFloat.
From S2P Require Import Prelude Unicode GoStrings GoURL.

Local Open Scope Z_scope.

(** ** binary64 *)

Definition f64_zero : spec_float := S754_zero false.
Definition f64_one : spec_float := S754_finite false 4503599627370496 (-52).

(** The nearest binary64 to [num / den], ties to even. *)
Definition f64_ratio (neg : bool) (num den : positive) : spec_float :=
  SFdiv 53 1024 (S754_finite neg num 0) (S754_finite false den 0).

(** Go's [<=] and [>] on [float64]; both are false on NaN. *)
Definition f64_le (x y : spec_float) : bool := SFleb x y.
Definition f64_gt (x y : spec_float) : bool := SFltb y x.

(** ** Scanning *)

Definition lower_char (a : ascii) : ascii := lower_byte a.

(** Digits with underscores and at most one point, from [strconv.readFloat]: the
    integer the digits spell, the number of digits behind the point, whether a
    digit was seen, and the rest of the input. *)
Fixpoint read_mantissa (hex : bool) (m frac : Z) (sawdot sawdigits : bool) (s : string) :
    Z * Z * bool * string :=
  match s with
  | EmptyString => (m, frac, sawdigits, s)
  | String c s' =>
      if Ascii.eqb c "_" then read_mantissa hex m frac sawdot sawdigits s'
      else if Ascii.eqb c "." then
        if sawdot then (m, frac, sawdigits, s) else read_mantissa hex m frac true sawdigits s'
      else if is_digit c || (hex && ishex c) then
        read_mantissa hex (m * (if hex then 16 else 10) + unhex c)
          (if sawdot then frac + 1 else frac) sawdot true s'
      else (m, frac, sawdigits, s)
  end.

(** The digits of an exponent; beyond 10000 they no longer count. *)
Fixpoint read_exponent (e : Z) (s : string) : Z * string :=
  match s with
  | EmptyString => (e, s)
  | String c s' =>
      if Ascii.eqb c "_" then read_exponent e s'
      else if is_digit c then read_exponent (if e <? 10000 then e * 10 + unhex c else e) s'
      else (e, s)
  end.

(** [underscoreOK]: an underscore must separate digits, or a base prefix from a
    digit. *)
Inductive saw := SawStart | SawDigit | SawUnderscore | SawOther.

Fixpoint underscore_scan (hex : bool) (w : saw) (s : string) : bool :=
  match s with
  | EmptyString => match w with SawUnderscore => false | _ => true end
  | String c s' =>
      if is_digit c || (hex && ishex c) then underscore_scan hex SawDigit s'
      else if Ascii.eqb c "_" then
        match w with SawDigit => underscore_scan hex SawUnderscore s' | _ => false end
      else match w with SawUnderscore => false | _ => underscore_scan hex SawOther s' end
  end.

Definition strip_sign (s : string) : bool * string :=
  match s with
  | String "+" s' => (false, s')
  | String "-" s' => (true, s')
  | _ => (false, s)
  end.

Definition has_base_prefix (s : string) : option ascii :=
  match s with
  | String "0" (String x _) =>
      if in_set (lower_char x) "box" then Some (lower_char x) else None
  | _ => None
  end.

Definition underscoreOK (s : string) : bool :=
  let s := (strip_sign s).2 in
  match has_base_prefix s with
  | Some x => underscore_scan (Ascii.eqb x "x") SawDigit (string_drop 2 s)
  | None => underscore_scan false SawStart s
  end.

(** [0x] with something behind it. *)
Definition is_hex_literal (s : string) : bool :=
  match s with
  | String "0" (String x (String _ _)) => Ascii.eqb (lower_char x) "x"
  | _ => false
  end.

(** The value of a literal: [m * 10^(e - frac)], or [m * 2^(e - 4 frac)]. *)
Definition f64_of (neg hex : bool) (m frac e : Z) : spec_float :=
  match m with
  | Zpos _ =>
      let base := if hex then 2 else 10 in
      let x := if hex then e - 4 * frac else e - frac in
      f64_ratio neg (Z.to_pos (m * base ^ Z.max 0 x)) (Z.to_pos (base ^ Z.max 0 (- x)))
  | _ => S754_zero neg
  end.

Definition is_inf (f : spec_float) : bool :=
  match f with S754_infinity _ => true | _ => false end.

(** A numeric literal that takes up the whole string. *)
Definition parse_number (s : string) : option spec_float :=
  let '(neg, s1) := strip_sign s in
  let hex := is_hex_literal s1 in
  let '(m, frac, sawdigits, rest) :=
    read_mantissa hex 0 0 false false (if hex then string_drop 2 s1 else s1) in
  if negb sawdigits then None
  else
    e ← match rest with
        | EmptyString => if hex then None else Some 0
        | String c rest' =>
            if Ascii.eqb (lower_char c) (if hex then "p" else "e") then
              let '(eneg, r) := strip_sign rest' in
              match r with
              | String d _ =>
                  if is_digit d then
                    let '(e, r') := read_exponent 0 r in
                    if r' =?s "" then Some (if eneg then - e else e) else None
                  else None
              | EmptyString => None
              end
            else None
        end;
    if (match IndexByte s "_" with Some _ => true | None => false end) && negb (underscoreOK s)
    then None
    else Some (f64_of neg hex m frac e).

(** [strconv.ParseFloat(s, 64)]; [None] for a syntax or a range error. *)
Definition ParseFloat (s : string) : option spec_float :=
  let '(neg, s1) := strip_sign s in
  let low := map_bytes lower_char s1 in
  if (low =?s "inf") || (low =?s "infinity") then Some (S754_infinity neg)
  else if map_bytes lower_char s =?s "nan" then Some S754_nan
  else
    f ← parse_number s;
    if is_inf f then None else Some f.

Example ParseFloat_092 : ParseFloat "0.92" = Some (S754_finite false 8286623314361713 (-53)).
Proof. vm_compute. reflexivity. Qed.
Example ParseFloat_one : ParseFloat "1" = Some f64_one.
Proof. vm_compute. reflexivity. Qed.
Example ParseFloat_exp : ParseFloat "+9_5.0E-2" = ParseFloat "0.95".
Proof. vm_compute. reflexivity. Qed.
Example ParseFloat_hex : ParseFloat "0X1P-1" = ParseFloat ".5".
Proof. vm_compute. reflexivity. Qed.
Example ParseFloat_bad : ParseFloat "0.9%" = None ∧ ParseFloat "1__0" = None ∧ ParseFloat "0x1" = None.
Proof. vm_compute. auto. Qed.
Example ParseFloat_huge : ParseFloat "1e400" = None.
Proof. vm_compute. reflexivity. Qed.

(** ** Lemmas *)

Lemma SFcompare_antisym f g c : SFcompare f g = Some c → SFcompare g f = Some (CompOpp c).
Proof.
  assert (∀ m n : positive, Pos.compare_cont Eq n m = CompOpp (Pos.compare_cont Eq m n)) as Hp
    by (intros m n; apply (Pos.compare_antisym m n)).
  destruct f as [[]|[]| |[] m e], g as [[]|[]| |[] n e']; simpl; intros [= <-]; try done.
  all: rewrite (Z.compare_antisym e e'); destruct (e ?= e'); simpl; try done.
  all: by rewrite (Hp m n).
Qed.

(** Passing Go's range test for a confidence leaves the interval (0, 1] and NaN. *)
Lemma in_unit_interval f :
  f64_le f f64_zero = false → f64_gt f f64_one = false →
  f = S754_nan ∨ (f64_gt f f64_zero = true ∧ f64_le f f64_one = true).
Proof.
  assert (f = S754_nan ∨ f ≠ S754_nan) as [->|Hn] by (destruct f; auto); [auto|].
  intros H1 H2. right.
  unfold f64_le, f64_gt, SFleb, SFltb in *.
  destruct (SFcompare f f64_zero) as [c|] eqn:E0; [|by destruct f as [[]|[]| |[]]].
  destruct (SFcompare f64_one f) as [d|] eqn:E1; [|by destruct f as [[]|[]| |[]]].
  rewrite (SFcompare_antisym _ _ _ E0), (SFcompare_antisym _ _ _ E1).
  by destruct c, d.
Qed.
