(* ===== verification/ClassTypes.v ===== *)
(** * Vision classes and the parser of the classifier's answer (classify_types.go) *)

From S2P Require Import Prelude Unicode GoStrings Effects GoFloat Config.

Local Open Scope Z_scope.

Module ClassTypes.

(** ** Prompts *)

Definition DefaultVisionPrompt : string := "You are an editorial image filter for a city guide website.
We only accept real photographs without stock watermarks.

Classify this image. Answer with one word and your confidence (0.0 to 1.0).

Categories:
- PHOTO — real photograph. Small corner watermark is OK.
- STOCK — photograph with visible stock watermark (Shutterstock, Getty, iStock, etc.)
- REJECT — banner, ad, promotional graphic, large text overlay, collage, meme.
- SCREENSHOT — screenshot of a website, app, or software interface.
- ILLUSTRATION — drawing, painting, digital art, cartoon, vector graphic.
- MAP — map, satellite view, floor plan, diagram.
- PLACEHOLDER — error page, " +:+ dquote +:+ "no permission" +:+ dquote +:+ " message, blank image with centered text,
  site logo used as article image, or any image whose primary content is a text error
  or permission-denial message (e.g. " +:+ dquote +:+ "This site does not have permission to access or
  serve this content" +:+ dquote +:+ ", " +:+ dquote +:+ "404" +:+ dquote +:+ ", " +:+ dquote +:+ "Access Denied" +:+ dquote +:+ "). Uniform background with centered text
  is a strong signal.

Key distinctions:
- Small corner watermark of photographer → PHOTO
- Repeating diagonal stock watermark → STOCK
- Text/graphics dominate the image → REJECT
- Image is primarily an error message or permission denial → PLACEHOLDER
- Site logo displayed as article thumbnail → PLACEHOLDER

Answer format: CLASS 0.95
Example: PHOTO 0.92
Answer:".

Definition VisionPrompt : string := "You are an editorial image filter for a city guide website.
We only accept real photographs without stock watermarks.

Classify this image. Answer with exactly one word:
- PHOTO — a real photograph. Small photographer watermark in a corner is OK.
- STOCK — a real photograph with a visible stock photo watermark (Shutterstock,
  Getty Images, iStock, Adobe Stock, Depositphotos, Dreamstime, 123RF, Alamy,
  or any semi-transparent tiled/diagonal watermark pattern typical of stock previews).
- REJECT — banner, advertisement, social media cover, promotional graphic with
  large text overlay, infographic, chart, screenshot, collage, illustration,
  drawing, meme, map, UI element, or image where text/graphics dominate.

Key distinctions:
- Small corner watermark of a photographer → PHOTO
- Repeating diagonal " +:+ dquote +:+ "shutterstock" +:+ dquote +:+ " or stock agency watermark → STOCK
- Promotional banner with overlaid text/branding → REJECT

Answer:".

(** ** Classes *)

Definition visionMaxBytes : Z := 200 * 1024.

Definition ClassPhoto : string := "PHOTO".
Definition ClassStock : string := "STOCK".
Definition ClassReject : string := "REJECT".
Definition ClassScreenshot : string := "SCREENSHOT".
Definition ClassIllustration : string := "ILLUSTRATION".
Definition ClassMap : string := "MAP".
Definition ClassPlaceholder : string := "PLACEHOLDER".

Definition classificationClasses : list string :=
  [ClassIllustration; ClassPlaceholder; ClassScreenshot; ClassReject; ClassPhoto; ClassStock;
   ClassMap].

(** ** Parsers *)

(** The loop over the classes: the first one the response starts with. *)
Fixpoint matchClass (classes : list string) (upper : string) : string :=
  match classes with
  | [] => ""
  | cls :: rest => if HasPrefix upper cls then cls else matchClass rest upper
  end.

(** The part of [ParseClassificationResult] behind the class; [fields[0]] panics
    on an empty slice. *)
Definition parseConfidence (matched remainder : string) : res ClassificationResult :=
  if remainder =?s "" then Ok (mkResult matched zeroFloat)
  else
    match Fields remainder with
    | [] => Panicked "index out of range [0] with length 0"
    | f :: _ =>
        match ParseFloat f with
        | None => Ok (mkResult matched zeroFloat)
        | Some conf =>
            if f64_le conf f64_zero || f64_gt conf f64_one then Ok (mkResult matched zeroFloat)
            else Ok (mkResult matched conf)
        end
    end.

Definition ParseClassificationResult (resp : string) : res ClassificationResult :=
  let upper := ToUpper (TrimSpace resp) in
  if upper =?s "" then Ok zeroResult
  else
    let matched := matchClass classificationClasses upper in
    if matched =?s "" then Ok zeroResult
    else parseConfidence matched (TrimSpace (string_drop (slen matched) upper)).

Definition ParseVisionResponse (resp : string) : string :=
  let word := ToUpper (TrimSpace resp) in
  if HasPrefix word ClassPhoto then ClassPhoto
  else if HasPrefix word ClassStock then ClassStock
  else if HasPrefix word ClassReject then ClassReject
  else "".

Example parse_plain :
  ParseClassificationResult "PHOTO 0.92" = Ok (mkResult "PHOTO" (S754_finite false 8286623314361713 (-53))).
Proof. vm_compute. reflexivity. Qed.
Example parse_noise :
  ParseClassificationResult ("  photo 2.5" +:+ newline +:+ "because it is") = Ok (mkResult "PHOTO" zeroFloat).
Proof. vm_compute. reflexivity. Qed.
Example parse_dotted :
  ParseClassificationResult "Stock: 0.9" = Ok (mkResult "STOCK" zeroFloat).
Proof. vm_compute. reflexivity. Qed.

(** ** Lemmas *)

Lemma matchClass_in classes upper :
  matchClass classes upper = "" ∨
  (matchClass classes upper ∈ classes ∧ HasPrefix upper (matchClass classes upper) = true).
Proof.
  induction classes as [|c l IH]; simpl; [by left|].
  case_bool; [right; split; [constructor|done]|].
  destruct IH as [|[? ?]]; [by left|]. right. split; [by constructor|done].
Qed.

(** No class is a prefix of another one. *)
Lemma classes_prefix_free c d s :
  c ∈ classificationClasses → d ∈ classificationClasses →
  HasPrefix s c = true → HasPrefix s d = true → c = d.
Proof.
  intros Hc Hd [t ->]%HasPrefix_iff Hp.
  unfold classificationClasses in *.
  repeat (apply elem_of_cons in Hc as [->|Hc]);
    repeat (apply elem_of_cons in Hd as [->|Hd]); try reflexivity; try (by apply not_elem_of_nil in Hd);
    try (by apply not_elem_of_nil in Hc); simpl in Hp; discriminate.
Qed.

(** A response that starts with a class gets that class, in whatever order the
    classes are tried. *)
Lemma matchClass_prefix classes c s :
  classes ≡ₚ classificationClasses → c ∈ classificationClasses → HasPrefix s c = true →
  matchClass classes s = c.
Proof.
  intros Hp Hc Hs.
  assert (∀ l, c ∈ l → l ⊆ classificationClasses → matchClass l s = c) as H.
  { induction l as [|d l IH]; intros Hin Hsub; simpl; [by apply not_elem_of_nil in Hin|].
    case_bool.
    - apply (classes_prefix_free d c s); [apply Hsub; constructor|done..].
    - apply IH; [|set_solver]. apply elem_of_cons in Hin as [->|?]; [congruence|done]. }
  apply H; [by rewrite Hp|]. intros x. by rewrite Hp.
Qed.

Lemma matchClass_none classes s :
  (∀ c, c ∈ classes → HasPrefix s c = false) → matchClass classes s = "".
Proof.
  induction classes as [|d l IH]; intros H; simpl; [done|].
  rewrite H by constructor. apply IH. intros c Hc. apply H. by constructor.
Qed.

Lemma class_nonempty c : c ∈ classificationClasses → c ≠ "".
Proof. intros Hc ->. unfold classificationClasses in Hc. set_solver. Qed.

Lemma parseConfidence_total m s :
  ∃ f, parseConfidence m (TrimSpace s) = Ok (mkResult m f) ∧
    (f = zeroFloat ∨ f = S754_nan ∨ (f64_gt f f64_zero = true ∧ f64_le f f64_one = true)).
Proof.
  unfold parseConfidence. destruct (TrimSpace s =?s "") eqn:E; [by eauto|]. bool_hyps.
  pose proof (Fields_TrimSpace_nonempty s E).
  destruct (Fields (TrimSpace s)) as [|f fs]; [done|].
  destruct (ParseFloat f) as [conf|]; [|by eauto].
  destruct (f64_le conf f64_zero || f64_gt conf f64_one) eqn:Er; [by eauto|]. bool_hyps.
  exists conf. split; [done|]. right. by apply in_unit_interval.
Qed.

(** ** Properties *)

(** An ASCII text whose upper-case form is a class has no blank in it. *)
Lemma class_spelling_no_space d :
  is_ascii d = true → ToUpper d ∈ classificationClasses →
  d ≠ EmptyString ∧ all_bytes (λ a, negb (IsSpace (bval a))) d = true.
Proof.
  intros Ha Hc. split.
  { intros ->. by apply class_nonempty in Hc. }
  assert (all_bytes (λ a, is_upper_ascii (bval a)) (ToUpper d) = true) as Hu.
  { unfold classificationClasses in Hc.
    repeat (apply elem_of_cons in Hc as [->|Hc]; [reflexivity|]). by apply not_elem_of_nil in Hc. }
  clear Hc. unfold ToUpper, map_runes in Hu.
  induction d as [|a d IH]; [done|]. unfold is_ascii in *. simpl in Ha. bool_hyps.
  rewrite decode_ascii in Hu by done. csimpl in Hu. rewrite all_bytes_app in Hu. bool_hyps.
  simpl. rewrite IH by done. rewrite andb_true_r.
  unfold ascii_byte in *. bool_hyps. pose proof (bval_range a).
  apply negb_true_iff, not_true_iff_false. intros Hs.
  rewrite to_upper_ascii in * by done.
  assert (bval a = 32 ∨ 9 ≤ bval a ≤ 13) as Hv.
  { unfold IsSpace in Hs. destruct (decide (bval a = 32)); [by left|]. right.
    repeat (rewrite orb_true_iff in Hs || rewrite andb_true_iff in Hs); lia. }
  assert (is_lower_ascii (bval a) = false) as Hl.
  { unfold is_lower_ascii. apply andb_false_iff. left. apply Z.leb_gt. lia. }
  rewrite Hl, EncodeRune_ascii in * by lia. simpl in *. bool_hyps.
  rewrite bval_byte_of, Z.mod_small in * by lia. unfold is_upper_ascii in *. bool_hyps. lia.
Qed.

Lemma ParseClassificationResult_Ok resp :
  ∃ r, ParseClassificationResult resp = Ok r ∧
    (r = zeroResult ∨
     Class r ∈ classificationClasses ∧
     (Confidence r = zeroFloat ∨ Confidence r = S754_nan ∨
      (f64_gt (Confidence r) f64_zero = true ∧ f64_le (Confidence r) f64_one = true))).
Proof.
  unfold ParseClassificationResult. cbv zeta. case_bool; [by eauto|].
  set (upper := ToUpper (TrimSpace resp)) in *.
  destruct (matchClass_in classificationClasses upper) as [->|[Hin _]]; [by eauto|].
  rewrite (proj2 (String.eqb_neq _ _)) by (by apply class_nonempty).
  destruct (parseConfidence_total (matchClass classificationClasses upper)
              (string_drop (slen (matchClass classificationClasses upper)) upper)) as (f & -> & Hf).
  eexists; split; [done|]. right. done.
Qed.

(** (C23) The parser never panics (the first field it reads exists), and its
    answer is well-formed: the class is one of the seven labels, or empty with a
    zero confidence; the confidence is 0, lies in (0, 1], or is NaN. *)
Theorem ParseClassificationResult_wf resp :
  ∃ r, ParseClassificationResult resp = Ok r ∧
    (r = zeroResult ∨
     Class r ∈ classificationClasses ∧
     (Confidence r = zeroFloat ∨ Confidence r = S754_nan ∨
      (f64_gt (Confidence r) f64_zero = true ∧ f64_le (Confidence r) f64_one = true))).
Proof. apply ParseClassificationResult_Ok. Qed.

(** The order of [classificationClasses] does not matter: no label is a
    prefix of another, so any reordering of the table recognises the same class. *)
Theorem class_order_irrelevant classes upper :
  classes ≡ₚ classificationClasses →
  matchClass classes upper = matchClass classificationClasses upper.
Proof.
  intros Hp. destruct (matchClass_in classificationClasses upper) as [He|[Hin Hpre]].
  - rewrite He. apply matchClass_none. intros c Hc. rewrite Hp in Hc.
    destruct (HasPrefix upper c) eqn:E; [|done].
    rewrite (matchClass_prefix _ c upper) in He by done. by apply class_nonempty in Hc.
  - by apply matchClass_prefix.
Qed.

Lemma class_order_irrelevant_witness :
  matchClass [ClassMap; ClassStock; ClassPhoto; ClassReject; ClassScreenshot; ClassPlaceholder;
              ClassIllustration] "STOCK 0.8" = "STOCK".
Proof.
  rewrite (class_order_irrelevant [ClassMap; ClassStock; ClassPhoto; ClassReject; ClassScreenshot;
             ClassPlaceholder; ClassIllustration] "STOCK 0.8").
  - reflexivity.
  - apply (reverse_Permutation classificationClasses).
Defined.

(** (C24) Any spelling of a label, in any mix of cases, behind any ASCII blanks
    and in front of any trailing text, is recognised as that label. *)
Theorem any_spelling_is_recognised w d rest c :
  is_ascii w = true → all_bytes (λ a, IsSpace (bval a)) w = true →
  is_ascii d = true → ToUpper d = c → c ∈ classificationClasses →
  ∃ f, ParseClassificationResult (w +:+ d +:+ rest) = Ok (mkResult c f).
Proof.
  intros Hw Hws Hd <- Hc. destruct (class_spelling_no_space d) as [Hne Hns]; [done..|].
  destruct (TrimSpace_word w d rest) as (r' & Ht & Hdec); [done..|].
  unfold ParseClassificationResult. cbv zeta. rewrite Ht.
  assert (ToUpper (d +:+ r') = ToUpper d +:+ ToUpper r') as ->.
  { unfold ToUpper, map_runes. by rewrite Hdec, fmap_app, concat_strings_app. }
  pose proof (class_nonempty _ Hc).
  rewrite (proj2 (String.eqb_neq _ _)).
  2: { intros H'. by destruct (ToUpper d). }
  rewrite (matchClass_prefix _ (ToUpper d)) by (done || apply HasPrefix_app).
  rewrite (proj2 (String.eqb_neq _ _)) by done.
  destruct (parseConfidence_total (ToUpper d)
    (string_drop (slen (ToUpper d)) (ToUpper d +:+ ToUpper r'))) as (f & -> & _). eauto.
Qed.

Lemma any_spelling_is_recognised_witness :
  ∃ f, ParseClassificationResult (" " +:+ "ScreenShot" +:+ " of a page") = Ok (mkResult "SCREENSHOT" f).
Proof.
  apply (any_spelling_is_recognised " " "ScreenShot" " of a page" "SCREENSHOT");
    [reflexivity..|]. unfold classificationClasses. apply elem_of_cons. right.
  apply elem_of_cons. right. constructor.
Defined.

(** The deprecated three-class parser agrees with the current one on the
    labels it knows and maps every other class to the empty string. *)
Theorem ParseVisionResponse_agrees resp :
  ∃ r, ParseClassificationResult resp = Ok r ∧
    ParseVisionResponse resp =
      if bool_decide (Class r ∈ [ClassPhoto; ClassStock; ClassReject]) then Class r else "".
Proof.
  unfold ParseClassificationResult, ParseVisionResponse. cbv zeta.
  set (upper := ToUpper (TrimSpace resp)).
  destruct (upper =?s "") eqn:E.
  { bool_hyps. rewrite E. eexists. split; done. }
  destruct (matchClass_in classificationClasses upper) as [He|[Hin Hpre]].
  - rewrite He. eexists. split; [done|]. simpl.
    assert (∀ c, c ∈ classificationClasses → HasPrefix upper c = false) as Hn.
    { intros c Hc. destruct (HasPrefix upper c) eqn:Ec; [|done].
      rewrite (matchClass_prefix _ c upper) in He by done. by apply class_nonempty in Hc. }
    rewrite !Hn by (unfold classificationClasses; set_solver). done.
  - set (c := matchClass classificationClasses upper) in *.
    rewrite (proj2 (String.eqb_neq _ _)) by (by apply class_nonempty).
    destruct (parseConfidence_total c (string_drop (slen c) upper)) as (f & -> & _).
    eexists. split; [done|]. simpl. clearbody c.
    assert (∀ d, d ∈ classificationClasses → HasPrefix upper d = bool_decide (d = c)) as Hd.
    { intros d Hd. destruct (HasPrefix upper d) eqn:Ed; symmetry.
      - apply bool_decide_eq_true. by eapply classes_prefix_free.
      - apply bool_decide_eq_false. congruence. }
    rewrite !Hd by (unfold classificationClasses; set_solver).
    unfold classificationClasses in Hin.
    repeat (apply elem_of_cons in Hin as [->|Hin]; [reflexivity|]). by apply not_elem_of_nil in Hin.
Qed.

(** A confidence of "NaN" passes both halves of the range test, since no
    comparison with NaN holds, and is returned as the confidence, although it is
    documented as lying in (0, 1] or 0. *)
Theorem nan_confidence_is_returned w :
  is_ascii w = true → all_bytes (λ a, IsSpace (bval a)) w = true →
  ParseClassificationResult (w +:+ "photo nan") = Ok (mkResult ClassPhoto S754_nan).
Proof.
  intros Hw Hws. unfold ParseClassificationResult.
  assert (TrimSpace (w +:+ "photo nan") = "photo nan") as ->; [|vm_compute; reflexivity].
  unfold TrimSpace, TrimFunc.
  rewrite (decode_ascii_app w) by done.
  assert (Forall (λ c, IsSpace (rune c) = true) (decode w)) as Hf.
  { clear -Hw Hws. unfold is_ascii in *. induction w as [|a w IH]; [constructor|].
    simpl in Hw, Hws. bool_hyps.
    rewrite decode_ascii by done. constructor; auto. }
  unfold trim_cells. rewrite drop_while_app_true by done. vm_compute. reflexivity.
Qed.

Lemma nan_confidence_is_returned_witness :
  ParseClassificationResult (" " +:+ "photo nan") = Ok (mkResult ClassPhoto S754_nan).
Proof. apply (nan_confidence_is_returned " "); reflexivity. Defined.

End ClassTypes.
