(* ===== verification/Download.v ===== *)
(** * Image download (download.go)

    One GET per client, the direct client first and the stealth client as a
    fallback, a bounded read, and [nil] for every recoverable failure. *)

From S2P Require Import Prelude GoStrings GoURL Effects Types Config.

Local Open Scope Z_scope.

Module Download.

Record DownloadOpts := mkDownloadOpts {
  MaxBytes : Z; MinBytes : Z; DlTimeout : Z; DlUserAgent : string }.

(** [DownloadOpts{}] *)
Definition zeroDownloadOpts : DownloadOpts := mkDownloadOpts 0 0 0 "".

Definition defaultMaxBytes : Z := 200 * 1024.
Definition defaultTimeout : Z := 10 * Second.

Record DownloadResult := mkDownloadResult { Data : string; MIMEType : string }.

(** The content type without its parameters. *)
Definition stripParams (ct : string) : string :=
  match IndexByte ct ";" with
  | Some idx => TrimSpace (string_take idx ct)
  | None => ct
  end.

(** The checks on a response, and the bounded read. *)
Definition imageOfResponse (resp : Response) (opts : DownloadOpts) : option DownloadResult :=
  if negb (StatusCode resp =? StatusOK) then None
  else
    let ct := stripParams (HeaderGet (RespHeader resp) "Content-Type") in
    if negb (HasPrefix ct "image/") then None
    else
      match ReadAll (LimitReader (Body resp) (MaxBytes opts)) with
      | None => None
      | Some data =>
          if Z.of_nat (slen data) <? MinBytes opts then None
          else Some (mkDownloadResult data ct)
      end.

Definition fetchImageData (ctx : Ctx) (client : Client) (imageURL ua : string)
    (opts : DownloadOpts) : prog Ev (option DownloadResult) :=
  let ctx := WithTimeout ctx (DlTimeout opts) in
  match NewRequest ctx "GET" imageURL "" with
  | None => mret None
  | Some req =>
      r ← trigger (HttpDo client (SetHeader req "User-Agent" ua));
      match r with
      | inr _ => mret None
      | inl resp => mret (imageOfResponse resp opts)
      end
  end.

(** The options after their defaults are filled in. *)
Definition effectiveOpts (opts : DownloadOpts) : DownloadOpts :=
  mkDownloadOpts (if MaxBytes opts <=? 0 then defaultMaxBytes else MaxBytes opts)
    (MinBytes opts)
    (if DlTimeout opts <=? 0 then defaultTimeout else DlTimeout opts)
    (DlUserAgent opts).

(** [Config.Download]; the error is always nil. *)
Definition Download (cfg : Config) (ctx : Ctx) (url : string) (opts : DownloadOpts) :
    prog Ev (option DownloadResult * option error) :=
  let cfg := defaults cfg in
  let opts := effectiveOpts opts in
  let ua := if DlUserAgent opts =?s "" then UserAgent cfg else DlUserAgent opts in
  r ← fetchImageData ctx (clientOrDefault (HTTPClient cfg)) url ua opts;
  match r with
  | Some d => mret (Some d, None)
  | None =>
      match StealthClient cfg with
      | Some stealth =>
          r ← fetchImageData ctx stealth url ua opts;
          match r with
          | Some d => mret (Some d, None)
          | None => mret (None, None)
          end
      | None => mret (None, None)
      end
  end.

(** ** Lemmas *)

(** What a downloaded image satisfies with respect to the response it came from. *)
Definition image_from (opts : DownloadOpts) (resp : Response) (d : DownloadResult) : Prop :=
  StatusCode resp = StatusOK ∧
  MIMEType d = stripParams (HeaderGet (RespHeader resp) "Content-Type") ∧
  HasPrefix (MIMEType d) "image/" = true ∧
  Data d = string_take (Z.to_nat (MaxBytes opts)) (rdData (Body resp)) ∧
  MinBytes opts ≤ Z.of_nat (slen (Data d)) ≤ MaxBytes opts.

Lemma imageOfResponse_Some resp opts d :
  0 ≤ MaxBytes opts → imageOfResponse resp opts = Some d → image_from opts resp d.
Proof.
  intros Hm. unfold imageOfResponse, image_from. cbv zeta. intros H.
  case_bool; [done|]. case_bool; [done|]. bool_hyps.
  destruct (ReadAll _) as [data|] eqn:Er; [|done]. case_bool; [done|]. simplify_eq/=. bool_hyps.
  destruct (ReadAll_LimitReader _ _ _ Hm Er). split_and!; auto.
Qed.

Lemma effectiveOpts_pos opts : 0 < MaxBytes (effectiveOpts opts).
Proof. unfold effectiveOpts. simpl. case_bool; bool_hyps; [done|lia]. Qed.

(** The request of one attempt. *)
Definition fetchRequest (ctx : Ctx) (imageURL ua : string) (opts : DownloadOpts) : Request :=
  SetHeader (mkRequest "GET" imageURL ∅ "" (WithTimeout ctx (DlTimeout opts))) "User-Agent" ua.

(** What one attempt makes of an answer. *)
Definition fetchOutcome (opts : DownloadOpts) (a : res (Response + error)) :
    res (option DownloadResult) :=
  match a with
  | Ok (inl resp) => Ok (imageOfResponse resp opts)
  | Ok (inr _) => Ok None
  | Panicked v => Panicked v
  end.

(** One attempt: no request when the URL does not parse, one otherwise. *)
Lemma wp_fetchImageData P h ctx client url ua opts Q :
  (Parse url = None → Q h (Ok None)) →
  (is_Some (Parse url) →
   may P h (HttpDo client (fetchRequest ctx url ua opts)) ∧
   ∀ a, answers P h (HttpDo client (fetchRequest ctx url ua opts)) a →
        Q (h ++ [Obs (HttpDo client (fetchRequest ctx url ua opts)) a]) (fetchOutcome opts a)) →
  wp P h (fetchImageData ctx client url ua opts) Q.
Proof.
  intros Hn Hs. unfold fetchImageData, NewRequest. cbv zeta.
  destruct (Parse url) as [u|]; [|by apply Hn].
  destruct Hs as [Hmay Hans]; [by eauto|]. apply wp_bind, wp_trigger; [done|].
  intros [[resp|e]|v] Ha; by apply (Hans _ Ha).
Qed.

(** A GET request for the URL that was answered. *)
Definition is_get (url : string) (o : obs Ev) : Prop :=
  match o with
  | Obs e r =>
      match e with HttpDo _ req => Method req = "GET" ∧ ReqURL req = url | _ => False end ∧
      ¬ obs_panic o
  end.

(** An answer that yields no image. *)
Definition attempt_failed (opts : DownloadOpts) (o : obs Ev) : Prop :=
  match o with
  | Obs e r =>
      match e in Ev X return res X → Prop with
      | HttpDo _ _ => λ a, fetchOutcome opts a = Ok None
      | _ => λ _, False
      end r
  end.

(** The number of clients a download may try. *)
Definition clients (cfg : Config) : nat := match StealthClient cfg with Some _ => 2 | None => 1 end.

(** The requests [t] of a download that found nothing: every client was tried and
    failed. *)
Definition all_failed (cfg : Config) (url : string) (opts : DownloadOpts) (t : history Ev) : Prop :=
  Forall (is_get url) t ∧ Forall (attempt_failed (effectiveOpts opts)) t ∧
  (is_Some (Parse url) → length t = clients cfg).

(** [Download] as its callers see it: GET requests for the URL, and either no
    image, after all of them failed, or one from the last response; a panic of a
    client goes through. *)
Lemma wp_Download P h cfg ctx url opts (Q : history Ev → res (option DownloadResult * option error) → Prop) :
  (∀ h' c r, Method r = "GET" → may P h' (HttpDo c r)) →
  (∀ t, all_failed cfg url opts t → Q (h ++ t) (Ok (None, None))) →
  (∀ t c req resp d, Forall (is_get url) (t ++ [Obs (HttpDo c req) (Ok (inl resp))]) →
     Forall (attempt_failed (effectiveOpts opts)) t → image_from (effectiveOpts opts) resp d →
     Q (h ++ t ++ [Obs (HttpDo c req) (Ok (inl resp))]) (Ok (Some d, None))) →
  (∀ t c req v, Forall (is_get url) t → Method req = "GET" →
     Q (h ++ t ++ [Obs (HttpDo c req) (Panicked v)]) (Panicked v)) →
  wp P h (Download cfg ctx url opts) Q.
Proof.
  intros Hmay HNone HSome HPan. unfold Download. cbv zeta.
  pose proof (effectiveOpts_pos opts) as Hpos.
  set (ua := if DlUserAgent (effectiveOpts opts) =?s "" then _ else _).
  set (failed t n := Forall (is_get url) t ∧ Forall (attempt_failed (effectiveOpts opts)) t ∧
                     (is_Some (Parse url) → length t = n)).
  assert (∀ t n client (k : option DownloadResult → prog Ev (option DownloadResult * option error)),
    failed t n → (∀ d, k (Some d) = Ret (Some d, None)) →
    (∀ t, failed t (S n) → wp P (h ++ t) (k None) Q) →
    wp P (h ++ t) (pbind k (fetchImageData ctx client url ua (effectiveOpts opts))) Q) as Hattempt.
  { intros t n client k (Hg & Hf & Hl) HkS HkN. apply wp_bind, wp_fetchImageData.
    { intros Hn. apply HkN. split_and!; [done..|]. rewrite Hn. by intros []. }
    intros Hs. split; [by apply Hmay|]. intros a _. rewrite <-app_assoc.
    set (o := Obs _ a).
    assert (¬ obs_panic o → Forall (is_get url) (t ++ [o])) as Hg'.
    { intros Hp. apply Forall_app. split; [done|]. by repeat constructor. }
    assert (fetchOutcome (effectiveOpts opts) a = Ok None → wp P (h ++ t ++ [o]) (k None) Q) as Hnext.
    { intros Ho. apply HkN. split_and!.
      - apply Hg'. destruct a as [x|v]; [by intros []|done].
      - apply Forall_app. split; [done|]. by repeat constructor.
      - intros _. rewrite length_app, (Hl Hs). simpl. lia. }
    destruct a as [[resp|e]|v]; [|by apply Hnext|by apply HPan]. cbn [fetchOutcome] in *.
    destruct (imageOfResponse resp (effectiveOpts opts)) as [d|] eqn:Ei; [|by apply Hnext].
    rewrite HkS. apply HSome; [apply Hg'; simpl; tauto|done|]. apply imageOfResponse_Some; [lia|done]. }
  rewrite <-(app_nil_r h). apply (Hattempt [] 0%nat); [by split_and!|done|]. intros t Ht.
  change (StealthClient (defaults cfg)) with (StealthClient cfg).
  unfold all_failed, clients in HNone. destruct (StealthClient cfg) as [c|]; [|by apply HNone].
  apply (Hattempt _ 1%nat); [done|done|]. intros t' Ht'. simpl. by apply HNone.
Qed.

(** ** Properties *)

(** The requests a download may make: a GET of the URL with a user agent and a
    deadline, first on the direct client, then, only after that one request, on
    the stealth client. *)
Definition may_download (cfg : Config) (ctx : Ctx) (url : string) (opts : DownloadOpts)
    (h : history Ev) (X : Type) (e : Ev X) : Prop :=
  match e with
  | HttpDo c r =>
      (h = [] ∧ Some c = HTTPClient (defaults cfg) ∨
       (∃ r0 a0, h = [Obs (HttpDo (clientOrDefault (HTTPClient (defaults cfg))) r0) a0]) ∧
         StealthClient cfg = Some c) ∧
      ReqURL r = url ∧ Method r = "GET" ∧
      ReqCtx r = WithTimeout ctx (DlTimeout (effectiveOpts opts)) ∧
      HeaderGet (ReqHeader r) "User-Agent" ≠ ""
  | _ => False
  end.

(** (C18) [Download] asks only what [may_download] allows, never more than two
    requests, and never returns an error.  An image it returns comes from the
    last response: status 200, an [image/] content type, the first [MaxBytes]
    bytes of the body and at least [MinBytes].  It returns nil only after every
    configured client was tried and failed, and panics only when a client does. *)
Theorem Download_spec cfg ctx url opts :
  wp (Protocol (may_download cfg ctx url opts) (λ _ _ _ _, True)) []
     (Download cfg ctx url opts)
     (λ h r, match r with
      | Ok (d, err) =>
          err = None ∧ (length h ≤ 2)%nat ∧
          match d with
          | Some d =>
              ∃ c req resp, list.last h = Some (Obs (HttpDo c req) (Ok (inl resp))) ∧
                            image_from (effectiveOpts opts) resp d
          | None =>
              Forall (attempt_failed (effectiveOpts opts)) h ∧
              (is_Some (Parse url) → length h = clients cfg)
          end
      | Panicked v => ∃ c req, list.last h = Some (Obs (HttpDo c req) (Panicked v))
      end).
Proof.
  unfold Download, clients. cbv zeta. pose proof (effectiveOpts_pos opts) as Hpos.
  set (o := effectiveOpts opts) in *. set (ua := if DlUserAgent o =?s "" then _ else _).
  assert (ua ≠ "") as Hua.
  { unfold ua. destruct (DlUserAgent o =?s "") eqn:E; bool_hyps; [|done]. simpl.
    destruct (UserAgent cfg =?s "") eqn:E'; by bool_hyps. }
  assert (HeaderGet (ReqHeader (fetchRequest ctx url ua o)) "User-Agent" = ua) as Hh.
  { unfold HeaderGet. simpl. by rewrite lookup_insert_eq. }
  destruct (defaults_http cfg) as [c0 Hc0].
  apply wp_bind, wp_fetchImageData.
  { intros Hp. simpl. rewrite Hp. destruct (StealthClient cfg).
    2: { simpl. split_and!; [done|lia|constructor|by intros []]. }
    apply wp_bind, wp_fetchImageData; rewrite Hp; [|by intros []].
    intros _. simpl. split_and!; try done; lia. }
  intros Hp. split.
  { split_and!; try done. left. by rewrite Hc0. }
  intros a _. destruct a as [[resp|e]|v]; simpl.
  1: destruct (imageOfResponse resp o) as [d|] eqn:Ei; simpl.
  1: { split_and!; [done|lia|]. eexists _, _, resp. split; [done|]. apply imageOfResponse_Some; [lia|done]. }
  3: by eauto.
  all: destruct (StealthClient cfg) as [c|] eqn:Es; simpl;
    [|split_and!; [done|lia| |done]; repeat constructor; simpl; by rewrite ?Ei].
  all: apply wp_bind, wp_fetchImageData; [intros Hn; by rewrite Hn in Hp; destruct Hp|].
  all: intros _; split; [split_and!; try done; right; by eauto|].
  all: intros a' _; destruct a' as [[resp'|e']|v']; simpl; [| |by eauto].
  all: try (destruct (imageOfResponse resp' o) as [d|] eqn:Ei'; simpl).
  all: split_and!; try done; try lia.
  all: try (eexists _, _, resp'; split; [done|]; apply imageOfResponse_Some; [lia|done]).
  all: repeat constructor; simpl; by rewrite ?Ei, ?Ei'.
Qed.

End Download.
