(* ===== verification/Validate.v ===== *)
(** * The HTTP probe (validate.go)

    [ValidateImageURL] rejects logo and banner URLs, makes one GET with a client
    that follows at most three redirects, and checks status, content type and,
    when the header of the image can be decoded, its width. *)

From S2P Require Import Prelude GoStrings GoURL Effects Types License Config Download.

Local Open Scope Z_scope.

Module Validate.
Import License Download.

Section Validate.
Context `{ImageLib}.

Definition maxRedirects : nat := 3.

(** The [CheckRedirect] closure, as a function of [len(via)]. *)
Definition checkRedirect (via : nat) : option error :=
  if (maxRedirects <=? via)%nat then Some "too many redirects" else None.

(** [Config.validationClient] dereferences the configured client. *)
Definition validationClient (cfg : Config) : res Client :=
  match HTTPClient cfg with
  | None => Panicked "invalid memory address or nil pointer dereference"
  | Some c => Ok (mkClient (Transport c) (Jar c) defaultTimeout (Some checkRedirect))
  end.

Definition decodeLimit : Z := 256 * 1024.

(** The checks on the response. *)
Definition probeResponse (cfg : Config) (resp : Response) : bool :=
  if negb (StatusCode resp =? StatusOK) then false
  else if negb (HasPrefix (HeaderGet (RespHeader resp) "Content-Type") "image/") then false
  else
    match image_DecodeConfig (LimitReader (Body resp) decodeLimit) with
    | None => true
    | Some (width, _) => negb (width <? MinImageWidth cfg)
    end.

Definition ValidateImageURL (cfg : Config) (ctx : Ctx) (rawURL : string) : prog Ev bool :=
  let cfg := defaults cfg in
  if IsLogoOrBanner (ToLower rawURL) then mret false
  else
    let ctx := WithTimeout ctx defaultTimeout in
    match NewRequest ctx "GET" rawURL "" with
    | None => mret false
    | Some req =>
        client ← lift (validationClient cfg);
        r ← trigger (HttpDo client (SetHeader req "User-Agent" (UserAgent cfg)));
        match r with
        | inr _ => mret false
        | inl resp => mret (probeResponse cfg resp)
        end
    end.

(** ** Lemmas *)

(** The client and the request of the probe. *)
Definition probeClient (cfg : Config) : Client :=
  let c := clientOrDefault (HTTPClient cfg) in
  mkClient (Transport c) (Jar c) defaultTimeout (Some checkRedirect).

Definition probeRequest (cfg : Config) (ctx : Ctx) (rawURL : string) : Request :=
  SetHeader (mkRequest "GET" rawURL ∅ "" (WithTimeout ctx defaultTimeout)) "User-Agent"
    (UserAgent (defaults cfg)).

Definition probeOutcome (cfg : Config) (a : res (Response + error)) : res bool :=
  match a with
  | Ok (inl resp) => Ok (probeResponse (defaults cfg) resp)
  | Ok (inr _) => Ok false
  | Panicked v => Panicked v
  end.

Lemma validationClient_defaults cfg : validationClient (defaults cfg) = Ok (probeClient cfg).
Proof. unfold validationClient, probeClient. simpl. by destruct (HTTPClient cfg). Qed.

(** The probe on every branch: no request for a logo URL or one that does not
    parse, one request otherwise. *)
Lemma wp_ValidateImageURL P h cfg ctx rawURL Q :
  (IsLogoOrBanner (ToLower rawURL) = true ∨ Parse rawURL = None → Q h (Ok false)) →
  (IsLogoOrBanner (ToLower rawURL) = false → is_Some (Parse rawURL) →
   may P h (HttpDo (probeClient cfg) (probeRequest cfg ctx rawURL)) ∧
   ∀ a, answers P h (HttpDo (probeClient cfg) (probeRequest cfg ctx rawURL)) a →
     Q (h ++ [Obs (HttpDo (probeClient cfg) (probeRequest cfg ctx rawURL)) a]) (probeOutcome cfg a)) →
  wp P h (ValidateImageURL cfg ctx rawURL) Q.
Proof.
  intros Hn Hs. unfold ValidateImageURL, NewRequest. cbv zeta.
  destruct (IsLogoOrBanner (ToLower rawURL)); [apply Hn; auto|].
  destruct (Parse rawURL) as [u|]; [|apply Hn; auto].
  destruct Hs as [Hmay Hans]; [done|by eauto|].
  rewrite validationClient_defaults. simpl. split; [done|].
  intros [[resp|e]|v] Ha; by apply (Hans _ Ha).
Qed.

(** ** Properties *)

(** What an accepted response satisfies: an undecodable header is accepted. *)
Definition wide_enough (cfg : Config) (resp : Response) : Prop :=
  match image_DecodeConfig (LimitReader (Body resp) decodeLimit) with
  | None => True
  | Some (width, _) => MinImageWidth (defaults cfg) ≤ width
  end.

Definition probe_accepts (cfg : Config) (resp : Response) : Prop :=
  StatusCode resp = StatusOK ∧
  HasPrefix (HeaderGet (RespHeader resp) "Content-Type") "image/" = true ∧ wide_enough cfg resp.

Lemma probeResponse_iff cfg resp :
  probeResponse (defaults cfg) resp = true ↔ probe_accepts cfg resp.
Proof.
  unfold probeResponse, probe_accepts, wide_enough.
  destruct (Z.eqb_spec (StatusCode resp) StatusOK); simpl; [|intuition congruence].
  destruct (HasPrefix _ "image/"); simpl; [|intuition congruence].
  destruct (image_DecodeConfig _) as [[w ht]|]; [|tauto]. simpl.
  rewrite negb_true_iff, Z.ltb_ge. tauto.
Qed.

(** The only request the probe may make: one GET of the URL itself, with the
    caller's transport and cookies, the configured user agent, a 10 s deadline on
    both client and context, and a redirect policy that refuses the fourth hop. *)
Definition may_probe (cfg : Config) (ctx : Ctx) (rawURL : string) (h : history Ev)
    (X : Type) (e : Ev X) : Prop :=
  match e with
  | HttpDo c r =>
      h = [] ∧ IsLogoOrBanner (ToLower rawURL) = false ∧
      Transport c = Transport (clientOrDefault (HTTPClient cfg)) ∧
      Jar c = Jar (clientOrDefault (HTTPClient cfg)) ∧
      ClientTimeout c = 10 * Second ∧
      (∃ f, CheckRedirect c = Some f ∧ ∀ n, f n = None ↔ (n < 3)%nat) ∧
      r = mkRequest "GET" rawURL {["User-Agent" := UserAgent (defaults cfg)]} ""
            (WithTimeout ctx (10 * Second))
  | _ => False
  end.

(** (C19) The probe makes at most the one request [may_probe] describes.  It
    accepts exactly when the URL has no logo pattern, the request succeeds with
    status 200 and an [image/] content type, and the decoded width, when the first
    256 KiB decode at all, reaches the minimum. *)
Theorem ValidateImageURL_spec cfg ctx rawURL :
  wp (Protocol (may_probe cfg ctx rawURL) (λ _ _ _ _, True)) [] (ValidateImageURL cfg ctx rawURL)
     (λ h r, match r with
      | Ok b =>
          h = [] ∧ b = false ∧ (IsLogoOrBanner (ToLower rawURL) = true ∨ Parse rawURL = None) ∨
          ∃ c req, IsLogoOrBanner (ToLower rawURL) = false ∧
            ((∃ e, h = [Obs (HttpDo c req) (Ok (inr e))] ∧ b = false) ∨
             (∃ resp, h = [Obs (HttpDo c req) (Ok (inl resp))] ∧ (b = true ↔ probe_accepts cfg resp)))
      | Panicked v => ∃ c req, h = [Obs (HttpDo c req) (Panicked v)]
      end).
Proof.
  apply wp_ValidateImageURL; [auto|]. intros Hl Hp. split.
  - refine (conj eq_refl (conj Hl (conj eq_refl (conj eq_refl (conj eq_refl (conj _ eq_refl)))))).
    exists checkRedirect. split; [reflexivity|]. intros n. unfold checkRedirect, maxRedirects. destruct (Nat.leb_spec 3 n); split; (done || lia).
  - intros [[resp|e]|v] _; simpl.
    + right. eexists _, _. split; [done|]. right. exists resp. split; [done|].
      apply probeResponse_iff.
    + right. eexists _, _. split; [done|]. left. by exists e.
    + by eexists _, _.
Qed.

End Validate.
End Validate.
