(* ===== verification/Reverse.v ===== *)
(** * Reverse image search (reverse.go)

    A POST of the image URL to the configured service; anything but a well-formed
    200 answer gives the zero result. *)

From stdpp Require Import pretty.
From S2P Require Import Prelude Unicode GoStrings GoURL JSON Effects Types Config.

Local Open Scope Z_scope.

Module Reverse.

Definition reverseMaxResults : Z := 10.
Definition reverseBodyLimit : Z := 512 * 1024.
Definition reverseTimeout : Z := 10.

Record ReverseResult := mkReverseResult { IsStock : bool; StockDomains : list string }.
Definition zeroReverseResult : ReverseResult := mkReverseResult false [].

(** [json.Marshal] of a [reverseRequest] whose [max_results] is
    [reverseMaxResults]; it cannot fail. *)
Definition reversePayload (imageURL : string) : string :=
  "{" +:+ dquote +:+ "url" +:+ dquote +:+ ":" +:+ MarshalString imageURL +:+ "," +:+
  dquote +:+ "max_results" +:+ dquote +:+ ":" +:+ pretty reverseMaxResults +:+ "}".

Record reverseMatch := mkReverseMatch { rmPageURL : string; rmDomain : string }.

#[export] Instance JDecode_reverseMatch : JDecode reverseMatch :=
  jstruct (mkReverseMatch "" "")
    [field "page_url" rmPageURL (λ m v, mkReverseMatch v (rmDomain m));
     field "domain" rmDomain (λ m v, mkReverseMatch (rmPageURL m) v)].

Record reverseResponse := mkReverseResponse {
  rrMatches : list reverseMatch; rrIsStock : bool; rrStockDomains : list string }.

#[export] Instance JDecode_reverseResponse : JDecode reverseResponse :=
  jstruct (mkReverseResponse [] false [])
    [field "matches" rrMatches (λ m v, mkReverseResponse v (rrIsStock m) (rrStockDomains m));
     field "is_stock" rrIsStock (λ m v, mkReverseResponse (rrMatches m) v (rrStockDomains m));
     field "stock_domains" rrStockDomains (λ m v, mkReverseResponse (rrMatches m) (rrIsStock m) v)].

(** The checks on the response. *)
Definition reverseOfResponse (resp : Response) : ReverseResult :=
  if negb (StatusCode resp =? StatusOK) then zeroReverseResult
  else
    match ReadAll (LimitReader (Body resp) reverseBodyLimit) with
    | None => zeroReverseResult
    | Some body =>
        match Unmarshal body with
        | None => zeroReverseResult
        | Some result => mkReverseResult (rrIsStock result) (rrStockDomains result)
        end
    end.

Definition reverseEndpoint (cfg : Config) : string :=
  TrimRightByte (OxBrowserURL cfg) "/" +:+ "/images/reverse".

Definition ReverseCheck (cfg : Config) (ctx : Ctx) (imageURL : string) : prog Ev ReverseResult :=
  if OxBrowserURL cfg =?s "" then mret zeroReverseResult
  else
    let ctx := WithTimeout ctx (reverseTimeout * Second) in
    match NewRequest ctx "POST" (reverseEndpoint cfg) (reversePayload imageURL) with
    | None => mret zeroReverseResult
    | Some req =>
        r ← trigger (HttpDo (clientOrDefault (HTTPClient cfg))
                       (SetHeader req "Content-Type" "application/json"));
        match r with
        | inr _ => mret zeroReverseResult
        | inl resp => mret (reverseOfResponse resp)
        end
    end.

(** ** Lemmas *)

Definition reverseRequest (cfg : Config) (ctx : Ctx) (imageURL : string) : Request :=
  SetHeader (mkRequest "POST" (reverseEndpoint cfg) ∅ (reversePayload imageURL)
               (WithTimeout ctx (reverseTimeout * Second))) "Content-Type" "application/json".

Definition reverseOutcome (a : res (Response + error)) : res ReverseResult :=
  match a with
  | Ok (inl resp) => Ok (reverseOfResponse resp)
  | Ok (inr _) => Ok zeroReverseResult
  | Panicked v => Panicked v
  end.

Lemma wp_ReverseCheck P h cfg ctx imageURL Q :
  (OxBrowserURL cfg = "" ∨ Parse (reverseEndpoint cfg) = None → Q h (Ok zeroReverseResult)) →
  (OxBrowserURL cfg ≠ "" → is_Some (Parse (reverseEndpoint cfg)) →
   let e := HttpDo (clientOrDefault (HTTPClient cfg)) (reverseRequest cfg ctx imageURL) in
   may P h e ∧ ∀ a, answers P h e a → Q (h ++ [Obs e a]) (reverseOutcome a)) →
  wp P h (ReverseCheck cfg ctx imageURL) Q.
Proof.
  intros Hn Hs. unfold ReverseCheck, NewRequest. cbv zeta.
  destruct (OxBrowserURL cfg =?s "") eqn:E; bool_hyps; [apply Hn; auto|].
  destruct (Parse (reverseEndpoint cfg)) as [u|]; [|apply Hn; auto].
  destruct Hs as [Hmay Hans]; [done|by eauto|].
  apply wp_bind, wp_trigger; [done|]. intros [[resp|e]|v] Ha; by apply (Hans _ Ha).
Qed.

(** ** Properties *)

(** (C31) Whatever the candidate's URL (valid UTF-8), the JSON document that is
    posted decodes to exactly that URL and the result limit. *)
Theorem reversePayload_roundtrip imageURL :
  ValidString imageURL = true →
  parse_json (reversePayload imageURL) =
    Some (JObj [("url", JStr imageURL); ("max_results", JNum "10")]).
Proof.
  intros Hv.
  destruct (scan_MarshalString imageURL
    ("," +:+ dquote +:+ "max_results" +:+ dquote +:+ ":10}") Hv) as (b & Hb & Hu).
  unfold parse_json. set (s := reversePayload imageURL).
  rewrite (proj1 (parse_fuel (slen s) _ (2 * slen s + 10) 0 s (Nat.le_refl _))) by lia.
  assert ((2 * slen s + 10)%nat = S (S (S (S (2 * slen s + 6))))) as -> by lia.
  generalize (2 * slen s + 6)%nat as fuel. intros fuel.
  unfold s, reversePayload, MarshalString.
  change (":" +:+ pretty reverseMaxResults +:+ "}") with ":10}". rewrite !sapp_assoc.
  set (tail := concat_strings (escape_cell <$> decode imageURL) +:+ _) in *.
  rewrite (parse_object _ _ _ (dquote +:+ "url" +:+ dquote +:+ ":" +:+ dquote +:+ tail))
    by reflexivity.
  rewrite (parse_members_step (S (S fuel)) _ _ ("url" +:+ dquote +:+ ":" +:+ dquote +:+ tail) "url"
    (":" +:+ dquote +:+ tail) (dquote +:+ tail) (JStr imageURL)
    ("," +:+ dquote +:+ "max_results" +:+ dquote +:+ ":10}")); [|reflexivity..|].
  - reflexivity.
  - clearbody tail. simpl. rewrite Hb. simpl. by rewrite Hu.
Qed.

Lemma reversePayload_roundtrip_witness :
  parse_json (reversePayload ("https://a.b/?q=<" +:+ dquote +:+ "é&>")) =
    Some (JObj [("url", JStr ("https://a.b/?q=<" +:+ dquote +:+ "é&>")); ("max_results", JNum "10")]).
Proof. apply (reversePayload_roundtrip ("https://a.b/?q=<" +:+ dquote +:+ "é&>")). vm_compute. reflexivity. Defined.

(** The document of a usable answer: status 200, a readable body and JSON. *)
Definition answered_with (resp : Response) (doc : reverseResponse) : Prop :=
  StatusCode resp = StatusOK ∧
  ∃ body, ReadAll (LimitReader (Body resp) reverseBodyLimit) = Some body ∧ Unmarshal body = Some doc.

(** A response that names the image as stock. *)
Definition says_stock (resp : Response) : Prop :=
  ∃ doc, answered_with resp doc ∧ rrIsStock doc = true.

Lemma reverseOfResponse_cases resp :
  (∃ doc, answered_with resp doc ∧
     reverseOfResponse resp = mkReverseResult (rrIsStock doc) (rrStockDomains doc)) ∨
  (∀ doc, ¬ answered_with resp doc) ∧ reverseOfResponse resp = zeroReverseResult.
Proof.
  unfold reverseOfResponse, answered_with. case_bool; bool_hyps; [right; naive_solver|].
  destruct (ReadAll _) as [body|] eqn:Er; [|right; naive_solver].
  destruct (Unmarshal body) as [doc|] eqn:Eu; [left; eauto 6|right; naive_solver].
Qed.

Lemma answered_with_unique resp doc doc' :
  answered_with resp doc → answered_with resp doc' → doc = doc'.
Proof. unfold answered_with. naive_solver. Qed.

Lemma reverseOfResponse_doc resp doc :
  answered_with resp doc →
  reverseOfResponse resp = mkReverseResult (rrIsStock doc) (rrStockDomains doc).
Proof.
  intros Hd. destruct (reverseOfResponse_cases resp) as [(doc' & Hd' & ->)|[Hn _]].
  - by rewrite (answered_with_unique _ _ _ Hd Hd').
  - by destruct (Hn doc).
Qed.

Lemma reverseOfResponse_stock resp : IsStock (reverseOfResponse resp) = true ↔ says_stock resp.
Proof.
  unfold says_stock. split.
  - destruct (reverseOfResponse_cases resp) as [(doc & Hd & ->)|[_ ->]]; [eauto|done].
  - intros (doc & Hd & Hs). by rewrite (reverseOfResponse_doc _ doc).
Qed.

(** (C30) Without a service URL the check asks nothing and reports no stock; with
    one it makes a single POST of the payload to [<base>/images/reverse], however
    many slashes end the base URL.  When the service answers 200 with a readable
    JSON document, the result is exactly the verdict and the domains of that
    document, so stock is reported if and only if such a document says so; every
    failure (no endpoint, no answer, another status, a read error, bad JSON)
    gives the zero result. *)
Theorem ReverseCheck_spec cfg ctx imageURL :
  wp (Protocol (λ h X e, match e with
                | HttpDo c r => h = [] ∧ OxBrowserURL cfg ≠ "" ∧
                    c = clientOrDefault (HTTPClient cfg) ∧ Method r = "POST" ∧
                    ReqURL r = reverseEndpoint cfg ∧ ReqBody r = reversePayload imageURL ∧
                    ReqCtx r = WithTimeout ctx (10 * Second)
                | _ => False end) (λ _ _ _ _, True)) []
     (ReverseCheck cfg ctx imageURL)
     (λ h r, match r with
      | Ok res =>
          h = [] ∧ res = zeroReverseResult ∧
            (OxBrowserURL cfg = "" ∨ Parse (reverseEndpoint cfg) = None) ∨
          ∃ c req, (∃ e, h = [Obs (HttpDo c req) (Ok (inr e))] ∧ res = zeroReverseResult) ∨
            ∃ resp, h = [Obs (HttpDo c req) (Ok (inl resp))] ∧
              (IsStock res = true ↔ says_stock resp) ∧
              (∀ doc, answered_with resp doc →
                 res = mkReverseResult (rrIsStock doc) (rrStockDomains doc)) ∧
              ((∀ doc, ¬ answered_with resp doc) → res = zeroReverseResult)
      | Panicked v => ∃ c req, h = [Obs (HttpDo c req) (Panicked v)]
      end).
Proof.
  apply wp_ReverseCheck; [by left|]. intros Hne Hp. split; [by repeat (split; [done|])|].
  intros [[resp|e]|v] _; simpl.
  - right. eexists _, _. right. exists resp. split_and!; [done| | |].
    + apply reverseOfResponse_stock.
    + apply reverseOfResponse_doc.
    + intros Hn. destruct (reverseOfResponse_cases resp) as [(doc & Hd & _)|[_ ->]]; [|done].
      by destruct (Hn doc).
  - right. eexists _, _. left. by exists e.
  - by eexists _, _.
Qed.

(** Slashes at the end of the service URL do not change the endpoint. *)
Theorem reverseEndpoint_slash cfg :
  reverseEndpoint (mkConfig (Cache cfg) (Classifier cfg) (StealthClient cfg) (HTTPClient cfg)
    (SearxngURL cfg) (MinImageWidth cfg) (UserAgent cfg) (Providers cfg) (VisionPromptOverride cfg)
    (ExtraBlockedDomains cfg) (ExtraSafeDomains cfg) (OxBrowserURL cfg +:+ "/") (OnImageSearch cfg)
    (OnPanic cfg) (OnClassification cfg)) = reverseEndpoint cfg.
Proof. unfold reverseEndpoint. simpl. by rewrite (TrimRightByte_app _ "/"). Qed.

End Reverse.
