(* ===== verification/Dedup.v ===== *)
(** * Perceptual deduplication (dedup.go, goimagehash)

    The difference hash of the resized grey image, its Hamming distance, and the
    filter's critical section on the list of hashes seen so far.  Resizing and
    the grey conversion are the parameter [gray_9x8]. *)

From S2P Require Import Prelude GoStrings Effects Types GoFloat Config Download.

Local Open Scope Z_scope.

Module Dedup.
Import Download.

(** ** goimagehash *)

Fixpoint bitsum (f : Z → Z) (l : list Z) : Z :=
  match l with [] => 0 | i :: l' => f i + bitsum f l' end.

Definition bit (x i : Z) : Z := if Z.testbit x i then 1 else 0.

(** [bits.OnesCount64] *)
Definition popcnt (x : Z) : Z := bitsum (bit x) (seqZ 0 64).

(** [ImageHash.Distance]; [None] for its error. *)
Definition Distance (h other : ImageHash) : option Z :=
  if bool_decide (kind h = kind other) then Some (popcnt (Z.lxor (hash h) (hash other))) else None.

(** The comparisons of neighbouring pixels, row by row. *)
Fixpoint rowBits (row : list spec_float) : list bool :=
  match row with
  | p :: ((q :: _) as rest) => SFltb p q :: rowBits rest
  | _ => []
  end.

(** [leftShiftSet(64 - idx - 1)] for every comparison that holds; a shift by 64
    or more leaves no bit in a [uint64]. *)
Fixpoint setBits (idx : Z) (bits : list bool) (h : Z) : Z :=
  match bits with
  | [] => h
  | b :: bits' =>
      setBits (idx + 1) bits' (if b && (idx <? 64) then Z.lor h (Z.shiftl 1 (64 - idx - 1)) else h)
  end.

Section Dedup.
Context `{ImageLib}.

(** [goimagehash.DifferenceHash]: it fails only on a nil image. *)
Definition DifferenceHash (img : option Image) : option ImageHash :=
  match img with
  | None => None
  | Some img => Some (mkHash (setBits 0 (mjoin (rowBits <$> gray_9x8 img)) 0) DHash)
  end.

(** ** dedup.go *)

Definition dedupThreshold : Z := 10.

(** The body of the critical section: the answer and the new list of hashes. *)
Definition closeTo (hash h : ImageHash) : bool :=
  match Distance hash h with
  | Some dist => dist <? dedupThreshold
  | None => false
  end.

Definition dedupSection (hashes : list ImageHash) (hash : ImageHash) : bool * list ImageHash :=
  if existsb (closeTo hash) hashes then (true, hashes) else (false, hashes ++ [hash]).

(** [dedupFilter.isDuplicate]: the hash is computed outside the lock. *)
Definition isDuplicate (img : Image) : prog Ev bool :=
  match DifferenceHash (Some img) with
  | None => mret false
  | Some hash => trigger (DedupSection hash)
  end.

(** [Config.downloadForValidation] *)
Definition downloadForValidation (cfg : Config) (ctx : Ctx) (url : string) :
    prog Ev (string * string * option Image) :=
  '(result, err) ← Download cfg ctx url zeroDownloadOpts;
  match err, result with
  | None, Some result =>
      match image_Decode (Data result) with
      | None => mret (Data result, MIMEType result, None)
      | Some img => mret (Data result, MIMEType result, Some img)
      end
  | _, _ => mret ("", "", None)
  end.

End Dedup.

(** ** Lemmas: the distance is a metric on 64-bit hashes *)

Definition is_uint64 (x : Z) : Prop := 0 ≤ x < 2 ^ 64.

Lemma bitsum_mono f g l : (∀ i, f i ≤ g i) → bitsum f l ≤ bitsum g l.
Proof. intros Hfg. induction l as [|i l IH]; simpl; [done|]. specialize (Hfg i). lia. Qed.

Lemma bitsum_add f g l : bitsum (λ i, f i + g i) l = bitsum f l + bitsum g l.
Proof. induction l as [|i l IH]; simpl; lia. Qed.

Lemma bit_range x i : 0 ≤ bit x i ≤ 1.
Proof. unfold bit. case_bool; lia. Qed.

Lemma bitsum_range x l : 0 ≤ bitsum (bit x) l ≤ Z.of_nat (length l).
Proof. induction l as [|i l IH]; simpl; [done|]. pose proof (bit_range x i). lia. Qed.

Lemma popcnt_range x : 0 ≤ popcnt x ≤ 64.
Proof. pose proof (bitsum_range x (seqZ 0 64)) as Hl. by rewrite length_seqZ in Hl. Qed.

Lemma bitsum_zero x l i : bitsum (bit x) l = 0 → i ∈ l → Z.testbit x i = false.
Proof.
  induction l as [|j l IH]; simpl; intros Hs Hi; [by apply not_elem_of_nil in Hi|].
  pose proof (bit_range x j). pose proof (bitsum_range x l).
  apply elem_of_cons in Hi as [->|Hi]; [|apply IH; [lia|done]].
  assert (bit x j = 0) as Hb by lia. unfold bit in Hb. by destruct (Z.testbit x j).
Qed.

Lemma popcnt_zero x : is_uint64 x → popcnt x = 0 → x = 0.
Proof.
  intros Hx H. apply Z.bits_inj'. intros n Hn. rewrite Z.bits_0.
  destruct (Z.ltb_spec n 64) as [Hlt|Hge].
  - apply (bitsum_zero x (seqZ 0 64)); [done|]. apply elem_of_seqZ. lia.
  - rewrite <-(Z.mod_small x (2 ^ 64)) by done. apply Z.mod_pow2_bits_high. lia.
Qed.

Lemma lxor_uint64 a b : is_uint64 a → is_uint64 b → is_uint64 (Z.lxor a b).
Proof.
  unfold is_uint64. intros Ha Hb.
  assert (0 ≤ Z.lxor a b) by (apply Z.lxor_nonneg; lia).
  split; [done|]. apply Z.log2_lt_cancel. change (Z.log2 (2 ^ 64)) with 64.
  assert (∀ z, 0 ≤ z < 2 ^ 64 → Z.log2 z < 64) as Hlog.
  { intros z Hz. destruct (decide (z = 0)) as [->|]; [done|]. apply Z.log2_lt_pow2; lia. }
  pose proof (Hlog a Ha). pose proof (Hlog b Hb). pose proof (Z.log2_lxor a b). lia.
Qed.

Lemma popcnt_xor_triangle a b c :
  popcnt (Z.lxor a c) ≤ popcnt (Z.lxor a b) + popcnt (Z.lxor b c).
Proof.
  unfold popcnt. rewrite <-bitsum_add. apply bitsum_mono. intros i. unfold bit.
  rewrite !Z.lxor_spec. by destruct (Z.testbit a i), (Z.testbit b i), (Z.testbit c i).
Qed.

Lemma setBits_uint64 idx bits h : 0 ≤ idx → is_uint64 h → is_uint64 (setBits idx bits h).
Proof.
  revert idx h; induction bits as [|b bits IH]; intros idx h Hi Hh; simpl; [done|].
  apply IH; [lia|]. case_bool; [|done]. bool_hyps. unfold is_uint64 in *.
  assert (0 ≤ Z.lor h (Z.shiftl 1 (64 - idx - 1))) as Hn.
  { apply Z.lor_nonneg. split; [lia|]. apply Z.shiftl_nonneg. lia. }
  split; [done|]. apply Z.log2_lt_cancel. change (Z.log2 (2 ^ 64)) with 64.
  rewrite Z.log2_lor by (try apply Z.shiftl_nonneg; lia).
  apply Z.max_lub_lt.
  - destruct (decide (h = 0)) as [->|]; [done|]. apply Z.log2_lt_pow2; lia.
  - rewrite Z.log2_shiftl by lia. change (Z.log2 1) with 0. lia.
Qed.

(** A difference hash is a 64-bit hash of its kind. *)
Lemma DifferenceHash_uint64 `{ImageLib} img h :
  DifferenceHash img = Some h → is_uint64 (hash h) ∧ kind h = DHash.
Proof.
  destruct img as [img|]; simpl; [|done]. intros [= <-]. split; [|done].
  by apply setBits_uint64.
Qed.

(** ** Lemmas: the critical section *)

(** Two hashes the filter tells apart. *)
Definition far (h h' : ImageHash) : Prop := closeTo h h' = false.

Lemma closeTo_sym h h' : closeTo h h' = closeTo h' h.
Proof.
  unfold closeTo, Distance. rewrite Z.lxor_comm.
  destruct (decide (kind h = kind h')).
  - by rewrite !bool_decide_true.
  - by rewrite !bool_decide_false.
Qed.

Lemma closeTo_refl h : closeTo h h = true.
Proof. unfold closeTo, Distance. rewrite bool_decide_true by done. by rewrite Z.lxor_nilpotent. Qed.

(** The stored hashes are pairwise far apart. *)
Definition dedup_inv (hashes : list ImageHash) : Prop :=
  ∀ i j h h', hashes !! i = Some h → hashes !! j = Some h' → i ≠ j → far h h'.

Lemma dedup_inv_snoc hashes h :
  dedup_inv hashes → Forall (far h) hashes → dedup_inv (hashes ++ [h]).
Proof.
  intros Hinv Hf i j x y Hi Hj Hij. rewrite Forall_forall in Hf.
  apply lookup_snoc_Some in Hi as [[Hli Hi]|[-> <-]]; apply lookup_snoc_Some in Hj as [[Hlj Hj]|[-> <-]].
  - by eapply Hinv.
  - unfold far. rewrite closeTo_sym. apply Hf. by eapply list_elem_of_lookup_2.
  - apply Hf. by eapply list_elem_of_lookup_2.
  - done.
Qed.

Lemma dedup_inv_perm l l' : l ≡ₚ l' → dedup_inv l → dedup_inv l'.
Proof.
  intros Hp Hl i j h h' Hi Hj Hij. symmetry in Hp.
  apply Permutation_inj in Hp as [_ (f & Hf & Hlook)].
  rewrite Hlook in Hi, Hj. eapply (Hl _ _ h h' Hi Hj). by intros ?%Hf.
Qed.

Lemma dedup_inv_pair h h' k : dedup_inv (h :: h' :: k) → far h h'.
Proof. intros Hl. by apply (Hl 0%nat 1%nat). Qed.

Lemma dedupSection_cases hashes h :
  (∃ h', h' ∈ hashes ∧ closeTo h h' = true ∧ dedupSection hashes h = (true, hashes)) ∨
  (Forall (far h) hashes ∧ dedupSection hashes h = (false, hashes ++ [h])).
Proof.
  unfold dedupSection. destruct (existsb (closeTo h) hashes) eqn:E.
  - left. apply existsb_true in E as (h' & ? & ?). eauto.
  - right. split; [|done]. rewrite Forall_forall. by apply existsb_false.
Qed.

Lemma dedupSection_inv hashes h : dedup_inv hashes → dedup_inv (dedupSection hashes h).2.
Proof.
  intros Hi. destruct (dedupSection_cases hashes h) as [(_ & _ & _ & ->)|[Hf ->]]; [done|].
  by apply dedup_inv_snoc.
Qed.

(** ** Properties *)

(** (C17) On 64-bit hashes of one kind the distance is a metric with values 0 to
    64: it is zero exactly on equal hashes, symmetric, and satisfies the triangle
    inequality. *)
Theorem Distance_metric a b c :
  is_uint64 (hash a) → is_uint64 (hash b) → kind a = kind b → kind b = kind c →
  ∃ ab bc ac, Distance a b = Some ab ∧ Distance b c = Some bc ∧ Distance a c = Some ac ∧
    0 ≤ ab ≤ 64 ∧ (ab = 0 ↔ a = b) ∧ Distance b a = Some ab ∧ ac ≤ ab + bc.
Proof.
  intros Ha Hb Hab Hbc. unfold Distance. rewrite !bool_decide_true by congruence.
  eexists _, _, _. do 3 (split; [done|]). split; [apply popcnt_range|].
  split; [|split; [by rewrite Z.lxor_comm|apply popcnt_xor_triangle]]. split.
  - intros Hz%popcnt_zero; [|by apply lxor_uint64].
    apply Z.lxor_eq in Hz. destruct a, b. simpl in *. by subst.
  - intros ->. by rewrite Z.lxor_nilpotent.
Qed.

Lemma Distance_metric_witness :
  ∃ ab bc ac, Distance (mkHash 5 DHash) (mkHash 6 DHash) = Some ab ∧
    Distance (mkHash 6 DHash) (mkHash 255 DHash) = Some bc ∧
    Distance (mkHash 5 DHash) (mkHash 255 DHash) = Some ac ∧ ac ≤ ab + bc.
Proof.
  destruct (Distance_metric (mkHash 5 DHash) (mkHash 6 DHash) (mkHash 255 DHash))
    as (ab & bc & ac & H1 & H2 & H3 & _ & _ & _ & H4); [done..|]. exists ab, bc, ac. auto.
Defined.

(** (C16) One pass through the filter's critical section: it keeps the stored
    hashes pairwise at distance 10 or more, calls an image a duplicate exactly
    when a stored hash is nearer than that, stores the hash exactly when it does
    not, and after it the same image is a duplicate. *)
Theorem dedupSection_spec hashes h :
  dedup_inv hashes →
  let '(dup, hashes') := dedupSection hashes h in
  dedup_inv hashes' ∧
  (dup = true ↔ ∃ h' d, h' ∈ hashes ∧ Distance h h' = Some d ∧ d < 10) ∧
  (hashes' = if dup then hashes else hashes ++ [h]) ∧
  (dedupSection hashes' h).1 = true.
Proof.
  intros Hi. pose proof (dedupSection_inv hashes h Hi) as Hi'.
  destruct (dedupSection_cases hashes h) as [(h' & Hin & Hc & E)|[Hf E]]; rewrite E in *; split_and!;
    try done.
  - split; [intros _|done]. unfold closeTo in Hc. destruct (Distance h h') as [d|] eqn:Ed; [|done].
    exists h', d. split_and!; [done..|]. unfold dedupThreshold in Hc. lia.
  - by rewrite E.
  - split; [done|]. intros (h' & d & Hin & Hd & Hlt). rewrite Forall_forall in Hf.
    specialize (Hf h' Hin). unfold far, closeTo in Hf. rewrite Hd in Hf.
    unfold dedupThreshold in Hf. lia.
  - unfold dedupSection. assert (existsb (closeTo h) (hashes ++ [h]) = true) as ->; [|done].
    apply existsb_true. exists h. split; [set_solver|apply closeTo_refl].
Qed.

Lemma dedupSection_spec_witness :
  (dedupSection (dedupSection [mkHash 0 DHash] (mkHash 1023 DHash)).2 (mkHash 1023 DHash)).1 = true.
Proof.
  assert (dedup_inv [mkHash 0 DHash]) as Hi.
  { intros [|i] [|j] h h' Hi Hj Hij; done. }
  exact (proj2 (proj2 (proj2 (dedupSection_spec [mkHash 0 DHash] (mkHash 1023 DHash) Hi)))).
Defined.

End Dedup.
