(* ===== verification/Classify.v ===== *)
(** * Vision classification (classify.go)

    Download, cache and classifier, composed as the code composes them.  A
    failure anywhere yields the zero result, which the pipeline accepts. *)

From S2P Require Import Prelude GoStrings GoURL Effects Types Config Helpers GoFloat ClassTypes Download.

Local Open Scope Z_scope.

Module Classify.
Import Helpers ClassTypes Download.

(** [Config.emitClassification] (validate_pipeline.go) *)
Definition emitClassification (cfg : Config) (url class : string) (confidence : spec_float)
    (source : string) : prog Ev unit :=
  if OnClassification cfg
  then trigger (OnClassificationCall (mkClsEvent url class confidence source))
  else mret tt.

(** The prompt in force. *)
Definition promptOf (cfg : Config) : string :=
  if VisionPromptOverride cfg =?s "" then DefaultVisionPrompt else VisionPromptOverride cfg.

(** [Config.classifyFromData]; a nil classifier would panic. *)
Definition classifyFromData (cfg : Config) (ctx : Ctx) (imageURL data mimeType : string) :
    prog Ev ClassificationResult :=
  if data =?s "" then mret zeroResult
  else if negb (Classifier cfg) then Throw "invalid memory address or nil pointer dereference"
  else
    r ← trigger (LLM ctx (promptOf cfg) [mkInput (EncodeDataURL data mimeType) ""]);
    match r with
    | inr _ => mret zeroResult
    | inl resp =>
        result ← lift (ParseClassificationResult resp);
        _ ← emitClassification cfg imageURL (Class result) (Confidence result) "llm";
        mret result
    end.

Definition doClassifyFull (cfg : Config) (ctx : Ctx) (imageURL : string) :
    prog Ev ClassificationResult :=
  '(r, err) ← Download cfg ctx imageURL (mkDownloadOpts visionMaxBytes 0 0 "");
  match r, err with
  | Some r, None => classifyFromData cfg ctx imageURL (Data r) (MIMEType r)
  | _, _ => mret zeroResult
  end.

(** The cache protocol both entry points share: ask, and on a miss compute and
    store. *)
Definition throughCache (cfg : Config) (ctx : Ctx) (imageURL : string)
    (compute : prog Ev ClassificationResult) : prog Ev ClassificationResult :=
  if negb (Classifier cfg) then mret zeroResult
  else if Cache cfg then
    cacheKey ← trigger (CacheKey "vision_cls_v2" imageURL);
    cached ← trigger (CacheGet ctx cacheKey);
    match cached with
    | Some cached => mret cached
    | None =>
        result ← compute;
        _ ← trigger (CacheSet ctx cacheKey result);
        mret result
    end
  else compute.

Definition ClassifyImageFull (cfg : Config) (ctx : Ctx) (imageURL : string) :
    prog Ev ClassificationResult :=
  let cfg := defaults cfg in
  throughCache cfg ctx imageURL (doClassifyFull cfg ctx imageURL).

Definition ClassifyImage (cfg : Config) (ctx : Ctx) (imageURL : string) : prog Ev string :=
  r ← ClassifyImageFull cfg ctx imageURL; mret (Class r).

Definition IsRealPhoto (cfg : Config) (ctx : Ctx) (imageURL : string) : prog Ev bool :=
  cls ← ClassifyImage cfg ctx imageURL; mret ((cls =?s ClassPhoto) || (cls =?s "")).

Definition classifyPredownloaded (cfg : Config) (ctx : Ctx) (imageURL data mimeType : string) :
    prog Ev ClassificationResult :=
  let cfg := defaults cfg in
  throughCache cfg ctx imageURL (classifyFromData cfg ctx imageURL data mimeType).

(** ** A cache that keeps what it is given *)

(** The value a cache is known to hold under a key: the last one it was given or
    it returned. *)
Definition obs_value (key : string) (o : obs Ev) : option ClassificationResult :=
  match o with
  | Obs e r =>
      match e in Ev X return res X → option ClassificationResult with
      | CacheSet _ k v =>
          λ a, match a with Ok _ => if k =?s key then Some v else None | Panicked _ => None end
      | CacheGet _ k =>
          λ a, match a with Ok (Some v) => if k =?s key then Some v else None | _ => None end
      | _ => λ _, None
      end r
  end.

Definition last_value (key : string) (h : history Ev) : option ClassificationResult :=
  foldl (λ acc o, match obs_value key o with Some v => Some v | None => acc end) None h.

(** Keys are a function of prefix and value, a stored value is found again, and
    neither operation panics. *)
Definition lawful_cache (key : string → string → string) (h : history Ev) (X : Type) (e : Ev X) :
    res X → Prop :=
  match e in Ev X return res X → Prop with
  | CacheKey prefix value => λ a, a = Ok (key prefix value)
  | CacheGet _ k =>
      λ a, match last_value k h with Some v => a = Ok (Some v) | None => ∃ o, a = Ok o end
  | CacheSet _ _ _ => λ a, a = Ok tt
  | _ => λ _, True
  end.

(** Nothing but reads of the cache. *)
Definition only_cache_reads (h : history Ev) (X : Type) (e : Ev X) : Prop :=
  match e with CacheKey _ _ | CacheGet _ _ => True | _ => False end.

(** ** Lemmas *)

Lemma last_value_snoc key h o :
  last_value key (h ++ [o]) = match obs_value key o with Some v => Some v | None => last_value key h end.
Proof. unfold last_value. by rewrite foldl_app. Qed.

(** A result under the key makes [throughCache] return it with no other effect. *)
Lemma throughCache_hit key cfg ctx imageURL compute h v :
  Classifier cfg = true → Cache cfg = true →
  last_value (key "vision_cls_v2" imageURL) h = Some v →
  wp (Protocol only_cache_reads (lawful_cache key)) h (throughCache cfg ctx imageURL compute)
     (λ _ r, r = Ok v).
Proof.
  intros Hc Hk Hl. unfold throughCache. rewrite Hc, Hk. simpl.
  split; [done|]. intros r ->. simpl. split; [done|]. intros r Hr.
  rewrite last_value_snoc in Hr. simpl in Hr. rewrite Hl in Hr. subst r. simpl. done.
Qed.

(** Whatever the computation does, the cache is known to hold the result
    [throughCache] returns. *)
Lemma throughCache_stores key cfg ctx imageURL compute h may :
  (∀ h X (e : Ev X), may h X e) →
  Classifier cfg = true → Cache cfg = true →
  wp (Protocol may (lawful_cache key)) h (throughCache cfg ctx imageURL compute)
     (λ h' r, ∀ res, r = Ok res → last_value (key "vision_cls_v2" imageURL) h' = Some res).
Proof.
  intros Hmay Hc Hk. unfold throughCache. rewrite Hc, Hk. simpl.
  split; [done|]. intros r ->. simpl. split; [done|]. intros r Hr.
  assert (∃ o, r = Ok o) as [o ->] by (case_match; naive_solver).
  destruct o as [v|]; simpl.
  { intros res [= <-]. rewrite last_value_snoc. simpl. by rewrite String.eqb_refl. }
  apply wp_bind.
  match goal with |- wp _ ?h0 compute _ => generalize h0 end. intros h1.
  assert (∀ h1, wp (Protocol may (lawful_cache key)) h1 compute (λ _ _, True)) as Hw.
  { induction compute as [a|v|X e k IH]; intros h2; simpl; [done..|]. split; [done|]. auto. }
  eapply wp_mono; [apply Hw|]. intros h2 [res|v] _; simpl; [|done].
  split; [done|]. intros r ->. simpl. intros res' [= <-].
  rewrite last_value_snoc. simpl. by rewrite String.eqb_refl.
Qed.
(** [classifyFromData] on every branch. *)
Lemma wp_classifyFromData P h cfg ctx imageURL data mimeType Q :
  Classifier cfg = true →
  let llm := LLM ctx (promptOf cfg) [mkInput (EncodeDataURL data mimeType) ""] in
  (data = "" → Q h (Ok zeroResult)) →
  (data ≠ "" → may P h llm) →
  (∀ a, data ≠ "" → answers P h llm a →
     match a with
     | Ok (inl resp) =>
         ∃ r, ParseClassificationResult resp = Ok r ∧
           wp P (h ++ [Obs llm a]) (emitClassification cfg imageURL (Class r) (Confidence r) "llm")
             (λ h' x, Q h' (match x with Ok _ => Ok r | Panicked v => Panicked v end))
     | Ok (inr _) => Q (h ++ [Obs llm a]) (Ok zeroResult)
     | Panicked v => Q (h ++ [Obs llm a]) (Panicked v)
     end) →
  wp P h (classifyFromData cfg ctx imageURL data mimeType) Q.
Proof.
  intros Hc llm Hempty Hmay Hans. unfold classifyFromData. rewrite Hc.
  destruct (data =?s "") eqn:E; bool_hyps; [by apply Hempty|]. simpl negb. cbv iota.
  apply wp_bind, wp_trigger; [by apply Hmay|]. intros a Ha. specialize (Hans a E Ha).
  destruct a as [[resp|e]|v]; [|done..].
  destruct Hans as (r & Hr & Hw). rewrite Hr. simpl. apply wp_bind.
  eapply wp_mono; [exact Hw|]. by intros h' [x|v].
Qed.

(** ** Properties *)

(** (C21) With a cache that keeps what it is given, a classification is final:
    once [ClassifyImageFull] has returned a result for a URL, every later call
    for it, with fresh or pre-downloaded data, returns that result and does
    nothing but read the cache. *)
Theorem classification_is_final key cfg ctx ctx' imageURL data mimeType h :
  Classifier cfg = true → Cache cfg = true →
  wp (Protocol (λ _ _ _, True) (lawful_cache key)) h (ClassifyImageFull cfg ctx imageURL)
     (λ h' r, ∀ res, r = Ok res →
        wp (Protocol only_cache_reads (lawful_cache key)) h'
           (ClassifyImageFull cfg ctx' imageURL) (λ _ r', r' = Ok res) ∧
        wp (Protocol only_cache_reads (lawful_cache key)) h'
           (classifyPredownloaded cfg ctx' imageURL data mimeType) (λ _ r', r' = Ok res)).
Proof.
  intros Hc Hk. eapply wp_mono; [by apply throughCache_stores|].
  intros h' r Hr res ->. split; apply throughCache_hit; auto.
Qed.

(** The configuration of the witnesses: a cache and a classifier, nothing else. *)
Definition demoConfig : Config :=
  mkConfig true true None None "" 0 "" [] "" [] [] "" false false false.

Lemma classification_is_final_witness :
  wp (Protocol (λ _ _ _, True) (lawful_cache (λ p v, p +:+ v))) []
     (ClassifyImageFull demoConfig Background "https://x.org/a.jpg")
     (λ h' r, ∀ res, r = Ok res →
        wp (Protocol only_cache_reads (lawful_cache (λ p v, p +:+ v))) h'
           (ClassifyImageFull demoConfig Background "https://x.org/a.jpg") (λ _ r', r' = Ok res)).
Proof.
  eapply wp_mono.
  - apply (classification_is_final (λ p v, p +:+ v) demoConfig Background Background
             "https://x.org/a.jpg" "" "" []); reflexivity.
  - intros h' r H res Hr. apply (H res Hr).
Defined.

(** A cache with map semantics, and a network on which every request fails. *)
Definition network_down (key : string → string → string) (h : history Ev) (X : Type) (e : Ev X) :
    res X → Prop :=
  match e in Ev X return res X → Prop with
  | CacheKey prefix value => λ a, a = Ok (key prefix value)
  | CacheGet _ k => λ a, a = Ok (last_value k h)
  | CacheSet _ _ _ => λ a, a = Ok tt
  | HttpDo _ _ => λ a, ∃ e, a = Ok (inr e)
  | _ => λ _, True
  end.

(** A failed classification is cached like a real one: an image that could
    not be downloaded once is stored with the empty class, and later calls, with
    the network back, return it from the cache without a request, so that the
    image is accepted unseen from then on. *)
Theorem failed_classification_is_cached key cfg ctx imageURL h :
  Classifier cfg = true → Cache cfg = true →
  last_value (key "vision_cls_v2" imageURL) h = None →
  wp (Protocol (λ _ _ _, True) (network_down key)) h (ClassifyImageFull cfg ctx imageURL)
     (λ h' r, r = Ok zeroResult ∧
        wp (Protocol only_cache_reads (lawful_cache key)) h'
           (IsRealPhoto cfg ctx imageURL) (λ _ r', r' = Ok true)).
Proof.
  intros Hc Hk Hmiss. unfold ClassifyImageFull at 1, throughCache. cbv zeta.
  change (Classifier (defaults cfg)) with (Classifier cfg).
  change (Cache (defaults cfg)) with (Cache cfg). rewrite Hc, Hk. simpl.
  split; [done|]. intros r ->. simpl. split; [done|]. intros r ->.
  rewrite last_value_snoc. simpl. rewrite Hmiss. simpl.
  apply wp_bind.
  assert (∀ h1, wp (Protocol (λ _ _ _, True) (network_down key)) h1
    (doClassifyFull (defaults cfg) ctx imageURL) (λ _ r, r = Ok zeroResult)) as Hd.
  { intros h1. unfold doClassifyFull, Download. cbv zeta.
    apply wp_bind, wp_bind, wp_fetchImageData; intros _; [|split; [done|intros a [e ->]]]; simpl.
    all: destruct (StealthClient cfg); [|done].
    all: apply wp_bind, wp_fetchImageData; intros _; [|split; [done|intros a' [e' ->]]]; done. }
  eapply wp_mono; [apply Hd|]. intros h1 r ->. simpl. split; [done|]. intros r ->. simpl.
  split; [done|]. unfold IsRealPhoto, ClassifyImage. apply wp_bind, wp_bind.
  eapply wp_mono; [apply (throughCache_hit key _ _ _ _ _ zeroResult); [done..|]|by intros h2 r ->].
  rewrite last_value_snoc. simpl. by rewrite String.eqb_refl.
Qed.

Lemma failed_classification_is_cached_witness :
  wp (Protocol (λ _ _ _, True) (network_down (λ p v, p +:+ v))) []
     (ClassifyImageFull demoConfig Background "https://x.org/a.jpg")
     (λ h' r, r = Ok zeroResult ∧
        wp (Protocol only_cache_reads (lawful_cache (λ p v, p +:+ v))) h'
           (IsRealPhoto demoConfig Background "https://x.org/a.jpg") (λ _ r', r' = Ok true)).
Proof. apply (failed_classification_is_cached (λ p v, p +:+ v)); reflexivity. Defined.

(** What can speak against an image: an answer of the classifier that parses to a
    class other than PHOTO, or such a class in the cache. *)
Definition bad_class (c : string) : Prop := c ≠ ClassPhoto ∧ c ≠ "".

Definition obs_verdict (o : obs Ev) : Prop :=
  match o with
  | Obs e r =>
      match e in Ev X return res X → Prop with
      | LLM _ _ _ =>
          λ a, ∃ resp r, a = Ok (inl resp) ∧ ParseClassificationResult resp = Ok r ∧
            Class r ∈ classificationClasses ∧ bad_class (Class r)
      | CacheGet _ _ => λ a, ∃ r, a = Ok (Some r) ∧ bad_class (Class r)
      | _ => λ _, False
      end r
  end.

(** The events [t] of a classification and its result: no panic went unnoticed,
    and the result rejects exactly when an event speaks against the image. *)
Definition explains (t : history Ev) (r : res ClassificationResult) : Prop :=
  match r with
  | Ok res => ¬ Exists obs_panic t ∧ (bad_class (Class res) ↔ Exists obs_verdict t)
  | Panicked _ => Exists obs_panic t
  end.

(** Events of a classification: reads and writes of the cache, GET requests, the
    classifier and the audit callback. *)
Definition classify_event (o : obs Ev) : Prop :=
  match o with
  | Obs e _ =>
      match e with
      | CacheKey _ _ | CacheGet _ _ | CacheSet _ _ _ | LLM _ _ _ | OnClassificationCall _ => True
      | HttpDo _ r => Method r = "GET"
      | _ => False
      end
  end.

Definition explained (h h' : history Ev) (r : res ClassificationResult) : Prop :=
  ∃ t, h' = h ++ t ∧ Forall classify_event t ∧ explains t r.

Lemma not_bad_zero : ¬ bad_class (Class zeroResult).
Proof. by intros [_ []]. Qed.

Lemma is_get_quiet url t :
  Forall (is_get url) t →
  Forall classify_event t ∧ ¬ Exists obs_panic t ∧ ¬ Exists obs_verdict t.
Proof.
  intros Ht. split_and!.
  - eapply Forall_impl; [exact Ht|]. intros [X e r] [He _]. destruct e; by try destruct He.
  - intros [o [Ho Hp]]%Exists_exists. rewrite Forall_forall in Ht. apply Ht in Ho. by destruct o, Ho.
  - intros [o [Ho Hv]]%Exists_exists. rewrite Forall_forall in Ht. apply Ht in Ho.
    destruct o as [X e r], Ho as [He _]. by destruct e.
Qed.

(** Quiet events in front, or a single quiet event behind, change nothing. *)
Lemma explains_app t u r :
  ¬ Exists obs_panic t → ¬ Exists obs_verdict t → explains u r → explains (t ++ u) r.
Proof.
  intros Hp Hv. destruct r as [res|v]; simpl; rewrite !Exists_app; tauto.
Qed.

Lemma explains_snoc t o r :
  ¬ obs_panic o → ¬ obs_verdict o → explains t r → explains (t ++ [o]) r.
Proof.
  intros Hp Hv. destruct r as [res|v]; simpl; rewrite !Exists_app, !Exists_cons, !Exists_nil; tauto.
Qed.

Lemma explains_panic t o v : obs_panic o → explains (t ++ [o]) (Panicked v).
Proof. intros Hp. simpl. apply Exists_app. right. by left. Qed.

Lemma explains_zero t : ¬ Exists obs_panic t → ¬ Exists obs_verdict t → explains t (Ok zeroResult).
Proof. intros Hp Hv. split; [done|]. split; [by intros ?%not_bad_zero|done]. Qed.

Section Explained.
Context (P : protocol Ev).
Context (HP : ∀ h X (e : Ev X) r, classify_event (Obs e r) → may P h e).

(** The audit callback after a result. *)
Lemma wp_emit h cfg url class conf source (Q : history Ev → res unit → Prop) :
  (OnClassification cfg = false → Q h (Ok tt)) →
  (∀ e r, Q (h ++ [Obs (OnClassificationCall e) r]) r) →
  wp P h (emitClassification cfg url class conf source) Q.
Proof.
  intros HQ HQ'. unfold emitClassification. destruct (OnClassification cfg); [|by apply HQ].
  apply wp_trigger; [by apply (HP _ _ _ (Ok tt))|]. intros r _. apply HQ'.
Qed.

Lemma classifyFromData_explained h cfg ctx imageURL data mimeType :
  Classifier cfg = true →
  wp P h (classifyFromData cfg ctx imageURL data mimeType) (explained h).
Proof.
  intros Hc. apply wp_classifyFromData; [done|..].
  - intros _. exists []. rewrite app_nil_r. split; [done|]. split; [constructor|].
    apply explains_zero; intros H; inversion H.
  - intros _. by apply (HP _ _ _ (Panicked "")).
  - intros [[resp|e]|v] _ _.
    2: { eexists. split; [done|]. split; [by repeat constructor|]. apply explains_zero.
         - rewrite Exists_cons, Exists_nil. simpl. tauto.
         - rewrite Exists_cons, Exists_nil. simpl. naive_solver. }
    2: { eexists. split; [done|]. split; [by repeat constructor|]. by apply (explains_panic []). }
    destruct (ParseClassificationResult_Ok resp) as (r & Hr & Hwf). exists r. split; [done|].
    set (llm := Obs (LLM _ _ _) (Ok (inl resp))).
    assert (explains [llm] (Ok r)) as Hex.
    { split; [rewrite Exists_cons, Exists_nil; simpl; tauto|].
      rewrite Exists_cons, Exists_nil. simpl. split.
      2: { intros [(resp' & r' & [= <-] & Hr' & _ & Hb)|[]].
           rewrite Hr in Hr'. by injection Hr' as ->. }
      intros Hb. left. exists resp, r. split_and!; try done; [|apply Hb..].
      destruct Hwf as [->|[? _]]; [|done]. by apply not_bad_zero in Hb. }
    apply wp_emit.
    + intros _. exists [llm]. split_and!; [done|by repeat constructor|done].
    + intros ev [[]|v]; eexists; rewrite <-app_assoc; (split; [done|]); (split; [by repeat constructor|]).
      * by apply (explains_snoc [llm]); [simpl; tauto..|].
      * by apply (explains_panic [llm]).
Qed.

Lemma doClassifyFull_explained h cfg ctx imageURL :
  Classifier cfg = true → wp P h (doClassifyFull cfg ctx imageURL) (explained h).
Proof.
  intros Hc. unfold doClassifyFull. apply wp_bind, wp_Download.
  - intros h' c r Hr. by apply (HP _ _ _ (Panicked "")).
  - intros t ((Ht & Hp & Hv)%is_get_quiet & _). exists t.
    split; [done|]. split; [done|]. by apply explains_zero.
  - intros t c req resp d (Ht & Hp & Hv)%is_get_quiet _ _.
    eapply wp_mono; [by apply classifyFromData_explained|]. intros h' r (u & -> & Hu & Hex).
    eexists. rewrite <-app_assoc. split; [done|]. split; [by apply Forall_app|].
    by apply explains_app.
  - intros t c req v (Ht & _ & _)%is_get_quiet Hm. eexists. split; [done|].
    split; [apply Forall_app; by repeat constructor|]. by apply explains_panic.
Qed.

(** The cache around a computation. *)
Lemma throughCache_explained h cfg ctx imageURL compute :
  (Classifier cfg = true → ∀ h', wp P h' compute (explained h')) →
  wp P h (throughCache cfg ctx imageURL compute) (explained h).
Proof.
  intros Hcomp. unfold throughCache. destruct (Classifier cfg).
  2: { exists []. rewrite app_nil_r. split; [done|]. split; [constructor|].
    apply explains_zero; intros H; inversion H. }
  specialize (Hcomp eq_refl). simpl negb. cbv iota. destruct (Cache cfg); [|apply Hcomp].
  apply wp_bind, wp_trigger; [by apply (HP _ _ _ (Panicked ""))|].
  intros [k|v] _; [|eexists; split; [done|]; split; [by repeat constructor|by apply (explains_panic [])]].
  apply wp_bind, wp_trigger; [by apply (HP _ _ _ (Panicked ""))|].
  set (ok := Obs (CacheKey _ _) (Ok k)).
  intros [[cached|]|v] _; rewrite <-app_assoc.
  - exists [ok; Obs (CacheGet ctx k) (Ok (Some cached))]. split; [done|].
    split; [by repeat constructor|]. simpl. rewrite !Exists_cons, !Exists_nil. simpl. split; [tauto|].
    naive_solver.
  - apply wp_bind. eapply wp_mono; [apply Hcomp|]. intros h' r (t & -> & Ht & Hex).
    assert (explains ([ok; Obs (CacheGet ctx k) (Ok None)] ++ t) r) as Hex'.
    { apply explains_app; [..|done]; rewrite !Exists_cons, !Exists_nil; simpl; naive_solver. }
    assert (Forall classify_event ([ok; Obs (CacheGet ctx k) (Ok None)] ++ t)) as Ht'
      by (by repeat constructor).
    destruct r as [res|v]; [|eexists; rewrite <-app_assoc; split; [done|]; by split].
    apply wp_bind, wp_trigger; [by apply (HP _ _ _ (Panicked ""))|].
    intros a _. assert (explained h
      (((h ++ [ok; Obs (CacheGet ctx k) (Ok None)]) ++ t) ++ [Obs (CacheSet ctx k res) a])
      (match a with Ok _ => Ok res | Panicked v => Panicked v end)) as Hfin.
    { exists (([ok; Obs (CacheGet ctx k) (Ok None)] ++ t) ++ [Obs (CacheSet ctx k res) a]).
      split; [by rewrite <-!app_assoc|]. split; [apply Forall_app; by repeat constructor|].
      destruct a as [[]|v]; [by apply explains_snoc; [simpl; tauto..|]|by apply explains_panic]. }
    by destruct a as [[]|v].
  - eexists; split; [done|]; split; [by repeat constructor|by apply (explains_panic [ok])].
Qed.

Lemma ClassifyImageFull_explained h cfg ctx imageURL :
  wp P h (ClassifyImageFull cfg ctx imageURL) (explained h).
Proof. apply throughCache_explained. intros Hc h'. by apply doClassifyFull_explained. Qed.

Lemma classifyPredownloaded_explained h cfg ctx imageURL data mimeType :
  wp P h (classifyPredownloaded cfg ctx imageURL data mimeType) (explained h).
Proof. apply throughCache_explained. intros Hc h'. by apply classifyFromData_explained. Qed.

End Explained.

(** (C20) Failures never reject an image: [IsRealPhoto] answers false only when the
    classifier itself answered with one of the six rejecting labels, or the cache
    returned such a class; a failed download, a cache miss, an LLM error, an
    unknown label or a missing classifier all count as acceptance. *)
Theorem IsRealPhoto_rejects_exactly_on_verdict cfg ctx imageURL :
  wp free_protocol [] (IsRealPhoto cfg ctx imageURL)
     (λ h r, match r with
             | Ok b => b = false ↔ Exists obs_verdict h
             | Panicked _ => Exists obs_panic h
             end).
Proof.
  unfold IsRealPhoto, ClassifyImage. apply wp_bind, wp_bind.
  eapply wp_mono; [by apply ClassifyImageFull_explained|].
  intros h [res|v] (t & -> & _ & Hex); [|done]. destruct Hex as [_ Hex]. simpl.
  rewrite <-Hex, orb_false_iff, !String.eqb_neq. done.
Qed.

(** ** The classifier is consulted *)

(** The classifier was shown the image, or the cache answered in its stead. *)
Definition obs_consulted (cfg : Config) (images : list ImageInput) (o : obs Ev) : Prop :=
  match o with
  | Obs e r =>
      match e in Ev X return res X → Prop with
      | LLM _ p i => λ _, p = promptOf cfg ∧ i = images
      | CacheGet _ _ => λ a, ∃ v, a = Ok (Some v)
      | _ => λ _, False
      end r
  end.

(** The key was computed and the cache knew nothing. *)
Definition cache_miss (o : obs Ev) : Prop :=
  match o with
  | Obs e r =>
      match e in Ev X return res X → Prop with
      | CacheKey _ _ => λ _, True
      | CacheGet _ _ => λ a, a = Ok None
      | _ => λ _, False
      end r
  end.

Definition is_cache_event {X} (e : Ev X) : Prop :=
  match e with CacheKey _ _ | CacheGet _ _ | CacheSet _ _ _ => True | _ => False end.

(** What holds at the end of the computation behind a miss, and after a hit,
    holds at the end of [throughCache]. *)
Lemma throughCache_ends P h cfg ctx imageURL compute (D : history Ev → Prop) :
  Classifier cfg = true →
  (∀ h' X (e : Ev X), is_cache_event e → may P h' e) →
  (∀ h' ctx k v, D (h' ++ [Obs (CacheGet ctx k) (Ok (Some v))])) →
  (∀ h' ctx k v a, D h' → D (h' ++ [Obs (CacheSet ctx k v) a])) →
  (∀ t, Forall cache_miss t → wp P (h ++ t) compute (λ h' r, ∀ res, r = Ok res → D h')) →
  wp P h (throughCache cfg ctx imageURL compute) (λ h' r, ∀ res, r = Ok res → D h').
Proof.
  intros Hc Hmay Hhit Hset Hcomp. unfold throughCache. rewrite Hc. simpl negb. cbv iota.
  destruct (Cache cfg); [|rewrite <-(app_nil_r h); by apply Hcomp].
  apply wp_bind, wp_trigger; [by apply Hmay|]. intros [k|v] _; [|done].
  apply wp_bind, wp_trigger; [by apply Hmay|]. intros [[cached|]|v] _; [by intros res _; apply Hhit| |done].
  rewrite <-app_assoc. apply wp_bind. eapply wp_mono; [by apply Hcomp; repeat constructor|].
  intros h' [res|v] HD; [|done]. apply wp_bind, wp_trigger; [by apply Hmay|].
  intros [[]|v] _; [|done]. intros res' _. by apply Hset, (HD res).
Qed.

(** With a classifier and data, [classifyPredownloaded] consults one of the two
    before it answers. *)
Lemma classifyPredownloaded_consults P h cfg ctx imageURL data mimeType :
  (∀ h X (e : Ev X) r, classify_event (Obs e r) → may P h e) →
  Classifier cfg = true → data ≠ "" →
  wp P h (classifyPredownloaded cfg ctx imageURL data mimeType)
     (λ h' r, ∀ res, r = Ok res →
        Exists (obs_consulted cfg [mkInput (EncodeDataURL data mimeType) ""]) h').
Proof.
  intros HP Hc Hd. apply throughCache_ends; [done|..].
  - intros h' X e He. apply (HP _ _ _ (Panicked "")). by destruct e.
  - intros h' ctx' k v. apply Exists_app. right. left. simpl. eauto.
  - intros h' ctx' k v a HD. apply Exists_app. by left.
  - intros t _. apply wp_classifyFromData; [done|done|intros _; by apply (HP _ _ _ (Panicked ""))|].
    intros a _ _. set (llm := Obs _ a).
    assert (∀ u, Exists (obs_consulted cfg [mkInput (EncodeDataURL data mimeType) ""])
                   (((h ++ t) ++ [llm]) ++ u)) as Hex.
    { intros u. rewrite !Exists_app. left. right. by left. }
    pose proof (Hex []) as Hex0. rewrite app_nil_r in Hex0.
    destruct a as [[resp|e]|v]; [|by intros res _..].
    destruct (ParseClassificationResult_Ok resp) as (r & Hr & _). exists r. split; [done|].
    by apply wp_emit; [done|..]; intros.
Qed.

(** The requests the computation may make: the classifier is asked right behind
    the response that delivered the image, about the first 200 KiB of its body as a
    data URL, under the prompt in force. *)
Definition may_classify (cfg : Config) (imageURL : string) (h : history Ev) (X : Type) (e : Ev X) : Prop :=
  match e with
  | LLM _ prompt images =>
      prompt = (if VisionPromptOverride cfg =?s "" then DefaultVisionPrompt
                else VisionPromptOverride cfg) ∧
      ∃ t c req resp d, h = t ++ [Obs (HttpDo c req) (Ok (inl resp))] ∧
        Method req = "GET" ∧ ReqURL req = imageURL ∧
        StatusCode resp = StatusOK ∧ HasPrefix (MIMEType d) "image/" = true ∧
        Data d = string_take (Z.to_nat (200 * 1024)) (rdData (Body resp)) ∧
        images = [mkInput (EncodeDataURL (Data d) (MIMEType d)) ""]
  | _ => True
  end.

(** The classifier was asked, or the cache answered. *)
Definition obs_answered (o : obs Ev) : Prop :=
  match o with
  | Obs e r =>
      match e in Ev X return res X → Prop with
      | LLM _ _ _ => λ _, True
      | CacheGet _ _ => λ a, ∃ v, a = Ok (Some v)
      | _ => λ _, False
      end r
  end.

(** A response without an image, or with an empty one. *)
Definition no_image (o : obs Ev) : Prop :=
  match o with
  | Obs e r =>
      match e in Ev X return res X → Prop with
      | HttpDo _ _ => λ a, ∀ d,
          fetchOutcome (effectiveOpts (mkDownloadOpts visionMaxBytes 0 0 "")) a = Ok (Some d) → Data d = ""
      | _ => λ _, True
      end r
  end.

Lemma failed_no_image t :
  Forall (attempt_failed (effectiveOpts (mkDownloadOpts visionMaxBytes 0 0 ""))) t → Forall no_image t.
Proof.
  intros Ht. eapply Forall_impl; [exact Ht|]. intros [X e r]. destruct e; simpl; try done.
  intros Hf d Hd. congruence.
Qed.

Lemma miss_no_image t : Forall cache_miss t → Forall no_image t.
Proof. intros Ht. eapply Forall_impl; [exact Ht|]. intros [X e r]. by destruct e. Qed.

(** (C22) The classifier is only ever shown the image that was just downloaded:
    each call comes right after a 200 response to a GET of the URL with an
    [image/] type, carries the first 200 KiB of its body, and uses the configured
    prompt or the default.  And it is asked: with a classifier, the call returns
    without asking it only on a cache hit or when no response held an image. *)
Theorem classifier_sees_the_download cfg ctx imageURL :
  wp (Protocol (may_classify cfg imageURL) (λ _ _ _ _, True)) [] (ClassifyImageFull cfg ctx imageURL)
     (λ h r, ∀ res, r = Ok res → Classifier cfg = true → Exists obs_answered h ∨ Forall no_image h).
Proof.
  unfold ClassifyImageFull. cbv zeta.
  destruct (Classifier cfg) eqn:Hc.
  2: { unfold throughCache. change (Classifier (defaults cfg)) with (Classifier cfg). by rewrite Hc. }
  eapply wp_mono; [apply (throughCache_ends _ _ _ _ _ _
    (λ h, Exists obs_answered h ∨ Forall no_image h))|by eauto].
  - done.
  - intros h' X e He. by destruct e.
  - intros h' ctx' k v. left. apply Exists_app. right. left. simpl. eauto.
  - intros h' ctx' k v a [HD|HD]; [left|right].
    + apply Exists_app. by left.
    + apply Forall_app. by repeat constructor.
  - intros t0 Ht0%miss_no_image. unfold doClassifyFull. apply wp_bind, wp_Download; [done|..|done].
    { intros t (_ & Ht%failed_no_image & _). intros res _. right. by apply Forall_app. }
    intros t c req resp d Hg Ht%failed_no_image Hfrom. simpl.
    pose proof Hfrom as (Hst & _ & Hpre & Hdata & _).
    apply Forall_app in Hg as [_ [[[Hm Hu] _] _]%Forall_cons_1].
    apply wp_classifyFromData; [done|..].
    + intros Hempty res _. right. rewrite !Forall_app. split_and!; [done|done|].
      repeat constructor. simpl. intros d' [= Hd']. apply imageOfResponse_Some in Hd'; [|done].
      destruct Hd' as (_ & _ & _ & Hd' & _). rewrite Hd', <-Hdata. done.
    + intros _. split; [done|]. rewrite app_assoc. by eexists _, c, req, resp, d.
    + intros a _ _. set (llm := Obs _ a). match goal with |- context [?h0 ++ [llm]] => set (h1 := h0) end.
      assert (∀ u, Exists obs_answered (h1 ++ [llm] ++ u)) as Hex.
      { intros u. rewrite !Exists_app. right. left. by left. }
      pose proof (Hex []) as Hex0. simpl in Hex0.
      destruct a as [[r|e]|v]; [|by intros res _; left|done].
      destruct (ParseClassificationResult_Ok r) as (x & Hx & _).
      exists x. split; [done|]. unfold emitClassification.
      destruct (OnClassification _); [|by intros res _; left]. apply wp_trigger; [done|].
      intros [[]|v] _; [|done]. intros res _. left. rewrite <-app_assoc. apply Hex.
Qed.

End Classify.
