(* ===== verification/Pipeline.v ===== *)
(** * Validation of one candidate (validate_pipeline.go)

    [validateOne] with its stages in the order of the code, and its specification
    for every behaviour of the environment: when it may append the candidate, why
    it may drop it, and that no panic but one of the panic handler escapes. *)

From S2P Require Import Prelude GoStrings GoURL Effects Types License Metadata Config Helpers GoFloat.
From S2P Require Import ClassTypes Assessment Download Validate Reverse Dedup Classify.

Local Open Scope Z_scope.

Module Pipeline.
Import Helpers License Metadata Assessment ClassTypes Download Validate Reverse Dedup Classify.

Section Pipeline.
Context `{ImageLib}.

(** ** The code *)

(** [Config.isBlockedByExtraDomains] *)
Definition isBlockedByExtraDomains (cfg : Config) (cand : ImageCandidate) : prog Ev bool :=
  if (length (ExtraBlockedDomains cfg) =? 0)%nat then mret false
  else if negb (license_eqb (CheckLicenseWith (ImgURL cand) (Source cand) (ExtraBlockedDomains cfg) [])
                  LicenseBlocked) then mret false
  else
    _ ← emitClassification cfg (ImgURL cand) ClassStock f64_zero "license_assessment";
    mret true.

(** [appendValidated]: its critical section is the event [AppendSection]. *)
Definition appendValidated (cand : ImageCandidate) (maxResults : Z) : prog Ev unit :=
  trigger (AppendSection cand maxResults).

(** [Config.assessAndAccept]: (accepted, done) *)
Definition assessAndAccept (cfg : Config) (cand : ImageCandidate) (data : string) (maxResults : Z) :
    prog Ev (bool * bool) :=
  let meta := ExtractImageMetadata meta_stream data in
  let assessment := AssessLicense cfg cand meta in
  if license_eqb (assLicense assessment) LicenseBlocked then
    _ ← emitClassification cfg (ImgURL cand) ClassStock f64_zero "license_assessment";
    mret (false, true)
  else if license_eqb (assLicense assessment) LicenseSafe then
    _ ← emitClassification cfg (ImgURL cand) ClassPhoto f64_one "license_assessment";
    _ ← appendValidated cand maxResults;
    mret (true, true)
  else mret (false, false).

(** The body of [Config.validateOne]. *)
Definition validateBody (cfg : Config) (ctx : Ctx) (cand : ImageCandidate) (maxResults : Z) :
    prog Ev unit :=
  valid ← ValidateImageURL cfg ctx (ImgURL cand);
  if negb valid then mret tt
  else
    blocked ← isBlockedByExtraDomains cfg cand;
    if (blocked : bool) then mret tt
    else
      '(data, mimeType, img) ← downloadForValidation cfg ctx (ImgURL cand);
      dup ← match img with Some img => isDuplicate img | None => mret false end;
      if (dup : bool) then mret tt
      else
        '(accepted, done) ← assessAndAccept cfg cand data maxResults;
        if (done : bool) then mret tt
        else if (accepted : bool) then mret tt
        else
          reverseResult ← ReverseCheck cfg ctx (ImgURL cand);
          if IsStock reverseResult then
            emitClassification cfg (ImgURL cand) ClassStock f64_zero "reverse_stock"
          else
            result ← classifyPredownloaded cfg ctx (ImgURL cand) data mimeType;
            if (Class result <>?s ClassPhoto) && (Class result <>?s "") then mret tt
            else appendValidated cand maxResults.

(** The deferred recovery. *)
Definition onRecovered (cfg : Config) (r : string) : prog Ev unit :=
  if OnPanic cfg then trigger (OnPanicCall "imageValidation" r) else mret tt.

Definition validateOne (cfg : Config) (ctx : Ctx) (cand : ImageCandidate) (maxResults : Z) :
    prog Ev unit :=
  recover (onRecovered cfg) (validateBody cfg ctx cand maxResults).

(** The critical section of [appendValidated] on the shared slice. *)
Definition appendSection (validated : list ImageCandidate) (cand : ImageCandidate) (maxResults : Z) :
    list ImageCandidate :=
  if Z.of_nat (length validated) <? maxResults then validated ++ [cand] else validated.

(** ** What a history says about a candidate *)

Definition obs_dup (o : obs Ev) : Prop :=
  match o with
  | Obs e r =>
      match e in Ev X return res X → Prop with
      | DedupSection _ => λ a, a = Ok true
      | _ => λ _, False
      end r
  end.

Definition obs_append (o : obs Ev) : Prop :=
  match o with Obs e _ => match e with AppendSection _ _ => True | _ => False end end.

(** The reverse-search service called the image stock. *)
Definition obs_stock (o : obs Ev) : Prop :=
  match o with
  | Obs e r =>
      match e in Ev X return res X → Prop with
      | HttpDo _ req => λ a, Method req = "POST" ∧ ∃ resp, a = Ok (inl resp) ∧ says_stock resp
      | _ => λ _, False
      end r
  end.

Section Spec.
Context (cfg : Config) (ctx : Ctx) (maxResults : Z).
Implicit Types cand : ImageCandidate.

Definition preblocked cand : bool :=
  negb (length (ExtraBlockedDomains cfg) =? 0)%nat &&
  license_eqb (CheckLicenseWith (ImgURL cand) (Source cand) (ExtraBlockedDomains cfg) [])
    LicenseBlocked.

(** The first event of the history: a probe of the candidate's URL whose answer
    is accepted, or not. *)
Definition probed cand (h : history Ev) : Prop :=
  ∃ c req resp t, h = Obs (HttpDo c req) (Ok (inl resp)) :: t ∧ ReqURL req = ImgURL cand ∧
    probe_accepts cfg resp.

Definition probe_failed (h : history Ev) : Prop :=
  ∃ c req a t, h = Obs (HttpDo c req) (Ok a) :: t ∧
    ∀ resp, a = inl resp → ¬ probe_accepts cfg resp.

Definition assessed cand (data : string) : ImageLicense :=
  assLicense (AssessLicense cfg cand (ExtractImageMetadata meta_stream data)).

(** The requests [t] delivered the image: the last one, behind failed ones, was
    answered 200 with an [image/] type, and [data] is the bounded read of its body. *)
Definition delivered (url : string) (t : history Ev) (data mimeType : string) : Prop :=
  ∃ t' c req resp d, t = t' ++ [Obs (HttpDo c req) (Ok (inl resp))] ∧ Forall (is_get url) t ∧
    Forall (attempt_failed (effectiveOpts zeroDownloadOpts)) t' ∧
    image_from (effectiveOpts zeroDownloadOpts) resp d ∧ data = Data d ∧ mimeType = MIMEType d.

(** The image went through the download and the dedup filter: behind the probe the
    candidate's URL was fetched; either every attempt failed and there is no data,
    or the data were delivered and, if they decode to an image, the filter was
    asked about its hash next and knew no near duplicate. *)
Definition screened cand (h : history Ev) (data mimeType : string) : Prop :=
  ∃ probe t rest, h = probe :: t ++ rest ∧
    (data = "" ∧ mimeType = "" ∧ all_failed cfg (ImgURL cand) zeroDownloadOpts t ∨
     delivered (ImgURL cand) t data mimeType ∧
     ∀ img hash, image_Decode data = Some img → DifferenceHash (Some img) = Some hash →
       ∃ rest', rest = Obs (DedupSection hash) (Ok false) :: rest').

(** The reverse-search service, if one is configured, was asked about the
    candidate's URL. *)
Definition obs_reversed cand (o : obs Ev) : Prop :=
  match o with
  | Obs e _ =>
      match e with
      | HttpDo _ req => Method req = "POST" ∧ ReqURL req = reverseEndpoint cfg ∧
                        ReqBody req = reversePayload (ImgURL cand)
      | _ => False
      end
  end.

Definition reversed cand (h : history Ev) : Prop :=
  OxBrowserURL cfg ≠ "" → is_Some (Parse (reverseEndpoint cfg)) → Exists (obs_reversed cand) h.

(** The classifier, if there is one and there are data, was shown the data, or the
    cache answered. *)
Definition classified (h : history Ev) (data mimeType : string) : Prop :=
  Classifier cfg = true → data ≠ "" →
  Exists (obs_consulted cfg [mkInput (EncodeDataURL data mimeType) ""]) h.

(** When the code may append a candidate: the URL is no logo, its probe was
    accepted, no extra list blocks it, it passed the dedup filter, and the
    license is safe, or unknown and neither the reverse search nor the classifier,
    both asked as far as configured, spoke against it. *)
Definition acceptable cand (h : history Ev) : Prop :=
  IsLogoOrBanner (ToLower (ImgURL cand)) = false ∧ probed cand h ∧ preblocked cand = false ∧
  ¬ Exists obs_dup h ∧ ¬ Exists obs_panic h ∧
  ∃ data mimeType, screened cand h data mimeType ∧
    (assessed cand data = LicenseSafe ∨
     assessed cand data = LicenseUnknown ∧
     reversed cand h ∧ ¬ Exists obs_stock h ∧
     classified h data mimeType ∧ ¬ Exists obs_verdict h).

(** Why the code may drop it. *)
Definition rejected cand (h : history Ev) : Prop :=
  IsLogoOrBanner (ToLower (ImgURL cand)) = true ∨ Parse (ImgURL cand) = None ∨ probe_failed h ∨
  preblocked cand = true ∨ Exists obs_dup h ∨
  (∃ data mimeType, screened cand h data mimeType ∧ assessed cand data = LicenseBlocked) ∨
  Exists obs_stock h ∨ Exists obs_verdict h ∨ Exists obs_panic h.

(** The protocol of one goroutine: the candidate is appended at most once, and
    only when acceptable; the critical sections never panic, and other events are
    answered as [ans] allows. *)
Context (ans : ∀ X, Ev X → res X → Prop).

Definition goroutine cand : protocol Ev := Protocol
  (λ h X e, match e with
   | AppendSection c m => c = cand ∧ m = maxResults ∧ ¬ Exists obs_append h ∧ acceptable cand h
   | OnPanicCall tag _ => OnPanic cfg = true ∧ tag = "imageValidation" ∧ Exists obs_panic h
   | _ => True
   end)
  (λ h X e, match e in Ev X return res X → Prop with
   | DedupSection _ => λ r, ∃ b, r = Ok b
   | AppendSection _ _ => λ r, r = Ok tt
   | e' => λ r, ans _ e' r
   end).

(** The panic handler itself panicked. *)
Definition handler_panicked (h : history Ev) : Prop :=
  ∃ t tag r v, h = t ++ [Obs (OnPanicCall tag r) (Panicked v)].

Definition validate_post cand (h : history Ev) (r : res unit) : Prop :=
  match r with
  | Ok _ => Exists obs_append h ∨ rejected cand h
  | Panicked _ => handler_panicked h
  end.

(** ** The stages, last one first *)

(** [validateBody] from the download, the assessment, the reverse search and the
    classification on. *)
Definition classifyStage cand (data mimeType : string) : prog Ev unit :=
  result ← classifyPredownloaded cfg ctx (ImgURL cand) data mimeType;
  if (Class result <>?s ClassPhoto) && (Class result <>?s "") then mret tt
  else appendValidated cand maxResults.

Definition reverseStage cand (data mimeType : string) : prog Ev unit :=
  reverseResult ← ReverseCheck cfg ctx (ImgURL cand);
  if IsStock reverseResult
  then emitClassification cfg (ImgURL cand) ClassStock f64_zero "reverse_stock"
  else classifyStage cand data mimeType.

Definition assessStage cand (data mimeType : string) : prog Ev unit :=
  '(accepted, done) ← assessAndAccept cfg cand data maxResults;
  if (done : bool) then mret tt
  else if (accepted : bool) then mret tt
  else reverseStage cand data mimeType.

Definition downloadStage cand : prog Ev unit :=
  '(data, mimeType, img) ← downloadForValidation cfg ctx (ImgURL cand);
  dup ← match img with Some img => isDuplicate img | None => mret false end;
  if (dup : bool) then mret tt else assessStage cand data mimeType.

Definition afterProbe cand : prog Ev unit :=
  blocked ← isBlockedByExtraDomains cfg cand;
  if (blocked : bool) then mret tt else downloadStage cand.

Lemma validateBody_stages cand :
  validateBody cfg ctx cand maxResults =
    (valid ← ValidateImageURL cfg ctx (ImgURL cand);
     if negb valid then mret tt else afterProbe cand).
Proof. done. Qed.

(** An event that speaks neither for nor against a candidate. *)
Definition quiet (o : obs Ev) : Prop :=
  ¬ obs_dup o ∧ ¬ obs_append o ∧ ¬ obs_stock o ∧ ¬ obs_verdict o ∧ ¬ obs_panic o.

Lemma quiet_not (Pr : obs Ev → Prop) t :
  (∀ o, quiet o → ¬ Pr o) → Forall quiet t → ¬ Exists Pr t.
Proof.
  intros Hq Ht [o [Ho Hp]]%Exists_exists. rewrite Forall_forall in Ht. by apply (Hq o (Ht o Ho)).
Qed.

(** What the stages behind the probe may rely on. *)
Definition good cand (h : history Ev) : Prop :=
  Forall quiet h ∧ probed cand h ∧ IsLogoOrBanner (ToLower (ImgURL cand)) = false ∧
  preblocked cand = false.

Lemma good_app cand h t : good cand h → Forall quiet t → good cand (h ++ t).
Proof.
  intros (Hq & (c & req & resp & u & -> & Hp) & Hl & Hb) Ht. split_and!; [|..|done|done].
  - by apply Forall_app.
  - exists c, req, resp, (u ++ t). done.
Qed.

Lemma good_not cand h :
  good cand h → ¬ Exists obs_dup h ∧ ¬ Exists obs_append h ∧ ¬ Exists obs_stock h ∧
  ¬ Exists obs_verdict h ∧ ¬ Exists obs_panic h.
Proof.
  intros (Hq & _). split_and!; (apply quiet_not; [|done]); intros o (? & ? & ? & ? & ?); done.
Qed.

Lemma screened_app cand h u data mimeType :
  screened cand h data mimeType → screened cand (h ++ u) data mimeType.
Proof.
  intros (probe & t & rest & -> & Hs). exists probe, t, (rest ++ u). split; [simpl; by rewrite <-app_assoc|].
  destruct Hs as [Hs|[Hd Hs]]; [by left|right]. split; [done|]. intros img hash Hi Hh.
  destruct (Hs img hash Hi Hh) as [rest' ->]. by exists (rest' ++ u).
Qed.

(** The outcome of the body: a panic is in the history. *)
Definition body_post cand (h : history Ev) (r : res unit) : Prop :=
  match r with
  | Ok _ => Exists obs_append h ∨ rejected cand h
  | Panicked _ => Exists obs_panic h
  end.

Lemma goroutine_may cand h X (e : Ev X) r : classify_event (Obs e r) → may (goroutine cand) h e.
Proof. by destruct e. Qed.

Lemma classify_event_other o :
  classify_event o → ¬ obs_dup o ∧ ¬ obs_append o ∧ ¬ obs_stock o.
Proof.
  destruct o as [X e r]. destruct e; simpl; intros He; try done; split_and!; try tauto.
  intros [Hm _]. congruence.
Qed.

Lemma is_get_is_quiet url t : Forall (is_get url) t → Forall quiet t.
Proof.
  intros Ht. eapply Forall_impl; [exact Ht|]. intros [X e r] [He Hp]. destruct e; try done.
  destruct He as [Hm _]. split_and!; simpl; try tauto. intros [Hm' _]. congruence.
Qed.

(** The audit callback inside a stage: a quiet event, or a panic. *)
Lemma wp_emit_stage cand h url class conf source (Q : history Ev → res unit → Prop) :
  (∀ t, Forall quiet t → Q (h ++ t) (Ok tt)) →
  (∀ h' v, Exists obs_panic h' → Q h' (Panicked v)) →
  wp (goroutine cand) h (emitClassification cfg url class conf source) Q.
Proof.
  intros Hok Hpan. apply wp_emit; [intros; by eapply goroutine_may|..].
  - intros _. rewrite <-(app_nil_r h). by apply Hok.
  - intros e [[]|v].
    + apply Hok. repeat constructor; simpl; tauto.
    + apply Hpan, Exists_app. right. by left.
Qed.

Lemma stage_append cand h :
  ¬ Exists obs_append h → acceptable cand h →
  wp (goroutine cand) h (appendValidated cand maxResults)
     (λ h' r, r = Ok tt ∧ Exists obs_append h').
Proof.
  intros Hn Ha. apply wp_trigger; [done|]. intros r ->. split; [done|].
  apply Exists_app. right. by left.
Qed.

Lemma stage_classify cand h data mimeType :
  good cand h → screened cand h data mimeType → reversed cand h → assessed cand data = LicenseUnknown →
  wp (goroutine cand) h (classifyStage cand data mimeType) (body_post cand).
Proof.
  intros Hg Hscr Hrev Ha. apply wp_bind.
  eapply wp_mono; [apply wp_and; [apply classifyPredownloaded_explained; intros; by eapply goroutine_may|]|].
  { instantiate (1 := λ h' r, ∀ res, r = Ok res → classified h' data mimeType).
    destruct (Classifier cfg) eqn:Hc, (decide (data = "")) as [Hd|Hd].
    2: { eapply wp_mono; [apply classifyPredownloaded_consults; [intros; by eapply goroutine_may|done..]|].
         intros h' r Hr res E _ _. by apply (Hr res). }
    all: eapply wp_mono; [apply classifyPredownloaded_explained; intros; by eapply goroutine_may|].
    all: intros h' r _ res _ Hc' Hd'; congruence. }
  intros h' r [(t & -> & Ht & Hex) Hcls]. destruct (good_not cand h Hg) as (Hd & Happ & Hs & Hv & Hp).
  assert (¬ Exists obs_dup t ∧ ¬ Exists obs_append t ∧ ¬ Exists obs_stock t) as (Hd' & Happ' & Hs').
  { split_and!; intros [o [Ho Hx]]%Exists_exists; rewrite Forall_forall in Ht;
      destruct (classify_event_other o (Ht o Ho)) as (? & ? & ?); done. }
  destruct r as [res|v]; simpl.
  2: { apply Exists_app. by right. }
  destruct Hex as [Hp' Hbad]. specialize (Hcls res eq_refl).
  destruct ((Class res <>?s ClassPhoto) && (Class res <>?s "")) eqn:E.
  - right. do 7 right. left. apply Exists_app. right. apply Hbad. bool_hyps. done.
  - eapply wp_mono; [apply stage_append|].
    + rewrite Exists_app. tauto.
    + destruct Hg as (Hq & (c & req & resp & u & -> & Hpr) & Hl & Hb).
      split_and!; [done|by exists c, req, resp, (u ++ t)|done|rewrite Exists_app; tauto..|].
      exists data, mimeType. split; [by apply screened_app|]. right. split_and!; [done|..|done|].
      * intros Ho Hpe. apply Exists_app. left. by apply Hrev.
      * rewrite Exists_app. tauto.
      * rewrite Exists_app. intros [?|Hvt]; [done|]. apply Hbad in Hvt as [H1 H2].
        rewrite (proj2 (String.eqb_neq _ _) H1), (proj2 (String.eqb_neq _ _) H2) in E. done.
    + intros h' r [-> Happ'']. by left.
Qed.

Lemma stage_reverse cand h data mimeType :
  good cand h → screened cand h data mimeType → assessed cand data = LicenseUnknown →
  wp (goroutine cand) h (reverseStage cand data mimeType) (body_post cand).
Proof.
  intros Hg Hscr Ha. apply wp_bind, wp_ReverseCheck.
  { intros Hno. apply stage_classify; [done..| |done]. intros Ho [u Hu]. destruct Hno; congruence. }
  intros _ _. split; [done|]. intros a _.
  set (e := HttpDo (clientOrDefault (HTTPClient cfg)) (reverseRequest cfg ctx (ImgURL cand))).
  assert (quiet (Obs e a) → wp (goroutine cand) (h ++ [Obs e a]) (classifyStage cand data mimeType)
                              (body_post cand)) as Hnext.
  { intros Hq. apply stage_classify; [|by apply screened_app| |done].
    - apply good_app; [done|]. by constructor.
    - intros _ _. apply Exists_app. right. by left. }
  destruct a as [[resp|e0]|v]; simpl.
  - destruct (IsStock (reverseOfResponse resp)) eqn:Es.
    + apply reverseOfResponse_stock in Es.
      assert (Exists obs_stock (h ++ [Obs e (Ok (inl resp))])) as Hst.
      { apply Exists_app. right. left. simpl. eauto. }
      apply wp_emit_stage; [|done]. intros t _. right. do 6 right. left. apply Exists_app. by left.
    + apply Hnext. split_and!; simpl; try tauto.
      intros (_ & resp' & [= <-] & Hst). apply reverseOfResponse_stock in Hst. congruence.
  - apply Hnext. split_and!; simpl; try tauto. by intros (_ & resp & [=] & _).
  - apply Exists_app. right. by left.
Qed.

Lemma stage_assess cand h data mimeType :
  good cand h → screened cand h data mimeType →
  wp (goroutine cand) h (assessStage cand data mimeType) (body_post cand).
Proof.
  intros Hg Hscr. apply wp_bind. unfold assessAndAccept. cbv zeta. fold (assessed cand data).
  destruct (assessed cand data) eqn:Ha; simpl license_eqb; cbv iota.
  - apply wp_bind, wp_emit_stage; [|done]. intros t Ht. apply wp_bind.
    pose proof (good_app cand h t Hg Ht) as Hg'.
    destruct (good_not cand _ Hg') as (Hd & Happ & Hs & Hv & Hp).
    destruct Hg' as (_ & Hpr & Hl & Hb).
    eapply wp_mono; [apply stage_append; [done|]|].
    + split_and!; try done. exists data, mimeType. split; [by apply screened_app|by left].
    + intros h' r [-> Happ']. by left.
  - by apply stage_reverse.
  - apply wp_bind, wp_emit_stage; [|done]. intros t Ht. right. do 5 right. left.
    exists data, mimeType. split; [by apply screened_app|done].
Qed.

(** [downloadForValidation] as the next stage sees it. *)
Lemma wp_downloadForValidation cand h url (Q : history Ev → res (string * string * option Image) → Prop) :
  (∀ t, all_failed cfg url zeroDownloadOpts t → Q (h ++ t) (Ok ("", "", None))) →
  (∀ t data mimeType, Forall (is_get url) t → delivered url t data mimeType →
     Q (h ++ t) (Ok (data, mimeType, image_Decode data))) →
  (∀ h' v, Exists obs_panic h' → Q h' (Panicked v)) →
  wp (goroutine cand) h (downloadForValidation cfg ctx url) Q.
Proof.
  intros Hno Hok Hpan. unfold downloadForValidation. apply wp_bind, wp_Download; [done|done|..].
  - intros t c req resp d Hg Ht Hd. simpl.
    assert (delivered url (t ++ [Obs (HttpDo c req) (Ok (inl resp))]) (Data d) (MIMEType d)) as Hdel
      by (by exists t, c, req, resp, d).
    specialize (Hok _ _ _ Hg Hdel). by destruct (image_Decode (Data d)).
  - intros t c req v _ _. simpl. apply Hpan. rewrite !Exists_app. right. right. by left.
Qed.

(** Right behind the probe, the download and the dedup filter. *)
Lemma stage_download cand probe :
  good cand [probe] → wp (goroutine cand) [probe] (downloadStage cand) (body_post cand).
Proof.
  intros Hg0. apply wp_bind, wp_downloadForValidation; [| |done].
  { intros t Ht. simpl. apply stage_assess.
    - apply (good_app cand [probe]); [done|]. by eapply is_get_is_quiet, Ht.
    - exists probe, t, []. split; [by rewrite app_nil_r|]. by left. }
  intros t data mime Hget Hdel.
  assert (good cand ([probe] ++ t)) as Hg by (by apply good_app; [|eapply is_get_is_quiet]).
  apply wp_bind. destruct (image_Decode data) as [img|] eqn:Ei.
  2: { apply stage_assess; [done|]. exists probe, t, []. split; [by rewrite app_nil_r|].
       right. split; [done|]. congruence. }
  unfold isDuplicate. simpl DifferenceHash. cbv iota.
  apply wp_trigger; [done|]. intros r [b ->]. destruct b.
  - right. do 4 right. left. apply Exists_app. right. by left.
  - apply stage_assess.
    + apply good_app; [done|]. repeat constructor; simpl; try tauto; by intros [=].
    + eexists probe, t, [_]. split; [done|]. right. split; [done|].
      intros img' hash Hi Hh. rewrite Ei in Hi. injection Hi as <-. injection Hh as <-. by eexists.
Qed.

Lemma stage_afterProbe cand probe :
  quiet probe → probed cand [probe] → IsLogoOrBanner (ToLower (ImgURL cand)) = false →
  wp (goroutine cand) [probe] (afterProbe cand) (body_post cand).
Proof.
  intros Hq Hpr Hl. unfold afterProbe, isBlockedByExtraDomains. apply wp_bind.
  assert (preblocked cand = false → wp (goroutine cand) [probe] (downloadStage cand) (body_post cand))
    as Hrest by (intros Hb; apply stage_download; by split_and!; [constructor|..]).
  unfold preblocked in Hrest. destruct (length (ExtraBlockedDomains cfg) =? 0)%nat eqn:E0; simpl in Hrest.
  { by apply Hrest. }
  destruct (license_eqb _ LicenseBlocked) eqn:El; simpl negb; cbv iota; [|by apply Hrest].
  apply wp_bind, wp_emit_stage; [|done]. intros t Ht. right. do 3 right. left.
  unfold preblocked. by rewrite E0, El.
Qed.

(** The body meets its specification, and with the recovery around it so does
    [validateOne]. *)
Lemma wp_validateOne cand :
  wp (goroutine cand) [] (validateOne cfg ctx cand maxResults) (validate_post cand).
Proof.
  unfold validateOne. apply wp_recover.
  assert (wp (goroutine cand) [] (validateBody cfg ctx cand maxResults) (body_post cand)) as Hb.
  { rewrite validateBody_stages. apply wp_bind, wp_ValidateImageURL.
    { intros [Hl|Hp]; simpl; unfold rejected; tauto. }
    intros Hl Hp. split; [done|]. intros [[resp|e]|v] _; simpl.
    - destruct (probeResponse (defaults cfg) resp) eqn:Epr; simpl.
      + apply probeResponse_iff in Epr. apply stage_afterProbe; [|by eexists _, _, resp, []|done].
        split_and!; simpl; try tauto. by intros (Hm & _).
      + right. do 2 right. left. eexists _, _, _, []. split; [done|]. intros resp' [= <-] Hacc.
        apply probeResponse_iff in Hacc. congruence.
    - right. do 2 right. left. eexists _, _, _, []. by split; [done|].
    - by left. }
  eapply wp_mono; [exact Hb|]. intros h [[]|v] Hpost; [done|].
  unfold onRecovered. destruct (OnPanic cfg) eqn:Ho.
  - apply wp_trigger; [done|]. intros [[]|v'] _.
    + right. unfold rejected. do 8 right. apply Exists_app. by left.
    + by eexists h, _, _, v'.
  - right. unfold rejected. tauto.
Qed.

End Spec.

(** (C3) Whatever the environment answers, [validateOne] appends its candidate at
    most once and only on the evidence of [acceptable]: no logo pattern, a probe of
    its URL answered 200 with an image wide enough, no extra blocked domain, a
    download whose image the dedup filter was asked about and called new, and a
    license that is safe, or unknown with the reverse search and the classifier
    asked, as far as configured, and neither speaking against it.  It returns
    without appending only for one of the reasons of [rejected], and the only panic
    that escapes it is one of the caller's panic handler. *)
Theorem validateOne_spec cfg ctx maxResults ans cand :
  wp (goroutine cfg maxResults ans cand) [] (validateOne cfg ctx cand maxResults)
     (validate_post cfg cand).
Proof. apply wp_validateOne. Qed.

End Pipeline.
End Pipeline.
