(* ===== verification/Concurrency.v ===== *)
(** * The goroutine pool of [validateCandidates] (validate_pipeline.go)

    The main loop, the goroutines it starts, the semaphore of three slots, the
    wait group and the shared state ([validated], the hashes of the dedup filter)
    as a step relation.  A step is one action of the main goroutine, or one event
    of one goroutine; the two mutex-protected sections are single steps.  The
    environment answers the other events as the relation [ans] allows. *)

From S2P Require Import Prelude GoStrings Effects Types GoFloat Config Dedup Pipeline.

Local Open Scope Z_scope.

Module Concurrency.
Import Dedup Pipeline.

Definition validationSemaphore : nat := 3.

(** ** State *)

(** A goroutine: not yet through [sem <- struct{}{}]; inside [validateOne]; past
    the deferred [<-sem]; past the deferred [wg.Done()]. *)
Inductive status :=
  | Waiting
  | Running (p : prog Ev unit)
  | Released
  | Finished.

(** The history of events is a record kept for the proofs; no step reads it. *)
Record gor := mkGor { g_cand : ImageCandidate; g_hist : history Ev; g_status : status }.

(** The main goroutine: at the top of the loop; past the check, about to start a
    goroutine; in [wg.Wait()]; returned; killed by an unrecovered panic. *)
Inductive mainpc :=
  | MLoop (rest : list ImageCandidate)
  | MSpawn (c : ImageCandidate) (rest : list ImageCandidate)
  | MWait
  | MReturned (result : list ImageCandidate)
  | MCrashed (v : string).

Record state := mkState {
  main : mainpc;
  pool : list gor;
  sem : nat;
  wg : nat;
  validated : list ImageCandidate;
  hashes : list ImageHash }.

Definition set_main (m : mainpc) (s : state) : state :=
  mkState m (pool s) (sem s) (wg s) (validated s) (hashes s).

Definition set_gor (i : nat) (g : gor) (s : state) : state :=
  mkState (main s) (<[i := g]> (pool s)) (sem s) (wg s) (validated s) (hashes s).

Definition set_sem (n : nat) (s : state) : state :=
  mkState (main s) (pool s) n (wg s) (validated s) (hashes s).

Definition set_wg (n : nat) (s : state) : state :=
  mkState (main s) (pool s) (sem s) n (validated s) (hashes s).

Definition set_validated (l : list ImageCandidate) (s : state) : state :=
  mkState (main s) (pool s) (sem s) (wg s) l (hashes s).

Definition set_hashes (l : list ImageHash) (s : state) : state :=
  mkState (main s) (pool s) (sem s) (wg s) (validated s) l.

(** Goroutine [g] after observing [e] answered by [r], with [p] left to run. *)
Definition observed {X} (g : gor) (e : Ev X) (r : res X) (p : prog Ev unit) : gor :=
  mkGor (g_cand g) (g_hist g ++ [Obs e r]) (Running p).

Definition with_status (g : gor) (st : status) : gor := mkGor (g_cand g) (g_hist g) st.

(** Events the environment answers. *)
Definition external {X} (e : Ev X) : bool :=
  match e with DedupSection _ | AppendSection _ _ => false | _ => true end.

Definition alive (m : mainpc) : bool :=
  match m with MCrashed _ => false | _ => true end.

Section Machine.
Context `{ImageLib} (cfg : Config) (ctx : Ctx) (maxResults : Z).
Context (ans : ∀ X, Ev X → res X → Prop).

(** ** Steps *)

Inductive step (s : state) : state → Prop :=
  | step_end :
      main s = MLoop [] → step s (set_main MWait s)
  | step_enough c rest :
      main s = MLoop (c :: rest) → maxResults ≤ Z.of_nat (length (validated s)) →
      step s (set_main MWait s)
  | step_check c rest :
      main s = MLoop (c :: rest) → Z.of_nat (length (validated s)) < maxResults →
      step s (set_main (MSpawn c rest) s)
  | step_spawn c rest :
      main s = MSpawn c rest →
      step s (mkState (MLoop rest) (pool s ++ [mkGor c [] Waiting]) (sem s) (S (wg s))
                (validated s) (hashes s))
  | step_return :
      main s = MWait → wg s = 0%nat → step s (set_main (MReturned (validated s)) s)
  | step_acquire i g :
      alive (main s) = true → pool s !! i = Some g → g_status g = Waiting →
      (sem s < validationSemaphore)%nat →
      step s (set_sem (S (sem s))
                (set_gor i (with_status g (Running (validateOne cfg ctx (g_cand g) maxResults))) s))
  | step_dedup i g h k dup hashes' :
      alive (main s) = true → pool s !! i = Some g → g_status g = Running (Vis (DedupSection h) k) →
      dedupSection (hashes s) h = (dup, hashes') →
      step s (set_hashes hashes' (set_gor i (observed g (DedupSection h) (Ok dup) (k (Ok dup))) s))
  | step_append i g c m k :
      alive (main s) = true → pool s !! i = Some g → g_status g = Running (Vis (AppendSection c m) k) →
      step s (set_validated (appendSection (validated s) c m)
                (set_gor i (observed g (AppendSection c m) (Ok tt) (k (Ok tt))) s))
  | step_event i g X (e : Ev X) k r :
      alive (main s) = true → pool s !! i = Some g → g_status g = Running (Vis e k) →
      external e = true → ans X e r →
      step s (set_gor i (observed g e r (k r)) s)
  | step_release i g a :
      alive (main s) = true → pool s !! i = Some g → g_status g = Running (Ret a) →
      step s (set_sem (pred (sem s)) (set_gor i (with_status g Released) s))
  | step_finish i g :
      alive (main s) = true → pool s !! i = Some g → g_status g = Released →
      step s (set_wg (pred (wg s)) (set_gor i (with_status g Finished) s))
  | step_crash i g v :
      alive (main s) = true → pool s !! i = Some g → g_status g = Running (Throw v) →
      step s (set_main (MCrashed v) s).

Definition init (candidates : list ImageCandidate) : state :=
  mkState (MLoop candidates) [] 0 0 [] [].

Inductive reachable (candidates : list ImageCandidate) : state → Prop :=
  | reach_init : reachable candidates (init candidates)
  | reach_step s s' : reachable candidates s → step s s' → reachable candidates s'.

(** [Config.validateCandidates]: a result some schedule and some behaviour of the
    environment lead to. *)
Definition validateCandidates (candidates result : list ImageCandidate) : Prop :=
  ∃ s, reachable candidates s ∧ main s = MReturned result.

(** ** An executable scheduler *)

Inductive choice := CMain | CGor (i : nat).

Definition step_main (s : state) : option state :=
  match main s with
  | MLoop [] => Some (set_main MWait s)
  | MLoop (c :: rest) =>
      if maxResults <=? Z.of_nat (length (validated s)) then Some (set_main MWait s)
      else Some (set_main (MSpawn c rest) s)
  | MSpawn c rest =>
      Some (mkState (MLoop rest) (pool s ++ [mkGor c [] Waiting]) (sem s) (S (wg s))
              (validated s) (hashes s))
  | MWait => if (wg s =? 0)%nat then Some (set_main (MReturned (validated s)) s) else None
  | _ => None
  end.

Definition step_gor (env : ∀ X, Ev X → res X) (i : nat) (s : state) : option state :=
  g ← pool s !! i;
  match g_status g with
  | Waiting =>
      if (sem s <? validationSemaphore)%nat
      then Some (set_sem (S (sem s))
             (set_gor i (with_status g (Running (validateOne cfg ctx (g_cand g) maxResults))) s))
      else None
  | Running (Ret _) => Some (set_sem (pred (sem s)) (set_gor i (with_status g Released) s))
  | Running (Throw v) => Some (set_main (MCrashed v) s)
  | Running (Vis e k) =>
      Some (match e in Ev X return (res X → prog Ev unit) → state with
            | DedupSection h => λ k,
                let '(dup, hashes') := dedupSection (hashes s) h in
                set_hashes hashes' (set_gor i (observed g (DedupSection h) (Ok dup) (k (Ok dup))) s)
            | AppendSection c m => λ k,
                set_validated (appendSection (validated s) c m)
                  (set_gor i (observed g (AppendSection c m) (Ok tt) (k (Ok tt))) s)
            | e' => λ k, set_gor i (observed g e' (env _ e') (k (env _ e'))) s
            end k)
  | Released => Some (set_wg (pred (wg s)) (set_gor i (with_status g Finished) s))
  | Finished => None
  end.

Fixpoint schedule (env : ∀ X, Ev X → res X) (l : list choice) (s : state) : option state :=
  match l with
  | [] => Some s
  | c :: l' =>
      if alive (main s)
      then s' ← match c with CMain => step_main s | CGor i => step_gor env i s end; schedule env l' s'
      else None
  end.

(** The scheduler makes steps of the relation only. *)
Lemma step_main_sound s s' : step_main s = Some s' → step s s'.
Proof.
  unfold step_main. destruct (main s) as [[|c rest]|c rest| | |] eqn:Em; try done.
  - intros [= <-]. by apply step_end.
  - case_bool; intros [= <-]; bool_hyps; [by eapply step_enough|by eapply step_check].
  - intros [= <-]. by apply step_spawn.
  - destruct (Nat.eqb_spec (wg s) 0); intros [= <-]. by apply step_return.
Qed.

Lemma step_gor_sound env i s s' :
  (∀ X (e : Ev X), ans X e (env X e)) → alive (main s) = true →
  step_gor env i s = Some s' → step s s'.
Proof.
  intros Henv Ha. unfold step_gor. destruct (pool s !! i) as [g|] eqn:Ei; [|done]. simpl.
  destruct (g_status g) as [|[a|v|X e k]| |] eqn:Es; try done.
  - destruct (Nat.ltb_spec (sem s) validationSemaphore); intros [= <-]. by apply step_acquire.
  - intros [= <-]. by eapply step_release.
  - intros [= <-]. by eapply step_crash.
  - destruct e; intros [= <-]; try (by apply step_event).
    + destruct (dedupSection (hashes s) h) as [dup hs] eqn:Ed. by eapply step_dedup.
    + by apply step_append.
  - intros [= <-]. by apply step_finish.
Qed.

Lemma schedule_reachable env l cands s s' :
  (∀ X (e : Ev X), ans X e (env X e)) → reachable cands s →
  schedule env l s = Some s' → reachable cands s'.
Proof.
  intros Henv. revert s; induction l as [|c l IH]; intros s Hr; simpl; [by intros [= <-]|].
  destruct (alive (main s)) eqn:Ha; [|done].
  destruct c as [|i]; intros H1.
  - destruct (step_main s) as [s1|] eqn:E; [|done]. apply (IH s1); [|done].
    eapply reach_step; [done|]. by apply step_main_sound.
  - destruct (step_gor env i s) as [s1|] eqn:E; [|done]. apply (IH s1); [|done].
    eapply reach_step; [done|]. by eapply step_gor_sound.
Qed.

(** ** The invariant *)

Definition appended (g : gor) : Prop := Exists obs_append (g_hist g).

#[local] Instance obs_append_dec (o : obs Ev) : Decision (obs_append o).
Proof. destruct o as [X e r]. destruct e; simpl; apply _. Defined.

#[local] Instance appended_dec g : Decision (appended g).
Proof. unfold appended. apply _. Defined.

Definition running (g : gor) : Prop := match g_status g with Running _ => True | _ => False end.
Definition unfinished (g : gor) : Prop := match g_status g with Finished => False | _ => True end.

#[local] Instance running_dec g : Decision (running g).
Proof. unfold running. destruct (g_status g); apply _. Defined.

#[local] Instance unfinished_dec g : Decision (unfinished g).
Proof. unfold unfinished. destruct (g_status g); apply _. Defined.

(** The hashes the filter stored for a goroutine. *)
Definition kept_obs (o : obs Ev) : list ImageHash :=
  match o with
  | Obs e r =>
      match e in Ev X return res X → list ImageHash with
      | DedupSection h => λ a, match a with Ok false => [h] | _ => [] end
      | _ => λ _, []
      end r
  end.

Definition kept (g : gor) : list ImageHash := mjoin (kept_obs <$> g_hist g).

(** An answer the environment was allowed to give. *)
Definition obs_allowed (o : obs Ev) : Prop :=
  match o with Obs e r => external e = true → ans _ e r end.

(** The goroutine appended its candidate, and what it had seen up to then is the
    evidence [acceptable] asks for. *)
Definition justified (g : gor) : Prop :=
  ∃ t r u, g_hist g = t ++ Obs (AppendSection (g_cand g) maxResults) r :: u ∧
    acceptable cfg (g_cand g) t.

(** What holds of one goroutine: its remaining program meets the specification
    from the history so far, an append was made on acceptable evidence, and what
    it observed is what the environment may answer. *)
Definition gor_inv (g : gor) : Prop :=
  match g_status g with
  | Waiting => g_hist g = []
  | Running p =>
      wp (goroutine cfg maxResults ans (g_cand g)) (g_hist g) p (validate_post cfg (g_cand g))
  | Released | Finished => validate_post cfg (g_cand g) (g_hist g) (Ok tt)
  end ∧
  (appended g → justified g) ∧ Forall obs_allowed (g_hist g).

(** How far the main goroutine got. *)
Definition main_inv (candidates : list ImageCandidate) (s : state) : Prop :=
  match main s with
  | MLoop rest => (g_cand <$> pool s) ++ rest = candidates
  | MSpawn c rest => (g_cand <$> pool s) ++ c :: rest = candidates
  | MWait =>
      ∃ rest, (g_cand <$> pool s) ++ rest = candidates ∧
        (rest = [] ∨ maxResults ≤ Z.of_nat (length (validated s)))
  | MReturned result =>
      result = validated s ∧ Forall (λ g, g_status g = Finished) (pool s) ∧
      ∃ rest, (g_cand <$> pool s) ++ rest = candidates ∧
        (rest = [] ∨ maxResults ≤ Z.of_nat (length (validated s)))
  | MCrashed _ => Exists (λ g, handler_panicked (g_hist g)) (pool s)
  end.

(** The shared slice against the goroutines that appended. *)
Definition accepted (s : state) : list ImageCandidate := g_cand <$> filter appended (pool s).

Definition validated_inv (s : state) : Prop :=
  Z.of_nat (length (validated s)) ≤ Z.max 0 maxResults ∧
  validated s ⊆+ accepted s ∧
  (Z.of_nat (length (validated s)) < maxResults → validated s ≡ₚ accepted s).

Record Inv (candidates : list ImageCandidate) (s : state) : Prop := {
  inv_main : main_inv candidates s;
  inv_sem : sem s = length (filter running (pool s));
  inv_cap : (sem s ≤ validationSemaphore)%nat;
  inv_wg : wg s = length (filter unfinished (pool s));
  inv_gors : Forall gor_inv (pool s);
  inv_validated : validated_inv s;
  inv_hashes : dedup_inv (hashes s);
  inv_kept : hashes s ≡ₚ mjoin (kept <$> pool s) }.

(** ** Preservation *)

Definition b2n (P : Prop) `{Decision P} : nat := if decide P then 1 else 0.

(** The two counters by status. *)
Lemma b2n_running g :
  b2n (running g) = match g_status g with Running _ => 1%nat | _ => 0%nat end.
Proof.
  unfold b2n. destruct (decide (running g)) as [Hr|Hr]; unfold running in Hr;
    destruct (g_status g); done.
Qed.

Lemma b2n_unfinished g :
  b2n (unfinished g) = match g_status g with Finished => 0%nat | _ => 1%nat end.
Proof.
  unfold b2n. destruct (decide (unfinished g)) as [Hr|Hr]; unfold unfinished in Hr;
    destruct (g_status g); done.
Qed.

Lemma accepted_insert s i g g' :
  pool s !! i = Some g → g_cand g' = g_cand g →
  (appended g' ↔ appended g) →
  g_cand <$> filter appended (<[i := g']> (pool s)) ≡ₚ accepted s.
Proof.
  intros Hi Hc Ha. destruct (insert_split (pool s) i g g' Hi) as (k & H1 & H2).
  unfold accepted. rewrite H2, H1, !filter_cons.
  destruct (decide (appended g')), (decide (appended g)); try tauto; simpl; by rewrite ?Hc.
Qed.

Lemma accepted_insert_new s i g g' :
  pool s !! i = Some g → g_cand g' = g_cand g → ¬ appended g → appended g' →
  g_cand <$> filter appended (<[i := g']> (pool s)) ≡ₚ g_cand g :: accepted s.
Proof.
  intros Hi Hc Hn Ha. destruct (insert_split (pool s) i g g' Hi) as (k & H1 & H2).
  unfold accepted. rewrite H2, H1, !filter_cons.
  rewrite decide_True, decide_False by done. simpl. by rewrite Hc.
Qed.

(** One goroutine moves: what has to be checked. *)
Lemma Inv_update cands s s' i g g' :
  Inv cands s → pool s !! i = Some g → g_status g ≠ Finished → alive (main s) = true →
  main s' = main s → pool s' = <[i := g']> (pool s) → g_cand g' = g_cand g → gor_inv g' →
  (sem s' + b2n (running g) = sem s + b2n (running g'))%nat →
  (sem s' ≤ validationSemaphore)%nat →
  (wg s' + b2n (unfinished g) = wg s + b2n (unfinished g'))%nat →
  validated_inv s' → (length (validated s) ≤ length (validated s'))%nat →
  dedup_inv (hashes s') →
  (∃ new, kept g' = kept g ++ new ∧ hashes s' = hashes s ++ new) → Inv cands s'.
Proof.
  intros HI Hi Hnf Hal Hm Hp Hc Hg Hsem Hcap Hwg Hv Hvl Hh (new & Hk & Hhs).
  assert (g_cand <$> pool s' = g_cand <$> pool s) as Hcands.
  { rewrite Hp, list_fmap_insert. rewrite Hc. apply list_insert_id. by rewrite list_lookup_fmap, Hi. }
  split; try done.
  - pose proof (inv_main _ _ HI) as HM. unfold main_inv in *. rewrite Hm, Hcands.
    destruct (main s) as [| | |result|]; try done.
    + destruct HM as (rest & ? & [?|?]); exists rest; split; auto. right. lia.
    + destruct HM as (_ & Hfin & _). rewrite Forall_forall in Hfin. exfalso. apply Hnf, Hfin.
      by eapply list_elem_of_lookup_2.
  - pose proof (length_filter_insert running (pool s) i g g' Hi) as Hl.
    rewrite <-Hp, <-(inv_sem _ _ HI) in Hl. unfold b2n in *. lia.
  - pose proof (length_filter_insert unfinished (pool s) i g g' Hi) as Hl.
    rewrite <-Hp, <-(inv_wg _ _ HI) in Hl. unfold b2n in *. lia.
  - rewrite Hp. apply Forall_insert; [apply HI|done].
  - rewrite Hhs, (inv_kept _ _ HI), Hp. destruct (insert_split (pool s) i g g' Hi) as (k & H1 & H2).
    rewrite H2, H1. simpl. rewrite Hk, <-!app_assoc. f_equiv. apply Permutation_app_comm.
Qed.

(** A step of a goroutine that leaves the shared slice alone. *)
Lemma validated_inv_same s s' i g g' :
  validated_inv s → pool s !! i = Some g → pool s' = <[i := g']> (pool s) →
  g_cand g' = g_cand g → (appended g' ↔ appended g) → validated s' = validated s →
  validated_inv s'.
Proof.
  intros (H1 & H2 & H3) Hi Hp Hc Ha Hv. unfold validated_inv, accepted.
  rewrite Hv, Hp. rewrite (accepted_insert s i g g') by done. auto.
Qed.

Lemma appended_observed {X} g (e : Ev X) r p :
  external e = true → appended (observed g e r p) ↔ appended g.
Proof.
  intros He. unfold appended. simpl. rewrite Exists_app, Exists_cons, Exists_nil.
  destruct e; simpl in *; done || tauto.
Qed.

(** A goroutine observes an answer: the rest of its program meets the
    specification from the longer history. *)
Lemma gor_inv_observed {X} g (e : Ev X) k r :
  gor_inv g → g_status g = Running (Vis e k) →
  answers (goroutine cfg maxResults ans (g_cand g)) (g_hist g) e r →
  (external e = true → ans X e r) → gor_inv (observed g e r (k r)).
Proof.
  intros (Hst & Hacc & Hal) Hs Hr Hext. unfold gor_inv in *. rewrite Hs in Hst.
  destruct Hst as [Hmay Hk]. simpl. split_and!; [by apply Hk| |].
  - intros Happ. unfold appended in Happ. simpl in Happ.
    apply Exists_app in Happ as [Happ|Happ].
    + destruct (Hacc Happ) as (t & r' & u & E & Ht). exists t, r', (u ++ [Obs e r]).
      simpl. rewrite E, <-app_assoc. done.
    + apply Exists_cons in Happ as [Happ|Happ]; [|by inversion Happ].
      destruct e; try done. destruct Hmay as (-> & -> & _ & ?). by exists (g_hist g), r, [].
  - apply Forall_app. split; [done|]. by repeat constructor.
Qed.

Lemma dedup_answer cand h hash b : answers (goroutine cfg maxResults ans cand) h (DedupSection hash) (Ok b).
Proof. by exists b. Qed.

Lemma event_answer {X} cand h (e : Ev X) r :
  external e = true → ans X e r → answers (goroutine cfg maxResults ans cand) h e r.
Proof. by destruct e. Qed.

(** The append: the goroutine had not appended before, and appends its own
    candidate under the caller's limit. *)
Lemma validated_inv_append s s' i g c m k :
  validated_inv s → gor_inv g → pool s !! i = Some g →
  g_status g = Running (Vis (AppendSection c m) k) →
  s' = set_validated (appendSection (validated s) c m)
         (set_gor i (observed g (AppendSection c m) (Ok tt) (k (Ok tt))) s) →
  validated_inv s'.
Proof.
  intros (H1 & H2 & H3) (Hst & _ & _) Hi Hs ->. rewrite Hs in Hst.
  destruct Hst as [(-> & -> & Hn & _) _]. unfold validated_inv, accepted. simpl.
  rewrite (accepted_insert_new s i g) by
    (done || (unfold appended; simpl; apply Exists_app; right; by left)).
  unfold appendSection. destruct (Z.ltb_spec (Z.of_nat (length (validated s))) maxResults) as [Hlt|Hge].
  - rewrite length_app. simpl. specialize (H3 Hlt). split_and!; [lia| |].
    + rewrite <-Permutation_cons_append. by apply submseteq_skip.
    + intros _. rewrite <-Permutation_cons_append. by constructor.
  - split_and!; [done|by apply submseteq_cons|lia].
Qed.

Lemma gor_at cands s i g : Inv cands s → pool s !! i = Some g → gor_inv g.
Proof. intros HI Hi. pose proof (inv_gors _ _ HI) as Hg. by eapply Forall_lookup_1. Qed.

(** Steps of the main goroutine. *)
Lemma Inv_set_main cands s m :
  Inv cands s → main_inv cands (set_main m s) → Inv cands (set_main m s).
Proof. intros [] HM. by split. Qed.

Lemma Inv_spawn cands s c rest :
  Inv cands s → main s = MSpawn c rest →
  Inv cands (mkState (MLoop rest) (pool s ++ [mkGor c [] Waiting]) (sem s) (S (wg s))
               (validated s) (hashes s)).
Proof.
  intros HI Hm. pose proof (inv_main _ _ HI) as HM. unfold main_inv in HM. rewrite Hm in HM.
  destruct HI as [_ Hsem Hcap Hwg Hg Hv Hh Hk]. split; simpl; try done.
  - unfold main_inv. simpl. by rewrite fmap_app, <-app_assoc.
  - rewrite filter_app, length_app. simpl. lia.
  - rewrite filter_app, length_app. simpl. lia.
  - apply Forall_app. split; [done|]. apply Forall_singleton.
    split_and!; [done| |constructor]. intros Ha. by inversion Ha.
  - destruct Hv as (H1 & H2 & H3). unfold validated_inv, accepted in *. simpl.
    rewrite filter_app. simpl. by rewrite app_nil_r.
  - rewrite fmap_app, join_app, Hk. simpl. by rewrite !app_nil_r.
Qed.

(** Steps of a goroutine. *)
Lemma Inv_acquire cands s i g :
  Inv cands s → alive (main s) = true → pool s !! i = Some g → g_status g = Waiting →
  (sem s < validationSemaphore)%nat →
  Inv cands (set_sem (S (sem s))
    (set_gor i (with_status g (Running (validateOne cfg ctx (g_cand g) maxResults))) s)).
Proof.
  intros HI Ha Hi Hs Hlt. pose proof (gor_at _ _ _ _ HI Hi) as (Hst & Hacc & Hal).
  rewrite Hs in Hst.
  eapply (Inv_update cands s _ i g); eauto; try done; try (by rewrite Hs); simpl.
  - split_and!; [|done|done]. simpl. rewrite Hst. apply wp_validateOne.
  - rewrite !b2n_running, Hs. simpl. lia.
  - rewrite !b2n_unfinished, Hs. simpl. lia.
  - by eapply (validated_inv_same s); [apply HI|..].
  - apply HI.
  - exists []. by rewrite !app_nil_r.
Qed.

Lemma Inv_observed {X} cands s s' i g (e : Ev X) k r :
  Inv cands s → alive (main s) = true → pool s !! i = Some g → g_status g = Running (Vis e k) →
  answers (goroutine cfg maxResults ans (g_cand g)) (g_hist g) e r →
  (external e = true → ans X e r) →
  main s' = main s → pool s' = <[i := observed g e r (k r)]> (pool s) → sem s' = sem s → wg s' = wg s →
  validated_inv s' → (length (validated s) ≤ length (validated s'))%nat → dedup_inv (hashes s') →
  hashes s' = hashes s ++ kept_obs (Obs e r) →
  Inv cands s'.
Proof.
  intros HI Ha Hi Hs Hr Hext Hm Hp Hsem Hwg Hv Hl Hh Hk.
  pose proof (gor_at _ _ _ _ HI Hi) as Hg.
  eapply (Inv_update cands s s' i g); eauto; try done; try (by rewrite Hs).
  - by apply gor_inv_observed.
  - rewrite !b2n_running, Hs, Hsem. simpl. done.
  - rewrite Hsem. apply HI.
  - rewrite !b2n_unfinished, Hs, Hwg. simpl. done.
  - exists (kept_obs (Obs e r)). split; [|done].
    unfold kept. simpl. rewrite fmap_app, join_app. simpl. by rewrite app_nil_r.
Qed.

Lemma Inv_release cands s i g a :
  Inv cands s → alive (main s) = true → pool s !! i = Some g → g_status g = Running (Ret a) →
  Inv cands (set_sem (pred (sem s)) (set_gor i (with_status g Released) s)).
Proof.
  intros HI Ha Hi Hs. destruct a. pose proof (gor_at _ _ _ _ HI Hi) as (Hst & Hacc & Hal).
  rewrite Hs in Hst.
  assert (0 < sem s)%nat as Hpos.
  { rewrite (inv_sem _ _ HI). eapply length_filter_pos; [exact Hi|]. unfold running. by rewrite Hs. }
  eapply (Inv_update cands s _ i g); eauto; try done; try (by rewrite Hs); simpl.
  - rewrite !b2n_running, Hs. simpl. lia.
  - pose proof (inv_cap _ _ HI). lia.
  - rewrite !b2n_unfinished, Hs. simpl. lia.
  - by eapply (validated_inv_same s); [apply HI|..].
  - apply HI.
  - exists []. by rewrite !app_nil_r.
Qed.

Lemma Inv_finish cands s i g :
  Inv cands s → alive (main s) = true → pool s !! i = Some g → g_status g = Released →
  Inv cands (set_wg (pred (wg s)) (set_gor i (with_status g Finished) s)).
Proof.
  intros HI Ha Hi Hs. pose proof (gor_at _ _ _ _ HI Hi) as (Hst & Hacc & Hal). rewrite Hs in Hst.
  assert (0 < wg s)%nat as Hpos.
  { rewrite (inv_wg _ _ HI). eapply length_filter_pos; [exact Hi|]. unfold unfinished. by rewrite Hs. }
  eapply (Inv_update cands s _ i g); eauto; try done; try (by rewrite Hs); simpl.
  - rewrite !b2n_running, Hs. simpl. lia.
  - apply HI.
  - rewrite !b2n_unfinished, Hs. simpl. lia.
  - by eapply (validated_inv_same s); [apply HI|..].
  - apply HI.
  - exists []. by rewrite !app_nil_r.
Qed.

Lemma Inv_init cands : Inv cands (init cands).
Proof.
  split; simpl; try done; [lia|]. split_and!; simpl; [lia|done|done].
Qed.

Lemma Inv_step cands s s' : Inv cands s → step s s' → Inv cands s'.
Proof.
  intros HI Hstep. pose proof (inv_main _ _ HI) as HM. unfold main_inv in HM.
  destruct Hstep as [Hm|c rest Hm Hge|c rest Hm Hlt|c rest Hm|Hm Hwg|i g Ha Hi Hs Hlt
    |i g h k dup hs Ha Hi Hs Hd|i g c m k Ha Hi Hs|i g X e k r Ha Hi Hs He Hr|i g a Ha Hi Hs
    |i g Ha Hi Hs|i g v Ha Hi Hs].
  - apply Inv_set_main; [done|]. rewrite Hm in HM. unfold main_inv. simpl. eauto.
  - apply Inv_set_main; [done|]. rewrite Hm in HM. unfold main_inv. simpl. eauto.
  - apply Inv_set_main; [done|]. rewrite Hm in HM. done.
  - by apply Inv_spawn.
  - apply Inv_set_main; [done|]. rewrite Hm in HM. unfold main_inv. simpl. split_and!; [done| |done].
    rewrite (inv_wg _ _ HI) in Hwg. apply nil_length_inv in Hwg.
    rewrite Forall_forall. intros g Hg. destruct (g_status g) eqn:Es; try done;
      assert (g ∈ filter unfinished (pool s)) as Hin
        by (apply list_elem_of_filter; unfold unfinished; rewrite Es; done);
      rewrite Hwg in Hin; by apply not_elem_of_nil in Hin.
  - by apply Inv_acquire.
  - eapply (Inv_observed cands s _ i g); eauto; simpl; try done.
    + by exists dup.
    + by eapply (validated_inv_same s); [apply HI|..]; try done; unfold appended; simpl;
        rewrite Exists_app, Exists_cons, Exists_nil; simpl; tauto.
    + pose proof (dedupSection_inv (hashes s) h (inv_hashes _ _ HI)) as Hh. by rewrite Hd in Hh.
    + destruct (dedupSection_cases (hashes s) h) as [(_ & _ & _ & E)|[_ E]];
        rewrite E in Hd; injection Hd as <- <-; simpl; by rewrite ?app_nil_r.
  - eapply (Inv_observed cands s _ i g (AppendSection c m)); eauto; simpl; try done.
    + eapply (validated_inv_append s); eauto; [apply HI|by eapply gor_at].
    + unfold appendSection. case_bool; rewrite ?length_app; lia.
    + apply HI.
    + by rewrite app_nil_r.
  - eapply (Inv_observed cands s _ i g); eauto; simpl; try done.
    + exact (event_answer (g_cand g) (g_hist g) e r He Hr).
    + eapply (validated_inv_same s); [apply HI|done..| |done]. by apply appended_observed.
    + apply HI.
    + by destruct e; simpl; rewrite ?app_nil_r.
  - by eapply Inv_release.
  - by apply Inv_finish.
  - apply Inv_set_main; [done|]. unfold main_inv. simpl. apply Exists_exists. exists g.
    split; [by eapply list_elem_of_lookup_2|].
    pose proof (gor_at _ _ _ _ HI Hi) as (Hst & _). by rewrite Hs in Hst.
Qed.

Lemma reachable_Inv cands s : reachable cands s → Inv cands s.
Proof. induction 1; [apply Inv_init|by eapply Inv_step]. Qed.

(** ** Termination *)

(** [moves st' st]: a goroutine in status [st] can go to [st']. *)
Definition moves (st' st : status) : Prop :=
  match st with
  | Waiting => ∃ p, st' = Running p
  | Running (Vis e k) => ∃ r, st' = Running (k r)
  | Running (Ret _) => st' = Released
  | Released => st' = Finished
  | _ => False
  end.

Lemma moves_wf st : Acc moves st.
Proof.
  assert (Acc moves Finished) as Hf by (by constructor).
  assert (Acc moves Released) as Hr by (constructor; by intros st' ->).
  assert (∀ p, Acc moves (Running p)) as Hp.
  { induction p as [a|v|X e k IH]; constructor; intros st' Hm; simpl in Hm.
    - by subst.
    - done.
    - destruct Hm as [r ->]. apply IH. }
  destruct st; [constructor; by intros st' [p ->]|done..].
Qed.

(** One goroutine of the pool moves. *)
Definition gor_moves (g' g : gor) : Prop := moves (g_status g') (g_status g).
Definition pool_moves : list gor → list gor → Prop := list_moves gor_moves.

Lemma pool_moves_wf l : Acc pool_moves l.
Proof. apply list_moves_wf. intros g. apply (Acc_preimage g_status moves), moves_wf. Qed.

(** The steps the main goroutine has left. *)
Definition main_left (m : mainpc) : nat :=
  match m with
  | MLoop rest => 2 * length rest + 3
  | MSpawn _ rest => 2 * length rest + 4
  | MWait => 2
  | MReturned _ => 1
  | MCrashed _ => 0
  end.

(** Every step shortens what the main goroutine has left, or leaves it and moves
    one goroutine. *)
Lemma step_decreases s s' :
  step s s' →
  (main_left (main s') < main_left (main s))%nat ∨
  main s' = main s ∧ pool_moves (pool s') (pool s).
Proof.
  destruct 1 as [Hm|c rest Hm Hge|c rest Hm Hlt|c rest Hm|Hm Hwg|i g Ha Hi Hs Hlt
    |i g h k dup hs Ha Hi Hs Hd|i g c m k Ha Hi Hs|i g X e k r Ha Hi Hs He Hr|i g a Ha Hi Hs
    |i g Ha Hi Hs|i g v Ha Hi Hs]; simpl; try (left; rewrite Hm; simpl; lia).
  all: try (right; split; [done|]; eexists i, g, _; split_and!; [done|done|]; unfold gor_moves; rewrite Hs; simpl; eauto).
  left. destruct (main s); simpl in *; try done; lia.
Qed.

Lemma step_wf s : Acc (λ s' s, step s s') s.
Proof.
  remember (main_left (main s)) as n eqn:En. revert s En.
  induction n as [n IHn] using lt_wf_ind. intros s ->.
  remember (pool s) as l eqn:El. revert s El IHn.
  induction (pool_moves_wf l) as [l _ IHl]. intros s -> IHn.
  constructor. intros s' Hstep. destruct (step_decreases s s' Hstep) as [Hlt|[Hm Hp]].
  - by eapply IHn.
  - eapply IHl; [exact Hp|done|]. by rewrite Hm.
Qed.

(** ** Progress *)

Definition final (s : state) : Prop :=
  match main s with MReturned _ | MCrashed _ => True | _ => False end.

(** The environment answers every request (deadlines see to that). *)
Definition responsive : Prop := ∀ X (e : Ev X), external e = true → ∃ r, ans X e r.

(** A goroutine inside [validateOne] can always go on. *)
Lemma running_progress s i g p :
  responsive → alive (main s) = true → pool s !! i = Some g → g_status g = Running p →
  ∃ s', step s s'.
Proof.
  intros Hans Ha Hi Hs. destruct p as [a|v|X e k].
  - eexists. by eapply step_release.
  - eexists. by eapply step_crash.
  - destruct (external e) eqn:He.
    + destruct (Hans X e He) as [r Hr]. eexists. by eapply step_event.
    + destruct e; try done.
      * destruct (dedupSection (hashes s) h) as [dup hs] eqn:Ed. eexists. by eapply step_dedup.
      * eexists. by eapply step_append.
Qed.

Lemma filter_nonempty {A} (P : A → Prop) `{∀ x, Decision (P x)} (l : list A) :
  length (filter P l) ≠ 0%nat → ∃ i x, l !! i = Some x ∧ P x.
Proof.
  destruct (filter P l) as [|x k] eqn:E; [done|]. intros _.
  assert (x ∈ filter P l) as Hx by (rewrite E; constructor).
  apply list_elem_of_filter in Hx as [HP [i Hi]%list_elem_of_lookup]. eauto.
Qed.

(** No reachable state is stuck: while the main goroutine waits, some goroutine
    can move, since a full semaphore means three goroutines are running. *)
Lemma Inv_progress cands s :
  responsive → Inv cands s → final s ∨ ∃ s', step s s'.
Proof.
  intros Hans HI. unfold final. destruct (main s) as [[|c rest]|c rest| |result|v] eqn:Em; auto; right.
  - eexists. by apply step_end.
  - destruct (decide (Z.of_nat (length (validated s)) < maxResults)).
    + eexists. by eapply step_check.
    + eexists. eapply step_enough; [done|lia].
  - eexists. by apply step_spawn.
  - assert (alive (main s) = true) as Ha by (by rewrite Em).
    destruct (decide (wg s = 0%nat)) as [Hw|Hw]; [eexists; by apply step_return|].
    rewrite (inv_wg _ _ HI) in Hw. apply filter_nonempty in Hw as (i & g & Hi & Hu).
    unfold unfinished in Hu. destruct (g_status g) as [|p| |] eqn:Es; [| |eexists; by eapply step_finish|done].
    + destruct (decide (sem s < validationSemaphore)%nat); [eexists; by eapply step_acquire|].
      assert (sem s ≠ 0%nat) as Hn by (unfold validationSemaphore in *; lia).
      rewrite (inv_sem _ _ HI) in Hn. apply filter_nonempty in Hn as (j & g' & Hj & Hr).
      unfold running in Hr. destruct (g_status g') as [|p'| |] eqn:Es'; try done.
      by eapply running_progress.
    + by eapply running_progress.
Qed.

(** From every reachable state the run can be completed. *)
Lemma completes cands s :
  responsive → reachable cands s → ∃ s', reachable cands s' ∧ final s'.
Proof.
  intros Hans. induction (step_wf s) as [s _ IH]. intros Hr.
  destruct (Inv_progress cands s Hans (reachable_Inv cands s Hr)) as [Hf|[s' Hs]]; [by eauto|].
  eapply IH; [exact Hs|]. by eapply reach_step.
Qed.

(** The caller's panic handler does not panic itself. *)
Definition calm : Prop := ∀ tag r v, ¬ ans unit (OnPanicCall tag r) (Panicked v).

Lemma Inv_no_crash cands s v : calm → Inv cands s → main s ≠ MCrashed v.
Proof.
  intros Hcalm HI Hm. pose proof (inv_main _ _ HI) as HM. unfold main_inv in HM. rewrite Hm in HM.
  apply Exists_exists in HM as (g & Hg & t & tag & r & v' & Hh).
  pose proof (inv_gors _ _ HI) as Hgs. rewrite Forall_forall in Hgs.
  destruct (Hgs g Hg) as (_ & _ & Hal). rewrite Hh in Hal. apply Forall_app in Hal as [_ Hal].
  rewrite Forall_singleton in Hal. by apply (Hcalm tag r v'), Hal.
Qed.

(** ** Properties *)

(** (C7) At every moment of every run the semaphore counts exactly the goroutines
    inside [validateOne], at most three; the wait group counts those not yet done;
    the goroutines work on a prefix of the candidates, in their order; and the
    shared slice never exceeds the limit. *)
Theorem pool_invariant cands s :
  reachable cands s → alive (main s) = true →
  sem s = length (filter running (pool s)) ∧ (sem s ≤ 3)%nat ∧
  wg s = length (filter unfinished (pool s)) ∧
  (∃ rest, (g_cand <$> pool s) ++ rest = cands) ∧
  Z.of_nat (length (validated s)) ≤ Z.max 0 maxResults.
Proof.
  intros HI%reachable_Inv Ha. destruct HI as [HM Hs Hc Hw _ (Hv & _) _ _]. split_and!; try done.
  unfold main_inv in HM. destruct (main s); eauto; naive_solver.
Qed.

(** *** The fate of every goroutine *)

(** The hashes a goroutine was told are duplicates. *)
Definition dup_obs (o : obs Ev) : list ImageHash :=
  match o with
  | Obs e r =>
      match e in Ev X return res X → list ImageHash with
      | DedupSection h => λ a, match a with Ok true => [h] | _ => [] end
      | _ => λ _, []
      end r
  end.

Definition duplicates (g : gor) : list ImageHash := mjoin (dup_obs <$> g_hist g).

(** A hash called a duplicate is near a stored one. *)
Definition dups_inv (s : state) : Prop :=
  ∀ g h, g ∈ pool s → h ∈ duplicates g → ∃ h', h' ∈ hashes s ∧ closeTo h h' = true.

Lemma duplicates_observed {X} g (e : Ev X) r p :
  duplicates (observed g e r p) = duplicates g ++ dup_obs (Obs e r).
Proof. unfold duplicates. simpl. rewrite fmap_app, join_app. simpl. by rewrite app_nil_r. Qed.

(** One goroutine is replaced by one that was told at most what it or the stored
    hashes explain. *)
Lemma dups_inv_update s s' i g g' :
  dups_inv s → pool s !! i = Some g → pool s' = <[i := g']> (pool s) → hashes s ⊆ hashes s' →
  (∀ h, h ∈ duplicates g' → h ∈ duplicates g ∨ ∃ h', h' ∈ hashes s' ∧ closeTo h h' = true) →
  dups_inv s'.
Proof.
  intros HI Hi Hp Hsub Hg g0 h Hin Hh. rewrite Hp in Hin.
  assert (∀ g1, g1 ∈ pool s → h ∈ duplicates g1 → ∃ h', h' ∈ hashes s' ∧ closeTo h h' = true) as Hold.
  { intros g1 H1 H2. destruct (HI g1 h H1 H2) as (h' & ? & ?). exists h'. split; [by apply Hsub|done]. }
  apply list_elem_of_lookup in Hin as [j Hj].
  apply list_lookup_insert_Some in Hj as [(<- & <- & _)|(_ & Hj)].
  - destruct (Hg h Hh) as [Hd|Hd]; [|done]. eapply Hold; [by eapply list_elem_of_lookup_2|done].
  - eapply Hold; [by eapply list_elem_of_lookup_2|done].
Qed.

Lemma dups_inv_step s s' : dups_inv s → step s s' → dups_inv s'.
Proof.
  intros HI Hstep.
  destruct Hstep as [Hm|c rest Hm Hge|c rest Hm Hlt|c rest Hm|Hm Hwg|i g Ha Hi Hs Hlt
    |i g h k dup hs Ha Hi Hs Hd|i g c m k Ha Hi Hs|i g X e k r Ha Hi Hs He Hr|i g a Ha Hi Hs
    |i g Ha Hi Hs|i g v Ha Hi Hs]; try exact HI.
  1: { intros g h [Hin|Hin]%elem_of_app Hh; [by eapply HI|].
       apply list_elem_of_singleton in Hin as ->. by apply elem_of_nil in Hh. }
  all: eapply dups_inv_update; [exact HI|exact Hi|done|simpl; try done|]; rewrite ?duplicates_observed; simpl; auto.
  - destruct (dedupSection_cases (hashes s) h) as [(_ & _ & _ & E)|[_ E]];
      rewrite E in Hd; injection Hd as <- <-; set_solver.
  - intros h0 [Hh|Hh]%elem_of_app; [by left|]. right.
    destruct (dedupSection_cases (hashes s) h) as [(h' & Hin & Hc & E)|[_ E]];
      rewrite E in Hd; injection Hd as <- <-; [|by apply elem_of_nil in Hh].
    apply list_elem_of_singleton in Hh as ->. by exists h'.
  - rewrite app_nil_r. auto.
  - destruct e; try done; simpl; rewrite app_nil_r; auto.
Qed.

Lemma reachable_dups cands s : reachable cands s → dups_inv s.
Proof. induction 1; [by intros g h Hg%elem_of_nil|by eapply dups_inv_step]. Qed.

(** What a run that is over says about one of its goroutines: the environment gave
    it only answers it may give; whatever it was told is a duplicate is near an
    image another goroutine, or itself earlier, got accepted; and it appended its
    candidate on sufficient evidence, or what it saw is a reason to drop it. *)
Definition judged (s : state) (g : gor) : Prop :=
  Forall obs_allowed (g_hist g) ∧
  (∀ h, h ∈ duplicates g →
     ∃ g' h' d, g' ∈ pool s ∧ h' ∈ kept g' ∧ Distance h h' = Some d ∧ d < 10) ∧
  (appended g ∧ justified g ∨ ¬ appended g ∧ rejected cfg (g_cand g) (g_hist g)).

(** A run that returned [result] from [candidates], and what it says about all of
    them: the goroutines took a prefix of the candidates, one each and in order,
    and each was judged; the result holds candidates of goroutines that appended;
    and when it is not full, it holds all of these and no candidate was left out. *)
Definition accounted (candidates result : list ImageCandidate) (s : state) : Prop :=
  reachable candidates s ∧ main s = MReturned result ∧ Forall (judged s) (pool s) ∧
  ∃ rest, (g_cand <$> pool s) ++ rest = candidates ∧ result ⊆+ accepted s ∧
    (Z.of_nat (length result) < maxResults → rest = [] ∧ result ≡ₚ accepted s).

Lemma reachable_judged cands s result :
  reachable cands s → main s = MReturned result → Forall (judged s) (pool s).
Proof.
  intros Hr Hm. pose proof (reachable_Inv _ _ Hr) as HI. pose proof (reachable_dups _ _ Hr) as HD.
  pose proof (inv_main _ _ HI) as HM. unfold main_inv in HM. rewrite Hm in HM.
  destruct HM as (_ & Hfin & _). destruct HI as [_ _ _ _ Hg _ _ Hk].
  rewrite Forall_forall in Hg, Hfin. apply Forall_forall. intros g Hin.
  destruct (Hg g Hin) as (Hst & Hev & Hal). split_and!; [done| |].
  - intros h Hh. destruct (HD g h Hin Hh) as (h' & Hin' & Hc). rewrite Hk in Hin'.
    apply list_elem_of_join in Hin' as (l & Hl & (g' & -> & Hg')%list_elem_of_fmap).
    unfold closeTo in Hc. destruct (Distance h h') as [d|] eqn:Ed; [|done].
    exists g', h', d. split_and!; [done..|]. unfold dedupThreshold in Hc. lia.
  - rewrite (Hfin g Hin) in Hst. destruct (decide (appended g)) as [Ha|Ha]; [left; auto|right].
    by destruct Hst.
Qed.

Lemma run_accounted cands s result :
  reachable cands s → main s = MReturned result →
  accounted cands result s ∧ Z.of_nat (length result) ≤ Z.max 0 maxResults ∧ result ⊆+ cands.
Proof.
  intros Hr Hm. pose proof (reachable_Inv _ _ Hr) as HI.
  pose proof (inv_main _ _ HI) as HM. unfold main_inv in HM. rewrite Hm in HM.
  destruct HM as (E & _ & rest & Hcands & Hrest).
  destruct (inv_validated _ _ HI) as (H1 & H2 & H3). rewrite <-E in H1, H2, H3, Hrest.
  split_and!; [|done|].
  - split_and!; [done|done|by eapply reachable_judged|]. exists rest. split_and!; [done|done|].
    intros Hlt. destruct Hrest as [->|?]; [|lia]. split; [done|]. by apply H3.
  - rewrite H2. unfold accepted. rewrite <-Hcands.
    etrans; [apply sublist_submseteq, fmap_sublist, sublist_filter|]. by apply submseteq_inserts_r.
Qed.


(** (C4) Every run ends: no infinite sequence of steps starts from any state, a
    reachable state that is neither returned nor crashed has a next step as long
    as the environment answers, and so the call can always be completed. *)
Theorem validateCandidates_terminates cands s :
  responsive → reachable cands s →
  Acc (λ s' s, step s s') s ∧ (¬ final s → ∃ s', step s s') ∧
  ∃ s', reachable cands s' ∧ final s'.
Proof.
  intros Hans Hr. split_and!; [apply step_wf| |by apply (completes _ s)].
  intros Hf. by destruct (Inv_progress cands s Hans (reachable_Inv _ _ Hr)).
Qed.

(** (C6) Panics of the network, the codecs' callers, the cache or the classifier
    do not reach the process: as long as the panic handler itself does not panic,
    no run crashes, and a responsive environment always gets a result. *)
Theorem panics_are_contained cands :
  calm →
  (∀ s v, reachable cands s → main s ≠ MCrashed v) ∧
  (responsive → ∃ result, validateCandidates cands result).
Proof.
  intros Hcalm. split.
  - intros s v Hr. by apply (Inv_no_crash cands), reachable_Inv.
  - intros Hans. destruct (completes cands (init cands) Hans (reach_init _)) as (s & Hr & Hf).
    unfold final in Hf. destruct (main s) as [| | |result|v] eqn:Em; try done; [by exists result, s|].
    by destruct (Inv_no_crash cands s v Hcalm (reachable_Inv _ _ Hr)).
Qed.

(** (C8) No two images that passed the dedup filter are near duplicates: the
    hashes two different goroutines got accepted are at Hamming distance 10 or
    more, however the goroutines interleave. *)
Theorem kept_images_are_far cands s i j g g' h h' d :
  reachable cands s → i ≠ j → pool s !! i = Some g → pool s !! j = Some g' →
  h ∈ kept g → h' ∈ kept g' → Distance h h' = Some d → 10 ≤ d.
Proof.
  intros HI%reachable_Inv Hij Hi Hj Hh Hh' Hd.
  destruct (lookup_two (pool s) i j g g' Hi Hj Hij) as [k Hk].
  pose proof (dedup_inv_perm _ _ (inv_kept _ _ HI) (inv_hashes _ _ HI)) as Hinv.
  apply (elem_of_Permutation) in Hh as [a Ha]. apply (elem_of_Permutation) in Hh' as [b Hb].
  assert (mjoin (kept <$> pool s) ≡ₚ h :: h' :: a ++ b ++ mjoin (kept <$> k)) as Hp.
  { rewrite Hk. simpl. rewrite Ha, Hb. simpl. constructor.
    rewrite <-Permutation_middle. done. }
  apply (dedup_inv_perm _ _ Hp), dedup_inv_pair in Hinv.
  unfold far, closeTo in Hinv. rewrite Hd in Hinv. unfold dedupThreshold in Hinv. lia.
Qed.

End Machine.

(** ** A concrete environment

    Two images with different hashes, a network that always answers, and a
    classifier that calls everything stock. *)

Definition demoGray (b : bool) : list (list spec_float) :=
  replicate 8 (if b then [f64_zero; f64_one; f64_zero; f64_one; f64_zero; f64_one; f64_zero; f64_one;
                          f64_zero]
               else replicate 9 f64_zero).

Definition demoDecode (s : string) : option bool :=
  if s =?s "A" then Some false else if s =?s "B" then Some true else None.

Definition demoLib : ImageLib :=
  Build_ImageLib bool demoDecode (λ _, None) demoGray (λ _ _ _, ([], false)).

(** Bodies by URL: image A at a.org, image B elsewhere. *)
Definition demoResponse (url : string) : Response :=
  mkResponse 200 {["Content-Type" := "image/jpeg"]}
    (mkReader (if Contains url "a.org" then "A" else "B") EOF).

Definition demoEnv (X : Type) (e : Ev X) : res X :=
  match e in Ev X return res X with
  | HttpDo _ r => Ok (inl (demoResponse (ReqURL r)))
  | CacheKey prefix value => Ok (prefix +:+ value)
  | CacheGet _ _ => Ok None
  | LLM _ _ _ => Ok (inl "STOCK 0.9")
  | DedupSection _ => Ok false
  | CacheSet _ _ _ | OnImageSearchCall | OnPanicCall _ _ | OnClassificationCall _
  | AppendSection _ _ => Ok tt
  end.

Definition demoAns (X : Type) (e : Ev X) (r : res X) : Prop := r = demoEnv X e.

Lemma demoAns_env X (e : Ev X) : demoAns X e (demoEnv X e).
Proof. done. Qed.

Lemma demo_responsive : responsive demoAns.
Proof. intros X e _. by exists (demoEnv X e). Qed.

Lemma demo_calm : calm demoAns.
Proof. intros tag r v Hv. unfold demoAns in Hv. simpl in Hv. discriminate. Qed.

Definition safeA : ImageCandidate := candidate "https://a.org/1.jpg" "" "https://a.org/p" "A" LicenseSafe.
Definition unknownB : ImageCandidate := candidate "https://b.org/2.jpg" "" "https://b.org/p" "B" LicenseUnknown.

(** Main starts two goroutines and waits; the second one runs to its end before
    the first one does. *)
Definition lateFirst : list choice :=
  [CMain; CMain; CMain; CMain; CMain; CGor 0; CGor 1;
   CGor 1; CGor 1; CGor 1; CGor 1; CGor 1; CGor 1;
   CGor 0; CGor 0; CGor 0; CGor 0; CGor 0; CGor 0; CMain].

Definition demoState : state :=
  default (init []) (schedule (H := demoLib) zeroConfig Background 5 demoEnv lateFirst (init [safeA; unknownB])).

Lemma demoState_reachable :
  reachable (H := demoLib) zeroConfig Background 5 demoAns [safeA; unknownB] demoState.
Proof.
  assert (is_Some (schedule (H := demoLib) zeroConfig Background 5 demoEnv lateFirst
                     (init [safeA; unknownB]))) as [s Hs] by (vm_compute; eauto).
  unfold demoState. rewrite Hs. simpl.
  eapply (schedule_reachable (H := demoLib)); [apply demoAns_env|apply reach_init|exact Hs].
Qed.

Lemma demoState_result : main demoState = MReturned [unknownB; safeA].
Proof. vm_compute. reflexivity. Qed.

(** ** Witnesses *)

Lemma pool_invariant_witness : (sem demoState ≤ 3)%nat ∧ wg demoState = 0%nat.
Proof.
  split; [apply (pool_invariant (H := demoLib) zeroConfig Background 5 demoAns [safeA; unknownB]);
          [apply demoState_reachable|reflexivity]|vm_compute; reflexivity].
Defined.


Lemma validateCandidates_terminates_witness :
  ∃ s, reachable (H := demoLib) zeroConfig Background 5 demoAns [safeA; unknownB] s ∧ final s.
Proof.
  apply (validateCandidates_terminates (H := demoLib) zeroConfig Background 5 demoAns
           [safeA; unknownB] (init [safeA; unknownB])); [apply demo_responsive|apply reach_init].
Defined.

Lemma panics_are_contained_witness :
  ∃ result, validateCandidates (H := demoLib) zeroConfig Background 5 demoAns [safeA; unknownB] result.
Proof.
  apply (panics_are_contained (H := demoLib) zeroConfig Background 5 demoAns);
    [apply demo_calm|apply demo_responsive].
Defined.

Lemma kept_images_are_far_witness :
  ∃ g g' h h', pool demoState !! 0%nat = Some g ∧ pool demoState !! 1%nat = Some g' ∧
    Distance h h' = Some 32 ∧ 10 ≤ 32.
Proof.
  assert (∃ g, pool demoState !! 0%nat = Some g ∧ kept g = [mkHash 0 DHash]) as (g & Hg & Hk).
  { eexists. split; vm_compute; reflexivity. }
  assert (∃ g', pool demoState !! 1%nat = Some g' ∧ kept g' = [mkHash 0xAAAAAAAAAAAAAAAA DHash])
    as (g' & Hg' & Hk').
  { eexists. split; vm_compute; reflexivity. }
  exists g, g', (mkHash 0 DHash), (mkHash 0xAAAAAAAAAAAAAAAA DHash).
  split; [exact Hg|]. split; [exact Hg'|]. split; [vm_compute; reflexivity|].
  apply (kept_images_are_far (H := demoLib) zeroConfig Background 5 demoAns [safeA; unknownB] demoState
    0 1 g g' (mkHash 0 DHash) (mkHash 0xAAAAAAAAAAAAAAAA DHash)).
  - apply demoState_reachable.
  - done.
  - exact Hg.
  - exact Hg'.
  - rewrite Hk. constructor.
  - rewrite Hk'. constructor.
  - vm_compute. reflexivity.
Defined.

(** ** A rejected image hides its duplicates *)

Definition unknownA : ImageCandidate := candidate "https://a.org/1.jpg" "" "https://a.org/p" "A" LicenseUnknown.
Definition safeCopyA : ImageCandidate :=
  candidate "https://cdn.a.org/1.jpg" "" "https://a.org/p" "A" LicenseSafe.

(** A configuration with a classifier and nothing else. *)
Definition classifierConfig : Config :=
  mkConfig false true None None "" 0 "" [] "" [] [] "" false false false.

(** A schedule whose final state has the given result is a run of the code. *)
Lemma schedule_result `{ImageLib} cfg ctx m l cands result :
  main <$> schedule cfg ctx m demoEnv l (init cands) = Some (MReturned result) →
  validateCandidates cfg ctx m demoAns cands result.
Proof.
  intros Hs. destruct (schedule cfg ctx m demoEnv l (init cands)) as [s|] eqn:E; [|done].
  injection Hs as Hm. exists s. split; [|done].
  eapply schedule_reachable; [apply demoAns_env|apply reach_init|exact E].
Qed.

Definition inOrder : list choice :=
  [CMain; CMain; CMain; CMain; CMain;
   CGor 0; CGor 0; CGor 0; CGor 0; CGor 0; CGor 0; CGor 0;
   CGor 1; CGor 1; CGor 1; CGor 1; CGor 1; CGor 1; CMain].

(** The filter stores an image's hash before the image is judged, so an image
    that is then rejected still hides later copies of itself: with a first copy
    the classifier calls stock, a second copy under a safe license is dropped as
    a duplicate and nothing is returned, although that copy alone is accepted. *)
Theorem rejected_image_hides_safe_copy :
  validateCandidates (H := demoLib) classifierConfig Background 2 demoAns [unknownA; safeCopyA] [] ∧
  validateCandidates (H := demoLib) classifierConfig Background 2 demoAns [safeCopyA] [safeCopyA].
Proof.
  split.
  - apply (schedule_result (H := demoLib) _ _ _ inOrder). vm_compute. reflexivity.
  - apply (schedule_result (H := demoLib) _ _ _
      [CMain; CMain; CMain; CGor 0; CGor 0; CGor 0; CGor 0; CGor 0; CGor 0; CGor 0; CMain]).
    vm_compute. reflexivity.
Qed.

End Concurrency.
