(* ===== verification/Providers.v ===== *)
(** * Search providers (provider.go, openverse.go, pexels.go, provider_native.go,
    orchestrator.go)

    The JSON back ends, the in-process engine and the fallback combinator, each a
    [SearchProvider]; what the pipeline may rely on is the class [LawfulProvider]. *)

From stdpp Require Import pretty.
From S2P Require Import Prelude GoStrings GoURL JSON Effects Types License Config.

Local Open Scope Z_scope.

Module Providers.
Import License.

(** [%d] *)
Definition Itoa (z : Z) : string := pretty z.

(** ** What a provider promises *)

(** A candidate fit for the pipeline: its license is not [LicenseBlocked] and its
    URL carries no logo or banner pattern. *)
Definition vetted (c : ImageCandidate) : Prop :=
  License c ≠ LicenseBlocked ∧ IsLogoOrBanner (ToLower (ImgURL c)) = false.

Definition search_post (r : res (list ImageCandidate * option error)) : Prop :=
  match r with
  | Ok (cs, err) => Forall vetted cs ∧ (is_Some err → cs = [])
  | Panicked _ => True
  end.

Class LawfulProvider (p : SearchProvider) : Prop :=
  lawful_search : ∀ h ctx query opts,
    wp free_protocol h (ProviderSearch p ctx query opts) (λ _ r, search_post r).

(** ** The SearXNG provider (provider.go) *)

Definition searxngBodyLimit : Z := 1 * 1024 * 1024.

Record SearXNGProvider := mkSearXNG {
  sxURL : string; sxHTTPClient : option Client; sxUserAgent : string }.

Record searxngResult := mkSearxngResult {
  sxImgSrc : string; sxThumbnail : string; sxResURL : string; sxTitle : string }.

#[export] Instance JDecode_searxngResult : JDecode searxngResult :=
  jstruct (mkSearxngResult "" "" "" "")
    [field "img_src" sxImgSrc (λ r v, mkSearxngResult v (sxThumbnail r) (sxResURL r) (sxTitle r));
     field "thumbnail_src" sxThumbnail (λ r v, mkSearxngResult (sxImgSrc r) v (sxResURL r) (sxTitle r));
     field "url" sxResURL (λ r v, mkSearxngResult (sxImgSrc r) (sxThumbnail r) v (sxTitle r));
     field "title" sxTitle (λ r v, mkSearxngResult (sxImgSrc r) (sxThumbnail r) (sxResURL r) v)].

(** The anonymous response struct: one list under a name. *)
Record listResponse (A : Type) := mkListResponse { lrItems : list A }.
Arguments mkListResponse {A} lrItems.
Arguments lrItems {A}.

Definition JDecode_listResponse {A} `{JDecode A} (name : string) : JDecode (listResponse A) :=
  jstruct (mkListResponse []) [field name lrItems (λ _ v, mkListResponse v)].

Definition searxngBuildURL (p : SearXNGProvider) (query : string) (opts : SearchOpts) : string :=
  let searchURL := TrimRightByte (sxURL p) "/" +:+ "/search?q=" +:+ QueryEscape query +:+
                   "&format=json&categories=images" in
  let searchURL := if 1 <? PageNumber opts
                   then searchURL +:+ "&pageno=" +:+ Itoa (PageNumber opts) else searchURL in
  if (0 <? length (Engines opts))%nat
  then searchURL +:+ "&engines=" +:+ QueryEscape (Join (Engines opts) ",") else searchURL.

Definition searxngFetch (p : SearXNGProvider) (ctx : Ctx) (query : string) (opts : SearchOpts) :
    prog Ev (list searxngResult * option error) :=
  match NewRequest ctx "GET" (searxngBuildURL p query opts) "" with
  | None => mret ([], Some "parse error")
  | Some req =>
      r ← trigger (HttpDo (clientOrDefault (sxHTTPClient p)) (SetHeader req "Accept" "application/json"));
      match r with
      | inr err => mret ([], Some err)
      | inl resp =>
          match ReadAll (LimitReader (Body resp) searxngBodyLimit) with
          | None => mret ([], Some "read error")
          | Some body =>
              match @Unmarshal _ (JDecode_listResponse "results") body with
              | None => mret ([], Some "json error")
              | Some searchResp => mret (lrItems searchResp, None)
              end
          end
      end
  end.

(** The body of the filter loop; [None] for [continue]. *)
Definition searxngCandidate (r : searxngResult) : option ImageCandidate :=
  if sxImgSrc r =?s "" then None
  else if IsLogoOrBanner (ToLower (sxImgSrc r)) then None
  else
    let license := CheckLicense (sxImgSrc r) (sxResURL r) in
    if license_eqb license LicenseBlocked then None
    else Some (candidate (sxImgSrc r) (sxThumbnail r) (sxResURL r) (sxTitle r) license).

Definition searxngFilter (results : list searxngResult) : list ImageCandidate :=
  omap searxngCandidate results.

Definition searxngSearch (p : SearXNGProvider) (ctx : Ctx) (query : string) (opts : SearchOpts) :
    prog Ev (list ImageCandidate * option error) :=
  '(results, err) ← searxngFetch p ctx query opts;
  match err with
  | Some err => mret ([], Some err)
  | None => mret (searxngFilter results, None)
  end.

Definition searxng (p : SearXNGProvider) : SearchProvider := mkProvider "searxng" (searxngSearch p).

(** ** The Openverse provider (openverse.go) *)

Definition openverseDefaultURL : string := "https://api.openverse.org/v1".
Definition openverseBodyLimit : Z := 1 * 1024 * 1024.
Definition openverseDefaultLimit : Z := 20.

Record openverseResult := mkOvResult {
  ovID : string; ovTitle : string; ovURL : string; ovThumbnail : string;
  ovForeignLandingURL : string; ovSource : string; ovLicense : string }.

#[export] Instance JDecode_openverseResult : JDecode openverseResult :=
  jstruct (mkOvResult "" "" "" "" "" "" "")
    [field "id" ovID (λ r v, mkOvResult v (ovTitle r) (ovURL r) (ovThumbnail r) (ovForeignLandingURL r) (ovSource r) (ovLicense r));
     field "title" ovTitle (λ r v, mkOvResult (ovID r) v (ovURL r) (ovThumbnail r) (ovForeignLandingURL r) (ovSource r) (ovLicense r));
     field "url" ovURL (λ r v, mkOvResult (ovID r) (ovTitle r) v (ovThumbnail r) (ovForeignLandingURL r) (ovSource r) (ovLicense r));
     field "thumbnail" ovThumbnail (λ r v, mkOvResult (ovID r) (ovTitle r) (ovURL r) v (ovForeignLandingURL r) (ovSource r) (ovLicense r));
     field "foreign_landing_url" ovForeignLandingURL (λ r v, mkOvResult (ovID r) (ovTitle r) (ovURL r) (ovThumbnail r) v (ovSource r) (ovLicense r));
     field "source" ovSource (λ r v, mkOvResult (ovID r) (ovTitle r) (ovURL r) (ovThumbnail r) (ovForeignLandingURL r) v (ovLicense r));
     field "license" ovLicense (λ r v, mkOvResult (ovID r) (ovTitle r) (ovURL r) (ovThumbnail r) (ovForeignLandingURL r) (ovSource r) v)].

Record OpenverseProvider := mkOpenverse {
  ovBaseURL : string; ovHTTPClient : option Client; ovUserAgent : string }.

Definition openverseBuildURL (p : OpenverseProvider) (query : string) (opts : SearchOpts) : string :=
  let base := if ovBaseURL p =?s "" then openverseDefaultURL else ovBaseURL p in
  let base := TrimRightByte base "/" in
  let page := if PageNumber opts <? 1 then 1 else PageNumber opts in
  base +:+ "/images/?q=" +:+ QueryEscape query +:+ "&page=" +:+ Itoa page +:+
  "&page_size=" +:+ Itoa openverseDefaultLimit.

Definition openverseFetch (p : OpenverseProvider) (ctx : Ctx) (query : string) (opts : SearchOpts) :
    prog Ev (list openverseResult * option error) :=
  match NewRequest ctx "GET" (openverseBuildURL p query opts) "" with
  | None => mret ([], Some "parse error")
  | Some req =>
      let req := SetHeader req "Accept" "application/json" in
      let req := if ovUserAgent p =?s "" then req else SetHeader req "User-Agent" (ovUserAgent p) in
      r ← trigger (HttpDo (clientOrDefault (ovHTTPClient p)) req);
      match r with
      | inr err => mret ([], Some err)
      | inl resp =>
          if negb (StatusCode resp =? StatusOK)
          then mret ([], Some ("openverse: unexpected status " +:+ Itoa (StatusCode resp)))
          else
            match ReadAll (LimitReader (Body resp) openverseBodyLimit) with
            | None => mret ([], Some "read error")
            | Some body =>
                match @Unmarshal _ (JDecode_listResponse "results") body with
                | None => mret ([], Some "json error")
                | Some searchResp => mret (lrItems searchResp, None)
                end
            end
      end
  end.

Definition openverseCandidate (r : openverseResult) : option ImageCandidate :=
  if ovURL r =?s "" then None
  else if IsLogoOrBanner (ToLower (ovURL r)) then None
  else Some (candidate (ovURL r) (ovThumbnail r) (ovForeignLandingURL r) (ovTitle r) LicenseSafe).

Definition openverseFilter (results : list openverseResult) : list ImageCandidate :=
  omap openverseCandidate results.

Definition openverseSearch (p : OpenverseProvider) (ctx : Ctx) (query : string) (opts : SearchOpts) :
    prog Ev (list ImageCandidate * option error) :=
  '(results, err) ← openverseFetch p ctx query opts;
  match err with
  | Some err => mret ([], Some err)
  | None => mret (openverseFilter results, None)
  end.

Definition openverse (p : OpenverseProvider) : SearchProvider :=
  mkProvider "openverse" (openverseSearch p).

(** ** The Pexels provider (pexels.go) *)

Definition pexelsOfficialURL : string := "https://api.pexels.com/v1".
Definition pexelsInternalURL : string := "https://www.pexels.com/en-us/api/v3/search/photos".
Definition pexelsBodyLimit : Z := 2 * 1024 * 1024.
Definition pexelsPerPage : Z := 40.

Record PexelsProvider := mkPexels {
  pxAPIKey : string; pxSecretKey : string; pxHTTPClient : option Client; pxUserAgent : string;
  officialBase : string; internalBase : string }.

Definition officialURL (p : PexelsProvider) : string :=
  if officialBase p =?s "" then pexelsOfficialURL else officialBase p.

Definition internalURL (p : PexelsProvider) : string :=
  if internalBase p =?s "" then pexelsInternalURL else internalBase p.

Record pexelsSrc := mkPexelsSrc { srcLarge : string; srcSmall : string }.

#[export] Instance JDecode_pexelsSrc : JDecode pexelsSrc :=
  jstruct (mkPexelsSrc "" "")
    [field "large" srcLarge (λ r v, mkPexelsSrc v (srcSmall r));
     field "small" srcSmall (λ r v, mkPexelsSrc (srcLarge r) v)].

Record pexelsOfficialPhoto := mkPexelsPhoto {
  phID : Z; phAlt : string; phURL : string; phSrc : pexelsSrc }.

#[export] Instance JDecode_pexelsOfficialPhoto : JDecode pexelsOfficialPhoto :=
  jstruct (mkPexelsPhoto 0 "" "" (mkPexelsSrc "" ""))
    [field "id" phID (λ r v, mkPexelsPhoto v (phAlt r) (phURL r) (phSrc r));
     field "alt" phAlt (λ r v, mkPexelsPhoto (phID r) v (phURL r) (phSrc r));
     field "url" phURL (λ r v, mkPexelsPhoto (phID r) (phAlt r) v (phSrc r));
     field "src" phSrc (λ r v, mkPexelsPhoto (phID r) (phAlt r) (phURL r) v)].

Record pexelsInternalImage := mkPexelsImage { piSmall : string; piDownloadLink : string }.

#[export] Instance JDecode_pexelsInternalImage : JDecode pexelsInternalImage :=
  jstruct (mkPexelsImage "" "")
    [field "small" piSmall (λ r v, mkPexelsImage v (piDownloadLink r));
     field "download_link" piDownloadLink (λ r v, mkPexelsImage (piSmall r) v)].

Record pexelsInternalUser := mkPexelsUser { puUsername : string }.

#[export] Instance JDecode_pexelsInternalUser : JDecode pexelsInternalUser :=
  jstruct (mkPexelsUser "") [field "username" puUsername (λ _ v, mkPexelsUser v)].

Record pexelsInternalAttrs := mkPexelsAttrs {
  paID : Z; paSlug : string; paTitle : string; paImage : pexelsInternalImage;
  paUser : pexelsInternalUser }.

#[export] Instance JDecode_pexelsInternalAttrs : JDecode pexelsInternalAttrs :=
  jstruct (mkPexelsAttrs 0 "" "" (mkPexelsImage "" "") (mkPexelsUser ""))
    [field "id" paID (λ r v, mkPexelsAttrs v (paSlug r) (paTitle r) (paImage r) (paUser r));
     field "slug" paSlug (λ r v, mkPexelsAttrs (paID r) v (paTitle r) (paImage r) (paUser r));
     field "title" paTitle (λ r v, mkPexelsAttrs (paID r) (paSlug r) v (paImage r) (paUser r));
     field "image" paImage (λ r v, mkPexelsAttrs (paID r) (paSlug r) (paTitle r) v (paUser r));
     field "user" paUser (λ r v, mkPexelsAttrs (paID r) (paSlug r) (paTitle r) (paImage r) v)].

Record pexelsInternalItem := mkPexelsItem { pitAttributes : pexelsInternalAttrs }.

#[export] Instance JDecode_pexelsInternalItem : JDecode pexelsInternalItem :=
  jstruct (mkPexelsItem jzero) [field "attributes" pitAttributes (λ _ v, mkPexelsItem v)].

Definition doGet (p : PexelsProvider) (ctx : Ctx) (rawURL hdrKey hdrVal : string) :
    prog Ev (string + error) :=
  match NewRequest ctx "GET" rawURL "" with
  | None => mret (inr "parse error")
  | Some req =>
      let req := SetHeader req hdrKey hdrVal in
      let req := if pxUserAgent p =?s "" then req else SetHeader req "User-Agent" (pxUserAgent p) in
      r ← trigger (HttpDo (clientOrDefault (pxHTTPClient p)) req);
      match r with
      | inr err => mret (inr err)
      | inl resp =>
          if negb (StatusCode resp =? StatusOK)
          then mret (inr ("pexels: unexpected status " +:+ Itoa (StatusCode resp)))
          else
            match ReadAll (LimitReader (Body resp) pexelsBodyLimit) with
            | None => mret (inr "read error")
            | Some body => mret (inl body)
            end
      end
  end.

Definition pexelsPage (opts : SearchOpts) : Z :=
  if PageNumber opts <? 1 then 1 else PageNumber opts.

Definition officialCandidate (p : pexelsOfficialPhoto) : option ImageCandidate :=
  if (srcLarge (phSrc p) =?s "") || IsLogoOrBanner (ToLower (srcLarge (phSrc p))) then None
  else Some (candidate (srcLarge (phSrc p)) (srcSmall (phSrc p)) (phURL p) (phAlt p) LicenseSafe).

Definition filterOfficialResults (photos : list pexelsOfficialPhoto) : list ImageCandidate :=
  omap officialCandidate photos.

Definition internalCandidate (item : pexelsInternalItem) : option ImageCandidate :=
  let a := pitAttributes item in
  if (piDownloadLink (paImage a) =?s "") || IsLogoOrBanner (ToLower (piDownloadLink (paImage a)))
  then None
  else Some (candidate (piDownloadLink (paImage a)) (piSmall (paImage a))
         ("https://www.pexels.com/photo/" +:+ paSlug a +:+ "-" +:+ Itoa (paID a) +:+ "/")
         (paTitle a) LicenseSafe).

Definition filterInternalResults (items : list pexelsInternalItem) : list ImageCandidate :=
  omap internalCandidate items.

(** The URLs of the two searches. *)
Definition officialSearchURL (base query : string) (opts : SearchOpts) : string :=
  TrimRightByte base "/" +:+ "/search?query=" +:+ QueryEscape query +:+
  "&per_page=" +:+ Itoa pexelsPerPage +:+ "&page=" +:+ Itoa (pexelsPage opts).

Definition internalSearchURL (base query : string) (opts : SearchOpts) : string :=
  TrimRightByte base "/" +:+ "?query=" +:+ QueryEscape query +:+
  "&per_page=" +:+ Itoa pexelsPerPage +:+ "&page=" +:+ Itoa (pexelsPage opts).

Definition searchOfficial (p : PexelsProvider) (ctx : Ctx) (base query : string) (opts : SearchOpts) :
    prog Ev (list ImageCandidate * option error) :=
  r ← doGet p ctx (officialSearchURL base query opts) "Authorization" (pxAPIKey p);
  match r with
  | inr err => mret ([], Some err)
  | inl body =>
      match @Unmarshal _ (JDecode_listResponse "photos") body with
      | None => mret ([], Some "json error")
      | Some resp => mret (filterOfficialResults (lrItems resp), None)
      end
  end.

Definition searchInternal (p : PexelsProvider) (ctx : Ctx) (base query : string) (opts : SearchOpts) :
    prog Ev (list ImageCandidate * option error) :=
  r ← doGet p ctx (internalSearchURL base query opts) "Secret-Key" (pxSecretKey p);
  match r with
  | inr err => mret ([], Some err)
  | inl body =>
      match @Unmarshal _ (JDecode_listResponse "data") body with
      | None => mret ([], Some "json error")
      | Some resp => mret (filterInternalResults (lrItems resp), None)
      end
  end.

(** What follows when the official API was not asked or failed. *)
Definition pexelsRest (p : PexelsProvider) (ctx : Ctx) (query : string) (opts : SearchOpts) :
    prog Ev (list ImageCandidate * option error) :=
  if pxSecretKey p <>?s "" then searchInternal p ctx (internalURL p) query opts
  else if pxAPIKey p <>?s "" then searchOfficial p ctx (officialURL p) query opts
  else mret ([], Some "pexels: no API key or secret key configured").

Definition pexelsSearch (p : PexelsProvider) (ctx : Ctx) (query : string) (opts : SearchOpts) :
    prog Ev (list ImageCandidate * option error) :=
  if pxAPIKey p <>?s "" then
    '(c, err) ← searchOfficial p ctx (officialURL p) query opts;
    match err with
    | None => mret (c, None)
    | Some _ => pexelsRest p ctx query opts
    end
  else pexelsRest p ctx query opts.

Definition pexels (p : PexelsProvider) : SearchProvider := mkProvider "pexels" (pexelsSearch p).

(** ** The native provider (provider_native.go)

    [imagesearch.MultiSearch] of go-engine is a parameter. *)

Definition nativeMaxResults : Z := 10.

(** [imagesearch.ImageResult] *)
Record ImageResult := mkImageResult {
  irURL : string; irThumbnail : string; irSource : string; irTitle : string;
  irWidth : Z; irHeight : Z; irEngine : string }.

Definition nativeCandidate (r : ImageResult) : option ImageCandidate :=
  if IsLogoOrBanner (ToLower (irURL r)) then None
  else
    let license := CheckLicense (irURL r) (irSource r) in
    if license_eqb license LicenseBlocked then None
    else Some (mkCandidate (irURL r) (irThumbnail r) (irSource r) (irTitle r) license
                 (irWidth r) (irHeight r) (irEngine r)).

Definition nativeFilter (results : list ImageResult) : list ImageCandidate :=
  omap nativeCandidate results.

Section Native.
Context (multiSearch : Ctx → string → Z → prog Ev (list ImageResult)).

Definition nativeSearch (ctx : Ctx) (query : string) (_ : SearchOpts) :
    prog Ev (list ImageCandidate * option error) :=
  results ← multiSearch ctx query nativeMaxResults;
  mret (nativeFilter results, None).

Definition native : SearchProvider := mkProvider "native" nativeSearch.
End Native.

(** ** The fallback combinator (orchestrator.go) *)

Fixpoint fallbackLoop (providers : list SearchProvider) (lastErr : option error) (ctx : Ctx)
    (query : string) (opts : SearchOpts) : prog Ev (list ImageCandidate * option error) :=
  match providers with
  | [] => mret ([], Some (default "all providers failed" lastErr))
  | p :: rest =>
      '(results, err) ← ProviderSearch p ctx query opts;
      match err with
      | Some err => fallbackLoop rest (Some err) ctx query opts
      | None =>
          if (length results =? 0)%nat then fallbackLoop rest lastErr ctx query opts
          else mret (results, None)
      end
  end.

Definition fallbackName (name : string) : string := if name =?s "" then "fallback" else name.

Definition fallback (providers : list SearchProvider) (name : string) : SearchProvider :=
  mkProvider (fallbackName name) (fallbackLoop providers None).

(** ** The providers are lawful *)

(** A filter that lets only vetted candidates through. *)
Lemma omap_vetted {A} (f : A → option ImageCandidate) l :
  (∀ a c, f a = Some c → vetted c) → Forall vetted (omap f l).
Proof.
  intros Hf. rewrite Forall_forall. intros c (a & _ & Ha)%list_elem_of_omap. by eapply Hf.
Qed.

Lemma searxngCandidate_vetted r c : searxngCandidate r = Some c → vetted c.
Proof.
  unfold searxngCandidate. cbv zeta. repeat case_bool; intros [= <-]. split; [|done].
  by apply license_eqb_neq.
Qed.

Lemma openverseCandidate_vetted r c : openverseCandidate r = Some c → vetted c.
Proof. unfold openverseCandidate. repeat case_bool; intros [= <-]. done. Qed.

Lemma officialCandidate_vetted r c : officialCandidate r = Some c → vetted c.
Proof. unfold officialCandidate. case_bool; intros [= <-]. bool_hyps. done. Qed.

Lemma internalCandidate_vetted r c : internalCandidate r = Some c → vetted c.
Proof. unfold internalCandidate. cbv zeta. case_bool; intros [= <-]. bool_hyps. done. Qed.

Lemma nativeCandidate_vetted r c : nativeCandidate r = Some c → vetted c.
Proof.
  unfold nativeCandidate. cbv zeta. repeat case_bool; intros [= <-]. split; [|done].
  by apply license_eqb_neq.
Qed.

Lemma search_post_err e : search_post (Ok ([], Some e)).
Proof. by split. Qed.

Lemma search_post_ok cs : Forall vetted cs → search_post (Ok (cs, None)).
Proof. intros Hv. split; [done|]. by intros [? [=]]. Qed.

#[export] Instance searxng_lawful p : LawfulProvider (searxng p).
Proof.
  intros h ctx query opts. apply wp_bind, wp_free. intros h' [[results [err|]]|v]; simpl; [done| |done].
  split; [|by intros [? [=]]]. apply omap_vetted, searxngCandidate_vetted.
Qed.

#[export] Instance openverse_lawful p : LawfulProvider (openverse p).
Proof.
  intros h ctx query opts. apply wp_bind, wp_free. intros h' [[results [err|]]|v]; simpl; [done| |done].
  split; [|by intros [? [=]]]. apply omap_vetted, openverseCandidate_vetted.
Qed.

Lemma searchOfficial_lawful h p ctx base query opts :
  wp free_protocol h (searchOfficial p ctx base query opts) (λ _ r, search_post r).
Proof.
  apply wp_bind, wp_free. intros h' [[body|err]|v]; simpl; [|done..].
  destruct (Unmarshal body) as [resp|]; simpl; [|done].
  split; [|by intros [? [=]]]. apply omap_vetted, officialCandidate_vetted.
Qed.

Lemma searchInternal_lawful h p ctx base query opts :
  wp free_protocol h (searchInternal p ctx base query opts) (λ _ r, search_post r).
Proof.
  apply wp_bind, wp_free. intros h' [[body|err]|v]; simpl; [|done..].
  destruct (Unmarshal body) as [resp|]; simpl; [|done].
  split; [|by intros [? [=]]]. apply omap_vetted, internalCandidate_vetted.
Qed.

#[export] Instance pexels_lawful p : LawfulProvider (pexels p).
Proof.
  intros h ctx query opts. simpl. unfold pexelsSearch.
  assert (∀ h, wp free_protocol h (pexelsRest p ctx query opts) (λ _ r, search_post r)) as Hrest.
  { intros h'. unfold pexelsRest. repeat case_bool; [apply searchInternal_lawful|
      apply searchOfficial_lawful|done]. }
  case_bool; [|apply Hrest]. apply wp_bind.
  eapply wp_mono; [apply searchOfficial_lawful|]. intros h' [[c [err|]]|v] Hp; [apply Hrest|done|done].
Qed.

#[export] Instance native_lawful ms : LawfulProvider (native ms).
Proof.
  intros h ctx query opts. apply wp_bind, wp_free. intros h' [results|v]; simpl; [|done].
  split; [|by intros [? [=]]]. apply omap_vetted, nativeCandidate_vetted.
Qed.

Lemma fallbackLoop_lawful providers lastErr h ctx query opts :
  Forall LawfulProvider providers →
  wp free_protocol h (fallbackLoop providers lastErr ctx query opts) (λ _ r, search_post r).
Proof.
  intros Hall. revert lastErr h. induction Hall as [|p rest Hp _ IH]; intros lastErr h; [done|].
  apply wp_bind. eapply wp_mono; [apply Hp|]. intros h' [[cs [err|]]|v] Hpost; [apply IH| |done].
  case_bool; [apply IH|done].
Qed.

#[export] Instance fallback_lawful providers name :
  Forall LawfulProvider providers → LawfulProvider (fallback providers name).
Proof. intros Hall h ctx query opts. by apply fallbackLoop_lawful. Qed.

(** ** Results are complete *)

(** An image URL a provider passes on. *)
Definition usable (u : string) : bool := (u <>?s "") && negb (IsLogoOrBanner (ToLower u)).

(** The candidates are the usable items that are not blocked, one each and in the
    order of the reply, with the URL, page and license of the item. *)
Definition selects {A} (url page : A → string) (license : A → ImageLicense)
    (items : list A) (cs : list ImageCandidate) : Prop :=
  (λ c, (ImgURL c, Source c, License c)) <$> cs =
  (λ a, (url a, page a, license a)) <$>
    filter (λ a, usable (url a) = true ∧ license a ≠ LicenseBlocked) items.

Lemma omap_selects {A} (f : A → option ImageCandidate) url page license items :
  (∀ a, match f a with
        | Some c => usable (url a) = true ∧ license a ≠ LicenseBlocked ∧
                    (ImgURL c, Source c, License c) = (url a, page a, license a)
        | None => ¬ (usable (url a) = true ∧ license a ≠ LicenseBlocked)
        end) →
  selects url page license items (omap f items).
Proof.
  intros Hf. unfold selects. induction items as [|a items IH]; [done|].
  cbn [omap list_omap]. rewrite filter_cons. specialize (Hf a).
  destruct (f a) as [c|]; [destruct Hf as (H1 & H2 & H3)|].
  - rewrite decide_True by done. rewrite !fmap_cons, H3. f_equal. exact IH.
  - by rewrite decide_False.
Qed.

(** The answer was a reply with an acceptable status whose bounded body decodes to
    the items under the given name. *)
Definition replied {A} `{JDecode A} (status : Z → Prop) (limit : Z) (name : string) (items : list A)
    (o : obs Ev) : Prop :=
  match o with
  | Obs e r =>
      match e in Ev X return res X → Prop with
      | HttpDo _ _ => λ a, ∃ resp body, a = Ok (inl resp) ∧ status (StatusCode resp) ∧
          ReadAll (LimitReader (Body resp) limit) = Some body ∧
          @Unmarshal _ (JDecode_listResponse name) body = Some (mkListResponse items)
      | _ => λ _, False
      end r
  end.

(** At most one event: a GET of the URL [u] through the client [c]. *)
Definition one_get (c : Client) (u : string) (ctx : Ctx) : protocol Ev :=
  Protocol (λ h X e, match e with
            | HttpDo c' req => h = [] ∧ c' = c ∧ Method req = "GET" ∧ ReqURL req = u ∧
                ReqBody req = "" ∧ ReqCtx req = ctx
            | _ => False
            end) (λ _ _ _ _, True).

(** A search over the request URL [u]: the request is left out only if [u] does
    not parse; the search succeeds exactly on a reply, with the items the filter
    selects; it panics only if the client did, and has an error otherwise. *)
Definition search_complete {A} `{JDecode A} (u : string) (status : Z → Prop) (limit : Z)
    (name : string) (url page : A → string) (license : A → ImageLicense)
    (h : history Ev) (r : res (list ImageCandidate * option error)) : Prop :=
  (h = [] → Parse u = None) ∧
  (∀ v, r = Panicked v → ∃ c req, h = [Obs (HttpDo c req) (Panicked v)]) ∧
  (∀ items o, h = [o] → replied status limit name items o →
     ∃ cs, r = Ok (cs, None) ∧ selects url page license items cs) ∧
  (∀ cs, r = Ok (cs, None) →
     ∃ items o, h = [o] ∧ replied status limit name items o ∧ selects url page license items cs).

Section Complete.
Context {A} `{JDecode A} (u : string) (status : Z → Prop) (limit : Z) (name : string).
Context (url page : A → string) (license : A → ImageLicense).
Abbreviation complete := (search_complete u status limit name url page license).

(** No success without a request, or on an answer that is no reply. *)
Lemma complete_none cs e : Parse u = None → complete [] (Ok (cs, Some e)).
Proof. intros Hu. by split_and!. Qed.

Lemma complete_bad c req a r :
  match r with Ok (_, err) => err ≠ None | Panicked v => a = Panicked v end →
  (∀ resp body items, a = Ok (inl resp) → status (StatusCode resp) →
     ReadAll (LimitReader (Body resp) limit) = Some body →
     @Unmarshal _ (JDecode_listResponse name) body ≠ Some (mkListResponse items)) →
  complete [Obs (HttpDo c req) a] r.
Proof.
  intros Hr Ha. split_and!; [done|intros v ->; subst; eauto| |intros cs ->; done].
  intros items o [= <-] (resp & body & E & Hs & Hb & Hu). by destruct (Ha resp body items).
Qed.

Lemma complete_reply c req resp body items cs :
  status (StatusCode resp) → ReadAll (LimitReader (Body resp) limit) = Some body →
  @Unmarshal _ (JDecode_listResponse name) body = Some (mkListResponse items) →
  selects url page license items cs →
  complete [Obs (HttpDo c req) (Ok (inl resp))] (Ok (cs, None)).
Proof.
  intros Hs Hb Hu Hsel. split_and!; [done..| |].
  - intros items' o [= <-] (resp' & body' & [= <-] & _ & Hb' & Hu'). exists cs. split; [done|].
    rewrite Hb in Hb'. injection Hb' as <-. rewrite Hu in Hu'. by injection Hu' as <-.
  - intros cs' [= <-]. exists items. eexists. split; [done|]. split; [|done]. by exists resp, body.
Qed.
End Complete.

Lemma searxngFilter_selects items :
  selects sxImgSrc sxResURL (λ r, CheckLicense (sxImgSrc r) (sxResURL r)) items (searxngFilter items).
Proof.
  apply omap_selects. intros a. unfold searxngCandidate, usable. cbv zeta.
  destruct (sxImgSrc a =?s "") eqn:E1; [by intros [? _]|].
  destruct (IsLogoOrBanner (ToLower (sxImgSrc a))) eqn:E2; [by intros [? _]|].
  destruct (license_eqb _ LicenseBlocked) eqn:E3; simpl.
  - intros [_ Hn]. by apply license_eqb_eq in E3.
  - split_and!; [done|by apply license_eqb_neq|done].
Qed.

Lemma openverseFilter_selects items :
  selects ovURL ovForeignLandingURL (λ _, LicenseSafe) items (openverseFilter items).
Proof.
  apply omap_selects. intros a. unfold openverseCandidate, usable.
  destruct (ovURL a =?s ""); [by intros [? _]|].
  by destruct (IsLogoOrBanner (ToLower (ovURL a))); [intros [? _]|].
Qed.

Lemma filterOfficialResults_selects items :
  selects (srcLarge ∘ phSrc) phURL (λ _, LicenseSafe) items (filterOfficialResults items).
Proof.
  apply omap_selects. intros a. unfold officialCandidate, usable. simpl.
  destruct (srcLarge (phSrc a) =?s ""); [by intros [? _]|].
  by destruct (IsLogoOrBanner (ToLower (srcLarge (phSrc a)))); [intros [? _]|].
Qed.

(** The page of a photo of the internal API. *)
Definition photoPage (i : pexelsInternalItem) : string :=
  "https://www.pexels.com/photo/" +:+ paSlug (pitAttributes i) +:+ "-" +:+
  Itoa (paID (pitAttributes i)) +:+ "/".

Lemma filterInternalResults_selects items :
  selects (piDownloadLink ∘ paImage ∘ pitAttributes) photoPage (λ _, LicenseSafe) items
    (filterInternalResults items).
Proof.
  apply omap_selects. intros a. unfold internalCandidate, usable. cbv zeta. simpl.
  destruct (piDownloadLink (paImage (pitAttributes a)) =?s ""); [by intros [? _]|].
  by destruct (IsLogoOrBanner (ToLower (piDownloadLink (paImage (pitAttributes a))))); [intros [? _]|].
Qed.

(** What the Pexels client makes of an answer. *)
Lemma wp_doGet p ctx u k v (Q : history Ev → res (string + error) → Prop) :
  (∀ e, Parse u = None → Q [] (Ok (inr e))) →
  (∀ c req a, let h' := [Obs (HttpDo c req) a] in
     match a with
     | Ok (inl resp) =>
         match ReadAll (LimitReader (Body resp) pexelsBodyLimit) with
         | Some body => if StatusCode resp =? StatusOK then Q h' (Ok (inl body)) else ∀ e, Q h' (Ok (inr e))
         | None => ∀ e, Q h' (Ok (inr e))
         end
     | Ok (inr e) => Q h' (Ok (inr e))
     | Panicked v => Q h' (Panicked v)
     end) →
  wp (one_get (clientOrDefault (pxHTTPClient p)) u ctx) [] (doGet p ctx u k v) Q.
Proof.
  intros Hnone Hsome. unfold doGet, NewRequest. destruct (Parse u); [|by apply Hnone]. cbv zeta.
  apply wp_bind, wp_trigger; [by case_bool|]. intros a _.
  match goal with |- context [Obs (HttpDo ?c ?r) a] => specialize (Hsome c r a) end. cbv zeta in Hsome.
  destruct a as [[resp|e]|v']; [|done..]. destruct (StatusCode resp =? StatusOK); simpl.
  - destruct (ReadAll _); [exact Hsome|apply Hsome].
  - destruct (ReadAll _); apply Hsome.
Qed.

(** A Pexels search: one request, then the filter over the decoded items. *)
Lemma doGet_complete {A} `{JDecode A} name (F : list A → list ImageCandidate) url page p ctx u k v :
  (∀ items, selects url page (λ _, LicenseSafe) items (F items)) →
  wp (one_get (clientOrDefault (pxHTTPClient p)) u ctx) []
    (r ← doGet p ctx u k v;
     match r with
     | inr err => mret ([], Some err)
     | inl body =>
         match @Unmarshal _ (JDecode_listResponse name) body with
         | None => mret ([], Some "json error")
         | Some resp => mret (F (lrItems resp), None)
         end
     end)
    (search_complete u (λ st, st = StatusOK) pexelsBodyLimit name url page (λ _, LicenseSafe)).
Proof.
  intros HF. apply wp_bind, wp_doGet; [intros e Hu; by apply complete_none|]. intros c req a. cbv zeta.
  destruct a as [[resp|e]|v']; [|by apply complete_bad..].
  destruct (ReadAll _) as [body|] eqn:Eb; [|intros e; apply complete_bad; [done|naive_solver]].
  destruct (Z.eqb_spec (StatusCode resp) StatusOK) as [Hs|Hs];
    [|intros e; apply complete_bad; [done|naive_solver]].
  destruct (Unmarshal body) as [[items]|] eqn:Eu; [|apply complete_bad; [done|naive_solver]].
  by eapply complete_reply.
Qed.

(** ** The query in the URL *)

(** What a server reads: the first parameter of the given name, unescaped. *)
Definition paramOf (k kv : string) : option string :=
  let '(a, v, _) := Cut kv "=" in if a =?s k then Some v else None.

Definition queryParam (k url : string) : option string :=
  let '(_, q, _) := Cut url "?" in
  v ← head (omap (paramOf k) (SplitByte q "&"));
  unescape encodeQueryComponent v.

Lemma Cut_at s t c :
  all_bytes (byte_ne c) s = true → Cut (s +:+ String c t) (str1 c) = (s, t, true).
Proof.
  intros Hs. unfold Cut. rewrite Index_at by done. simpl slen.
  by rewrite string_take_app, <-string_drop_drop, string_drop_app.
Qed.

Lemma SplitByte_at s t c :
  all_bytes (byte_ne c) s = true → SplitByte (s +:+ String c t) c = s :: SplitByte t c.
Proof.
  induction s as [|a s IH]; intros H; simpl.
  - by rewrite Ascii.eqb_refl.
  - simpl in H. bool_hyps. rewrite IH by done. unfold byte_ne in *.
    bool_hyps. destruct (Ascii.eqb_spec a c) as [->|]; [|done].
    match goal with H : Ascii.eqb c c = false |- _ => by rewrite Ascii.eqb_refl in H | H : c ≠ c |- _ => done end.
Qed.

Lemma escaped_char_ne c a :
  c ∈ ["&"; "="; "?"; "#"]%char → escaped_char a = true → byte_ne c a = true.
Proof.
  intros Hc Ha. unfold byte_ne. apply negb_true_iff, not_true_iff_false.
  intros ->%Ascii.eqb_eq. repeat (apply elem_of_cons in Hc as [->|Hc]; [done|]).
  by apply not_elem_of_nil in Hc.
Qed.

(** An escaped value placed first in the query string is read back. *)
Lemma queryParam_first base k query rest :
  all_bytes (byte_ne "?") base = true → all_bytes escaped_char k = true →
  queryParam k (base +:+ String "?" (k +:+ String "=" (QueryEscape query +:+ String "&" rest))) =
    Some query.
Proof.
  intros Hb Hk. unfold queryParam. change "?" with (str1 "?"). rewrite Cut_at by done.
  assert (all_bytes (byte_ne "&") (k +:+ String "=" (QueryEscape query)) = true) as Hamp.
  { rewrite all_bytes_app. simpl. rewrite !(all_bytes_impl escaped_char (byte_ne "&")); try done.
    - intros a. apply escaped_char_ne. set_solver.
    - apply QueryEscape_alphabet.
    - intros a. apply escaped_char_ne. set_solver. }
  assert (k +:+ String "=" (QueryEscape query +:+ String "&" rest) =
          (k +:+ String "=" (QueryEscape query)) +:+ String "&" rest) as ->
    by (rewrite sapp_assoc; done).
  rewrite SplitByte_at by done. simpl. unfold paramOf at 1. change "=" with (str1 "=").
  rewrite Cut_at.
  - rewrite String.eqb_refl. simpl. apply QueryEscape_unescape.
  - apply (all_bytes_impl escaped_char); [|done]. intros a. apply escaped_char_ne. set_solver.
Qed.

Lemma all_bytes_TrimRight p s c : all_bytes p s = true → all_bytes p (TrimRightByte s c) = true.
Proof.
  destruct (TrimRightByte_spec s c) as (t & Hs & _ & _). intros H. rewrite Hs in H.
  rewrite all_bytes_app in H. by bool_hyps.
Qed.

(** ** Properties *)

(** (C28) The query cannot break out of its parameter: whatever bytes it contains,
    a server that splits the request URL the usual way reads back exactly that
    query, for the SearXNG, Openverse and both Pexels back ends, whenever the
    configured base URL has no query part of its own. *)
Theorem query_reaches_backend sx ov base query opts :
  all_bytes (byte_ne "?") (sxURL sx) = true → all_bytes (byte_ne "?") (ovBaseURL ov) = true →
  all_bytes (byte_ne "?") base = true →
  queryParam "q" (searxngBuildURL sx query opts) = Some query ∧
  queryParam "q" (openverseBuildURL ov query opts) = Some query ∧
  queryParam "query" (officialSearchURL base query opts) = Some query ∧
  queryParam "query" (internalSearchURL base query opts) = Some query.
Proof.
  intros Hsx Hov Hb.
  assert (∀ b path k rest, all_bytes (byte_ne "?") b = true → all_bytes (byte_ne "?") path = true →
    all_bytes escaped_char k = true →
    queryParam k (TrimRightByte b "/" +:+ (path +:+ String "?" (k +:+ "=")) +:+
                  QueryEscape query +:+ String "&" rest) = Some query) as Hgen.
  { intros b path k rest H1 H2 H3.
    rewrite <-(queryParam_first (TrimRightByte b "/" +:+ path) k query rest); [|..].
    - f_equal. rewrite !sapp_assoc. do 2 f_equal. simpl. f_equal. by rewrite sapp_assoc.
    - rewrite all_bytes_app, all_bytes_TrimRight by done. done.
    - done. }
  split_and!.
  - unfold searxngBuildURL. cbv zeta.
    pose proof (λ rest, Hgen (sxURL sx) "/search" "q" ("format=json&categories=images" +:+ rest) Hsx
                          eq_refl eq_refl) as Hq.
    repeat case_bool; rewrite ?sapp_assoc; [exact (Hq _)..|]. exact (Hq EmptyString).
  - unfold openverseBuildURL. cbv zeta.
    assert (all_bytes (byte_ne "?") (if ovBaseURL ov =?s "" then openverseDefaultURL else ovBaseURL ov)
            = true) as H' by (by case_bool).
    exact (Hgen _ "/images/" "q" ("page=" +:+ _) H' eq_refl eq_refl).
  - exact (Hgen _ "/search" "query" ("per_page=" +:+ _) Hb eq_refl eq_refl).
  - exact (Hgen _ "" "query" ("per_page=" +:+ _) Hb eq_refl eq_refl).
Qed.

Lemma query_reaches_backend_witness :
  queryParam "q" (searxngBuildURL (mkSearXNG "http://sx:8080//" None "") "a&format=csv#=?+ %" zeroSearchOpts)
  = Some "a&format=csv#=?+ %".
Proof.
  apply (query_reaches_backend (mkSearXNG "http://sx:8080//" None "") (mkOpenverse "" None "") ""
           "a&format=csv#=?+ %" zeroSearchOpts); reflexivity.
Defined.

(** The providers of a list all fail, one after the other: each returns an error
    or nothing.  [e] is the last error. *)
Inductive all_fail {W} (env : ∀ X, Ev X → W → res X * W) (ctx : Ctx) (query : string)
    (opts : SearchOpts) : list SearchProvider → option error → W → option error → W → Prop :=
  | fail_nil e w : all_fail env ctx query opts [] e w e w
  | fail_err p ps cs err e w w' e' w'' :
      run env (ProviderSearch p ctx query opts) w = (Ok (cs, Some err), w') →
      all_fail env ctx query opts ps (Some err) w' e' w'' →
      all_fail env ctx query opts (p :: ps) e w e' w''
  | fail_empty p ps e w w' e' w'' :
      run env (ProviderSearch p ctx query opts) w = (Ok ([], None), w') →
      all_fail env ctx query opts ps e w' e' w'' →
      all_fail env ctx query opts (p :: ps) e w e' w''.

Lemma fallbackLoop_run {W} (env : ∀ X, Ev X → W → res X * W) ctx query opts pre e0 w e w1 :
  all_fail env ctx query opts pre e0 w e w1 →
  run env (fallbackLoop pre e0 ctx query opts) w =
    (Ok ([], Some (default "all providers failed" e)), w1) ∧
  (∀ p post c cs w2,
     run env (ProviderSearch p ctx query opts) w1 = (Ok (c :: cs, None), w2) →
     run env (fallbackLoop (pre ++ p :: post) e0 ctx query opts) w = (Ok (c :: cs, None), w2)).
Proof.
  induction 1 as [e w|p ps cs err e w w' e' w'' Hp _ IH|p ps e w w' e' w'' Hp _ IH]; simpl.
  - split; [done|]. intros p post c cs w2 Hp. rewrite run_mbind, Hp. done.
  - rewrite !run_mbind, Hp. split; [apply IH|]. intros q post c cs' w2 Hq. rewrite run_mbind, Hp.
    by apply IH.
  - rewrite !run_mbind, Hp. split; [apply IH|]. intros q post c cs' w2 Hq. rewrite run_mbind, Hp.
    by apply IH.
Qed.

(** (C26) The JSON back ends return everything they get: a search of SearXNG,
    Openverse or either Pexels API makes one GET of its search URL through its
    client, and nothing else, whatever comes back (none at all only when that URL
    does not parse); it succeeds exactly when the answer is a reply (of status
    200, except for SearXNG, which does not look at it) whose body decodes, and
    its candidates are then the items of the reply with a usable URL and no
    blocked license, each once and in their order, with the item's URL, page and
    license.  Only a panic of the client escapes. *)
Theorem json_results_complete sx ov px base ctx query opts :
  (let u := searxngBuildURL sx query opts in
   wp (one_get (clientOrDefault (sxHTTPClient sx)) u ctx) []
     (ProviderSearch (searxng sx) ctx query opts)
     (search_complete u (λ _, True) searxngBodyLimit "results" sxImgSrc sxResURL
        (λ r, CheckLicense (sxImgSrc r) (sxResURL r)))) ∧
  (let u := openverseBuildURL ov query opts in
   wp (one_get (clientOrDefault (ovHTTPClient ov)) u ctx) []
     (ProviderSearch (openverse ov) ctx query opts)
     (search_complete u (λ st, st = StatusOK) openverseBodyLimit "results" ovURL ovForeignLandingURL
        (λ _, LicenseSafe))) ∧
  (let u := officialSearchURL base query opts in
   wp (one_get (clientOrDefault (pxHTTPClient px)) u ctx) []
     (searchOfficial px ctx base query opts)
     (search_complete u (λ st, st = StatusOK) pexelsBodyLimit "photos" (srcLarge ∘ phSrc) phURL
        (λ _, LicenseSafe))) ∧
  (let u := internalSearchURL base query opts in
   wp (one_get (clientOrDefault (pxHTTPClient px)) u ctx) []
     (searchInternal px ctx base query opts)
     (search_complete u (λ st, st = StatusOK) pexelsBodyLimit "data"
        (piDownloadLink ∘ paImage ∘ pitAttributes) photoPage (λ _, LicenseSafe))).
Proof.
  cbv zeta. split_and!.
  - unfold ProviderSearch, searxng, searxngSearch, searxngFetch, NewRequest.
    apply wp_bind. destruct (Parse _) eqn:Ep; [|by apply complete_none].
    apply wp_bind, wp_trigger; [done|]. intros a _. destruct a as [[resp|e]|v]; [|by apply complete_bad..].
    destruct (ReadAll _) as [body|] eqn:Eb; [|apply complete_bad; [done|naive_solver]].
    destruct (Unmarshal body) as [[items]|] eqn:Eu; [|apply complete_bad; [done|naive_solver]].
    simpl. eapply complete_reply; [done..|apply searxngFilter_selects].
  - unfold ProviderSearch, openverse, openverseSearch, openverseFetch, NewRequest.
    apply wp_bind. destruct (Parse _) eqn:Ep; [|by apply complete_none]. cbv zeta.
    apply wp_bind, wp_trigger; [by case_bool|]. intros a _. destruct a as [[resp|e]|v]; [|by apply complete_bad..].
    destruct (Z.eqb_spec (StatusCode resp) StatusOK) as [Hs|Hs]; [|apply complete_bad; [done|naive_solver]].
    cbn [negb]. destruct (ReadAll _) as [body|] eqn:Eb; [|apply complete_bad; [done|naive_solver]].
    destruct (Unmarshal body) as [[items]|] eqn:Eu; [|apply complete_bad; [done|naive_solver]].
    simpl. eapply complete_reply; [done..|apply openverseFilter_selects].
  - apply (doGet_complete "photos"), filterOfficialResults_selects.
  - apply (doGet_complete "data"), filterInternalResults_selects.
Qed.

(** (C27) The fallback stops at the first provider with results: the failing ones
    in front of it are asked in order, its results are returned, and the ones
    behind it are never asked.  When all fail, the last error is returned, or the
    sentinel if there was none. *)
Theorem fallback_first_success {W} (env : ∀ X, Ev X → W → res X * W) ctx query opts name pre w e w1 :
  all_fail env ctx query opts pre None w e w1 →
  run env (ProviderSearch (fallback pre name) ctx query opts) w =
    (Ok ([], Some (default "all providers failed" e)), w1) ∧
  (∀ p post c cs w2,
     run env (ProviderSearch p ctx query opts) w1 = (Ok (c :: cs, None), w2) →
     run env (ProviderSearch (fallback (pre ++ p :: post) name) ctx query opts) w =
       (Ok (c :: cs, None), w2)).
Proof. apply fallbackLoop_run. Qed.

(** A provider that always answers the same. *)
Definition constProvider (cs : list ImageCandidate) (err : option error) : SearchProvider :=
  mkProvider "const" (λ _ _ _, mret (cs, err)).

(** An environment that is never asked. *)
Definition silentEnv (X : Type) (_ : Ev X) (w : unit) : res X * unit := (Panicked "unused", w).

Lemma fallback_first_success_witness :
  run silentEnv
    (ProviderSearch (fallback ([constProvider [] (Some "down"); constProvider [] None] ++
       constProvider [zeroCandidate] None :: [constProvider [] (Some "never asked")]) "")
       Background "q" zeroSearchOpts) tt = (Ok ([zeroCandidate], None), tt).
Proof.
  apply (proj2 (fallback_first_success silentEnv Background "q" zeroSearchOpts ""
    [constProvider [] (Some "down"); constProvider [] None] tt (Some "down") tt
    ltac:(eapply fail_err; [reflexivity|]; eapply fail_empty; [reflexivity|]; constructor))).
  reflexivity.
Defined.

(** Every request fails. *)
Definition offline (h : history Ev) (X : Type) (e : Ev X) : res X → Prop :=
  match e in Ev X return res X → Prop with
  | HttpDo _ _ => λ a, ∃ err, a = Ok (inr err)
  | _ => λ _, True
  end.

(** With an API key and no secret key, a failing search is sent twice: the
    request that failed is repeated unchanged before the error is returned. *)
Theorem pexels_repeats_failed_request p ctx query opts :
  pxAPIKey p ≠ "" → pxSecretKey p = "" →
  is_Some (Parse (officialSearchURL (officialURL p) query opts)) →
  wp (Protocol (λ _ _ _, True) offline) [] (ProviderSearch (pexels p) ctx query opts)
     (λ h r, ∃ c req e1 e2, h = [Obs (HttpDo c req) (Ok (inr e1)); Obs (HttpDo c req) (Ok (inr e2))] ∧
        r = Ok ([], Some e2)).
Proof.
  intros Hk Hs [u Hu]. simpl. unfold pexelsSearch, pexelsRest.
  rewrite (proj2 (String.eqb_neq _ _) Hk), Hs. simpl negb. cbv iota.
  assert (∀ h, wp (Protocol (λ _ _ _, True) offline) h (searchOfficial p ctx (officialURL p) query opts)
    (λ h' r, ∃ c req e, c = clientOrDefault (pxHTTPClient p) ∧
       req = (let req := SetHeader (mkRequest "GET" (officialSearchURL (officialURL p) query opts) ∅ "" ctx)
                "Authorization" (pxAPIKey p) in
              if pxUserAgent p =?s "" then req else SetHeader req "User-Agent" (pxUserAgent p)) ∧
       h' = h ++ [Obs (HttpDo c req) (Ok (inr e))] ∧ r = Ok ([], Some e))) as Ho.
  { intros h. unfold searchOfficial, doGet, NewRequest. rewrite Hu. apply wp_bind, wp_bind, wp_trigger; [done|].
    intros r [err ->]. simpl. eauto 10. }
  apply wp_bind. eapply wp_mono; [apply Ho|]. intros h r (c & req & e1 & -> & -> & -> & ->).
  eapply wp_mono; [apply Ho|]. intros h' r (c' & req' & e2 & -> & -> & -> & ->). eauto 10.
Qed.

Lemma pexels_repeats_failed_request_witness :
  wp (Protocol (λ _ _ _, True) offline) []
     (ProviderSearch (pexels (mkPexels "key" "" None "" "" "")) Background "cat" zeroSearchOpts)
     (λ h r, length h = 2%nat).
Proof.
  eapply wp_mono.
  - apply (pexels_repeats_failed_request (mkPexels "key" "" None "" "" "") Background "cat" zeroSearchOpts);
      [done|done|vm_compute; eauto].
  - intros h r (c & req & e1 & e2 & -> & _). reflexivity.
Defined.

End Providers.
