(* ===== verification/PageProviders.v ===== *)
(** * Providers that read HTML (provider_og.go, provider_ddg.go)

    The og:image provider, and the DuckDuckGo provider with its token request. *)

From S2P Require Import Prelude Unicode GoStrings GoURL Regex JSON Effects Types License Config.
From S2P Require Import HtmlExtract Providers.

Local Open Scope Z_scope.

Module PageProviders.
Import License HtmlExtract Providers.

(** ** The og:image provider (provider_og.go) *)

Definition ogFetchTimeout : Z := 10 * Second.
Definition ogBodyLimit : Z := 2 * 1024 * 1024.

Record OGImageProvider := mkOG { ogHTTPClient : option Client }.

Definition fetchOG (p : OGImageProvider) (ctx : Ctx) (pageURL : string) : prog Ev string :=
  let ctx := WithTimeout ctx ogFetchTimeout in
  match NewRequest ctx "GET" pageURL "" with
  | None => mret ""
  | Some req =>
      let req := SetHeader req "User-Agent" "Mozilla/5.0 (compatible; go-imagefy/1.0)" in
      r ← trigger (HttpDo (clientOrDefault (ogHTTPClient p)) req);
      match r with
      | inr _ => mret ""
      | inl resp =>
          if StatusBadRequest <=? StatusCode resp then mret ""
          else
            match ReadAll (LimitReader (Body resp) ogBodyLimit) with
            | None => mret ""
            | Some body => mret (ExtractOGImageURL body)
            end
      end
  end.

(** What the extracted URL becomes. *)
Definition ogCandidates (imgURL pageURL : string) : list ImageCandidate :=
  if imgURL =?s "" then []
  else if IsLogoOrBanner (ToLower imgURL) then []
  else
    let license := CheckLicense imgURL pageURL in
    if license_eqb license LicenseBlocked then []
    else [candidate imgURL "" pageURL "og:image" license].

Definition ogSearch (p : OGImageProvider) (ctx : Ctx) (_ : string) (opts : SearchOpts) :
    prog Ev (list ImageCandidate * option error) :=
  if PageURL opts =?s "" then mret ([], None)
  else
    imgURL ← fetchOG p ctx (PageURL opts);
    mret (ogCandidates imgURL (PageURL opts), None).

Definition ogProvider (p : OGImageProvider) : SearchProvider := mkProvider "og" (ogSearch p).

(** ** The DuckDuckGo provider (provider_ddg.go) *)

Definition ddgBodyLimit : Z := 2 * 1024 * 1024.
Definition ddgBaseURL : string := "https://duckduckgo.com".

Record DDGImageProvider := mkDDG { ddgHTTPClient : option Client; ddgUserAgent : string }.

Record ddgImageResult := mkDdgResult {
  dgImage : string; dgThumbnail : string; dgURL : string; dgTitle : string; dgWidth : Z; dgHeight : Z }.

#[export] Instance JDecode_ddgImageResult : JDecode ddgImageResult :=
  jstruct (mkDdgResult "" "" "" "" 0 0)
    [field "image" dgImage (λ r v, mkDdgResult v (dgThumbnail r) (dgURL r) (dgTitle r) (dgWidth r) (dgHeight r));
     field "thumbnail" dgThumbnail (λ r v, mkDdgResult (dgImage r) v (dgURL r) (dgTitle r) (dgWidth r) (dgHeight r));
     field "url" dgURL (λ r v, mkDdgResult (dgImage r) (dgThumbnail r) v (dgTitle r) (dgWidth r) (dgHeight r));
     field "title" dgTitle (λ r v, mkDdgResult (dgImage r) (dgThumbnail r) (dgURL r) v (dgWidth r) (dgHeight r));
     field "width" dgWidth (λ r v, mkDdgResult (dgImage r) (dgThumbnail r) (dgURL r) (dgTitle r) v (dgHeight r));
     field "height" dgHeight (λ r v, mkDdgResult (dgImage r) (dgThumbnail r) (dgURL r) (dgTitle r) (dgWidth r) v)].

(** [0-9a-f-] *)
Definition vqd_rune (r : Z) : bool := digit_rune r || ((97 <=? r) && (r <=? 102)) || (r =? 45).
Definition vqdRe : re := cats ([lit "vqd="] ++ Group 1 (Plus vqd_rune) :: []).

Definition ddgDefaultUA : string :=
  "Mozilla/5.0 (X11; Linux x86_64) AppleWebKit/537.36 (KHTML, like Gecko) Chrome/131.0.0.0 Safari/537.36".

Definition ddgGet (p : DDGImageProvider) (ctx : Ctx) (rawURL : string) : prog Ev (string + error) :=
  match NewRequest ctx "GET" rawURL "" with
  | None => mret (inr "parse error")
  | Some req =>
      let ua := if ddgUserAgent p =?s "" then ddgDefaultUA else ddgUserAgent p in
      let req := SetHeader req "User-Agent" ua in
      let req := SetHeader req "Accept" "text/html,application/xhtml+xml,application/json,*/*" in
      let req := SetHeader req "Accept-Language" "ru-RU,ru;q=0.9,en-US;q=0.8,en;q=0.7" in
      let req := SetHeader req "Referer" (ddgBaseURL +:+ "/") in
      r ← trigger (HttpDo (clientOrDefault (ddgHTTPClient p)) req);
      match r with
      | inr err => mret (inr err)
      | inl resp =>
          if 400 <=? StatusCode resp
          then mret (inr ("HTTP " +:+ Itoa (StatusCode resp) +:+ " from " +:+ rawURL))
          else
            match ReadAll (LimitReader (Body resp) ddgBodyLimit) with
            | None => mret (inr "read error")
            | Some body => mret (inl body)
            end
      end
  end.

Definition ddgTokenURL (query : string) : string :=
  ddgBaseURL +:+ "/?q=" +:+ QueryEscape query +:+ "&iax=images&ia=images".

Definition fetchToken (p : DDGImageProvider) (ctx : Ctx) (query : string) : prog Ev (string + error) :=
  r ← ddgGet p ctx (ddgTokenURL query);
  match r with
  | inr err => mret (inr err)
  | inl body =>
      match FindSubmatch vqdRe body with
      | None => mret (inr ("vqd token not found in DDG response (" +:+ Itoa (Z.of_nat (slen body)) +:+ " bytes)"))
      | Some m => mret (inl (group m 1))
      end
  end.

Definition ddgImagesURL (query token : string) : string :=
  ddgBaseURL +:+ "/i.js?l=ru-ru&o=json&q=" +:+ QueryEscape query +:+ "&vqd=" +:+ QueryEscape token +:+
  "&f=,,,,,&p=1".

Definition fetchImages (p : DDGImageProvider) (ctx : Ctx) (query token : string) :
    prog Ev (list ddgImageResult + error) :=
  r ← ddgGet p ctx (ddgImagesURL query token);
  match r with
  | inr err => mret (inr err)
  | inl body =>
      match @Unmarshal _ (JDecode_listResponse "results") body with
      | None => mret (inr "ddg json")
      | Some resp => mret (inl (lrItems resp))
      end
  end.

Definition ddgCandidate (r : ddgImageResult) : option ImageCandidate :=
  if dgImage r =?s "" then None
  else if IsLogoOrBanner (ToLower (dgImage r)) then None
  else
    let license := CheckLicense (dgImage r) (dgURL r) in
    if license_eqb license LicenseBlocked then None
    else Some (candidate (dgImage r) (dgThumbnail r) (dgURL r) (dgTitle r) license).

Definition ddgFilter (results : list ddgImageResult) : list ImageCandidate := omap ddgCandidate results.

Definition ddgSearch (p : DDGImageProvider) (ctx : Ctx) (query : string) (_ : SearchOpts) :
    prog Ev (list ImageCandidate * option error) :=
  t ← fetchToken p ctx query;
  match t with
  | inr err => mret ([], Some ("ddg token: " +:+ err))
  | inl token =>
      r ← fetchImages p ctx query token;
      match r with
      | inr err => mret ([], Some ("ddg images: " +:+ err))
      | inl results => mret (ddgFilter results, None)
      end
  end.

Definition ddg (p : DDGImageProvider) : SearchProvider := mkProvider "ddg" (ddgSearch p).

(** ** Lemmas *)

Lemma ogCandidates_vetted u page : Forall vetted (ogCandidates u page).
Proof.
  unfold ogCandidates. cbv zeta. repeat case_bool; constructor; [|done]. split; [|done].
  by apply license_eqb_neq.
Qed.

#[export] Instance ogProvider_lawful p : LawfulProvider (ogProvider p).
Proof.
  intros h ctx query opts. simpl. unfold ogSearch. case_bool; [by apply search_post_ok|].
  apply wp_bind, wp_free. intros h' [u|v]; [|done]. apply search_post_ok, ogCandidates_vetted.
Qed.

Lemma ddgCandidate_vetted r c : ddgCandidate r = Some c → vetted c.
Proof.
  unfold ddgCandidate. cbv zeta. repeat case_bool; intros [= <-]. split; [|done].
  by apply license_eqb_neq.
Qed.

#[export] Instance ddg_lawful p : LawfulProvider (ddg p).
Proof.
  intros h ctx query opts. apply wp_bind, wp_free. intros h' [[token|err]|v]; [|done..].
  apply wp_bind, wp_free. intros h'' [[results|err]|v]; [|done..].
  apply search_post_ok, omap_vetted, ddgCandidate_vetted.
Qed.

(** A literal in the text is that literal. *)
Lemma lit_cells s a l b w :
  decode s = a ++ l ++ b → is_ascii w = true → lang (lit w) l → of_cells l = w.
Proof.
  intros Hd Hw Hl%lang_lit_runes.
  assert (∀ x, x ∈ l → x ∈ decode s) as Hin by (rewrite Hd; set_solver). clear Hd.
  revert w Hw Hl. induction l as [|c l IH]; intros [|x w] Hw Hl; [done|..].
  - unfold is_ascii in Hw. simpl in Hw. bool_hyps. rewrite decode_ascii in Hl by done. inversion Hl.
  - inversion Hl.
  - unfold is_ascii in *. simpl in Hw. bool_hyps. rewrite decode_ascii in Hl by done.
    inversion Hl as [|? ? ? ? Hx Hl']; subst. unfold is_rune in Hx. simpl in Hx. bool_hyps.
    rewrite of_cells_cons, (IH (λ y Hy, Hin y ltac:(by right)) w) by done.
    pose proof (bval_range x). unfold ascii_byte in *. bool_hyps.
    rewrite (small_cell s c) by (lia || (apply Hin; by left)).
    by replace (rune c) with (bval x) by lia; rewrite byte_of_bval.
Qed.

Definition vqd_byte (a : ascii) : bool := vqd_rune (bval a).

Lemma vqd_cells s a l b :
  decode s = a ++ l ++ b → Forall (λ c, vqd_rune (rune c) = true) l → all_bytes vqd_byte (of_cells l) = true.
Proof.
  intros Hd Hl. assert (∀ x, x ∈ l → x ∈ decode s) as Hin by (rewrite Hd; set_solver). clear Hd.
  induction Hl as [|c l Hc Hl IH]; [done|].
  assert (0 ≤ rune c < 0x80) as Hr by (unfold vqd_rune, digit_rune in Hc; bool_hyps; lia).
  rewrite of_cells_cons, (small_cell s c) by (lia || (apply Hin; by left)). simpl.
  unfold vqd_byte at 1. rewrite bval_byte_of, Z.mod_small, Hc by lia. apply IH. intros; apply Hin; by right.
Qed.

Lemma vqd_found s m :
  FindSubmatch vqdRe s = Some m →
  group m 1 ≠ "" ∧ all_bytes vqd_byte (group m 1) = true ∧ Contains s ("vqd=" +:+ group m 1) = true.
Proof.
  intros Hf%FindSubmatch_found.
  apply found_group in Hf as (pre & l1 & l & l2 & post & Hd & Hl1 & [Hne Hl]%lang_Plus & _ & Hm);
    [|by inversion 1]. unfold group. rewrite Hm. simpl.
  pose proof (lit_cells _ _ _ _ "vqd=" Hd eq_refl Hl1) as E1. pose proof (decode_of_cells s) as Hs.
  rewrite Hd, !of_cells_app, E1 in Hs. rewrite (app_assoc pre) in Hd. split_and!.
  - by eapply of_cells_nonempty.
  - by eapply vqd_cells.
  - apply Contains_iff. exists (of_cells pre), (of_cells (l2 ++ post)).
    rewrite <-Hs, of_cells_app. simpl. by rewrite ?sapp_assoc.
Qed.

(** The parameters of the two requests. *)
Lemma ddgTokenURL_query query : queryParam "q" (ddgTokenURL query) = Some query.
Proof. exact (queryParam_first "https://duckduckgo.com/" "q" query "iax=images&ia=images" eq_refl eq_refl). Qed.

Lemma escaped_no_amp k v :
  all_bytes escaped_char k = true → all_bytes (byte_ne "&") (k +:+ String "=" (QueryEscape v)) = true.
Proof.
  intros Hk. rewrite all_bytes_app. simpl. rewrite !(all_bytes_impl escaped_char (byte_ne "&")); try done.
  - intros a. apply escaped_char_ne. set_solver.
  - apply QueryEscape_alphabet.
  - intros a. apply escaped_char_ne. set_solver.
Qed.

Lemma paramOf_escaped k k' v :
  all_bytes escaped_char k = true →
  paramOf k' (k +:+ String "=" (QueryEscape v)) = if k =?s k' then Some (QueryEscape v) else None.
Proof.
  intros Hk. unfold paramOf. change "=" with (str1 "="). rewrite Cut_at; [done|].
  apply (all_bytes_impl escaped_char); [|done]. intros a. apply escaped_char_ne. set_solver.
Qed.

Lemma ddgImagesURL_params query token :
  queryParam "q" (ddgImagesURL query token) = Some query ∧
  queryParam "vqd" (ddgImagesURL query token) = Some token.
Proof.
  assert (ddgImagesURL query token = "https://duckduckgo.com/i.js" +:+ String "?"
    ("l=ru-ru" +:+ String "&" ("o=json" +:+ String "&" (("q" +:+ String "=" (QueryEscape query)) +:+
     String "&" (("vqd" +:+ String "=" (QueryEscape token)) +:+ String "&" "f=,,,,,&p=1"))))) as ->.
  { unfold ddgImagesURL, ddgBaseURL. simpl. by rewrite ?sapp_assoc. }
  unfold queryParam. change "?" with (str1 "?"). rewrite Cut_at by done.
  rewrite (SplitByte_at "l=ru-ru"), (SplitByte_at "o=json") by done.
  rewrite (SplitByte_at ("q" +:+ _)), (SplitByte_at ("vqd" +:+ _)) by (by apply escaped_no_amp).
  cbn [omap list_omap]. rewrite !paramOf_escaped by done. simpl. rewrite !QueryEscape_unescape. done.
Qed.

#[local] Arguments ddgGet : simpl never.
#[local] Arguments ddgImagesURL : simpl never.

(** One request, and what becomes of its response. *)
Lemma wp_ddgGet P h p ctx u Q :
  (∀ e, Q h (Ok (inr e))) →
  (∀ c req, ReqURL req = u → Method req = "GET" → ReqCtx req = ctx → HeaderGet (ReqHeader req) "User-Agent" ≠ "" →
     may P h (HttpDo c req) ∧
     ∀ a, answers P h (HttpDo c req) a →
       let h' := h ++ [Obs (HttpDo c req) a] in
       match a with
       | Ok (inl resp) =>
           match ReadAll (LimitReader (Body resp) ddgBodyLimit) with
           | Some body => if StatusCode resp <? 400 then Q h' (Ok (inl body)) else ∀ e, Q h' (Ok (inr e))
           | None => ∀ e, Q h' (Ok (inr e))
           end
       | Ok (inr e) => Q h' (Ok (inr e))
       | Panicked v => Q h' (Panicked v)
       end) →
  wp P h (ddgGet p ctx u) Q.
Proof.
  intros Hnone Hsome. unfold ddgGet, NewRequest. destruct (Parse u); [|apply Hnone]. cbv zeta.
  match goal with |- wp _ _ (trigger (HttpDo ?c ?r) ≫= _) _ =>
    destruct (Hsome c r eq_refl eq_refl eq_refl) as [Hm Ha] end.
  { unfold HeaderGet. simpl. rewrite !lookup_insert_ne by done. rewrite lookup_insert_eq. simpl.
    case_bool; [done|]. by bool_hyps. }
  apply wp_bind, wp_trigger; [done|]. intros a Hans. specialize (Ha a Hans). cbv zeta in Ha.
  destruct a as [[resp|e]|v]; [|done..].
  destruct (Z.leb_spec 400 (StatusCode resp)) as [Hs|Hs], (ReadAll _) as [body|];
    rewrite ?(proj2 (Z.ltb_ge _ _) Hs), ?(proj2 (Z.ltb_lt _ _) Hs) in Ha; apply Ha.
Qed.

(** The requests of a search: first the token page for the query; then, only
    behind an answer that carries a token, the image API with the same query and
    that token. *)
Definition token_answer (token : string) (o : obs Ev) : Prop :=
  match o with
  | Obs e r =>
      match e in Ev X return res X → Prop with
      | HttpDo _ _ => λ a, ∃ resp, a = Ok (inl resp) ∧ StatusCode resp < 400 ∧
          Contains (rdData (Body resp)) ("vqd=" +:+ token) = true
      | _ => λ _, False
      end r
  end.

Definition may_ddg (ctx : Ctx) (query : string) (h : history Ev) (X : Type) (e : Ev X) : Prop :=
  match e with
  | HttpDo _ r =>
      Method r = "GET" ∧ ReqCtx r = ctx ∧ HeaderGet (ReqHeader r) "User-Agent" ≠ "" ∧
      queryParam "q" (ReqURL r) = Some query ∧
      (h = [] ∨ ∃ o token, h = [o] ∧ token_answer token o ∧ token ≠ "" ∧
         all_bytes vqd_byte token = true ∧ queryParam "vqd" (ReqURL r) = Some token)
  | _ => False
  end.

(** The candidates are those of the second answer: a search succeeds exactly when
    that is a reply whose body decodes, and returns every usable item of it. *)
Definition ddg_results (h : history Ev) (r : res (list ImageCandidate * option error)) : Prop :=
  let reply items o := replied (λ st, st < 400) ddgBodyLimit "results" items o in
  let selected := selects dgImage dgURL (λ i, CheckLicense (dgImage i) (dgURL i)) in
  (∀ o o' items, h = [o; o'] → reply items o' → ∃ cs, r = Ok (cs, None) ∧ selected items cs) ∧
  (∀ cs, r = Ok (cs, None) → ∃ o o' items, h = [o; o'] ∧ reply items o' ∧ selected items cs).

Lemma ddgFilter_selects items :
  selects dgImage dgURL (λ i, CheckLicense (dgImage i) (dgURL i)) items (ddgFilter items).
Proof.
  apply omap_selects. intros a. unfold ddgCandidate, usable. cbv zeta.
  destruct (dgImage a =?s "") eqn:E1; [by intros [? _]|].
  destruct (IsLogoOrBanner (ToLower (dgImage a))) eqn:E2; [by intros [? _]|].
  destruct (license_eqb _ LicenseBlocked) eqn:E3; simpl.
  - intros [_ Hn]. by apply license_eqb_eq in E3.
  - split_and!; [done|by apply license_eqb_neq|done].
Qed.

(** The search behind the token. *)
Lemma ddg_second P p ctx query token o :
  (∀ c req, ReqURL req = ddgImagesURL query token → Method req = "GET" → ReqCtx req = ctx →
     HeaderGet (ReqHeader req) "User-Agent" ≠ "" → may P [o] (HttpDo c req)) →
  wp P [o]
    (r ← fetchImages p ctx query token;
     match r with
     | inr err => mret ([], Some ("ddg images: " +:+ err))
     | inl results => mret (ddgFilter results, None)
     end)
    (λ h r, (length h ≤ 2)%nat ∧ search_post r ∧ ddg_results h r).
Proof.
  intros Hmay. apply wp_bind, wp_bind, wp_ddgGet.
  { intros e. split; [simpl; lia|]. by repeat split. }
  intros c req Hu Hm Hc Hh. split; [by apply Hmay|]. intros a _ h'.
  assert (∀ r, search_post r → (∀ cs, r ≠ Ok (cs, None)) →
    (∀ resp body items, a = Ok (inl resp) → StatusCode resp < 400 →
       ReadAll (LimitReader (Body resp) ddgBodyLimit) = Some body →
       @Unmarshal _ (JDecode_listResponse "results") body ≠ Some (mkListResponse (A := ddgImageResult) items)) →
    (length h' ≤ 2)%nat ∧ search_post r ∧ ddg_results h' r) as Hbad.
  { intros r Hp Hr Ha. split; [simpl; lia|]. split; [done|]. split; [|intros cs ->; by destruct (Hr cs)].
    intros o1 o2 items [= _ <-] (resp & body & E & Hs & Hb & Hd). by destruct (Ha resp body items). }
  destruct a as [[resp|e]|v]; [|apply Hbad; [done|done|naive_solver]..].
  destruct (ReadAll _) as [body|] eqn:Eb; [|intros e; apply Hbad; [done|done|naive_solver]].
  destruct (Z.ltb_spec (StatusCode resp) 400) as [Hs|Hs];
    [|intros e; apply Hbad; [done|done|intros ? ? ? [= <-]; lia]].
  destruct (Unmarshal body) as [[items]|] eqn:Eu; [|apply Hbad; [done|done|naive_solver]].
  pose proof (ddgFilter_selects items) as Hsel. split; [simpl; lia|]. split.
  { apply search_post_ok, omap_vetted, ddgCandidate_vetted. }
  split.
  - intros o1 o2 items' [= _ <-] (? & ? & [= <-] & _ & Hb' & Hu'). rewrite Eb in Hb'.
    injection Hb' as <-. rewrite Eu in Hu'. injection Hu' as <-. by eexists.
  - intros cs [= <-]. exists o. eexists _, items. split; [done|]. split; [by exists resp, body|done].
Qed.

(** (C29) The DuckDuckGo search keeps its two-step protocol whatever the server
    answers: the first request carries the query, a second one is sent only when
    the first answer contained a token, and it carries the same query and exactly
    that token; the whole search makes at most two requests.  It succeeds exactly
    when the second answer decodes, and returns then every usable item of it in
    order; errors come with no results. *)
Theorem ddg_protocol p ctx query opts :
  wp (Protocol (may_ddg ctx query) (λ _ _ _ _, True)) []
     (ProviderSearch (ddg p) ctx query opts)
     (λ h r, (length h ≤ 2)%nat ∧ search_post r ∧ ddg_results h r).
Proof.
  unfold ProviderSearch, ddg, ddgSearch. apply wp_bind, wp_bind, wp_ddgGet.
  { intros e. split; [simpl; lia|]. by repeat split. }
  intros c req Hu Hm Hc Hh. split.
  { split_and!; try done; [rewrite Hu; apply ddgTokenURL_query|by left]. }
  intros a _ h'.
  assert (∀ r, search_post r → (∀ cs, r ≠ Ok (cs, None)) →
    (length h' ≤ 2)%nat ∧ search_post r ∧ ddg_results h' r) as Hbad.
  { intros r Hp Hr. split; [simpl; lia|]. split; [done|]. split; [done|]. intros cs ->. by destruct (Hr cs). }
  destruct a as [[resp|e]|v]; [|by apply Hbad..].
  destruct (ReadAll _) as [body|] eqn:Eb; [|by intros e; apply Hbad].
  destruct (Z.ltb_spec (StatusCode resp) 400) as [Hst|_]; [|by intros e; apply Hbad].
  apply ReadAll_LimitReader in Eb as [-> _]; [|by unfold ddgBodyLimit; lia].
  destruct (FindSubmatch vqdRe _) as [m|] eqn:Ev; [|by apply Hbad].
  apply vqd_found in Ev as (Hne & Hall & Hcont).
  assert (Contains (rdData (Body resp)) ("vqd=" +:+ group m 1) = true) as Hc2.
  { rewrite <-(string_take_drop (Z.to_nat ddgBodyLimit) (rdData (Body resp))). by apply Contains_app_r. }
  destruct (ddgImagesURL_params query (group m 1)) as [Hq Hv].
  apply ddg_second. intros c' req' Hu' Hm' Hc' Hh'. split_and!; try done; rewrite Hu'; [done|].
  right. eexists _, (group m 1). split; [done|]. split_and!; try done. by exists resp.
Qed.

End PageProviders.
