(* ===== verification/ContentProvider.v ===== *)
(** * The content image provider (provider_content.go)

    [ContentImageProvider.Search]: one page fetch, then og:image, twitter:image,
    JSON-LD and [img] tags sorted into four buckets that share one set of
    normalised URLs. *)

From S2P Require Import Prelude Unicode GoStrings GoURL Regex HtmlText JSON Effects Types License.
From S2P Require Import Config HtmlExtract Providers.

Local Open Scope Z_scope.

Module ContentProvider.
Import License HtmlExtract Providers.

(** ** [path.Base] and [path.Ext] *)

(** What follows the last slash. *)
Definition after_slash (p : string) : string :=
  match LastIndex p "/" with Some i => string_drop (S i) p | None => p end.

Definition path_Base (p : string) : string :=
  if p =?s "" then "."
  else
    let p := TrimRightByte p "/" in
    let p := after_slash p in
    if p =?s "" then "/" else p.

Definition path_Ext (p : string) : string :=
  let b := after_slash p in
  match LastIndex b "." with Some i => string_drop i b | None => "" end.

(** ** Constants and patterns *)

Definition contentFetchTimeout : Z := 10 * Second.
Definition contentBodyLimit : Z := 2 * 1024 * 1024.
Definition contentMaxResults : nat := 8.
Definition minContentDimension : Z := 200.

Definition contentSkipPatterns : list string := [
  "logo"; "icon"; "avatar"; "sprite"; "favicon"; "placeholder"; "stub"; "banner" ].

(** [-(\d+)x(\d+)$] *)
Definition contentSizeRe : re :=
  cats [lit "-"; Group 1 (Plus digit_rune); lit "x"; Group 2 (Plus digit_rune); EndText].

Definition contentSrcRe : re :=
  cats [WordB; ilit "src="; Chr quote; Group 1 (Plus no_quote); Chr quote].
Definition contentWidthRe : re :=
  cats [WordB; ilit "width="; Opt (Chr quote); Group 1 (Plus digit_rune); Opt (Chr quote)].
Definition contentHeightRe : re :=
  cats [WordB; ilit "height="; Opt (Chr quote); Group 1 (Plus digit_rune); Opt (Chr quote)].
Definition contentImgTagRe : re := cats [ilit "<img"; WordB; Star true no_gt; ilit ">"].

Definition twitter_name : re := Alt (ilit "name") (ilit "property").
Definition twitterImageRe : re :=
  Alt
    (cats [ilit "<meta"; Plus perl_space; Star true no_gt; twitter_name; ilit "="; Chr quote;
           ilit "twitter:image"; Chr quote; Star true no_gt; ilit "content="; Chr quote;
           Group 1 (Plus no_quote); Chr quote])
    (cats [ilit "<meta"; Plus perl_space; Star true no_gt; ilit "content="; Chr quote;
           Group 2 (Plus no_quote); Chr quote; Star true no_gt; twitter_name; ilit "="; Chr quote;
           ilit "twitter:image"; Chr quote]).

(** The group is lazy and [.] includes the newline. *)
Definition jsonLDScriptRe : re :=
  cats [ilit "<script"; WordB; Star true no_gt; ilit "type="; Chr quote; ilit "application/ld+json";
        Chr quote; Star true no_gt; ilit ">"; Group 1 (Star false (λ _, true)); ilit "</script>"].

(** The separators of slug tokens. *)
Definition slugSepRe : re := Plus (λ r, negb (is_lower_ascii r || digit_rune r)).

(** ** Helpers *)

Definition registrableDomain (rawURL : string) : string :=
  match Parse rawURL with
  | None => ""
  | Some u =>
      if Host u =?s "" then ""
      else
        let host := Hostname u in
        let parts := SplitByte host "." in
        if (length parts <? 2)%nat then host
        else Join (drop (length parts - 2) parts) "."
  end.

(** The closure [add]: the tokens so far; its map [seen] holds exactly them. *)
Definition addToken (tokens : list string) (s : string) : list string :=
  let s := ToLower s in
  if (4 <=? slen s)%nat then
    if bool_decide (s ∈ tokens) then tokens else tokens ++ [s]
  else tokens.

Definition slugTokensFrom (pageURL query : string) : list string :=
  let tokens :=
    match Parse pageURL with
    | Some u => fold_left addToken (Split slugSepRe (ToLower (path_Base (Path u)))) []
    | None => []
    end in
  fold_left addToken (Split slugSepRe (ToLower query)) tokens.

Definition isSlugMatch (imgURL : string) (tokens : list string) : bool :=
  if (length tokens =? 0)%nat then false
  else containsAny (ToLower (path_Base imgURL)) tokens.

Definition isContentSkip (lower : string) : bool := containsAny lower contentSkipPatterns.

Definition extractAttr (r : re) (s : string) : string :=
  match FindSubmatch r s with
  | None => ""
  | Some m => if group m 1 =?s "" then "" else group m 1
  end.

(** [int] arithmetic wraps at 64 bits. *)
Fixpoint parseInt_loop (n : Z) (l : list cell) : Z :=
  match l with
  | [] => n
  | c :: l' =>
      if (rune c <? 48) || (57 <? rune c) then 0
      else parseInt_loop (int64 (n * 10 + (rune c - 48))) l'
  end.

Definition parseIntFast (s : string) : Z := parseInt_loop 0 (decode s).

(** [w > 0 && h > 0 && w < minContentDimension && h < minContentDimension] *)
Definition tiny (w h : Z) : bool :=
  (0 <? w) && (0 <? h) && (w <? minContentDimension) && (h <? minContentDimension).

Definition isTinyThumbnail (imgTag src : string) : bool :=
  let base := TrimSuffix (path_Base src) (path_Ext src) in
  let bySuffix :=
    match FindSubmatch contentSizeRe base with
    | Some m => tiny (parseIntFast (group m 1)) (parseIntFast (group m 2))
    | None => false
    end in
  if bySuffix then true
  else
    let wStr := extractAttr contentWidthRe imgTag in
    let hStr := extractAttr contentHeightRe imgTag in
    if (wStr <>?s "") && (hStr <>?s "") then tiny (parseIntFast wStr) (parseIntFast hStr) else false.

Definition normalizeImgURL (imgURL : string) : string :=
  let ext := path_Ext imgURL in
  let stem := TrimSuffix imgURL ext in
  if MatchString contentSizeRe (path_Base stem) then RemoveAll contentSizeRe stem +:+ ext
  else imgURL.

(** The two anonymous structs with a single [url]. *)
Record urlObject := mkUrlObject { uoURL : string }.
#[export] Instance JDecode_urlObject : JDecode urlObject :=
  jstruct (mkUrlObject "") [field "url" uoURL (λ _ v, mkUrlObject v)].

(** [json.Unmarshal] of a raw message: the message was already parsed. *)
Definition UnmarshalRaw {A} `{JDecode A} (raw : json) : option A := jinto jzero raw.

Definition extractJSONLDImage (raw : string) : string :=
  let raw := TrimSpace raw in
  if raw =?s "" then ""
  else
    match @Unmarshal RawMap _ raw with
    | None => ""
    | Some doc =>
        match doc !! "image" with
        | None => ""
        | Some imageRaw =>
            match @UnmarshalRaw string _ imageRaw with
            | Some (String _ _ as s) => s
            | _ =>
                match @UnmarshalRaw urlObject _ imageRaw with
                | Some (mkUrlObject (String _ _ as u)) => u
                | _ =>
                    match @UnmarshalRaw (list json) _ imageRaw with
                    | Some (first :: _) =>
                        match @UnmarshalRaw string _ first with
                        | Some s => s
                        | None =>
                            match @UnmarshalRaw urlObject _ first with
                            | Some o => uoURL o
                            | None => ""
                            end
                        end
                    | _ => ""
                    end
                end
            end
        end
    end.

(** ** [Search] *)

Record ContentImageProvider := mkContent { cnHTTPClient : option Client }.

Definition fetchPage (p : ContentImageProvider) (ctx : Ctx) (pageURL : string) : prog Ev (string + error) :=
  let ctx := WithTimeout ctx contentFetchTimeout in
  match NewRequest ctx "GET" pageURL "" with
  | None => mret (inr "parse error")
  | Some req =>
      let req := SetHeader req "User-Agent" "Mozilla/5.0 (compatible; go-imagefy/1.0)" in
      r ← trigger (HttpDo (clientOrDefault (cnHTTPClient p)) req);
      match r with
      | inr err => mret (inr err)
      | inl resp =>
          if StatusBadRequest <=? StatusCode resp then mret (inl "")
          else
            match ReadAll (LimitReader (Body resp) contentBodyLimit) with
            | None => mret (inr "read error")
            | Some body => mret (inl body)
            end
      end
  end.

(** The local variables of [Search]: the four buckets and the set of normalised
    URLs they share. *)
Record buckets := mkBuckets {
  priority : list ImageCandidate; normal : list ImageCandidate;
  jsonld : list ImageCandidate; ogFallback : list ImageCandidate;
  seen : gset string }.

Definition noBuckets : buckets := mkBuckets [] [] [] [] ∅.

(** The pointer passed as [bucket]. *)
Inductive bucket := BPriority | BNormal | BJsonLD | BOg.

Definition push (b : bucket) (c : ImageCandidate) (s : buckets) : buckets :=
  match b with
  | BPriority => mkBuckets (priority s ++ [c]) (normal s) (jsonld s) (ogFallback s) (seen s)
  | BNormal => mkBuckets (priority s) (normal s ++ [c]) (jsonld s) (ogFallback s) (seen s)
  | BJsonLD => mkBuckets (priority s) (normal s) (jsonld s ++ [c]) (ogFallback s) (seen s)
  | BOg => mkBuckets (priority s) (normal s) (jsonld s) (ogFallback s ++ [c]) (seen s)
  end.

Definition see (norm : string) (s : buckets) : buckets :=
  mkBuckets (priority s) (normal s) (jsonld s) (ogFallback s) ({[norm]} ∪ seen s).

Definition addIfNew (pageURL imgURL title : string) (b : bucket) (s : buckets) : buckets :=
  let clean := UnescapeString (TrimSpace imgURL) in
  if (clean =?s "") || negb (HasPrefix clean "http") then s
  else
    let norm := normalizeImgURL clean in
    if bool_decide (norm ∈ seen s) then s
    else
      let s := see norm s in
      if IsLogoOrBanner (ToLower clean) then s
      else
        let license := CheckLicense clean pageURL in
        if license_eqb license LicenseBlocked then s
        else push b (candidate clean "" pageURL title license) s.

(** 1. og:image and twitter:image *)
Definition collectOG (pageURL body : string) (s : buckets) : buckets :=
  let ogURL := ExtractOGImageURL body in
  let s := if ogURL <>?s "" then addIfNew pageURL ogURL "og:image" BOg s else s in
  match FindSubmatch twitterImageRe body with
  | Some m =>
      let tw := if group m 1 =?s "" then group m 2 else group m 1 in
      addIfNew pageURL tw "twitter:image" BOg s
  | None => s
  end.

(** 2. one JSON-LD block *)
Definition collectBlock (pageURL : string) (s : buckets) (block : string) : buckets :=
  let u := extractJSONLDImage block in
  if u <>?s "" then addIfNew pageURL u "jsonld:image" BJsonLD s else s.

(** [match[1]] of every match *)
Definition jsonLDBlocks (body : string) : list string :=
  (λ '(_, _, cs), match (cs : gmap nat (nat * nat)) !! 1%nat with
                  | Some (i, j) => slice (decode body) i j
                  | None => ""
                  end) <$> FindAll jsonLDScriptRe body.

(** 3. one [img] tag *)
Definition collectTag (pageURL pageHost : string) (slugTokens : list string) (s : buckets)
    (imgTag : string) : buckets :=
  let src := extractAttr contentSrcRe imgTag in
  if src =?s "" then s
  else
    let src := UnescapeString (TrimSpace src) in
    if negb (HasPrefix src "http") then s
    else if negb (registrableDomain src =?s pageHost) || (pageHost =?s "") then s
    else if isContentSkip (ToLower src) then s
    else if isTinyThumbnail imgTag src then s
    else
      let src := normalizeImgURL src in
      if isSlugMatch src slugTokens then addIfNew pageURL src "content:img:slug" BPriority s
      else addIfNew pageURL src "content:img" BNormal s.

Definition collect (pageURL query body : string) : buckets :=
  let pageHost := registrableDomain pageURL in
  let slugTokens := slugTokensFrom pageURL query in
  let s := collectOG pageURL body noBuckets in
  let s := fold_left (collectBlock pageURL) (jsonLDBlocks body) s in
  fold_left (collectTag pageURL pageHost slugTokens) (FindAllString contentImgTagRe body) s.

Definition merge (s : buckets) : list ImageCandidate :=
  let out := priority s ++ normal s ++ jsonld s ++ ogFallback s in
  if (contentMaxResults <? length out)%nat then take contentMaxResults out else out.

Definition contentSearch (p : ContentImageProvider) (ctx : Ctx) (query : string) (opts : SearchOpts) :
    prog Ev (list ImageCandidate * option error) :=
  if PageURL opts =?s "" then mret ([], None)
  else
    r ← fetchPage p ctx (PageURL opts);
    match r with
    | inr _ => mret ([], None)
    | inl pageBody =>
        if pageBody =?s "" then mret ([], None)
        else mret (merge (collect (PageURL opts) query pageBody), None)
    end.

Definition content (p : ContentImageProvider) : SearchProvider := mkProvider "content" (contentSearch p).

(** Pages of the examples are written with a back quote for the double quote. *)
Definition page (s : string) : string := map_bytes (λ a, if Ascii.eqb a "`" then chr 34 else a) s.

Definition demoPage : string := page (
  "<meta property='og:image' content='https://s.news.ru/og.jpg'>" +:+
  "<script type='application/ld+json'> {`image`: [{`url`: `https://s.news.ru/ld.jpg`}]} </script>" +:+
  "<img src='https://cdn.news.ru/a-320x240.jpg'><img class=x src='https://cdn.news.ru/big-bridge-640x480.jpg'>" +:+
  "<img src='https://cdn.news.ru/t-100x90.jpg'><img src='https://other.ru/b.jpg'>").

Example path_demo :
  path_Base "https://a.b/c/d.jpg" = "d.jpg" ∧ path_Ext "https://a.b/c/d.jpg?x=1" = ".jpg?x=1" ∧
  path_Base "" = "." ∧ path_Base "///" = "/" ∧ path_Base "a/b//" = "b" ∧ path_Ext "a.b/c" = "" ∧
  normalizeImgURL "https://cdn.example.com/photo-640x480.jpg" = "https://cdn.example.com/photo.jpg" ∧
  registrableDomain "https://s13.stc.all.kpcdn.net/x" = "kpcdn.net" ∧
  slugTokensFrom "https://x.ru/news/big-Bridge-opened/" "red bridge 2024" = ["bridge"; "opened"; "2024"].
Proof. vm_compute. split_and!; reflexivity. Qed.

(** ** Lemmas *)

Definition all_of (s : buckets) : list ImageCandidate :=
  priority s ++ normal s ++ jsonld s ++ ogFallback s.

(** A candidate read off the page. *)
Definition from_page (pageURL : string) (c : ImageCandidate) : Prop :=
  HasPrefix (ImgURL c) "http" = true ∧ Source c = pageURL ∧
  License c = CheckLicense (ImgURL c) pageURL ∧ vetted c.

(** The titles of a bucket. *)
Definition titled (l : list string) (c : ImageCandidate) : Prop := Title c ∈ l.

Record Inv (pageURL : string) (s : buckets) : Prop := mkInv {
  inv_page : Forall (from_page pageURL) (all_of s);
  inv_nodup : NoDup (normalizeImgURL ∘ ImgURL <$> all_of s);
  inv_seen : ∀ c, c ∈ all_of s → normalizeImgURL (ImgURL c) ∈ seen s;
  inv_priority : Forall (titled ["content:img:slug"]) (priority s);
  inv_normal : Forall (titled ["content:img"]) (normal s);
  inv_jsonld : Forall (titled ["jsonld:image"]) (jsonld s);
  inv_og : Forall (titled ["og:image"; "twitter:image"]) (ogFallback s) }.

Lemma push_perm b c s : all_of (push b c s) ≡ₚ c :: all_of s.
Proof. destruct b; unfold all_of; simpl; solve_Permutation. Qed.

(** The bucket a title goes to. *)
Definition fits (b : bucket) (title : string) : Prop :=
  title ∈ match b with
          | BPriority => ["content:img:slug"]
          | BNormal => ["content:img"]
          | BJsonLD => ["jsonld:image"]
          | BOg => ["og:image"; "twitter:image"]
          end.

Lemma see_Inv pageURL n s : Inv pageURL s → Inv pageURL (see n s).
Proof. intros [? ? Hs ? ? ? ?]. split; try done. intros c Hc. apply elem_of_union_r, Hs, Hc. Qed.

Lemma push_Inv pageURL b c s :
  Inv pageURL s → from_page pageURL c → normalizeImgURL (ImgURL c) ∉ normalizeImgURL ∘ ImgURL <$> all_of s →
  normalizeImgURL (ImgURL c) ∈ seen s → fits b (Title c) → Inv pageURL (push b c s).
Proof.
  intros [H1 H2 H3 H4 H5 H6 H7] Hc Hnew Hseen Hfit. split.
  - rewrite push_perm. by constructor.
  - rewrite push_perm. simpl. by constructor.
  - intros d Hd. rewrite push_perm in Hd. apply elem_of_cons in Hd as [->|Hd].
    + by destruct b.
    + destruct b; by apply H3.
  - destruct b; try done. by apply Forall_app_2, Forall_singleton.
  - destruct b; try done. by apply Forall_app_2, Forall_singleton.
  - destruct b; try done. by apply Forall_app_2, Forall_singleton.
  - destruct b; try done. by apply Forall_app_2, Forall_singleton.
Qed.

Lemma addIfNew_Inv pageURL u title b s :
  fits b title → Inv pageURL s → Inv pageURL (addIfNew pageURL u title b s).
Proof.
  intros Hfit HI. unfold addIfNew. cbv zeta. set (clean := UnescapeString (TrimSpace u)).
  case_bool; [done|]. bool_hyps. case_bool_decide as Hseen; [done|].
  destruct (IsLogoOrBanner (ToLower clean)) eqn:El; [by apply see_Inv|].
  destruct (license_eqb (CheckLicense clean pageURL) LicenseBlocked) eqn:Eb; [by apply see_Inv|].
  apply push_Inv; [by apply see_Inv|..|done].
  - split_and!; try done. split; [by apply license_eqb_neq|done].
  - intros (c & E & Hc)%list_elem_of_fmap. apply Hseen. simpl in E. rewrite E. by apply (inv_seen _ _ HI).
  - simpl. set_solver.
Qed.

Ltac solve_fits := unfold fits; set_solver.

Lemma collectOG_Inv pageURL body s : Inv pageURL s → Inv pageURL (collectOG pageURL body s).
Proof.
  intros HI. unfold collectOG. cbv zeta.
  assert (Inv pageURL (if ExtractOGImageURL body <>?s "" then
    addIfNew pageURL (ExtractOGImageURL body) "og:image" BOg s else s)) as HI'.
  { case_bool; [|done]. apply addIfNew_Inv; [solve_fits|done]. }
  destruct (FindSubmatch twitterImageRe body); [|done]. apply addIfNew_Inv; [solve_fits|done].
Qed.

Lemma collectBlock_Inv pageURL s block : Inv pageURL s → Inv pageURL (collectBlock pageURL s block).
Proof.
  intros HI. unfold collectBlock. cbv zeta. case_bool; [|done]. apply addIfNew_Inv; [solve_fits|done].
Qed.

Lemma collectTag_Inv pageURL host tokens s tag :
  Inv pageURL s → Inv pageURL (collectTag pageURL host tokens s tag).
Proof.
  intros HI. unfold collectTag. cbv zeta. repeat (case_bool; [done|]).
  case_bool; (apply addIfNew_Inv; [solve_fits|done]).
Qed.

Lemma fold_Inv {A} pageURL (f : buckets → A → buckets) l s :
  (∀ s a, Inv pageURL s → Inv pageURL (f s a)) → Inv pageURL s → Inv pageURL (fold_left f l s).
Proof. intros Hf. revert s; induction l; intros s HI; simpl; auto. Qed.

Lemma noBuckets_Inv pageURL : Inv pageURL noBuckets.
Proof. split; try constructor. intros c Hc. by apply elem_of_nil in Hc. Qed.

Lemma collect_Inv pageURL query body : Inv pageURL (collect pageURL query body).
Proof.
  unfold collect. cbv zeta. apply fold_Inv; [intros; by apply collectTag_Inv|].
  apply fold_Inv; [intros; by apply collectBlock_Inv|]. apply collectOG_Inv, noBuckets_Inv.
Qed.

(** *** Nothing the page offers is forgotten *)

(** An image the provider may not return. *)
Definition unfit (pageURL u : string) : Prop :=
  IsLogoOrBanner (ToLower u) = true ∨ CheckLicense u pageURL = LicenseBlocked.

(** The URL stands for an image in the list, up to a size suffix, or for one that
    is unfit. *)
Definition represented (pageURL : string) (l : list ImageCandidate) (norm : string) : Prop :=
  (∃ c, c ∈ l ∧ normalizeImgURL (ImgURL c) = norm) ∨ (∃ u, normalizeImgURL u = norm ∧ unfit pageURL u).

Definition seen_inv (pageURL : string) (s : buckets) : Prop :=
  ∀ norm, norm ∈ seen s → represented pageURL (all_of s) norm.

(** What [addIfNew] makes of a URL. *)
Definition cleaned (u : string) : string := UnescapeString (TrimSpace u).

(** The URL was looked at: it is no absolute URL, or its normal form is seen. *)
Definition covered (s : buckets) (u : string) : Prop :=
  HasPrefix (cleaned u) "http" = true → normalizeImgURL (cleaned u) ∈ seen s.

Lemma represented_push pageURL b c s norm :
  represented pageURL (all_of s) norm → represented pageURL (all_of (push b c s)) norm.
Proof.
  intros [(d & Hd & E)|Hu]; [left|by right]. exists d. split; [|done]. rewrite push_perm. by right.
Qed.

(** One image more: everything seen stays seen and represented, and the image is
    covered. *)
Lemma addIfNew_seen pageURL u title b s :
  seen_inv pageURL s →
  let s' := addIfNew pageURL u title b s in
  seen_inv pageURL s' ∧ seen s ⊆ seen s' ∧ covered s' u.
Proof.
  intros Hs. cbv zeta. unfold addIfNew. cbv zeta. fold (cleaned u). set (norm := normalizeImgURL (cleaned u)).
  destruct (HasPrefix (cleaned u) "http") eqn:Eh.
  2: { rewrite orb_true_r. split_and!; [done|done|]. intros Hh. unfold cleaned in *. congruence. }
  assert ((cleaned u =?s "") = false) as -> by (by destruct (cleaned u)). simpl.
  case_bool_decide as Hn; [split_and!; [done|done|by intros _]|].
  assert (∀ s', seen s' = {[norm]} ∪ seen s → represented pageURL (all_of s') norm →
    (∀ n, represented pageURL (all_of s) n → represented pageURL (all_of s') n) →
    seen_inv pageURL s' ∧ seen s ⊆ seen s' ∧ covered s' u) as Hgo.
  { intros s' E Hr Hmono. unfold covered. rewrite E. split_and!; [|set_solver|].
    - intros n Hin. rewrite E in Hin. apply elem_of_union in Hin as [->%elem_of_singleton|Hin]; [done|].
      by apply Hmono, Hs.
    - intros _. by apply elem_of_union_l, elem_of_singleton. }
  destruct (IsLogoOrBanner (ToLower (cleaned u))) eqn:El.
  { apply Hgo; [done| |done]. right. exists (cleaned u). split; [done|by left]. }
  destruct (license_eqb (CheckLicense (cleaned u) pageURL) LicenseBlocked) eqn:Eb.
  { apply Hgo; [done| |done]. right. exists (cleaned u). split; [done|]. right. by apply license_eqb_eq. }
  apply Hgo; [by destruct b| |].
  - left. eexists. split; [rewrite push_perm; by left|done].
  - intros n Hr. by apply represented_push.
Qed.

(** A step of the collection that keeps what was seen. *)
Definition extends (pageURL : string) (s s' : buckets) : Prop :=
  seen_inv pageURL s → seen_inv pageURL s' ∧ seen s ⊆ seen s'.

Lemma addIfNew_extends pageURL u title b s : extends pageURL s (addIfNew pageURL u title b s).
Proof. intros Hs. by destruct (addIfNew_seen pageURL u title b s Hs) as (? & ? & _). Qed.

Lemma covered_extends pageURL s s' u :
  extends pageURL s s' → seen_inv pageURL s → covered s u → covered s' u.
Proof. intros He Hs Hc Hh. apply (He Hs), Hc, Hh. Qed.

Lemma fold_extends {A} pageURL (f : buckets → A → buckets) l s :
  (∀ s a, extends pageURL s (f s a)) → extends pageURL s (fold_left f l s).
Proof.
  intros Hf. revert s. induction l as [|a l IH]; intros s Hs; simpl; [by split|].
  destruct (Hf s a Hs) as [H1 H2]. destruct (IH (f s a) H1) as [H3 H4]. split; [done|]. by etrans.
Qed.

(** Over a loop: what one round covers is covered at the end. *)
Lemma fold_covered {A} pageURL (f : buckets → A → buckets) l s a u :
  (∀ s a, extends pageURL s (f s a)) → seen_inv pageURL s → a ∈ l →
  (∀ s, seen_inv pageURL s → covered (f s a) u) → covered (fold_left f l s) u.
Proof.
  intros Hf Hs Ha Hu. revert s Hs. induction Ha as [a l|a b l Ha IH]; intros s Hs; simpl.
  - eapply covered_extends; [by apply fold_extends|by apply Hf|by apply Hu].
  - apply IH; [done|]. by apply Hf.
Qed.

Lemma collectBlock_extends pageURL s block : extends pageURL s (collectBlock pageURL s block).
Proof. unfold collectBlock. cbv zeta. case_bool; [apply addIfNew_extends|by split]. Qed.

Lemma collectTag_extends pageURL host tokens s tag :
  extends pageURL s (collectTag pageURL host tokens s tag).
Proof.
  unfold collectTag. cbv zeta. repeat (case_bool; [by split|]). case_bool; apply addIfNew_extends.
Qed.

(** The images a page offers: its og:image and twitter:image, the image of each
    JSON-LD block, and every [img] of the page's own registrable domain that is
    neither skipped nor tiny. *)
Inductive offered (pageURL body : string) : string → Prop :=
  | offered_og : ExtractOGImageURL body ≠ "" → offered pageURL body (ExtractOGImageURL body)
  | offered_twitter m :
      FindSubmatch twitterImageRe body = Some m →
      offered pageURL body (if group m 1 =?s "" then group m 2 else group m 1)
  | offered_jsonld block :
      block ∈ jsonLDBlocks body → extractJSONLDImage block ≠ "" →
      offered pageURL body (extractJSONLDImage block)
  | offered_img tag :
      let src := cleaned (extractAttr contentSrcRe tag) in
      tag ∈ FindAllString contentImgTagRe body → extractAttr contentSrcRe tag ≠ "" →
      HasPrefix src "http" = true →
      registrableDomain src = registrableDomain pageURL → registrableDomain pageURL ≠ "" →
      isContentSkip (ToLower src) = false → isTinyThumbnail tag src = false →
      offered pageURL body (normalizeImgURL src).

Lemma collectOG_covers pageURL body s :
  seen_inv pageURL s →
  let s' := collectOG pageURL body s in
  seen_inv pageURL s' ∧ (ExtractOGImageURL body ≠ "" → covered s' (ExtractOGImageURL body)) ∧
  (∀ m, FindSubmatch twitterImageRe body = Some m →
     covered s' (if group m 1 =?s "" then group m 2 else group m 1)).
Proof.
  intros Hs. cbv zeta. unfold collectOG. cbv zeta.
  set (s1 := if ExtractOGImageURL body <>?s "" then _ else _).
  assert (seen_inv pageURL s1 ∧ (ExtractOGImageURL body ≠ "" → covered s1 (ExtractOGImageURL body)))
    as [Hs1 Hc1].
  { unfold s1. case_bool; bool_hyps; [|done].
    destruct (addIfNew_seen pageURL (ExtractOGImageURL body) "og:image" BOg s Hs) as (? & _ & ?). done. }
  destruct (FindSubmatch twitterImageRe body) as [m|]; [|by split_and!].
  destruct (addIfNew_seen pageURL (if group m 1 =?s "" then group m 2 else group m 1) "twitter:image" BOg
              s1 Hs1) as (H1 & H2 & H3).
  split_and!; [done| |by intros m' [= <-]].
  intros Hne. eapply covered_extends; [apply addIfNew_extends|done|by apply Hc1].
Qed.

(** Every image the page offers is covered, and everything seen is represented. *)
Lemma collect_covers pageURL query body u :
  offered pageURL body u →
  seen_inv pageURL (collect pageURL query body) ∧ covered (collect pageURL query body) u.
Proof.
  intros Hu. unfold collect. cbv zeta.
  destruct (collectOG_covers pageURL body noBuckets) as (H1 & Hog & Htw); [intros n Hn; set_solver|].
  set (s1 := collectOG pageURL body noBuckets) in *.
  set (s2 := fold_left (collectBlock pageURL) (jsonLDBlocks body) s1).
  pose proof (fold_extends pageURL (collectBlock pageURL) (jsonLDBlocks body) s1
                (collectBlock_extends pageURL)) as He2. fold s2 in He2.
  pose proof (fold_extends pageURL
    (collectTag pageURL (registrableDomain pageURL) (slugTokensFrom pageURL query))
    (FindAllString contentImgTagRe body) s2 (collectTag_extends pageURL _ _)) as He3.
  destruct (He2 H1) as [H2 _]. split; [by apply He3|].
  destruct Hu as [Hne|m Hm|block Hb Hne|tag src Htag Hne Hh Hr Hr' Hsk Hti].
  - eapply covered_extends, (covered_extends pageURL s1); eauto.
  - eapply covered_extends, (covered_extends pageURL s1); eauto.
  - eapply covered_extends; [exact He3|done|]. eapply fold_covered; [apply collectBlock_extends|done|done|].
    intros s Hs. unfold collectBlock. cbv zeta. rewrite (proj2 (String.eqb_neq _ _) Hne).
    by apply (addIfNew_seen pageURL _ "jsonld:image" BJsonLD).
  - eapply fold_covered; [apply collectTag_extends|done|exact Htag|]. intros s Hs.
    unfold collectTag. cbv zeta. rewrite (proj2 (String.eqb_neq _ _) Hne).
    change (UnescapeString (TrimSpace (extractAttr contentSrcRe tag))) with src.
    rewrite Hh, Hr, String.eqb_refl, (proj2 (String.eqb_neq _ _) Hr'), Hsk, Hti. simpl.
    case_bool; by apply (addIfNew_seen pageURL (normalizeImgURL src)).
Qed.

Lemma merge_take s : merge s = take contentMaxResults (all_of s).
Proof.
  unfold merge. cbv zeta. fold (all_of s).
  destruct (Nat.ltb_spec contentMaxResults (length (all_of s))); [done|]. by rewrite take_ge.
Qed.

Lemma merge_vetted pageURL query body : Forall vetted (merge (collect pageURL query body)).
Proof.
  rewrite merge_take. apply Forall_take. eapply Forall_impl; [apply inv_page, collect_Inv|].
  by intros c (_ & _ & _ & ?).
Qed.

#[export] Instance content_lawful p : LawfulProvider (content p).
Proof.
  intros h ctx query opts. unfold ProviderSearch, content, contentSearch. case_bool; [by apply search_post_ok|].
  apply wp_bind, wp_free. intros h' [[body|err]|v]; [|by apply search_post_ok|done].
  case_bool; [by apply search_post_ok|]. apply search_post_ok, merge_vetted.
Qed.

(** ** Properties *)

(** The page is asked for once, and nothing else is. *)
Definition may_fetch_page (ctx : Ctx) (pageURL : string) (h : history Ev) (X : Type) (e : Ev X) : Prop :=
  match e with
  | HttpDo _ r => h = [] ∧ Method r = "GET" ∧ ReqURL r = pageURL ∧
      ReqCtx r = WithTimeout ctx contentFetchTimeout
  | _ => False
  end.

(** The one response of the history carried the page [body]. *)
Definition fetched_page (h : history Ev) (body : string) : Prop :=
  match h with
  | [Obs e r] =>
      match e in Ev X return res X → Prop with
      | HttpDo _ _ => λ a, ∃ resp, a = Ok (inl resp) ∧ StatusCode resp < StatusBadRequest ∧
          ReadAll (LimitReader (Body resp) contentBodyLimit) = Some body ∧ body ≠ ""
      | _ => λ _, False
      end r
  | _ => False
  end.

(** (C25) [ContentImageProvider.Search] whatever the page says: at most one request,
    a GET of the page; never an error; at most eight candidates, each an absolute
    URL with the page as its source and the license of the two; no two of them
    the same image up to a size suffix; slug matches in front, then the other
    content images, the JSON-LD ones and the og:image and twitter:image ones.  And
    nothing is forgotten: with fewer than eight candidates, every image the
    fetched page offers with an absolute URL is among them up to a size suffix,
    unless such a URL is a logo or blocked. *)
Theorem content_search_spec p ctx query opts :
  wp (Protocol (may_fetch_page ctx (PageURL opts)) (λ _ _ _ _, True)) []
     (ProviderSearch (content p) ctx query opts)
     (λ h r, (length h ≤ 1)%nat ∧
        match r with
        | Ok (cs, err) =>
            err = None ∧ (length cs ≤ 8)%nat ∧ Forall (from_page (PageURL opts)) cs ∧
            NoDup (normalizeImgURL ∘ ImgURL <$> cs) ∧
            (∃ slug other ld og, cs = slug ++ other ++ ld ++ og ∧
               Forall (titled ["content:img:slug"]) slug ∧ Forall (titled ["content:img"]) other ∧
               Forall (titled ["jsonld:image"]) ld ∧ Forall (titled ["og:image"; "twitter:image"]) og) ∧
            ((length cs < 8)%nat → ∀ body u, fetched_page h body → offered (PageURL opts) body u →
               HasPrefix (cleaned u) "http" = true →
               represented (PageURL opts) cs (normalizeImgURL (cleaned u)))
        | Panicked v => ∃ c req, h = [Obs (HttpDo c req) (Panicked v)]
        end).
Proof.
  set (Q := λ (h : history Ev) (r : res (list ImageCandidate * option error)), _ ∧ _).
  assert (∀ h : history Ev, (length h ≤ 1)%nat → (∀ body, ¬ fetched_page h body) → Q h (Ok ([], None))) as Hnil.
  { intros h Hh Hno. split_and!; [done|done|simpl; lia|constructor|constructor| |].
    - by exists [], [], [], [].
    - intros _ body u Hb. by destruct (Hno body). }
  unfold ProviderSearch, content, contentSearch.
  case_bool; [apply Hnil; [simpl; lia|by intros b []]|].
  apply wp_bind. unfold fetchPage, NewRequest. cbv zeta.
  destruct (Parse (PageURL opts)); [|apply Hnil; [simpl; lia|by intros b []]].
  apply wp_bind, wp_trigger; [done|]. intros a _. destruct a as [[resp|e]|v].
  2: { apply Hnil; [simpl; lia|]. by intros b (? & [=] & _). }
  2: { split; [simpl; lia|]. by eauto. }
  set (h := [] ++ [_]).
  assert (∀ body, fetched_page h body →
    StatusCode resp < StatusBadRequest ∧
    ReadAll (LimitReader (Body resp) contentBodyLimit) = Some body ∧ body ≠ "") as Hfp.
  { intros body (resp' & [= <-] & Hrest). done. }
  destruct (Z.leb_spec StatusBadRequest (StatusCode resp)) as [Hst|Hst].
  { apply Hnil; [simpl; lia|]. intros b (? & _)%Hfp. lia. }
  destruct (ReadAll _) as [body|]; [|apply Hnil; [simpl; lia|by intros b (_ & [=] & _)%Hfp]].
  cbn [wp mret prog_ret]. case_bool; bool_hyps.
  { apply Hnil; [simpl; lia|]. by intros b (_ & [= <-] & Hne)%Hfp. }
  pose proof (collect_Inv (PageURL opts) query body) as HI. rewrite merge_take.
  split; [simpl; lia|]. split_and!.
  - done.
  - rewrite length_take. unfold contentMaxResults. lia.
  - apply Forall_take, HI.
  - eapply sublist_NoDup; [apply HI|]. apply fmap_sublist, sublist_take.
  - unfold all_of. rewrite !take_app. eexists _, _, _, _. split; [done|].
    split_and!; apply Forall_take, HI.
  - rewrite length_take. unfold contentMaxResults. intros Hlt body' img (_ & [= <-] & _)%Hfp Hu Hh.
    rewrite take_ge by lia.
    destruct (collect_covers (PageURL opts) query body img Hu) as [Hs Hc]. by apply Hs, Hc.
Qed.

(** Values are unescaped twice, once before the same-domain test and once
    behind it: an [img] whose URL passes the test can be returned as a URL of
    another domain, and a query parameter that spells an entity is corrupted. *)
Theorem double_unescape_leaves_domain :
  let pageURL := "https://news.ru/2024/bridge" in
  let cs := merge (collect pageURL ""
    ("<img src='https://evil.com&amp;sol;.news.ru/x.jpg'><img src='https://news.ru/i?a=1&amp;copy=2'>")) in
  ImgURL <$> cs = ["https://evil.com/.news.ru/x.jpg"; "https://news.ru/i?a=1©=2"] ∧
  registrableDomain pageURL = "news.ru" ∧ registrableDomain "https://evil.com/.news.ru/x.jpg" = "evil.com".
Proof. vm_compute. auto. Qed.

(** *** Size suffixes *)

Lemma LastIndex_str1_lt s c i : LastIndex s (str1 c) = Some i → (i < slen s)%nat.
Proof.
  revert i; induction s as [|a s IH]; intros i H; [done|]. cbn [LastIndex] in H.
  destruct (LastIndex s (str1 c)) as [j|].
  - injection H as <-. specialize (IH j eq_refl). simpl. lia.
  - case_match; simplify_eq. simpl. lia.
Qed.

Lemma string_drop_app_le n a b : (n ≤ slen a)%nat → string_drop n (a +:+ b) = string_drop n a +:+ b.
Proof. revert a; induction n; intros [|x a] H; simpl in *; try done; try lia. apply IHn. lia. Qed.

Lemma after_slash_app s t :
  all_bytes (byte_ne "/") t = true → after_slash (s +:+ t) = after_slash s +:+ t.
Proof.
  intros Ht. unfold after_slash. change "/" with (str1 "/"). rewrite LastIndex_app_absent by done.
  destruct (LastIndex s (str1 "/")) as [i|] eqn:E; [|done]. apply LastIndex_str1_lt in E.
  by rewrite string_drop_app_le.
Qed.

Lemma path_Ext_app s e :
  all_bytes (byte_ne "/") e = true → all_bytes (byte_ne ".") e = true →
  path_Ext (s +:+ String "." e) = String "." e.
Proof.
  intros Hs Hd. unfold path_Ext. rewrite after_slash_app by done. change "." with (str1 ".").
  rewrite LastIndex_at by done. by rewrite string_drop_app.
Qed.

Lemma TrimSuffix_app s t : TrimSuffix (s +:+ t) t = s.
Proof.
  unfold TrimSuffix, HasSuffix. rewrite slen_app. replace (slen s + slen t - slen t)%nat with (slen s) by lia.
  rewrite string_drop_app, String.eqb_refl, string_take_app, andb_true_r.
  destruct (Nat.leb_spec (slen t) (slen s + slen t)); [done|lia].
Qed.

Lemma TrimRightByte_last s a c : a ≠ c → TrimRightByte (s +:+ str1 a) c = s +:+ str1 a.
Proof.
  intros Ha. induction s as [|x s IH]; simpl.
  - by rewrite (proj2 (Ascii.eqb_neq a c)).
  - rewrite IH. by destruct (s +:+ str1 a) eqn:E; [destruct s|].
Qed.

Lemma string_last s : s ≠ "" → ∃ t a, s = t +:+ str1 a.
Proof.
  induction s as [|x s IH]; [done|]. intros _. destruct s as [|y s].
  - by exists "", x.
  - destruct IH as (t & a & ->); [done|]. by exists (String x t), a.
Qed.

(** Decimal digits, and a suffix such as [-640x480]. *)
Definition digits (s : string) : bool := (s <>?s "") && all_bytes is_digit s.
Definition size_suffix (w h : string) : string := "-" +:+ w +:+ "x" +:+ h.

Lemma digits_cells s :
  digits s = true → is_ascii s = true ∧ decode s ≠ [] ∧ Forall (λ c, digit_rune (rune c) = true) (decode s).
Proof.
  unfold digits. intros H. bool_hyps. assert (Ha : is_ascii s = true).
  { eapply all_bytes_impl; [|done]. intros a. unfold is_digit, between, ascii_byte. lia. }
  split_and!; [done|by destruct (decode_step s) as (c & t & -> & _)|].
  clear H. unfold is_ascii in Ha. induction s as [|a s IH]; [constructor|]. cbn [all_bytes] in *. bool_hyps.
  rewrite decode_ascii by done. constructor; [|by apply IH].
  unfold digit_rune. simpl. unfold is_digit, between in *. bool_hyps. lia.
Qed.

Lemma decode_suffix_cells w h :
  digits w = true → digits h = true →
  decode (size_suffix w h) = Cell 45 "-" :: decode w ++ Cell 120 "x" :: decode h.
Proof.
  intros (Hw & _)%digits_cells (Hh & _)%digits_cells.
  rewrite (eq_refl : size_suffix w h = String "-" (w +:+ String "x" h)).
  rewrite decode_ascii by done. rewrite decode_ascii_app by done. by rewrite (decode_ascii "x").
Qed.

(** A run of a class is matched, wherever it stands. *)
Lemma matches_Star set l m pr i :
  Forall (λ c, set (rune c) = true) l →
  ∃ pr', matches (Star true set) (Pos pr i (l ++ m)) (Pos pr' (i + length l) m).
Proof.
  intros Hl. revert pr i. induction Hl as [|c l Hc Hl IH]; intros p j; simpl.
  - exists p. rewrite Nat.add_0_r. constructor.
  - destruct (IH (Some (rune c)) (S j)) as [pr' H]. exists pr'.
    replace (j + S (length l))%nat with (S j + length l)%nat by lia.
    by eapply m_star_more with (c := c).
Qed.

Lemma matches_Plus set l m pr i :
  l ≠ [] → Forall (λ c, set (rune c) = true) l →
  ∃ pr', matches (Plus set) (Pos pr i (l ++ m)) (Pos pr' (i + length l) m).
Proof.
  intros Hne Hl. destruct Hl as [|c l Hc Hl]; [done|].
  destruct (matches_Star set l m (Some (rune c)) (S i) Hl) as [pr' H]. exists pr'. simpl.
  replace (i + S (length l))%nat with (S i + length l)%nat by lia.
  eapply m_cat; [by eapply m_chr with (c := c)|exact H].
Qed.

Lemma matches_size w h pr i :
  digits w = true → digits h = true →
  ∃ p', matches contentSizeRe (Pos pr i (decode (size_suffix w h))) p'.
Proof.
  intros Hw Hh. rewrite decode_suffix_cells by done.
  apply digits_cells in Hw as (_ & Hw1 & Hw2), Hh as (_ & Hh1 & Hh2).
  destruct (matches_Plus _ _ (Cell 120 "x" :: decode h) (Some 45) (S i) Hw1 Hw2) as [p1 M1].
  destruct (matches_Plus _ _ [] (Some 120) (S (S i + length (decode w))) Hh1 Hh2) as [p2 M2].
  rewrite app_nil_r in M2. eexists. unfold contentSizeRe. cbn [cats].
  eapply m_cat; [by eapply m_chr with (c := Cell 45 "-")|].
  eapply m_cat; [apply m_group; exact M1|].
  eapply m_cat; [by eapply m_chr with (c := Cell 120 "x")|].
  eapply m_cat; [apply m_group; exact M2|]. by constructor.
Qed.

(** The text a match covers is of the language. *)
Lemma matches_lang r p p' : matches r p p' → ∃ l, lang r l ∧ moved l p p'.
Proof.
  induction 1 as [p|set p c l Hr Hs|g set p|g set p c l p' Hr Hs _ (k & Hk & E1 & E2)|p|p
    |a b p p' p'' _ (l1 & H1 & E1) _ (l2 & H2 & E2)|a b p p' _ (l & H & E)|a b p p' _ (l & H & E)
    |n a p p' _ (l & H & E)].
  - exists []. split; [done|apply moved_nil].
  - exists [c]. split; [by exists c|]. split; simpl; [done|lia].
  - exists []. split; [constructor|apply moved_nil].
  - exists (c :: k). split; [by constructor|]. split; simpl in *; [by rewrite Hr, E1|lia].
  - exists []. split; [done|apply moved_nil].
  - exists []. split; [done|apply moved_nil].
  - exists (l1 ++ l2). split; [by exists l1, l2|by eapply moved_app].
  - exists l. split; [by left|done].
  - exists l. split; [by right|done].
  - by exists l.
Qed.

(** What is matched is a suffix with exactly one dash, its first rune. *)
Lemma size_shape p p' :
  matches contentSizeRe p p' →
  ∃ c l, rest p = c :: l ∧ rune c = 45 ∧ Forall (λ d, rune d ≠ 45) l ∧
    rest p' = [] ∧ idx p' = (idx p + length (rest p))%nat.
Proof.
  unfold contentSizeRe. cbn [cats]. intros H.
  inversion H as [| | | | | |? ? ? q1 ? M1 H1| | |]; subst.
  inversion H1 as [| | | | | |? ? ? q2 ? M2 H2| | |]; subst.
  inversion H2 as [| | | | | |? ? ? q3 ? M3 H3| | |]; subst.
  inversion H3 as [| | | | | |? ? ? q4 ? M4 H4| | |]; subst.
  inversion H4; subst.
  apply matches_lang in M1 as (l1 & L1 & V1), M2 as (l2 & L2 & V2), M3 as (l3 & L3 & V3), M4 as (l4 & L4 & V4).
  destruct (moved_app _ _ _ _ _ (moved_app _ _ _ _ _ (moved_app _ _ _ _ _ V1 V2) V3) V4) as [E I].
  destruct L1 as (c1 & -> & R1), L3 as (c3 & -> & R3). apply Z.eqb_eq in R1.
  apply lang_Plus in L2 as [_ L2], L4 as [_ L4].
  exists c1, (l2 ++ c3 :: l4).
  match goal with Hr : rest _ = [] |- _ => rewrite Hr, app_nil_r in E; rename Hr into Hend end.
  rewrite <-!app_assoc in E, I. rewrite E. simpl in *.
  assert (∀ c, digit_rune (rune c) = true → rune c ≠ 45) as Hd.
  { intros c Hc. unfold digit_rune in Hc. bool_hyps. lia. }
  split_and!; [done|done| |done|done]. apply Forall_app. split; [by eapply Forall_impl|].
  constructor; [intros E'; by rewrite E' in R3|by eapply Forall_impl].
Qed.

(** A search whose only match is at the end. *)
Lemma search_from_late r l m pr i :
  (∀ k1 k2 q p', l = k1 ++ k2 → k2 ≠ [] → rest q = k2 ++ m → ¬ matches r q p') →
  (∀ pr i, ∃ p', matches r (Pos pr i m) p') →
  ∃ pr' p' cs, search_from r pr i (l ++ m) = Some ((i + length l)%nat, p', cs) ∧
    matches r (Pos pr' (i + length l) m) p'.
Proof.
  intros Hno Hm. revert pr i. induction l as [|c l IH]; intros pr i.
  - destruct (Hm pr i) as [p0 H0].
    apply (match_re_complete _ _ _ ∅ (λ p' cs, Some (p', cs))) in H0 as [[p' cs] E]; [|eauto].
    exists pr, p', cs. rewrite Nat.add_0_r. simpl. split.
    + destruct m; cbn [search_from]; unfold match_at; by rewrite E.
    + by apply match_re_sound in E as (p1 & cs1 & H & [= <- _]).
  - destruct IH with (pr := Some (rune c)) (i := S i) as (pr' & p' & cs & E & H).
    { intros k1 k2 q p' ->. by apply (Hno (c :: k1)). }
    exists pr', p', cs. replace (i + length (c :: l))%nat with (S i + length l)%nat by (simpl; lia).
    split; [|done]. rewrite <-E. simpl app. cbn [search_from]. unfold match_at.
    destruct (match_re r (Pos pr i (c :: l ++ m)) ∅ _) as [[p1 cs1]|] eqn:E1; [|done].
    apply match_re_sound in E1 as (p2 & _ & H2 & _).
    exfalso. exact (Hno [] (c :: l) (Pos pr i (c :: l ++ m)) p2 eq_refl ltac:(done) eq_refl H2).
Qed.

Lemma decode_stem stem w h :
  digits w = true → digits h = true →
  decode (stem +:+ size_suffix w h) = decode stem ++ decode (size_suffix w h).
Proof. intros Hw Hh. by apply (decode_app_start stem "-"). Qed.

Lemma FindAll_size stem w h :
  digits w = true → digits h = true →
  ∃ cs, let cells := decode (stem +:+ size_suffix w h) in
    FindAll contentSizeRe (stem +:+ size_suffix w h) = [(length (decode stem), length cells, cs)].
Proof.
  intros Hw Hh. unfold FindAll. cbv zeta. rewrite decode_stem by done.
  set (l := decode stem). set (m := decode (size_suffix w h)).
  destruct (search_from_late contentSizeRe l m None 0) as (pr' & p' & cs & E & H).
  { intros k1 k2 q p' -> Hne Hq (c & t & Hc & _ & Ht & _)%size_shape. rewrite Hc in Hq.
    destruct k2 as [|c' k2]; [done|]. injection Hq as <- ->. apply Forall_app in Ht as [_ Ht].
    unfold m in Ht. rewrite decode_suffix_cells in Ht by done. by inversion Ht. }
  { intros pr i. by apply matches_size. }
  apply size_shape in H as (_ & _ & _ & _ & _ & Hrest & Hidx). exists cs.
  assert (m ≠ []) as Hm by (unfold m; by rewrite decode_suffix_cells). clearbody l m.
  cbn [find_all prev idx rest] in *. rewrite E, Hidx, length_app.
  destruct (Nat.ltb_spec 0 (0 + length l + length m)) as [_|Hlt].
  2: { destruct m; [done|]. simpl in Hlt. lia. }
  destruct p' as [pr1 i1 r1]. simpl in Hrest. subst r1. rewrite Nat.add_0_l. f_equal.
  by destruct (length l + length m)%nat.
Qed.

Lemma path_Base_suffix stem w h :
  digits w = true → digits h = true →
  path_Base (stem +:+ size_suffix w h) = after_slash stem +:+ size_suffix w h.
Proof.
  intros Hw Hh.
  assert (∀ s, digits s = true → all_bytes (byte_ne "/") s = true) as Hns.
  { intros s Hs. unfold digits in Hs. bool_hyps. eapply all_bytes_impl; [|done].
    intros a. unfold is_digit, between, byte_ne. intros Ha. apply negb_true_iff, Ascii.eqb_neq.
    intros ->. done. }
  assert (all_bytes (byte_ne "/") (size_suffix w h) = true) as Hn.
  { unfold size_suffix. simpl. rewrite all_bytes_app. simpl. by rewrite !Hns. }
  unfold path_Base. destruct (String.eqb_spec (stem +:+ size_suffix w h) "") as [E|_]; [by destruct stem|].
  cbv zeta.
  assert (TrimRightByte (stem +:+ size_suffix w h) "/" = stem +:+ size_suffix w h) as ->.
  { destruct (string_last h) as (h' & a & ->); [unfold digits in Hh; by bool_hyps|].
    unfold size_suffix. rewrite <-!sapp_assoc. apply TrimRightByte_last. intros ->.
    apply Hns in Hh. rewrite all_bytes_app in Hh. bool_hyps. done. }
  rewrite after_slash_app by done. destruct (String.eqb_spec (after_slash stem +:+ size_suffix w h) "") as [E|]; [|done].
  by destruct (after_slash stem).
Qed.

(** (C40) [normalizeImgURL] strips exactly the size suffix: a URL with a suffix
    such as [-640x480] in front of its extension becomes the URL without it,
    whatever the stem. *)
Theorem normalizeImgURL_strips stem w h e :
  digits w = true → digits h = true →
  all_bytes (byte_ne "/") e = true → all_bytes (byte_ne ".") e = true →
  normalizeImgURL (stem +:+ size_suffix w h +:+ String "." e) = stem +:+ String "." e.
Proof.
  intros Hw Hh He1 He2. unfold normalizeImgURL. cbv zeta.
  rewrite <-sapp_assoc, path_Ext_app, TrimSuffix_app by done.
  rewrite path_Base_suffix by done.
  assert (MatchString contentSizeRe (after_slash stem +:+ size_suffix w h) = true) as ->.
  { unfold MatchString. destruct (FindAll_size (after_slash stem) w h Hw Hh) as [cs E].
    unfold FindAll in E. cbn [find_all prev idx rest] in E. by case_match. }
  f_equal. unfold RemoveAll. destruct (FindAll_size stem w h Hw Hh) as [cs ->]. cbn [cut_out].
  rewrite decode_stem by done. unfold slice. rewrite drop_0, Nat.sub_0_r, take_app_length, Nat.sub_diag.
  rewrite decode_of_cells. apply sapp_nil_r.
Qed.

Lemma normalizeImgURL_strips_witness :
  normalizeImgURL ("https://cdn.example.com/photo" +:+ size_suffix "640" "480" +:+ String "." "jpg")
  = "https://cdn.example.com/photo.jpg".
Proof. apply (normalizeImgURL_strips "https://cdn.example.com/photo" "640" "480" "jpg"); reflexivity. Defined.

(** *** Integers *)

(** The value of a string of digits. *)
Fixpoint decimal (acc : Z) (s : string) : Z :=
  match s with EmptyString => acc | String a s' => decimal (acc * 10 + (bval a - 48)) s' end.

Lemma int64_step x d : int64 (int64 x * 10 + d) = int64 (x * 10 + d).
Proof.
  unfold int64. apply wrap_signed_cong. rewrite Zplus_mod, (Zmult_mod (wrap_signed 64 x)), wrap_signed_mod.
  by rewrite <-Zmult_mod, <-Zplus_mod.
Qed.

Lemma parseInt_loop_digits n s :
  all_bytes is_digit s = true → parseInt_loop (int64 n) (decode s) = int64 (decimal n s).
Proof.
  revert n; induction s as [|a s IH]; intros n H; [done|]. cbn [all_bytes] in H. bool_hyps.
  unfold is_digit, between in *. bool_hyps. pose proof (bval_range a).
  rewrite decode_ascii by (unfold ascii_byte; lia). cbn [parseInt_loop decimal rune].
  destruct (Z.ltb_spec (bval a) 48); [lia|]. destruct (Z.ltb_spec 57 (bval a)); [lia|]. simpl.
  rewrite int64_step. by apply IH.
Qed.

Lemma parseInt_loop_other n s : all_bytes is_digit s = false → parseInt_loop n (decode s) = 0.
Proof.
  revert n; induction s as [|a s IH]; intros n H; [done|]. cbn [all_bytes] in H.
  destruct (ascii_byte a) eqn:Ea.
  - rewrite decode_ascii by done. cbn [parseInt_loop rune]. unfold is_digit, between in H.
    destruct (Z.ltb_spec (bval a) 48); [done|]. destruct (Z.ltb_spec 57 (bval a)); [done|]. simpl.
    apply IH. by rewrite (proj2 (Z.leb_le _ _)), (proj2 (Z.leb_le _ _)) in H by lia.
  - destruct (decode_step (String a s)) as (c & t & Hd & Hs & _); [done|]. rewrite Hd.
    cbn [parseInt_loop]. destruct (Z.ltb_spec (rune c) 48); [done|]. destruct (Z.ltb_spec 57 (rune c)); [done|].
    rewrite (small_cell (String a s) c) in Hs by (lia || rewrite Hd; by left). injection Hs as Ha _.
    unfold ascii_byte in Ea. rewrite Ha, bval_byte_of, Z.mod_small in Ea by lia. lia.
Qed.

Lemma decimal_bound acc s :
  0 ≤ acc → all_bytes is_digit s = true → 0 ≤ decimal acc s < (acc + 1) * 10 ^ Z.of_nat (slen s).
Proof.
  revert acc; induction s as [|a s IH]; intros acc Hacc H.
  - cbn [decimal slen]. rewrite Z.pow_0_r. lia.
  - cbn [all_bytes] in H. bool_hyps. cbn [decimal slen]. unfold is_digit, between in *. bool_hyps.
    destruct (IH (acc * 10 + (bval a - 48))) as [Hl Hu]; [lia|done|]. split; [done|].
    rewrite Nat2Z.inj_succ, Z.pow_succ_r by lia. nia.
Qed.

(** [parseIntFast]: 0 for anything but decimal digits; on digits the value
    wrapped to 64 bits, hence exact up to eighteen digits.  Beyond that the
    wrap-around is visible: an image of 2^64+1 by 2^64+1 pixels counts as tiny. *)
Theorem parseIntFast_spec s :
  parseIntFast s = (if all_bytes is_digit s then int64 (decimal 0 s) else 0) ∧
  (all_bytes is_digit s = true → (slen s ≤ 18)%nat → parseIntFast s = decimal 0 s) ∧
  isTinyThumbnail "<img>" "http://a.b/c-18446744073709551617x18446744073709551617.jpg" = true.
Proof.
  assert (parseIntFast s = (if all_bytes is_digit s then int64 (decimal 0 s) else 0)) as H.
  { unfold parseIntFast. destruct (all_bytes is_digit s) eqn:E.
    - by apply (parseInt_loop_digits 0).
    - by apply parseInt_loop_other. }
  split_and!; [done| |by vm_compute]. intros Hd Hl. rewrite H, Hd. unfold int64.
  apply wrap_signed_id; [lia|]. destruct (decimal_bound 0 s) as [H1 H2]; [lia|done|].
  assert (10 ^ Z.of_nat (slen s) ≤ 10 ^ 18) by (apply Z.pow_le_mono_r; lia). lia.
Qed.

Lemma parseIntFast_spec_witness : parseIntFast "1080" = 1080.
Proof. apply (proj1 (proj2 (parseIntFast_spec "1080"))); [reflexivity|simpl; lia]. Defined.

End ContentProvider.
