(* ===== verification/Query.v ===== *)
(** * Query building (query.go)

    The significant words of a title, at most five, and the city. *)

From S2P Require Import Prelude Unicode GoStrings.

Module Query.

Definition minWordRunes : nat := 3.
Definition maxQueryWords : nat := 5.

Definition ruStopWords : list string :=
  ["в"; "на"; "и"; "из"; "для"; "что"; "как"; "это"; "по"; "от"; "с"; "о"; "к"; "не"; "за";
   "у"; "но"; "же"; "все"; "так"; "его"; "её"; "их"; "мы"; "вы"; "он"; "она"; "они"; "был";
   "была"; "будет"; "уже"; "ещё"; "еще"; "или"; "ни"; "бы"; "до"; "под"; "при"; "без"; "над";
   "через"].

Definition enStopWords : list string :=
  ["the"; "and"; "for"; "with"; "best"; "top"; "good"; "your"; "you"; "this"; "that"; "these";
   "those"; "from"; "into"; "about"; "over"; "under"; "some"; "any"; "all"; "more"; "most";
   "very"; "really"; "just"; "only"; "also"].

(** Membership in a [map[string]bool] whose values are all true. *)
Definition isStop (stopWords : list string) (w : string) : bool := existsb (String.eqb w) stopWords.

Definition trimCutset : string := ".,;:!?" +:+ dquote +:+ "'()[]{}«»—–-".

(** The language without its region: [primary[:idx]] when a hyphen is found
    behind the first byte. *)
Definition primaryLang (lang : string) : string :=
  let primary := ToLower lang in
  match Index primary "-" with
  | Some idx => if 0 <? idx then string_take idx primary else primary
  | None => primary
  end.

Definition stopWordsFor (lang : string) : list string :=
  if primaryLang lang =?s "en" then enStopWords else ruStopWords.

(** The body of the loop over the words; [None] for [continue]. *)
Definition meaningfulWord (stopWords : list string) (w : string) : option string :=
  let w := Trim w trimCutset in
  if w =?s "" then None
  else if isStop stopWords (ToLower w) then None
  else if RuneCountInString w <? minWordRunes then None
  else Some w.

Definition BuildImageQueryLang (title city lang : string) : string :=
  let words := Fields title in
  let meaningful := omap (meaningfulWord (stopWordsFor lang)) words in
  let meaningful := if maxQueryWords <? length meaningful then take maxQueryWords meaningful
                    else meaningful in
  let query := Join meaningful " " in
  if (city <>?s "") && negb (Contains (ToLower query) (ToLower city))
  then query +:+ " " +:+ city else query.

Definition BuildImageQuery (title city : string) : string := BuildImageQueryLang title city "ru".

Example query_ru :
  BuildImageQuery "«Лучшие» кафе и рестораны в центре — для всей семьи!" "Казань" =
  "Лучшие кафе рестораны центре всей Казань".
Proof. vm_compute. reflexivity. Qed.
Example query_en :
  BuildImageQueryLang "The best coffee shops in Paris, France" "paris" "en-US" = "coffee shops Paris France".
Proof. vm_compute. reflexivity. Qed.

(** ** Lemmas *)

(** A word that says something: not empty, no stop word of the language, three
    runes or more. *)
Definition significant (lang w : string) : Prop :=
  w ≠ "" ∧ (ToLower w ∉ stopWordsFor lang) ∧ 3 ≤ RuneCountInString w.

#[export] Instance significant_dec lang w : Decision (significant lang w).
Proof. unfold significant. apply _. Defined.

(** The first five significant words of the title, trimmed of punctuation. *)
Definition keptWords (title lang : string) : list string :=
  take 5 (filter (significant lang) ((λ w, Trim w trimCutset) <$> Fields title)).

Lemma isStop_true l w : isStop l w = true ↔ w ∈ l.
Proof.
  unfold isStop. rewrite existsb_true. split.
  - intros (x & Hx & ->%String.eqb_eq). done.
  - intros Hw. exists w. by rewrite String.eqb_refl.
Qed.

Lemma meaningfulWord_significant lang w :
  let t := Trim w trimCutset in
  meaningfulWord (stopWordsFor lang) w = if decide (significant lang t) then Some t else None.
Proof.
  cbv zeta. unfold meaningfulWord. cbv zeta. set (t := Trim w trimCutset).
  destruct (decide (significant lang t)) as [(Hne & Hst & Hlen)|Hn].
  - rewrite (proj2 (String.eqb_neq _ _) Hne).
    destruct (isStop _ (ToLower t)) eqn:E; [by apply isStop_true in E|].
    by destruct (Nat.ltb_spec (RuneCountInString t) minWordRunes) as [Hl|_];
      [unfold minWordRunes in Hl; lia|].
  - destruct (t =?s "") eqn:E1; [done|]. destruct (isStop _ (ToLower t)) eqn:E2; [done|].
    destruct (Nat.ltb_spec (RuneCountInString t) minWordRunes) as [|Hl]; [done|].
    destruct Hn. split_and!; [by bool_hyps| |exact Hl].
    intros Hin%isStop_true. congruence.
Qed.

Lemma meaningful_filter lang (l : list string) :
  omap (meaningfulWord (stopWordsFor lang)) l =
  filter (significant lang) ((λ w, Trim w trimCutset) <$> l).
Proof.
  induction l as [|w l IH]; csimpl; [done|]. rewrite meaningfulWord_significant, filter_cons.
  destruct (decide _); by rewrite IH.
Qed.

Lemma BuildImageQueryLang_words title city lang :
  BuildImageQueryLang title city lang =
    let query := Join (keptWords title lang) " " in
    if (city <>?s "") && negb (Contains (ToLower query) (ToLower city))
    then query +:+ " " +:+ city else query.
Proof.
  unfold BuildImageQueryLang, keptWords. cbv zeta. rewrite meaningful_filter.
  set (l := filter _ _). destruct (Nat.ltb_spec maxQueryWords (length l)) as [Hlt|Hge]; [done|].
  unfold maxQueryWords in Hge. by rewrite (take_ge l) by lia.
Qed.

Lemma ToLower_space_app a b : ToLower (a +:+ " " +:+ b) = ToLower a +:+ " " +:+ ToLower b.
Proof. unfold ToLower. by rewrite (map_runes_inside to_lower a " " b). Qed.

Lemma Contains_refl s : Contains s s = true.
Proof. apply Contains_iff. exists EmptyString, EmptyString. by rewrite sapp_nil_r. Qed.

(** ** Properties *)

(** (C38) The query is made of the first five significant words of the title (every
    one of them, in their order, trimmed of punctuation: not empty, no stop word
    of the language and of three runes or more), joined by single blanks.  The
    city follows behind a blank exactly when it is given and the words do not
    name it already in whatever case, so a given city is always found in the
    query. *)
Theorem BuildImageQueryLang_spec title city lang :
  let words := take 5 (filter (significant lang) ((λ w, Trim w trimCutset) <$> Fields title)) in
  let named := Contains (ToLower (Join words " ")) (ToLower city) in
  let query := BuildImageQueryLang title city lang in
  (city = "" ∨ named = true → query = Join words " ") ∧
  (city ≠ "" → named = false → query = Join words " " +:+ " " +:+ city) ∧
  (city ≠ "" → Contains (ToLower query) (ToLower city) = true).
Proof.
  cbv zeta. rewrite BuildImageQueryLang_words. unfold keptWords. cbv zeta.
  set (words := take 5 _).
  destruct (Contains (ToLower (Join words " ")) (ToLower city)) eqn:E; cbn [negb].
  - rewrite andb_false_r. by split_and!.
  - rewrite andb_true_r. split_and!.
    + by intros [->|?].
    + intros Hc _. by rewrite (proj2 (String.eqb_neq _ _) Hc).
    + intros Hc. rewrite (proj2 (String.eqb_neq _ _) Hc). cbn [negb].
      rewrite ToLower_space_app. apply (Contains_app_l _ (" " +:+ ToLower city)),
        (Contains_app_l " "), Contains_refl.
Qed.

Lemma BuildImageQueryLang_spec_witness :
  BuildImageQueryLang "The old town hall of Rome" "ROME" "en" = "old town hall Rome" ∧
  BuildImageQueryLang "The old town hall" "ROME" "en" = "old town hall ROME".
Proof.
  split.
  - apply (BuildImageQueryLang_spec "The old town hall of Rome" "ROME" "en").
    right. vm_compute. reflexivity.
  - apply (BuildImageQueryLang_spec "The old town hall" "ROME" "en"); [done|vm_compute; reflexivity].
Defined.

End Query.
