(* ===== verification/Search.v ===== *)
(** * Entry points (search.go, find.go)

    Collecting the candidates of all providers in parallel, the stable sort by
    license, and the three ways into the validation pipeline: [SearchImages],
    [ValidateCandidates] and [FindImages].  A call is the set of its outcomes over
    all schedules and all answers of the environment. *)

From stdpp Require Import sorting.
From S2P Require Import Prelude GoStrings Effects Types Config License Dedup Pipeline Concurrency.
From S2P Require Import Providers PageProviders ContentProvider.

Local Open Scope Z_scope.

Module Search.
Import License Pipeline Providers PageProviders ContentProvider.

(** ** Outcomes *)

(** A call returns, panics in its caller's goroutine, or takes the process down
    by a panic in a goroutine of its own. *)
Inductive outcome (A : Type) :=
  | Returned (a : A)
  | Panics (v : string)
  | Crashes (v : string).
Arguments Returned {A} a.
Arguments Panics {A} v.
Arguments Crashes {A} v.

(** The outcomes a call may have. *)
Definition nd (A : Type) : Type := outcome A → Prop.

#[export] Instance nd_ret : MRet nd := λ A a o, o = Returned a.
#[export] Instance nd_bind : MBind nd := λ A B f m o,
  ∃ x, m x ∧ match x with
             | Returned a => f a o
             | Panics v => o = Panics v
             | Crashes v => o = Crashes v
             end.

(** ** [sort.SliceStable] by license *)

Definition license_le (c d : ImageCandidate) : bool := license_int (License c) <=? license_int (License d).

Fixpoint insertByLicense (c : ImageCandidate) (l : list ImageCandidate) : list ImageCandidate :=
  match l with
  | [] => [c]
  | d :: l' => if license_le c d then c :: l else d :: insertByLicense c l'
  end.

Definition sortByLicense (l : list ImageCandidate) : list ImageCandidate := foldr insertByLicense [] l.

(** ** [resolveProviders], [hasContentProvider], [hasOGProvider] *)

Definition resolveProviders (cfg : Config) : list SearchProvider :=
  if (0 <? length (Config.Providers cfg))%nat then Config.Providers cfg
  else if SearxngURL cfg <>?s "" then [searxng (mkSearXNG (SearxngURL cfg) (HTTPClient cfg) (UserAgent cfg))]
  else [].

Definition hasContentProvider (cfg : Config) : bool :=
  existsb (λ p, ProviderName p =?s "content") (Config.Providers cfg).

Definition hasOGProvider (cfg : Config) : bool :=
  existsb (λ p, ProviderName p =?s "og") (Config.Providers cfg).

(** ** [gatherCandidates] *)

Definition search_result : Type := list ImageCandidate * option error.

(** A provider goroutine: in [p.Search]; past the append or the early return,
    with what the search gave; past [wg.Done()]. *)
Inductive gstatus :=
  | Searching (p : prog Ev search_result)
  | Collected (r : search_result)
  | Done (r : search_result).

(** The calling goroutine: at the top of the loop; in [wg.Wait()]; returned;
    killed by a panic of a provider. *)
Inductive gpc :=
  | GLoop (rest : list SearchProvider)
  | GWait
  | GReturned (all : list ImageCandidate)
  | GCrashed (v : string).

Record gstate := mkGState {
  gmain : gpc;
  gpool : list (SearchProvider * gstatus);
  gwg : nat;
  gall : list ImageCandidate }.

Definition galive (m : gpc) : bool := match m with GCrashed _ => false | _ => true end.

Definition set_gmain (m : gpc) (s : gstate) : gstate := mkGState m (gpool s) (gwg s) (gall s).

Definition move (i : nat) (p : SearchProvider) (st : gstatus) (s : gstate) : gstate :=
  mkGState (gmain s) (<[i := (p, st)]> (gpool s)) (gwg s) (gall s).

(** What a search adds to the shared slice. *)
Definition contribution (r : search_result) : list ImageCandidate :=
  match r with (cs, None) => cs | (_, Some _) => [] end.

Section Gather.
Context (ans : ∀ X, Ev X → res X → Prop).
Context (ctx : Ctx) (query : string) (opts : SearchOpts).

Inductive gstep (s : gstate) : gstate → Prop :=
  | gstep_spawn p rest :
      gmain s = GLoop (p :: rest) →
      gstep s (mkGState (GLoop rest) (gpool s ++ [(p, Searching (ProviderSearch p ctx query opts))])
                 (S (gwg s)) (gall s))
  | gstep_end : gmain s = GLoop [] → gstep s (set_gmain GWait s)
  | gstep_return : gmain s = GWait → gwg s = 0%nat → gstep s (set_gmain (GReturned (gall s)) s)
  | gstep_event i p X (e : Ev X) k r :
      galive (gmain s) = true → gpool s !! i = Some (p, Searching (Vis e k)) → ans X e r →
      gstep s (move i p (Searching (k r)) s)
  | gstep_failed i p cs err :
      galive (gmain s) = true → gpool s !! i = Some (p, Searching (Ret (cs, Some err))) →
      gstep s (move i p (Collected (cs, Some err)) s)
  | gstep_append i p cs :
      galive (gmain s) = true → gpool s !! i = Some (p, Searching (Ret (cs, None))) →
      gstep s (mkGState (gmain s) (<[i := (p, Collected (cs, None))]> (gpool s)) (gwg s) (gall s ++ cs))
  | gstep_done i p r :
      galive (gmain s) = true → gpool s !! i = Some (p, Collected r) →
      gstep s (mkGState (gmain s) (<[i := (p, Done r)]> (gpool s)) (pred (gwg s)) (gall s))
  | gstep_crash i p v :
      galive (gmain s) = true → gpool s !! i = Some (p, Searching (Throw v)) →
      gstep s (set_gmain (GCrashed v) s).

Definition ginit (providers : list SearchProvider) : gstate := mkGState (GLoop providers) [] 0 [].

Inductive greachable (providers : list SearchProvider) : gstate → Prop :=
  | greach_init : greachable providers (ginit providers)
  | greach_step s s' : greachable providers s → gstep s s' → greachable providers s'.

Definition gatherCandidates (providers : list SearchProvider) : nd (list ImageCandidate) := λ o,
  ∃ s, greachable providers s ∧
    match o with
    | Returned all => gmain s = GReturned all
    | Panics _ => False
    | Crashes v => gmain s = GCrashed v
    end.

(** ** Outcomes of a program run on its own *)

Fixpoint outcomes {A} (p : prog Ev A) (x : res A) : Prop :=
  match p with
  | Ret a => x = Ok a
  | Throw v => x = Panicked v
  | Vis e k => ∃ r, ans _ e r ∧ outcomes (k r) x
  end.

Definition call {A} (p : prog Ev A) : nd A := λ o,
  match o with
  | Returned a => outcomes p (Ok a)
  | Panics v => outcomes p (Panicked v)
  | Crashes _ => False
  end.

End Gather.

(** ** The entry points *)

Definition searchTimeout : Z := 30 * Second.
(** [timeout := searchTimeout; if opts.Timeout > 0 { timeout = opts.Timeout }] *)
Definition searchDeadline (opts : SearchOpts) : Z :=
  if 0 <? OptTimeout opts then OptTimeout opts else searchTimeout.

Definition findDefaultMaxResults : Z := 3.

Record FindOpts := mkFindOpts {
  foQuery : string; foPageURL : string; foExternal : list ImageCandidate; foMaxResults : Z;
  foSearchOpts : SearchOpts }.

Section Entry.
Context `{ImageLib} (ans : ∀ X, Ev X → res X → Prop).

(** [cfg.validateCandidates] as a call. *)
Definition validate (cfg : Config) (ctx : Ctx) (candidates : list ImageCandidate) (maxResults : Z) :
    nd (list ImageCandidate) := λ o,
  match o with
  | Returned result => Concurrency.validateCandidates cfg ctx maxResults ans candidates result
  | Panics _ => False
  | Crashes v => ∃ s, Concurrency.reachable cfg ctx maxResults ans candidates s ∧
                      Concurrency.main s = Concurrency.MCrashed v
  end.

Definition SearchImagesWithOpts (cfg : Config) (ctx : Ctx) (query : string) (maxResults : Z)
    (opts : SearchOpts) : nd (list ImageCandidate) :=
  if query =?s "" then mret []
  else
    let cfg := defaults cfg in
    _ ← call ans (if OnImageSearch cfg then trigger OnImageSearchCall else mret tt);
    let ctx := WithTimeout ctx (searchDeadline opts) in
    candidates ← gatherCandidates ans ctx query opts (resolveProviders cfg);
    if (length candidates =? 0)%nat then mret []
    else validate cfg ctx (sortByLicense candidates) maxResults.

Definition SearchImages (cfg : Config) (ctx : Ctx) (query : string) (maxResults : Z) :
    nd (list ImageCandidate) :=
  SearchImagesWithOpts cfg ctx query maxResults zeroSearchOpts.

Definition ValidateCandidates (cfg : Config) (ctx : Ctx) (candidates : list ImageCandidate)
    (maxResults : Z) : nd (list ImageCandidate) :=
  if (length candidates =? 0)%nat then mret [] else validate (defaults cfg) ctx candidates maxResults.

(** The options handed to the providers. *)
Definition findSearchOpts (opts : FindOpts) : SearchOpts :=
  let o := foSearchOpts opts in
  if PageURL o =?s "" then mkSearchOpts (PageNumber o) (Engines o) (OptTimeout o) (foPageURL opts) else o.

Definition FindImages (cfg : Config) (ctx : Ctx) (opts : FindOpts) : nd (list ImageCandidate) :=
  let maxResults := if foMaxResults opts <=? 0 then findDefaultMaxResults else foMaxResults opts in
  let cfg := defaults cfg in
  fromProviders ←
    (if foQuery opts <>?s ""
     then gatherCandidates ans ctx (foQuery opts) (findSearchOpts opts) (resolveProviders cfg)
     else mret []);
  fromPage ←
    (if (foPageURL opts <>?s "") && negb (hasContentProvider cfg) && negb (hasOGProvider cfg)
     then
       let cp := mkContent (HTTPClient cfg) in
       '(cpCandidates, _) ← call ans (contentSearch cp ctx (foQuery opts)
                                        (mkSearchOpts 0 [] 0 (foPageURL opts)));
       mret cpCandidates
     else mret []);
  let candidates := fromProviders ++ fromPage ++ foExternal opts in
  if (length candidates =? 0)%nat then mret []
  else validate cfg ctx (sortByLicense candidates) maxResults.

End Entry.

(** ** Lemmas: the sort *)

Definition by_license (c d : ImageCandidate) : Prop := license_int (License c) ≤ license_int (License d).

Lemma insertByLicense_perm c l : insertByLicense c l ≡ₚ c :: l.
Proof.
  induction l as [|d l IH]; simpl; [done|]. case_bool; [done|]. rewrite IH. constructor.
Qed.

Lemma insertByLicense_sorted c l :
  StronglySorted by_license l → StronglySorted by_license (insertByLicense c l).
Proof.
  induction 1 as [|d l Hl IH Hd]; simpl; [by repeat constructor|].
  unfold license_le. destruct (Z.leb_spec (license_int (License c)) (license_int (License d))) as [Hle|Hlt].
  - constructor; [by constructor|]. constructor; [done|]. eapply Forall_impl; [exact Hd|].
    unfold by_license. intros e He. lia.
  - constructor; [done|]. rewrite insertByLicense_perm. constructor; [unfold by_license; lia|done].
Qed.

(** The candidates of one class, in order. *)
Definition of_license (k : ImageLicense) (l : list ImageCandidate) : list ImageCandidate :=
  filter (λ c, License c = k) l.

Lemma insertByLicense_stable k c l :
  StronglySorted by_license l → of_license k (insertByLicense c l) = of_license k (c :: l).
Proof.
  unfold of_license. induction 1 as [|d l Hl IH Hd]; [done|]. cbn [insertByLicense]. unfold license_le.
  destruct (Z.leb_spec (license_int (License c)) (license_int (License d))) as [Hle|Hlt]; [done|].
  rewrite (filter_cons _ d), IH, !filter_cons. repeat case_decide; try done.
  exfalso. assert (License c = License d) as E by congruence. rewrite E in Hlt. lia.
Qed.

Lemma sortByLicense_spec l :
  sortByLicense l ≡ₚ l ∧ StronglySorted by_license (sortByLicense l) ∧
  ∀ k, of_license k (sortByLicense l) = of_license k l.
Proof.
  induction l as [|c l (Hp & Hs & Hk)]; [by repeat constructor|]. cbn [sortByLicense foldr].
  fold (sortByLicense l). split_and!.
  - by rewrite insertByLicense_perm, Hp.
  - by apply insertByLicense_sorted.
  - intros k. rewrite insertByLicense_stable by done. unfold of_license in *.
    by rewrite !filter_cons, Hk.
Qed.

Lemma of_license_none k c l :
  Forall (by_license c) l → license_int k < license_int (License c) → of_license k l = [].
Proof.
  unfold of_license, by_license. intros Hl Hk. induction Hl as [|d l Hd Hl IH]; [done|].
  rewrite filter_cons. case_decide as E; [|done]. rewrite E in Hd. lia.
Qed.

(** A list sorted by license is its safe, then its unknown, then its blocked part. *)
Lemma sorted_parts l :
  StronglySorted by_license l →
  l = of_license LicenseSafe l ++ of_license LicenseUnknown l ++ of_license LicenseBlocked l.
Proof.
  induction 1 as [|c l Hl IH Hc]; [done|].
  pose proof (λ k, of_license_none k c l Hc) as Hn. unfold of_license in *. rewrite !filter_cons.
  destruct (License c); simpl in *; repeat case_decide; try done.
  - by rewrite <-IH.
  - rewrite (Hn LicenseSafe) in * by done. simpl in *. by rewrite <-IH.
  - rewrite (Hn LicenseSafe), (Hn LicenseUnknown) in * by done. simpl in *. by rewrite <-IH.
Qed.

(** (C37) The sort in front of the pipeline is the stable one the comparison
    describes: the safe candidates in their order, then the unknown, then the
    blocked ones, nothing lost and nothing added. *)
Theorem sortByLicense_parts l :
  sortByLicense l = of_license LicenseSafe l ++ of_license LicenseUnknown l ++ of_license LicenseBlocked l ∧
  sortByLicense l ≡ₚ l.
Proof.
  destruct (sortByLicense_spec l) as (Hp & Hs & Hk). split; [|done].
  rewrite (sorted_parts _ Hs) at 1. by rewrite !Hk.
Qed.

(** (C11) Every provider of the library keeps the contract of [SearchProvider]:
    whatever its back end answers, it returns no candidate with a blocked license
    or a logo URL, and none at all beside an error; the fallback keeps the
    contract when its members do. *)
Theorem providers_are_lawful :
  (∀ p, LawfulProvider (searxng p)) ∧ (∀ p, LawfulProvider (openverse p)) ∧
  (∀ p, LawfulProvider (pexels p)) ∧ (∀ ms, LawfulProvider (native ms)) ∧
  (∀ p, LawfulProvider (ogProvider p)) ∧ (∀ p, LawfulProvider (ddg p)) ∧
  (∀ p, LawfulProvider (content p)) ∧
  (∀ ps name, Forall LawfulProvider ps → LawfulProvider (fallback ps name)).
Proof. split_and!; apply _. Qed.

Lemma providers_are_lawful_witness :
  LawfulProvider (fallback [searxng (mkSearXNG "http://sx" None ""); ddg (mkDDG None "")] "").
Proof.
  apply providers_are_lawful. constructor; [apply searxng_lawful|]. constructor; [apply ddg_lawful|constructor].
Defined.

(** ** Lemmas: gathering *)

Section GatherProofs.
Context (ans : ∀ X, Ev X → res X → Prop).
Context (ctx : Ctx) (query : string) (opts : SearchOpts).

Abbreviation search p := (ProviderSearch p ctx query opts).

Definition pending (g : SearchProvider * gstatus) : Prop :=
  match g.2 with Done _ => False | _ => True end.

#[local] Instance pending_dec g : Decision (pending g).
Proof. unfold pending. destruct (g.2); apply _. Defined.

(** What a goroutine has added to the slice. *)
Definition block (g : SearchProvider * gstatus) : option (list ImageCandidate) :=
  match g.2 with
  | Collected (cs, None) | Done (cs, None) => Some cs
  | _ => None
  end.

Definition blocks (l : list (SearchProvider * gstatus)) : list (list ImageCandidate) := omap block l.

(** Its remaining program has only outcomes of the provider's search; its result
    is one of them. *)
Definition ggor_inv (g : SearchProvider * gstatus) : Prop :=
  match g.2 with
  | Searching q => ∀ x, outcomes ans q x → outcomes ans (search g.1) x
  | Collected r | Done r => outcomes ans (search g.1) (Ok r)
  end.

Definition gmain_inv (providers : list SearchProvider) (s : gstate) : Prop :=
  match gmain s with
  | GLoop rest => (fst <$> gpool s) ++ rest = providers
  | GWait => fst <$> gpool s = providers
  | GReturned all => all = gall s ∧ fst <$> gpool s = providers ∧ Forall (λ g, ¬ pending g) (gpool s)
  | GCrashed v => ∃ p, p ∈ providers ∧ outcomes ans (search p) (Panicked v)
  end.

Record GInv (providers : list SearchProvider) (s : gstate) : Prop := mkGInv {
  ginv_main : gmain_inv providers s;
  ginv_wg : gwg s = length (filter pending (gpool s));
  ginv_gors : Forall ggor_inv (gpool s);
  ginv_all : ∃ bs, bs ≡ₚ blocks (gpool s) ∧ gall s = mjoin bs }.

(** Replacing one goroutine. *)
Lemma fst_insert (l : list (SearchProvider * gstatus)) i p st st' :
  l !! i = Some (p, st) → fst <$> <[i := (p, st')]> l = fst <$> l.
Proof.
  intros Hi. rewrite list_fmap_insert. apply list_insert_id. by rewrite list_lookup_fmap, Hi.
Qed.

Lemma blocks_insert l i p st st' :
  l !! i = Some (p, st) → block (p, st) = None →
  blocks (<[i := (p, st')]> l) ≡ₚ match block (p, st') with Some cs => cs :: blocks l | None => blocks l end.
Proof.
  intros Hi Hb. destruct (insert_split l i _ (p, st') Hi) as (k & H1 & H2).
  assert (blocks l ≡ₚ blocks k) as E1 by (unfold blocks; rewrite H1; cbn [omap list_omap]; by rewrite Hb).
  unfold blocks in *. rewrite H2. cbn [omap list_omap]. destruct (block (p, st')); by rewrite E1.
Qed.

(** A step of goroutine [i] that keeps the caller where it is. *)
Lemma GInv_move providers s i p st st' wg' all' :
  GInv providers s → galive (gmain s) = true → gpool s !! i = Some (p, st) → pending (p, st) →
  ggor_inv (p, st') →
  (wg' + (if decide (pending (p, st)) then 1 else 0) = gwg s + (if decide (pending (p, st')) then 1 else 0))%nat →
  (∃ bs, bs ≡ₚ blocks (<[i := (p, st')]> (gpool s)) ∧ all' = mjoin bs) →
  GInv providers (mkGState (gmain s) (<[i := (p, st')]> (gpool s)) wg' all').
Proof.
  intros [Hm Hw Hg Ha] Hal Hi Hpend Hg' Hw' Ha'. split; simpl; [|..|done].
  - unfold gmain_inv in *. simpl. rewrite (fst_insert _ _ _ _ _ Hi). destruct (gmain s); try done.
    destruct Hm as (-> & Hf & Hd). exfalso. rewrite Forall_forall in Hd.
    by apply (Hd (p, st)); [eapply list_elem_of_lookup_2|].
  - pose proof (length_filter_insert pending (gpool s) i (p, st) (p, st') Hi). lia.
  - by apply Forall_insert.
Qed.

Lemma GInv_step providers s s' : GInv providers s → gstep ans ctx query opts s s' → GInv providers s'.
Proof.
  intros HI Hstep. pose proof HI as [Hm Hw Hg (bs & Hbs & Hall)].
  destruct Hstep as [p rest Em|Em|Em Ew|i p X e k r Hal Hi Hr|i p cs err Hal Hi|i p cs Hal Hi|i p r Hal Hi|i p v Hal Hi].
  - split; simpl.
    + unfold gmain_inv in *. rewrite Em in Hm. simpl. by rewrite fmap_app, <-app_assoc.
    + rewrite filter_app, length_app. rewrite Hw. simpl. lia.
    + apply Forall_app_2; [done|]. apply Forall_singleton. by intros x Hx.
    + exists bs. split; [|done]. unfold blocks in *. by rewrite omap_app, app_nil_r.
  - split; simpl; [|done..|by exists bs]. unfold gmain_inv in *. rewrite Em in Hm. simpl.
    by rewrite app_nil_r in Hm.
  - split; simpl; [|done..|by exists bs]. unfold gmain_inv in *. rewrite Em in Hm. simpl. split_and!; [done..|].
    rewrite Ew in Hw. apply Forall_forall. intros g [j Hj]%list_elem_of_lookup Hp.
    pose proof (length_filter_pos pending _ _ _ Hj Hp). lia.
  - eapply GInv_move; try done.
    + pose proof (Forall_lookup_1 _ _ _ _ Hg Hi) as Hq. intros x Hx. apply Hq. by exists r.
    + exists bs. split; [|done]. by rewrite (blocks_insert _ _ _ _ _ Hi).
  - eapply GInv_move; try done.
    + pose proof (Forall_lookup_1 _ _ _ _ Hg Hi) as Hq. by apply Hq.
    + exists bs. split; [|done]. by rewrite (blocks_insert _ _ _ _ _ Hi).
  - eapply GInv_move; try done.
    + pose proof (Forall_lookup_1 _ _ _ _ Hg Hi) as Hq. by apply Hq.
    + exists (bs ++ [cs]). split.
      * rewrite (blocks_insert _ _ _ _ _ Hi) by done. simpl. rewrite Hbs. by rewrite <-Permutation_cons_append.
      * rewrite Hall, join_app. simpl. by rewrite app_nil_r.
  - eapply GInv_move; try done.
    + exact (Forall_lookup_1 _ _ _ _ Hg Hi).
    + pose proof (length_filter_pos pending _ _ _ Hi I). destruct (decide _); [|done].
      destruct (decide _) as [[]|_]. lia.
    + exists bs. split; [|done]. rewrite Hbs. destruct (insert_split _ i _ (p, Done r) Hi) as (k & H1 & H2).
      unfold blocks. by rewrite H2, H1.
  - split; simpl; [|done..|by exists bs]. unfold gmain_inv. simpl. exists p. split.
    + assert (p ∈ fst <$> gpool s) as Hp.
      { apply list_elem_of_fmap. exists (p, Searching (Throw v)). split; [done|by eapply list_elem_of_lookup_2]. }
      unfold gmain_inv in Hm. destruct (gmain s); try done; [subst; set_solver|by subst|].
      by destruct Hm as (_ & <- & _).
    + by apply (Forall_lookup_1 _ _ _ _ Hg Hi).
Qed.

Lemma greachable_GInv providers s : greachable ans ctx query opts providers s → GInv providers s.
Proof.
  induction 1; [|by eapply GInv_step]. split; try done. by exists [].
Qed.
(** The block a successful search adds. *)
Definition success (r : search_result) : option (list ImageCandidate) :=
  match r with (cs, None) => Some cs | _ => None end.

(** What a finished gathering is made of: one outcome per provider, and the slice
    is the successful ones, each in one piece, in some order. *)
Definition gathered (providers : list SearchProvider) (all : list ImageCandidate) : Prop :=
  ∃ rs bs, Forall2 (λ p r, outcomes ans (search p) (Ok r)) providers rs ∧
    bs ≡ₚ omap success rs ∧ all = mjoin bs.

Definition result_of (g : SearchProvider * gstatus) : search_result :=
  match g.2 with Collected r | Done r => r | Searching _ => ([], None) end.

Lemma blocks_done l : Forall (λ g, ¬ pending g) l → blocks l = omap success (result_of <$> l).
Proof.
  unfold blocks. induction 1 as [|[p st] l Hp _ IH]; [done|]. cbn [fmap list_fmap omap list_omap].
  destruct st as [q|r|[cs [e|]]]; [by destruct Hp|by destruct Hp|..]; cbn; by rewrite <-IH.
Qed.

Lemma GInv_gathered providers s all :
  GInv providers s → gmain s = GReturned all → gathered providers all.
Proof.
  intros [Hm _ Hg (bs & Hbs & Hall)] Em. unfold gmain_inv in Hm. rewrite Em in Hm.
  destruct Hm as (-> & <- & Hd). exists (result_of <$> gpool s), bs. split_and!; [|rewrite Hbs|done].
  - rewrite Forall2_fmap. apply Forall_Forall2_diag. rewrite Forall_forall in *. intros g Hin.
    specialize (Hg g Hin). specialize (Hd g Hin). destruct g as [p [q|r|r]]; unfold pending in Hd; simpl in *; done || tauto.
  - by rewrite blocks_done.
Qed.

(** *** Termination *)

Definition gmoves (st' st : gstatus) : Prop :=
  match st with
  | Searching (Vis e k) => ∃ r, st' = Searching (k r)
  | Searching (Ret r) => st' = Collected r
  | Collected r => st' = Done r
  | _ => False
  end.

Lemma gmoves_wf st : Acc gmoves st.
Proof.
  assert (∀ r, Acc gmoves (Done r)) as Hd by (by constructor).
  assert (∀ r, Acc gmoves (Collected r)) as Hc by (intros r; constructor; by intros st' ->).
  assert (∀ p, Acc gmoves (Searching p)) as Hp; [|by destruct st].
  induction p as [a|v|X e k IH]; constructor; intros st' Hm; simpl in Hm; [by subst|done|].
  destruct Hm as [r ->]. apply IH.
Qed.

Definition gmain_left (m : gpc) : nat :=
  match m with
  | GLoop rest => length rest + 3
  | GWait => 2
  | GReturned _ => 1
  | GCrashed _ => 0
  end.

Definition ggor_moves (g' g : SearchProvider * gstatus) : Prop := gmoves g'.2 g.2.

Lemma gstep_decreases s s' :
  gstep ans ctx query opts s s' →
  (gmain_left (gmain s') < gmain_left (gmain s))%nat ∨
  gmain s' = gmain s ∧ list_moves ggor_moves (gpool s') (gpool s).
Proof.
  destruct 1 as [p rest Em|Em|Em Ew|i p X e k r Hal Hi Hr|i p cs err Hal Hi|i p cs Hal Hi|i p r Hal Hi|i p v Hal Hi];
    simpl; try (left; rewrite Em; simpl; lia).
  all: try (right; split; [done|]; eexists i, _, _; split_and!; [done|done|]; unfold ggor_moves; simpl; eauto).
  left. destruct (gmain s); simpl in *; try done; lia.
Qed.

Lemma gstep_wf s : Acc (λ s' s, gstep ans ctx query opts s s') s.
Proof.
  remember (gmain_left (gmain s)) as n eqn:En. revert s En.
  induction n as [n IHn] using lt_wf_ind. intros s ->.
  remember (gpool s) as l eqn:El. revert s El IHn.
  assert (Acc (list_moves ggor_moves) l) as Hl.
  { apply list_moves_wf. intros g. apply (Acc_preimage snd gmoves), gmoves_wf. }
  induction Hl as [l _ IHl]. intros s -> IHn. constructor. intros s' Hstep.
  destruct (gstep_decreases s s' Hstep) as [Hlt|[Hm Hp]]; [by eapply IHn|].
  eapply IHl; [exact Hp|done|]. by rewrite Hm.
Qed.

Definition gfinal (s : gstate) : Prop :=
  match gmain s with GReturned _ | GCrashed _ => True | _ => False end.

(** Every request is answered. *)
Definition answering : Prop := ∀ X (e : Ev X), ∃ r, ans X e r.

Lemma GInv_progress providers s :
  answering → GInv providers s → gfinal s ∨ ∃ s', gstep ans ctx query opts s s'.
Proof.
  intros Hans HI. unfold gfinal. destruct (gmain s) as [[|p rest]| |all|v] eqn:Em; auto; right.
  - eexists. by apply gstep_end.
  - eexists. by eapply gstep_spawn.
  - assert (galive (gmain s) = true) as Hal by (by rewrite Em).
    destruct (decide (gwg s = 0%nat)) as [Hw|Hw]; [eexists; by apply gstep_return|].
    rewrite (ginv_wg _ _ HI) in Hw. apply Concurrency.filter_nonempty in Hw as (i & [p st] & Hi & Hu).
    destruct st as [[[cs [err|]]|v|X e k]|r|r]; try done.
    + eexists. by eapply gstep_failed.
    + eexists. by eapply gstep_append.
    + eexists. by eapply gstep_crash.
    + destruct (Hans X e) as [r Hr]. eexists. by eapply gstep_event.
    + eexists. by eapply gstep_done.
Qed.

Lemma gather_completes providers s :
  answering → greachable ans ctx query opts providers s →
  ∃ s', greachable ans ctx query opts providers s' ∧ gfinal s'.
Proof.
  intros Hans. induction (gstep_wf s) as [s _ IH]. intros Hr.
  destruct (GInv_progress providers s Hans (greachable_GInv _ _ Hr)) as [Hf|[s' Hs]]; [by eauto|].
  eapply IH; [exact Hs|]. by eapply greach_step.
Qed.

(** A provider that cannot panic here. *)
Definition harmless (p : SearchProvider) : Prop := ∀ v, ¬ outcomes ans (search p) (Panicked v).

Lemma gather_gathered providers all :
  gatherCandidates ans ctx query opts providers (Returned all) → gathered providers all.
Proof. intros (s & Hr%greachable_GInv & Em). by eapply GInv_gathered. Qed.

Lemma gather_crashes providers v :
  gatherCandidates ans ctx query opts providers (Crashes v) →
  ∃ p, p ∈ providers ∧ outcomes ans (search p) (Panicked v).
Proof.
  intros (s & Hr%greachable_GInv & Em). destruct Hr as [Hm _ _ _]. unfold gmain_inv in Hm. by rewrite Em in Hm.
Qed.

Lemma gather_returns providers :
  answering → Forall harmless providers → ∃ all, gatherCandidates ans ctx query opts providers (Returned all).
Proof.
  intros Hans Hh. destruct (gather_completes providers _ Hans (greach_init _ _ _ _ _)) as (s & Hr & Hf).
  unfold gfinal in Hf. destruct (gmain s) as [| |all|v] eqn:Em; try done; [by exists all, s|].
  destruct (gather_crashes providers v) as (p & Hp & Ho); [by exists s|].
  rewrite Forall_forall in Hh. by destruct (Hh p Hp v).
Qed.

(** (C10) [gatherCandidates], whatever the interleaving: every run ends; what it
    returns is exactly the results of the providers that succeeded, each
    provider's candidates in one piece and in their order, the failed ones
    contributing nothing; it crashes only when a provider panics, and returns when
    the requests are answered and no provider panics. *)
Theorem gatherCandidates_correct providers :
  (∀ s, Acc (λ s' s, gstep ans ctx query opts s s') s) ∧
  (∀ all, gatherCandidates ans ctx query opts providers (Returned all) → gathered providers all) ∧
  (∀ v, gatherCandidates ans ctx query opts providers (Crashes v) →
     ∃ p, p ∈ providers ∧ outcomes ans (search p) (Panicked v)) ∧
  (answering → Forall harmless providers → ∃ all, gatherCandidates ans ctx query opts providers (Returned all)).
Proof.
  split_and!; [apply gstep_wf|apply gather_gathered|apply gather_crashes|apply gather_returns].
Qed.

(** Every provider started and none moved yet. *)
Definition started (l : list SearchProvider) : list (SearchProvider * gstatus) :=
  (λ p, (p, Searching (search p))) <$> l.

Lemma greachable_started l rest :
  greachable ans ctx query opts (l ++ rest) (mkGState (GLoop rest) (started l) (length l) []).
Proof.
  revert rest. induction l as [|p l IH] using rev_ind; intros rest; [apply greach_init|].
  rewrite <-app_assoc. simpl. eapply greach_step; [apply (IH (p :: rest))|].
  unfold started. rewrite fmap_app, length_app, Nat.add_comm. by apply (gstep_spawn _ _ _ _ (mkGState _ _ _ _)).
Qed.

(** A goroutine that can panic can be run until it does. *)
Lemma run_to_panic providers s i p q v :
  greachable ans ctx query opts providers s → galive (gmain s) = true →
  gpool s !! i = Some (p, Searching q) → outcomes ans q (Panicked v) →
  gatherCandidates ans ctx query opts providers (Crashes v).
Proof.
  revert s. induction q as [a|w|X e k IH]; intros s Hr Hal Hi Ho; simpl in Ho; [done|..].
  - injection Ho as <-. exists (set_gmain (GCrashed v) s). split; [|done].
    eapply greach_step; [exact Hr|]. by eapply gstep_crash.
  - destruct Ho as (r & Hans & Ho). apply (IH r (move i p (Searching (k r)) s)); [|done| |done].
    + eapply greach_step; [exact Hr|]. by eapply gstep_event.
    + simpl. apply list_lookup_insert_eq. by eapply lookup_lt_Some.
Qed.

(** A panic of one provider is not contained: whatever the other providers
    do, there is a run in which it takes the process down, the other results
    lost.  (The goroutines of the pipeline recover; these do not.) *)
Theorem provider_panic_crashes providers p v :
  p ∈ providers → outcomes ans (search p) (Panicked v) →
  gatherCandidates ans ctx query opts providers (Crashes v).
Proof.
  intros [i Hi]%list_elem_of_lookup Ho. pose proof (greachable_started providers []) as Hr.
  rewrite app_nil_r in Hr. eapply (run_to_panic _ _ i p); [exact Hr|done| |exact Ho].
  simpl. unfold started. by rewrite list_lookup_fmap, Hi.
Qed.

(** What a specification says of a program holds of its outcomes. *)
Lemma wp_outcomes {A} h (p : prog Ev A) Q r :
  wp free_protocol h p (λ _ r, Q r) → outcomes ans p r → Q r.
Proof.
  revert h. induction p as [a|v|X e k IH]; intros h Hw Ho; simpl in *; [by subst..|].
  destruct Hw as [_ Hw], Ho as (x & Hx & Ho). by eapply IH, Ho; apply Hw.
Qed.

Lemma gathered_origin providers all c :
  gathered providers all → c ∈ all →
  ∃ p cs, p ∈ providers ∧ outcomes ans (search p) (Ok (cs, None)) ∧ c ∈ cs.
Proof.
  intros (rs & bs & H2 & Hbs & ->) (cs & Hc & Hin)%list_elem_of_join. rewrite Hbs in Hin.
  apply list_elem_of_omap in Hin as ([cs' [e|]] & Hr & [= <-]).
  apply list_elem_of_lookup in Hr as [i Hi].
  destruct (Forall2_lookup_r _ _ _ _ _ H2 Hi) as (p & Hp & Ho).
  exists p, cs'. split_and!; [by eapply list_elem_of_lookup_2|done|done].
Qed.

Lemma gathered_vetted providers all c :
  Forall LawfulProvider providers → gathered providers all → c ∈ all → vetted c.
Proof.
  intros Hl Hg Hc. destruct (gathered_origin _ _ _ Hg Hc) as (p & cs & Hp & Ho & Hin).
  rewrite Forall_forall in Hl.
  pose proof (wp_outcomes [] _ _ _ (Hl p Hp [] ctx query opts) Ho) as [Hv _].
  rewrite Forall_forall in Hv. by apply Hv.
Qed.

End GatherProofs.

(** ** Properties of the entry points *)

Section EntryProofs.
Context `{ImageLib} (ans : ∀ X, Ev X → res X → Prop).

Lemma resolveProviders_lawful cfg :
  Forall LawfulProvider (Config.Providers cfg) → Forall LawfulProvider (resolveProviders cfg).
Proof.
  intros Hl. unfold resolveProviders. repeat case_bool; [done| |constructor].
  constructor; [apply searxng_lawful|constructor].
Qed.

(** The pipeline ran on the sorted candidates and accounts for all of them: some
    run of it returned the result, and in that run every candidate that is missing
    from a result that is not full was rejected for a reason its goroutine saw. *)
Definition explained (cfg : Config) (ctx : Ctx) (maxResults : Z)
    (candidates result : list ImageCandidate) : Prop :=
  ∃ s, Concurrency.accounted cfg ctx maxResults ans (sortByLicense candidates) result s.

(** What the pipeline promises of a result, from the candidates it was given. *)
Lemma validate_result cfg ctx candidates maxResults result :
  validate ans cfg ctx (sortByLicense candidates) maxResults (Returned result) →
  Z.of_nat (length result) ≤ Z.max 0 maxResults ∧
  result ⊆+ candidates ∧ explained cfg ctx maxResults candidates result.
Proof.
  intros (s & Hr & Hm).
  destruct (Concurrency.run_accounted _ _ _ _ _ _ _ Hr Hm) as (Hacc & Hlen & Hsub).
  destruct (sortByLicense_spec candidates) as (Hp & _). rewrite Hp in Hsub.
  split_and!; [done|done|]. by exists s.
Qed.

(** Nothing to validate: the pipeline is not started, and would return nothing. *)
Lemma explained_nil cfg ctx maxResults : explained cfg ctx maxResults [] [].
Proof.
  set (s1 := Concurrency.set_main Concurrency.MWait (Concurrency.init [])).
  set (s2 := Concurrency.set_main (Concurrency.MReturned []) s1).
  exists s2. apply Concurrency.run_accounted; [|done].
  eapply Concurrency.reach_step; [|by apply (Concurrency.step_return _ _ _ _ s1)].
  eapply Concurrency.reach_step; [apply Concurrency.reach_init|by apply Concurrency.step_end].
Qed.

(** (C2) [SearchImagesWithOpts] returns at most [maxResults] candidates, a
    sub-multiset of what the configured providers returned in this search, and with
    providers that keep their contract none is blocked or a logo.  They come from a
    run of the validation pipeline on the providers' candidates that accounts for
    all of them: each goroutine of the run either appended its candidate on the
    evidence [acceptable] asks for or saw a reason to reject it, and a result that
    is not full holds every appended candidate.  An empty query gives nothing. *)
Theorem SearchImages_correct cfg ctx query maxResults opts result :
  SearchImagesWithOpts ans cfg ctx query maxResults opts (Returned result) →
  Z.of_nat (length result) ≤ Z.max 0 maxResults ∧
  (query = "" → result = []) ∧
  (query ≠ "" → ∃ all,
     gathered ans (WithTimeout ctx (searchDeadline opts)) query opts (resolveProviders (defaults cfg)) all ∧
     result ⊆+ all ∧
     explained (defaults cfg) (WithTimeout ctx (searchDeadline opts)) maxResults all result) ∧
  (Forall LawfulProvider (Config.Providers cfg) → Forall vetted result).
Proof.
  unfold SearchImagesWithOpts. case_bool; bool_hyps.
  { intros [= ->]. by split_and!; [simpl; lia|..]. }
  cbv zeta. intros ([[]|v|v] & Hhook & Hx); [|done..].
  destruct Hx as ([all|v|v] & Hgather & Hx); [|done..]. apply gather_gathered in Hgather.
  case_bool.
  { injection Hx as ->. apply Nat.eqb_eq, length_zero_iff_nil in Eb0 as ->.
    split_and!; [simpl; lia|done| |done].
    intros _. exists []. split_and!; [done..|]. apply explained_nil. }
  apply validate_result in Hx as (Hlen & Hsub & Hex). split_and!; [done|done|by eauto|].
  intros Hl. apply Forall_forall. intros c Hc.
  eapply gathered_vetted; [|done|by eapply elem_of_submseteq]. by apply resolveProviders_lawful.
Qed.

(** What [FindImages] collects in front of the pipeline: from the providers, when
    there is a query; from the page, when there is one and no provider reads pages;
    and the external candidates. *)
Definition collected (cfg : Config) (ctx : Ctx) (opts : FindOpts)
    (fromProviders fromPage : list ImageCandidate) : Prop :=
  (if foQuery opts <>?s ""
   then gathered ans ctx (foQuery opts) (findSearchOpts opts) (resolveProviders cfg) fromProviders
   else fromProviders = []) ∧
  (if (foPageURL opts <>?s "") && negb (hasContentProvider cfg) && negb (hasOGProvider cfg)
   then ∃ err, outcomes ans (ProviderSearch (content (mkContent (HTTPClient cfg))) ctx (foQuery opts)
                              (mkSearchOpts 0 [] 0 (foPageURL opts))) (Ok (fromPage, err))
   else fromPage = []).

Lemma collected_vetted cfg ctx opts fromProviders fromPage c :
  collected cfg ctx opts fromProviders fromPage → Forall LawfulProvider (Config.Providers cfg) →
  c ∈ fromProviders ++ fromPage → vetted c.
Proof.
  intros [Hg Hp] Hl [Hc|Hc]%elem_of_app.
  - destruct (foQuery opts <>?s ""); [|subst; by apply elem_of_nil in Hc].
    eapply gathered_vetted; [|done|done]. by apply resolveProviders_lawful.
  - destruct (_ && _ && _); [|subst; by apply elem_of_nil in Hc]. destruct Hp as [err Hcall].
    pose proof (wp_outcomes _ [] _ _ _ (content_lawful _ [] ctx _ _) Hcall) as [Hv _].
    rewrite Forall_forall in Hv. by apply Hv.
Qed.

(** (C9) [FindImages] returns at most [MaxResults] candidates, three when that is
    not positive, a sub-multiset of what the providers and the page delivered and
    of the external list; every one that is not external is neither blocked nor a
    logo when the providers keep their contract.  They come from a run of the
    validation pipeline on all of these candidates that accounts for each: its
    goroutine appended it on the evidence [acceptable] asks for or saw a reason to
    reject it, and a result that is not full holds every appended candidate. *)
Theorem FindImages_correct cfg ctx opts result :
  FindImages ans cfg ctx opts (Returned result) →
  let maxResults := if foMaxResults opts <=? 0 then 3 else foMaxResults opts in
  Z.of_nat (length result) ≤ maxResults ∧
  ∃ fromProviders fromPage, collected (defaults cfg) ctx opts fromProviders fromPage ∧
    result ⊆+ fromProviders ++ fromPage ++ foExternal opts ∧
    explained (defaults cfg) ctx maxResults (fromProviders ++ fromPage ++ foExternal opts) result ∧
    (Forall LawfulProvider (Config.Providers cfg) →
     ∀ c, c ∈ result → c ∉ foExternal opts → vetted c).
Proof.
  unfold FindImages. cbv zeta. set (maxR := if foMaxResults opts <=? 0 then _ else _).
  change (if foMaxResults opts <=? 0 then 3 else foMaxResults opts) with maxR.
  assert (Z.max 0 maxR = maxR) as Hmax.
  { unfold maxR, findDefaultMaxResults. destruct (Z.leb_spec (foMaxResults opts) 0); lia. }
  intros ([all|v|v] & Hg & Hx); [|done..]. destruct Hx as ([page|v|v] & Hp & Hx); [|done..].
  assert (collected (defaults cfg) ctx opts all page) as Hcol.
  { split.
    - destruct (foQuery opts <>?s ""); [by eapply gather_gathered|by injection Hg].
    - destruct (_ && _ && _); [|by injection Hp]. destruct Hp as ([[cs err]|v|v] & Hcall & [= ->]). by exists err. }
  assert (Z.of_nat (length result) ≤ maxR ∧ result ⊆+ all ++ page ++ foExternal opts ∧
    explained (defaults cfg) ctx maxR (all ++ page ++ foExternal opts) result) as (Hlen & Hsub & Hex).
  { destruct (length (all ++ page ++ foExternal opts) =? 0)%nat eqn:Eb.
    - apply Nat.eqb_eq, length_zero_iff_nil in Eb as ->. injection Hx as ->.
      split_and!; [simpl; lia|done|apply explained_nil].
    - apply validate_result in Hx as (Hlen & Hsub & Hex). rewrite Hmax in Hlen. done. }
  split; [done|]. exists all, page. split_and!; [done..|]. intros Hl c Hc Hext.
  eapply collected_vetted; [done|done|].
  assert (c ∈ all ++ page ++ foExternal opts) as Hin by (by eapply elem_of_submseteq).
  apply elem_of_app in Hin as [Hin|[Hin|Hin]%elem_of_app]; [apply elem_of_app; by left| |done].
  apply elem_of_app. by right.
Qed.

(** The pipeline returns. *)
Lemma validate_no_crash cfg ctx maxResults candidates s v :
  Concurrency.calm ans → Concurrency.reachable cfg ctx maxResults ans candidates s →
  Concurrency.main s ≠ Concurrency.MCrashed v.
Proof. intros Hcalm Hr. eapply Concurrency.Inv_no_crash; [exact Hcalm|by eapply Concurrency.reachable_Inv]. Qed.

Lemma validate_returns cfg ctx maxResults :
  Concurrency.responsive ans → Concurrency.calm ans →
  (∀ candidates, ∃ result, validate ans cfg ctx candidates maxResults (Returned result)) ∧
  (∀ candidates o, validate ans cfg ctx candidates maxResults o → ∃ result, o = Returned result).
Proof.
  intros Hresp Hcalm. split; intros candidates.
  - destruct (Concurrency.completes cfg ctx maxResults ans candidates (Concurrency.init candidates) Hresp
      (Concurrency.reach_init _ _ _ _ _)) as (s & Hr & Hf).
    unfold Concurrency.final in Hf. destruct (Concurrency.main s) as [| | |result|v] eqn:Em; try done.
    + by exists result, s.
    + by apply validate_no_crash with (v := v) in Hr.
  - intros [result|v|v] Hv; [by eauto|done|]. destruct Hv as (s & Hr & Em).
    by apply validate_no_crash with (v := v) in Hr.
Qed.

(** (C5) A search ends with a result: when every request is answered, the panic
    handler does not panic, and neither the search callback nor a configured
    provider does, some outcome of the call is a result and none is a crash or a
    panic. *)
Theorem SearchImages_returns cfg ctx query maxResults opts :
  answering ans → Concurrency.calm ans → (∀ v, ¬ ans unit OnImageSearchCall (Panicked v)) →
  (∀ ctx', Forall (harmless ans ctx' query opts) (resolveProviders (defaults cfg))) →
  (∃ result, SearchImagesWithOpts ans cfg ctx query maxResults opts (Returned result)) ∧
  ∀ o, SearchImagesWithOpts ans cfg ctx query maxResults opts o → ∃ result, o = Returned result.
Proof.
  intros Hans Hcalm Hhook Hharm.
  assert (Concurrency.responsive ans) as Hresp by (intros X e _; apply Hans).
  unfold SearchImagesWithOpts. case_bool; [by split; [exists []|intros o ->; eauto]|]. cbv zeta.
  set (hook := if OnImageSearch (defaults cfg) then _ else _).
  assert (call ans hook (Returned tt) ∧ ∀ o, call ans hook o → o = Returned tt) as [Hh1 Hh2].
  { unfold hook. destruct (OnImageSearch (defaults cfg)); split; [| |done|by intros [[]|v|v] Ho].
    - destruct (Hans _ OnImageSearchCall) as [[[]|v] Hr]; [|by destruct (Hhook v)]. by exists (Ok tt).
    - intros [[]|v|v] Ho; simpl in Ho; [done| |done]. destruct Ho as ([[]|v'] & Hr & Ho); [done|].
      by destruct (Hhook v'). }
  set (ctx' := WithTimeout ctx _). specialize (Hharm ctx').
  destruct (validate_returns (defaults cfg) ctx' maxResults Hresp Hcalm) as [Hv1 Hv2]. split.
  - destruct (gather_returns ans ctx' query opts _ Hans Hharm) as [all Hall].
    destruct (length all =? 0)%nat eqn:El.
    + exists []. exists (Returned tt). split; [done|]. exists (Returned all). split; [done|]. by rewrite El.
    + destruct (Hv1 (sortByLicense all)) as [result Hr]. exists result.
      exists (Returned tt). split; [done|]. exists (Returned all). split; [done|]. by rewrite El.
  - intros o (x & ->%Hh2 & y & Hy & Ho). destruct y as [all|v|v]; [|by destruct Hy as (? & _ & ?)|].
    + destruct (length all =? 0)%nat; [by exists []; rewrite Ho|by eapply Hv2].
    + apply gather_crashes in Hy as (p & Hp & Hc). rewrite Forall_forall in Hharm. by destruct (Hharm p Hp v).
Qed.
End EntryProofs.

(** ** A concrete environment *)

(** One provider that always answers. *)
Lemma gather_single ans ctx query opts cs :
  gatherCandidates ans ctx query opts [constProvider cs None] (Returned cs).
Proof.
  set (p := constProvider cs None). set (r := (cs, @None error)).
  pose proof (greachable_started ans ctx query opts [p] []) as H1.
  pose proof (greach_step _ _ _ _ _ _ _ H1 (gstep_end _ _ _ _ (mkGState _ _ _ _) eq_refl)) as H2.
  pose proof (greach_step _ _ _ _ _ _ _ H2
    (gstep_append ans ctx query opts (mkGState GWait [(p, Searching (Ret r))] 1 []) 0 p cs eq_refl eq_refl)) as H3.
  pose proof (greach_step _ _ _ _ _ _ _ H3
    (gstep_done ans ctx query opts (mkGState GWait [(p, Collected r)] 1 cs) 0 p r eq_refl eq_refl)) as H4.
  pose proof (greach_step _ _ _ _ _ _ _ H4
    (gstep_return ans ctx query opts (mkGState GWait [(p, Done r)] 0 cs) eq_refl eq_refl)) as H5.
  by exists (mkGState (GReturned cs) [(p, Done r)] 0 cs).
Qed.

Definition demoConfig : Config :=
  mkConfig false false None None "" 0 "" [constProvider [Concurrency.unknownB; Concurrency.safeA] None] ""
    [] [] "" false false false.

(** A run of the search from a schedule of the pipeline. *)
Lemma demo_search l result :
  Concurrency.main <$> Concurrency.schedule (H := Concurrency.demoLib) (defaults demoConfig)
    (WithTimeout Background searchTimeout) 5 Concurrency.demoEnv l
    (Concurrency.init [Concurrency.safeA; Concurrency.unknownB]) = Some (Concurrency.MReturned result) →
  SearchImages (H := Concurrency.demoLib) Concurrency.demoAns demoConfig Background "bridge" 5 (Returned result).
Proof.
  intros Hs. exists (Returned tt). split; [done|].
  exists (Returned [Concurrency.unknownB; Concurrency.safeA]). split; [apply gather_single|].
  exact (Concurrency.schedule_result (H := Concurrency.demoLib) _ _ _ l _ _ Hs).
Qed.

(** The schedule of [lateFirst] with the two goroutines exchanged. *)
Definition earlyFirst : list Concurrency.choice :=
  (λ c, match c with
        | Concurrency.CGor 0 => Concurrency.CGor 1
        | Concurrency.CGor 1 => Concurrency.CGor 0
        | c => c
        end) <$> Concurrency.lateFirst.

(** Results come in the order in which their validation ends, not in license
    order: the same search, with the same answers, returns the safe candidate
    first or the unknown one first, depending on the schedule. *)
Theorem SearchImages_completion_order :
  let search := SearchImages (H := Concurrency.demoLib) Concurrency.demoAns demoConfig Background "bridge" 5 in
  search (Returned [Concurrency.safeA; Concurrency.unknownB]) ∧
  search (Returned [Concurrency.unknownB; Concurrency.safeA]) ∧
  ¬ StronglySorted by_license [Concurrency.unknownB; Concurrency.safeA].
Proof.
  split_and!.
  - apply (demo_search earlyFirst). vm_compute. reflexivity.
  - apply (demo_search Concurrency.lateFirst). vm_compute. reflexivity.
  - intros H. apply StronglySorted_inv in H as [_ H]. apply (proj1 (Forall_singleton _ _)) in H. vm_compute in H. by apply H.
Qed.

(** ** Witnesses *)

Lemma provider_panic_crashes_witness :
  gatherCandidates Concurrency.demoAns Background "q" zeroSearchOpts
    [constProvider [] None; mkProvider "bad" (λ _ _ _, Throw "boom")] (Crashes "boom").
Proof.
  apply (provider_panic_crashes Concurrency.demoAns Background "q" zeroSearchOpts
    [constProvider [] None; mkProvider "bad" (λ _ _ _, Throw "boom")]
    (mkProvider "bad" (λ _ _ _, Throw "boom")) "boom"); [by right; left|reflexivity].
Defined.

Lemma gatherCandidates_correct_witness :
  gathered Concurrency.demoAns Background "q" zeroSearchOpts [constProvider [zeroCandidate] None] [zeroCandidate].
Proof.
  apply (proj1 (proj2 (gatherCandidates_correct Concurrency.demoAns Background "q" zeroSearchOpts
    [constProvider [zeroCandidate] None]))). apply gather_single.
Defined.

Lemma SearchImages_correct_witness :
  Forall vetted [Concurrency.unknownB; Concurrency.safeA].
Proof.
  apply (SearchImages_correct (H := Concurrency.demoLib) Concurrency.demoAns demoConfig Background "bridge" 5
    zeroSearchOpts [Concurrency.unknownB; Concurrency.safeA]).
  - apply (demo_search Concurrency.lateFirst). vm_compute. reflexivity.
  - constructor; [|constructor]. intros h ctx q o. apply search_post_ok.
    repeat constructor; vm_compute; done.
Defined.

Lemma FindImages_correct_witness :
  let opts := mkFindOpts "bridge" "" [zeroCandidate] 2 zeroSearchOpts in
  ∃ result, FindImages (H := Concurrency.demoLib) Concurrency.demoAns demoConfig Background opts (Returned result) ∧
    Z.of_nat (length result) ≤ 2.
Proof.
  destruct (validate_returns (H := Concurrency.demoLib) Concurrency.demoAns (defaults demoConfig) Background 2
    (Concurrency.demo_responsive) Concurrency.demo_calm) as [Hv _].
  destruct (Hv (sortByLicense ([Concurrency.unknownB; Concurrency.safeA] ++ [] ++ [zeroCandidate]))) as [result Hr].
  exists result. cbv zeta.
  assert (FindImages (H := Concurrency.demoLib) Concurrency.demoAns demoConfig Background
    (mkFindOpts "bridge" "" [zeroCandidate] 2 zeroSearchOpts) (Returned result)) as Hf.
  { exists (Returned [Concurrency.unknownB; Concurrency.safeA]). split; [apply gather_single|].
    exists (Returned []). split; [done|]. exact Hr. }
  split; [exact Hf|].
  exact (proj1 (FindImages_correct (H := Concurrency.demoLib) Concurrency.demoAns demoConfig Background
    (mkFindOpts "bridge" "" [zeroCandidate] 2 zeroSearchOpts) result Hf)).
Defined.

Lemma SearchImages_returns_witness :
  ∃ result, SearchImagesWithOpts (H := Concurrency.demoLib) Concurrency.demoAns demoConfig Background "bridge" 5
    zeroSearchOpts (Returned result).
Proof.
  apply (SearchImages_returns (H := Concurrency.demoLib) Concurrency.demoAns demoConfig Background "bridge" 5
    zeroSearchOpts).
  - intros X e. exists (Concurrency.demoEnv X e). apply Concurrency.demoAns_env.
  - apply Concurrency.demo_calm.
  - intros v Hv. unfold Concurrency.demoAns in Hv. simpl in Hv. discriminate.
  - intros ctx. constructor; [|constructor]. intros v Hv. simpl in Hv. discriminate.
Defined.
End Search.
